(* ===== verification/_CoqProject ===== *)
-Q . S2P
Prelude.v
Sha256.v
Json.v
VectorClock.v
Models.v
Utils.v
Consensus.v
ConsensusFacts.v
ConsensusVotes.v
ConsensusAgreement.v
Storage.v
Toposort.v
StorageFacts.v
StorageTypes.v
Config.v
Metrics.v
Prioritization.v
Gossip.v
GossipLiveness.v
JsonText.v
JsonParse.v
Checkpoint.v
Auth.v
Catalog.v
Node.v
NodeLogic.v
NodePeers.v
NodeEvents.v
NodeEventsFacts.v
NodeSimulation.v
NodeCheckpoints.v
NodeEvidence.v
OwnChain.v
NodeCheckpointsFacts.v
NodeSync.v
NodeSyncFacts.v
AgentRelay.v
Notifier.v
NodeLoops.v
Loops.v
Regex.v
Archive.v
ArchiveFacts.v
Collectors.v
HostFigures.v
CollectorsFacts.v
AuthLog.v
AuthLogLines.v
AuthLogFacts.v
Discovery.v
DiscoveryRun.v
Prometheus.v
Api.v
ApiFacts.v
ClearFlood.v
EventStream.v
LoadGen.v
CheckpointQuorum.v
NodeRuns.v
HostEvidence.v
Cli.v
CliFacts.v
