(* ===== verification/Prelude.v ===== *)
(** MDRJ-DAG: a verification library for the event registry of [src/mdrj/].

    A node records security events in a hash-linked DAG, gossips them to approved
    peers, orders them by a hashgraph consensus, confirms prefixes of that order by
    Merkle checkpoints with a quorum of signatures, and raises an alarm when the
    stored prefix no longer matches.  The library models that program as executable
    definitions, one file per component, and proves what makes it trustworthy as a
    registry of evidence.

    * Parts and where they are modelled

    - vectorclock.py: VectorClock.  models.py, utils.py: Models, Utils.  Values that
      cross a serialisation boundary, [json.dumps] and [json.loads]: Json, JsonText
      (canonical texts determine values), JsonParse (the parser and the round trip).
      hashlib and hmac: Sha256.
    - consensus.py: Consensus, a definition per method of ConsensusEngine; theorems in
      ConsensusFacts, ConsensusVotes and ConsensusAgreement (two replicas).
    - storage.py: Storage, tables as lists of rows or records, a function on [DB] per
      method; theorems in StorageFacts, StorageTypes (column types) and Toposort.
    - config.py: Config.  metrics.py: Metrics.  prioritization.py: Prioritization.
      gossip.py: Gossip, one tick a transition; GossipLiveness drains the queue.
    - checkpoint.py: Checkpoint.  auth.py: Auth.  event_catalog.py: Catalog.
    - node.py: Node (state [Node], the state and error monad [NodeM], peers, users,
      membership, recomputation), NodeEvents (ingest, emit, fan-out, clearing),
      NodeCheckpoints (proposals, verification, retention, tamper alerts, service life
      cycle), NodeSync (frontier handshake, ancestry, start and stop, digests, status),
      NodeLoops (an iteration of each background loop), Loops (the loops around those
      iterations in time: start, wait, stop, the gossip task), HostFigures (the figures
      of the hourly status).  NodeLogic reasons about the monad; NodePeers, NodeEventsFacts, NodeEvidence,
      OwnChain (a node's own events), NodeCheckpointsFacts and NodeSyncFacts hold the
      theorems.
    - agent_relay.py and collectors/base.py: AgentRelay.  notifier.py: Notifier.
      discovery.py: Discovery (choice of the backend, DNS and Zeroconf records, a pass),
      DiscoveryRun (the backends over time, the life of the Zeroconf handle).
      prometheus_extras.py: Prometheus.
    - Python's re: Regex, a backtracking matcher, sound and complete for a relation that
      says what an expression matches.
    - linux_ingest.py and collectors/linux_auth.py: AuthLog (offsets, state file, the
      lines, bursts and sessions); AuthLogLines has the theorems about one line,
      AuthLogFacts those about polls, HostEvidence follows a line into the registry.
    - collectors/linux_audit.py, linux_firewall.py, linux_proc.py, linux_journald.py and
      host_lifecycle.py: Collectors, the polls; theorems in CollectorsFacts.
    - The cold archive, [Node._write_archive_chunk] and [archive verify]: Archive;
      theorems in ArchiveFacts.
    - simulation.py and the demo generator of node.py: NodeSimulation.
    - api.py: Api, the two middlewares, the handlers and the route
      table ([handle_request] is one HTTP request); theorems in ApiFacts, NodeRuns and
      CheckpointQuorum.  EventStream: the body of the event stream and a browser's
      reading of it.  ClearFlood: the requests that pass a clear on, and the network of
      nodes that serve them.
    - cli.py: Cli, the commands; theorems in CliFacts, against a node that answers
      through Api.
    - scripts/k3s/load_gen.py: LoadGen, its requests served by Api.

    * How they interact

    A method of Node is a computation [Node -> Node * result X]: it changes the state
    also when it raises, and calls storage, gossip queue, metrics and catalog as the
    Python does.  Tasks given to asyncio are entries of [n_tasks]; what comes from
    outside (time, random choices, HTTP answers, host figures) is in a record of inputs
    ([World], [GossipEnv], [SyncNet], [NotifyNet], [ApiEnv]).  [NodeEvidence.node_step]
    is the step relation of a node.  Two nodes meet at interfaces: [HonestPeer] is what
    anti-entropy asks of a peer, and ApiFacts shows that an open peer's API answers it.
    The collectors and the log reader produce payloads that NodeLoops hands to
    [emit_event]; retention hands the rows it removes to the archive; a command of the
    operator is an HTTP call ([CliFacts.api_server]) or works on the database.  A clear
    runs over several nodes: [ClearFlood.flood_step] delivers or loses one request of a
    pool, and the node that gets it serves it with [handle_request].  A loop of Loops
    is generic in its pass; [loop_step] interleaves the task with time, starts and
    stops.

    * What the theorems show

    - Evidence: no step short of clearing and retention loses, reorders or changes a
      stored event (NodeEvidence); rows keep their column types, so no query raises
      (StorageTypes); storing is idempotent and append only, pruning and quota remove
      only what they may (StorageFacts); emitted events are recorded and causal
      (NodeEventsFacts).
    - Consensus: rounds, witnesses, votes that cannot conflict, a timestamp that
      tolerates a third of faulty members (ConsensusFacts, ConsensusVotes, Toposort).
      Replicas with the same DAG agree whatever the order of arrival, as long as no
      creator forks (ConsensusAgreement; with a fork they need not), and a node does
      not fork itself while its clock does not go back (OwnChain).
    - Spreading: gossip reaches approved peers only (NodePeers, a refinement of an
      abstract registry), loses nothing and delivers (Gossip, GossipLiveness), class A
      is durable exactly with a quorum (NodeEventsFacts), a batch arrives as it was sent
      (ApiFacts), a frontier round brings the latest events and their ancestors
      (NodeSyncFacts).  Both are stated for every configuration: without debouncing,
      the default, a consensus that cannot be recomputed makes the handler answer 500
      and ends the round, after the events are stored.
    - Checkpoints: the root binds the set of events (Checkpoint), a recorded proposal is
      never replaced, a fresh one verifies, a crash is reported (NodeCheckpointsFacts);
      over the API the proposals of a quorum confirm it (CheckpointQuorum).
    - Access: passwords (Auth), the policy of the middlewares (ApiFacts), the
      collection policy and its hash (Catalog, NodeEvidence).
    - Hosts: every whole line appended to the log is read once and at its offset, as
      long as the state file can be written (AuthLogFacts), a
      privileged login in it becomes an event of class A (HostEvidence), a brute force is
      never missed (AuthLogLines), the polls report what changed (CollectorsFacts).
    - Operators: the archive verifies (ArchiveFacts), [checkpoint verify] exits with 2
      exactly on tampering, [emit] is [emit_event] (CliFacts).
    - Networks and time: a clear dies out, and without loss reaches every node that open
      nodes lead to (ClearFlood); a loop keeps its interval, survives its passes and ends
      when stopped (Loops); mDNS finds nobody, because its listener raises
      (DiscoveryRun; given an event loop it would announce each peer once); a viewer's
      queue is bounded, what it misses is counted, and its stream reads back
      (EventStream).
    - Flaws: lemmas that exhibit behaviour the code does not mean, e.g.
      [retention_false_alarm], [secured_peer_starves], [removal_misses_other_case],
      [reader_stalls], [half_written_line_lost], [forged_source],
      [failed_archive_loses_events], [commands_locked_out], [forged_checkpoint],
      [fork_breaks_agreement], [clock_set_back_forks], [cycle_breaks_round],
      [closed_node_keeps_log], [failed_round_blocks_stop], [zeroconf_leak],
      [own_pod_counts_as_replica].

    * Conventions, bounds and fuel

    A Python int is a [Z]; a float is the rational it denotes, so rounding is not
    modelled; float texts are a parameter ([FloatFormat]).  A dict is an association
    list in insertion order ([odict]) or a [gmap] where its order cannot be observed.
    Strings hold the code points below 256; longer texts (the Russian titles), the
    decoding of a line, local time and calendars, the account databases, [scrypt] and
    clock readings are parameters.  [raise] is [Err] with the exception's class.
    Recursion on fuel: [chunked] (length of the list), the JSON parser (twice the length
    of the text plus one; [json_loads_dumps] shows it is enough for every text
    [json.dumps] writes), Kahn's algorithm (the number of nodes), the ancestor search
    (the number of events), acknowledgement and relay attempts (their configured
    number).  [ancestry_loop] is structural: its budget is the limit of the request.
    A clear is served within the five minutes that tokens are kept: the times of
    [flood_step] lie in [t0, t0 + 300].

    * Not modelled

    Values of types the program does not declare.  [Envelope.from_dict] and
    [Event.from_record] take over what they find; where the type of a field is not the
    one the dataclass declares (a text as [lamport_ts], a number as a parent), the
    program goes on with that value and the model has no term for it: the definitions
    return the exception [Untyped], which stands for no exception of Python but for the
    edge of the model.  Theorems about runs that may meet such values
    ([registry_always_readable]) are stated for steps in the model, and say so.
    The HTML and JavaScript of api.py are data.  aiohttp, typer, SQLite, psutil, smtplib
    and Zeroconf are libraries: what their calls return is an input.  asyncio
    scheduling: a transition is atomic, and a stream, a loop or a flood is a sequence of
    them; threads and locks are not in the model, but for the fact that the thread in
    which Zeroconf calls the listener has no event loop: a report is a step.  Reading the YAML and
    catalog files, the path of a state file that is not configured, the module's
    logging, deployment files and tests have no logic of the registry. *)
From stdpp Require Export base gmap strings list sorting pretty.
From Stdlib Require Export Ascii.
From Stdlib Require Export QArith.QArith.
From Stdlib Require Export Qround Qminmax Lqa.
#[global] Open Scope Z_scope.

(** ** Numbers

    A Python [float] is modelled by the rational it denotes; a Python [int] by
    a [Z] (Python integers do not wrap). *)
Abbreviation pyfloat := Q (only parsing).

Definition Qltb (x y : Q) : bool := negb (Qle_bool y x).

(** Equality of representations; the sources' [==] on floats is [Qeq_bool]. *)
#[export] Instance Q_leibniz_dec : EqDecision Q.
Proof. intros [n1 d1] [n2 d2]. unfold Decision. decide equality; apply decide; apply _. Defined.

Declare Scope mdrj_scope.
Delimit Scope mdrj_scope with mdrj.
Notation "x <=?q y" := (Qle_bool x y) (at level 70, no associativity) : mdrj_scope.
Notation "x <?q y" := (Qltb x y) (at level 70, no associativity) : mdrj_scope.
Notation "x =?q y" := (Qeq_bool x y) (at level 70, no associativity) : mdrj_scope.
#[global] Open Scope mdrj_scope.

(** ** Errors

    A call that may raise returns a [result]; [exn] lists the exceptions the
    sources raise or catch by name.  [Untyped] is not one of them: it is the edge
    of the model.  Where the sources carry on a value from outside (a field of an
    event, a token) without looking at its type, and its type is not the declared
    one, the records of the model cannot hold it; the model stops there and says
    nothing about what the program does next.  [in_model] tells such a result
    from the others. *)
Inductive exn :=
  | ValueError (msg : string)
  | KeyError (msg : string)
  | TypeError (msg : string)
  | IndexError (msg : string)
  | OtherError (msg : string)
  | Untyped (what : string).

Inductive result (A : Type) :=
  | Ok (a : A)
  | Err (e : exn).
Arguments Ok {_} _.
Arguments Err {_} _.

Definition leaves_model (e : exn) : bool := match e with Untyped _ => true | _ => false end.
Definition in_model {A} (r : result A) : bool := match r with Err e => negb (leaves_model e) | Ok _ => true end.

#[export] Instance exn_eq_dec : EqDecision exn.
Proof. solve_decision. Defined.
#[export] Instance result_eq_dec {A} `{EqDecision A} : EqDecision (result A).
Proof. solve_decision. Defined.

#[export] Instance result_ret : MRet result := @Ok.
#[export] Instance result_bind : MBind result := λ A B f m,
  match m with Ok a => f a | Err e => Err e end.
#[export] Instance result_fmap : FMap result := λ A B f m,
  match m with Ok a => Ok (f a) | Err e => Err e end.

(** A sequence that succeeded. *)
Lemma result_bind_Ok {X Y} (r : result X) (f : X → result Y) y : (x ← r; f x) = Ok y → ∃ x, r = Ok x ∧ f x = Ok y.
Proof. destruct r as [x|]; [by exists x|done]. Qed.

Definition is_ok {A} (r : result A) : bool := match r with Ok _ => true | Err _ => false end.

Definition result_of_option {A} (e : exn) (o : option A) : result A :=
  match o with Some a => Ok a | None => Err e end.

(** [[f(x) for x in l]] where [f] may raise. *)
Fixpoint mapR {A B} (f : A → result B) (l : list A) : result (list B) :=
  match l with
  | [] => Ok []
  | x :: l' => y ← f x; ys ← mapR f l'; Ok (y :: ys)
  end.

Lemma mapR_Ok {A B} (f : A → result B) l ys :
  mapR f l = Ok ys ↔ Forall2 (λ x y, f x = Ok y) l ys.
Proof.
  revert ys. induction l as [|x l IH]; intros ys; simpl.
  - split; [by intros [= <-] | by inversion 1].
  - destruct (f x) as [y|e] eqn:Hf; simpl.
    + destruct (mapR f l) as [ys'|e] eqn:Hm; simpl; split.
      * intros [= <-]. constructor; [done|]. by apply IH.
      * inversion 1 as [|? y' ? ys'' Hy Hys]; subst.
        apply IH in Hys. congruence.
      * done.
      * inversion 1 as [|? y' ? ys'' Hy Hys]; subst. by apply IH in Hys.
    + split; [done|]. inversion 1; congruence.
Qed.

Lemma mapR_total {A B} (f : A → result B) (g : A → B) l :
  (∀ x, x ∈ l → f x = Ok (g x)) → mapR f l = Ok (g <$> l).
Proof.
  intros Hf. apply mapR_Ok. induction l as [|x l IH]; [constructor|].
  constructor; [apply Hf; left|]. apply IH. intros y Hy. apply Hf. by right.
Qed.

(** ** Truth of Python values: [a or b] on strings *)
Definition str_or (a b : string) : string := if decide (a = "") then b else a.
Definition str_or_opt (a : option string) (b : string) : string := str_or (default "" a) b.

Lemma str_or_nonempty a b : a ≠ "" → str_or a b = a.
Proof. intros. unfold str_or. by rewrite decide_False. Qed.
Lemma str_or_empty b : str_or "" b = b.
Proof. reflexivity. Qed.
Lemma str_or_empty_r a : str_or a "" = a.
Proof. unfold str_or. by case_decide. Qed.

(** ** Strings

    A Python [str] is modelled by the list of its code points, each below 256. *)
Definition py_isspace (c : Ascii.ascii) : bool :=
  let n := Ascii.N_of_ascii c in
  bool_decide (n ∈ [9; 10; 11; 12; 13; 28; 29; 30; 31; 32; 133; 160]%N).

Fixpoint py_lstrip (s : string) : string :=
  match s with
  | EmptyString => ""
  | String c s' => if py_isspace c then py_lstrip s' else s
  end.

Definition string_rev (s : string) : string :=
  String.string_of_list_ascii (reverse (String.list_ascii_of_string s)).

Definition py_strip (s : string) : string :=
  string_rev (py_lstrip (string_rev (py_lstrip s))).

Definition ascii_lower (c : Ascii.ascii) : Ascii.ascii :=
  let n := Ascii.N_of_ascii c in
  if ((65 <=? n) && (n <=? 90) || (192 <=? n) && (n <=? 222) && negb (n =? 215))%N
  then Ascii.ascii_of_N (n + 32) else c.

Fixpoint py_lower (s : string) : string :=
  match s with
  | EmptyString => ""
  | String c s' => String (ascii_lower c) (py_lower s')
  end.

(** [s.split(sep)] for a one-character separator; the result is never empty. *)
Fixpoint py_split (sep : Ascii.ascii) (s : string) : list string :=
  match s with
  | EmptyString => [""]
  | String c s' =>
      let rest := py_split sep s' in
      if decide (c = sep) then "" :: rest
      else match rest with
           | [] => [String c ""]
           | w :: ws => String c w :: ws
           end
  end.

(** [sep.join(parts)]. *)
Fixpoint py_join (sep : string) (parts : list string) : string :=
  match parts with
  | [] => ""
  | [p] => p
  | p :: ps => p +:+ sep +:+ py_join sep ps
  end.

Definition py_isdigit (s : string) : bool :=
  bool_decide (s ≠ "") &&
  forallb (λ c, (48 <=? Ascii.N_of_ascii c) && (Ascii.N_of_ascii c <=? 57))%N (String.list_ascii_of_string s).

Fixpoint py_take (n : nat) (s : string) : string :=
  match n, s with
  | O, _ | _, EmptyString => ""
  | S n', String c s' => String c (py_take n' s')
  end.

Lemma py_split_nonempty sep s : py_split sep s ≠ [].
Proof.
  induction s as [|c s IH]; simpl; [done|].
  case_decide; [done|]. by destruct (py_split sep s).
Qed.

(** [str.split] at a separator splits a concatenation there. *)
Lemma py_split_app sep a b : py_split sep (a +:+ String sep b) = py_split sep a ++ py_split sep b.
Proof.
  induction a as [|c a IH]; [simpl; by rewrite decide_True|].
  change (String c a +:+ String sep b) with (String c (a +:+ String sep b)). cbn [py_split]. rewrite IH.
  case_decide; [done|]. destruct (py_split sep a) as [|w ws] eqn:Ha; [by apply py_split_nonempty in Ha|done].
Qed.

(** [str(n)] for an integer, and [str] order as Python compares it. *)
Definition py_str_int (z : Z) : string := pretty z.

Definition string_leb : string → string → bool := String.leb.

Lemma ascii_compare_refl c : Ascii.compare c c = Eq.
Proof. apply N.compare_refl. Qed.
Lemma string_compare_refl s : String.compare s s = Eq.
Proof. induction s as [|c s IH]; simpl; [done|]. by rewrite ascii_compare_refl. Qed.

Lemma string_compare_trans_lt s1 s2 s3 :
  String.compare s1 s2 = Lt → String.compare s2 s3 = Lt → String.compare s1 s3 = Lt.
Proof.
  revert s2 s3. induction s1 as [|c1 s1 IH]; intros [|c2 s2] [|c3 s3]; simpl; try done.
  unfold Ascii.compare.
  destruct (N.compare_spec (Ascii.N_of_ascii c1) (Ascii.N_of_ascii c2)) as [H12|H12|H12];
  destruct (N.compare_spec (Ascii.N_of_ascii c2) (Ascii.N_of_ascii c3)) as [H23|H23|H23];
  try done; intros.
  - rewrite H12, H23, N.compare_refl. eauto.
  - rewrite H12. apply N.compare_lt_iff in H23. by rewrite H23.
  - rewrite <- H23. apply N.compare_lt_iff in H12. by rewrite H12.
  - assert (Ascii.N_of_ascii c1 < Ascii.N_of_ascii c3)%N as H13 by lia.
    apply N.compare_lt_iff in H13. by rewrite H13.
Qed.

Lemma string_leb_total s1 s2 : string_leb s1 s2 = true ∨ string_leb s2 s1 = true.
Proof.
  unfold string_leb, String.leb. rewrite (String.compare_antisym s2 s1).
  destruct (String.compare s1 s2); simpl; auto.
Qed.
Lemma string_leb_antisym s1 s2 :
  string_leb s1 s2 = true → string_leb s2 s1 = true → s1 = s2.
Proof.
  unfold string_leb, String.leb. rewrite (String.compare_antisym s2 s1).
  destruct (String.compare s1 s2) eqn:E; simpl; try done.
  intros _ _. by apply String.compare_eq_iff.
Qed.
Lemma string_leb_trans s1 s2 s3 :
  string_leb s1 s2 = true → string_leb s2 s3 = true → string_leb s1 s3 = true.
Proof.
  unfold string_leb, String.leb.
  destruct (String.compare s1 s2) eqn:E12; try done;
  destruct (String.compare s2 s3) eqn:E23; try done; intros _ _;
  try apply String.compare_eq_iff in E12; try apply String.compare_eq_iff in E23; subst;
  rewrite ?string_compare_refl, ?E12, ?E23; try done.
  by rewrite (string_compare_trans_lt _ _ _ E12 E23).
Qed.

(** ** Boolean reflection

    One database turns the boolean tests of the executable definitions into
    propositions. *)
Lemma Qltb_true x y : Qltb x y = true ↔ (x < y)%Q.
Proof.
  unfold Qltb. rewrite negb_true_iff. split.
  - intros H. apply Qnot_le_lt. intros Hle. apply Qle_bool_iff in Hle. congruence.
  - intros H. destruct (Qle_bool y x) eqn:E; [|done].
    apply Qle_bool_iff in E. lra.
Qed.
Lemma Qltb_false x y : Qltb x y = false ↔ (y <= x)%Q.
Proof. unfold Qltb. rewrite negb_false_iff. apply Qle_bool_iff. Qed.
Lemma Qle_bool_false x y : Qle_bool x y = false ↔ (y < x)%Q.
Proof. rewrite <- Qltb_true. unfold Qltb. by rewrite negb_true_iff. Qed.

Create Rewrite HintDb mdrj_bool.
Create Rewrite HintDb mdrj.
Create HintDb mdrj.
#[export] Hint Rewrite andb_true_iff andb_false_iff orb_true_iff orb_false_iff
  negb_true_iff negb_false_iff bool_decide_eq_true bool_decide_eq_false
  Nat.leb_le Nat.leb_gt Nat.ltb_lt Nat.ltb_ge Nat.eqb_eq Nat.eqb_neq
  Z.leb_le Z.leb_gt Z.ltb_lt Z.ltb_ge Z.eqb_eq Z.eqb_neq
  Qle_bool_iff Qltb_true Qltb_false Qle_bool_false : mdrj_bool.

(** [reflect_bool] turns every boolean test in sight into a proposition. *)
Ltac reflect_bool := repeat (autorewrite with mdrj_bool in *; destruct_and?).

(** [case_if] splits on the first boolean [if] of the goal and reflects the
    outcome. *)
Ltac case_if :=
  match goal with
  | |- context [if ?b then _ else _] =>
      let E := fresh "Hif" in destruct b eqn:E; autorewrite with mdrj_bool in E
  end.

(** [elim_in H] splits [H : x ∈ [a; b; ...]] into its cases. *)
Ltac elim_in H :=
  lazymatch type of H with
  | _ ∈ [] => by apply not_elem_of_nil in H
  | _ ∈ _ :: _ => apply elem_of_cons in H; destruct H as [H|H]; [try subst|elim_in H]
  | _ => idtac
  end.

(** ** Stable sorting: [sorted(l, key=...)] *)
Section sort.
Context {A : Type} (leb : A → A → bool).

Fixpoint insert_sorted (x : A) (l : list A) : list A :=
  match l with
  | [] => [x]
  | y :: l' => if leb x y then x :: l else y :: insert_sorted x l'
  end.

Fixpoint sort_by (l : list A) : list A :=
  match l with
  | [] => []
  | x :: l' => insert_sorted x (sort_by l')
  end.

Definition leb_rel (x y : A) : Prop := leb x y = true.

Lemma insert_sorted_perm x l : insert_sorted x l ≡ₚ x :: l.
Proof.
  induction l as [|y l IH]; simpl; [done|]. case_if; [done|].
  rewrite IH. apply Permutation_swap.
Qed.

Lemma sort_by_perm l : sort_by l ≡ₚ l.
Proof. induction l as [|x l IH]; simpl; [done|]. by rewrite insert_sorted_perm, IH. Qed.

Lemma elem_of_sort_by x l : x ∈ sort_by l ↔ x ∈ l.
Proof. by rewrite sort_by_perm. Qed.

Lemma length_sort_by l : length (sort_by l) = length l.
Proof. by rewrite sort_by_perm. Qed.

Context (Htotal : ∀ x y, leb x y = true ∨ leb y x = true).
Context (Htrans : ∀ x y z, leb x y = true → leb y z = true → leb x z = true).

Lemma insert_sorted_sorted x l :
  StronglySorted leb_rel l → StronglySorted leb_rel (insert_sorted x l).
Proof.
  induction 1 as [|y l Hs IH Hy]; simpl; [by repeat constructor|].
  case_if.
  - constructor; [by constructor|]. constructor; [done|].
    eapply Forall_impl; [exact Hy|]. intros z Hz. eapply Htrans; eauto.
  - constructor; [done|]. rewrite insert_sorted_perm. constructor; [|done].
    destruct (Htotal x y) as [H|H]; [congruence|done].
Qed.

Lemma sort_by_sorted l : StronglySorted leb_rel (sort_by l).
Proof. induction l; simpl; [constructor|]. by apply insert_sorted_sorted. Qed.

(** Two permutations sort to the same list when the order separates the
    elements that occur. *)
Lemma sort_by_perm_eq l1 l2 :
  l1 ≡ₚ l2 →
  (∀ x y, x ∈ l1 → y ∈ l1 → leb x y = true → leb y x = true → x = y) →
  sort_by l1 = sort_by l2.
Proof.
  intros Hp Hanti. apply (StronglySorted_unique_strong leb_rel).
  - intros x y Hx Hy. rewrite elem_of_sort_by in Hx, Hy. rewrite <- Hp in Hy. by apply Hanti.
  - apply sort_by_sorted.
  - apply sort_by_sorted.
  - by rewrite !sort_by_perm.
Qed.

Lemma sort_by_id l : StronglySorted leb_rel l → sort_by l = l.
Proof.
  induction 1 as [|x l Hs IH Hx]; simpl; [done|]. rewrite IH.
  destruct l as [|y l]; [done|]. simpl. inversion Hx as [|? ? H]; subst.
  by rewrite H.
Qed.
End sort.
#[export] Hint Resolve string_leb_total string_leb_trans string_leb_antisym : mdrj.

(** ** Counting, sums and extrema *)
Definition sum_Z (l : list Z) : Z := foldr Z.add 0 l.
Definition sum_Q (l : list Q) : Q := foldr Qplus 0%Q l.

Lemma sum_Z_perm l1 l2 : l1 ≡ₚ l2 → sum_Z l1 = sum_Z l2.
Proof. induction 1; simpl in *; lia. Qed.
Lemma sum_Z_app l1 l2 : sum_Z (l1 ++ l2) = sum_Z l1 + sum_Z l2.
Proof. induction l1; simpl in *; lia. Qed.
Lemma sum_Z_nonneg l : Forall (λ z, 0 <= z) l → 0 <= sum_Z l.
Proof. induction 1; simpl in *; lia. Qed.

(** [sum(1 for x in l if p(x))]. *)
Definition count_if {A} (p : A → bool) (l : list A) : nat := length (filter (λ x, p x = true) l).

Lemma count_if_cons {A} (p : A → bool) x l :
  count_if p (x :: l) = ((if p x then 1 else 0) + count_if p l)%nat.
Proof. unfold count_if. rewrite filter_cons. by destruct (p x). Qed.
Lemma count_if_le {A} (p : A → bool) l : (count_if p l <= length l)%nat.
Proof. apply length_filter. Qed.
Lemma count_if_disjoint {A} (p q : A → bool) l :
  (∀ x, x ∈ l → p x = true → q x = true → False) →
  (count_if p l + count_if q l <= length l)%nat.
Proof.
  induction l as [|x l IH]; intros H; [done|].
  rewrite !count_if_cons. simpl.
  assert (count_if p l + count_if q l <= length l)%nat.
  { apply IH. intros y Hy. apply H. by right. }
  specialize (H x (list_elem_of_here _ _)).
  destruct (p x), (q x); first [lia | by destruct H].
Qed.

Definition max_list_Z (d : Z) (l : list Z) : Z :=
  match l with [] => d | x :: l' => foldl Z.max x l' end.

Lemma foldl_max_ge x l : x <= foldl Z.max x l ∧ Forall (λ y, y <= foldl Z.max x l) l.
Proof.
  revert x. induction l as [|y l IH]; intros x; simpl; [split; [lia|constructor]|].
  destruct (IH (Z.max x y)) as [H1 H2]. split; [lia|]. constructor; [lia|done].
Qed.
Lemma foldl_max_in x l : foldl Z.max x l ∈ x :: l.
Proof.
  revert x. induction l as [|y l IH]; intros x; simpl; [set_solver|].
  specialize (IH (Z.max x y)). destruct (Z.max_spec x y) as [[_ E]|[_ E]]; rewrite E in IH |- *; set_solver.
Qed.
Lemma max_list_Z_ge d l x : x ∈ l → x <= max_list_Z d l.
Proof.
  destruct l as [|y l]; [by intros ?%not_elem_of_nil|]. simpl.
  destruct (foldl_max_ge y l) as [H1 H2]. rewrite Forall_forall in H2.
  intros [->|Hx]%elem_of_cons; eauto.
Qed.
Lemma max_list_Z_in d l : l ≠ [] → max_list_Z d l ∈ l.
Proof. destruct l; [done|]. intros _. apply foldl_max_in. Qed.

Lemma filter_all {A} (P : A → Prop) `{∀ x, Decision (P x)} (l : list A) :
  (∀ x, x ∈ l → P x) → filter P l = l.
Proof.
  induction l as [|x l IH]; intros HP; [done|]. rewrite filter_cons_True by (apply HP; left).
  f_equal. apply IH. intros y Hy. apply HP. by right.
Qed.
Lemma filter_none {A} (P : A → Prop) `{∀ x, Decision (P x)} (l : list A) :
  (∀ x, x ∈ l → ¬ P x) → filter P l = [].
Proof.
  induction l as [|x l IH]; intros HP; [done|]. rewrite filter_cons_False by (apply HP; left).
  apply IH. intros y Hy. apply HP. by right.
Qed.

(** ** Insertion-ordered dictionaries

    Used where a [dict]'s iteration order is observable; a [gmap] is used
    elsewhere. *)
Definition odict (A : Type) := list (string * A).

Fixpoint dget {A} (d : odict A) (k : string) : option A :=
  match d with
  | [] => None
  | (k', v) :: d' => if decide (k = k') then Some v else dget d' k
  end.

(** [d[k] = v]: an existing key keeps its position. *)
Fixpoint dset {A} (d : odict A) (k : string) (v : A) : odict A :=
  match d with
  | [] => [(k, v)]
  | (k', v') :: d' => if decide (k = k') then (k, v) :: d' else (k', v') :: dset d' k v
  end.

(** [d.pop(k, None)]. *)
Fixpoint dpop {A} (d : odict A) (k : string) : odict A :=
  match d with
  | [] => []
  | p :: d' => if decide (k = p.1) then dpop d' k else p :: dpop d' k
  end.

Definition dkeys {A} (d : odict A) : list string := d.*1.
Definition dvalues {A} (d : odict A) : list A := d.*2.
(** [dict(pairs)] / [d.update(pairs)]: later pairs override earlier ones. *)
Definition dupdate {A} (d : odict A) (ps : list (string * A)) : odict A :=
  foldl (λ d p, dset d p.1 p.2) d ps.
(** [d.setdefault(k, v)]. *)
Definition dsetdefault {A} (d : odict A) (k : string) (v : A) : odict A :=
  match dget d k with Some _ => d | None => dset d k v end.

Section odict.
Context {A : Type}.
Implicit Types (d : odict A) (k : string) (v : A).

Lemma dget_dset_eq d k v : dget (dset d k v) k = Some v.
Proof.
  induction d as [|[k' v'] d IH]; simpl; [by rewrite decide_True|].
  destruct (decide (k = k')) as [->|]; simpl; [by rewrite decide_True|].
  by rewrite decide_False.
Qed.
Lemma dget_dset_ne d k k' v : k ≠ k' → dget (dset d k v) k' = dget d k'.
Proof.
  intros Hne. induction d as [|[k1 v1] d IH]; simpl; [by rewrite decide_False|].
  destruct (decide (k = k1)) as [->|]; simpl.
  - by rewrite !decide_False.
  - by destruct (decide (k' = k1)).
Qed.
Lemma dget_None d k : dget d k = None ↔ k ∉ dkeys d.
Proof.
  induction d as [|[k' v'] d IH]; simpl; [set_solver|].
  destruct (decide (k = k')) as [->|]; [set_solver|]. rewrite IH. set_solver.
Qed.
Lemma dget_Some_in d k v : dget d k = Some v → (k, v) ∈ d.
Proof.
  induction d as [|[k' v'] d IH]; simpl; [done|].
  destruct (decide (k = k')) as [->|]; [intros [= ->]; left|]. intros ?. right. auto.
Qed.
Lemma dget_in d k v : NoDup (dkeys d) → (k, v) ∈ d → dget d k = Some v.
Proof.
  induction d as [|[k' v'] d IH]; simpl; [set_solver|].
  rewrite NoDup_cons. intros [Hn Hd] [[= -> ->]|Hin]%elem_of_cons; [by rewrite decide_True|].
  rewrite decide_False; [auto|]. intros ->. apply Hn. by apply (list_elem_of_fmap_2 fst) in Hin.
Qed.
Lemma dkeys_dset d k v :
  dkeys (dset d k v) = if decide (k ∈ dkeys d) then dkeys d else dkeys d ++ [k].
Proof.
  induction d as [|[k' v'] d IH]; simpl; [done|].
  destruct (decide (k = k')) as [->|Hne]; simpl.
  - rewrite decide_True; [done|]. left.
  - unfold dkeys in *. simpl. rewrite IH.
    destruct (decide (k ∈ d.*1)); case_decide; set_solver.
Qed.
Lemma dset_fresh d k v : k ∉ dkeys d → dset d k v = d ++ [(k, v)].
Proof.
  unfold dkeys. induction d as [|[k' v'] d IH]; simpl; [done|]. rewrite not_elem_of_cons. intros [Hk Hd].
  rewrite decide_False by done. by rewrite IH.
Qed.
Lemma dkeys_dset_elem d k v k' : k' ∈ dkeys (dset d k v) ↔ k' = k ∨ k' ∈ dkeys d.
Proof.
  rewrite dkeys_dset. case_decide as Hk; [naive_solver|]. rewrite elem_of_app, list_elem_of_singleton. naive_solver.
Qed.
Lemma NoDup_dset d k v : NoDup (dkeys d) → NoDup (dkeys (dset d k v)).
Proof.
  rewrite dkeys_dset. case_decide as Hk; [done|].
  intros Hd. apply NoDup_app. split; [done|]. split; [set_solver|]. apply NoDup_singleton.
Qed.
Lemma dget_dpop_eq d k : dget (dpop d k) k = None.
Proof.
  induction d as [|[k' v'] d IH]; simpl; [done|].
  case_decide; simpl; [done|]. by rewrite decide_False.
Qed.
Lemma dget_dpop_ne d k k' : k ≠ k' → dget (dpop d k) k' = dget d k'.
Proof.
  intros Hne. induction d as [|[k1 v1] d IH]; simpl; [done|].
  destruct (decide (k = k1)) as [->|]; simpl; rewrite IH; [|done].
  by rewrite decide_False.
Qed.
Lemma length_dset_le d k v : (length (dset d k v) <= S (length d))%nat.
Proof. induction d as [|[k' v'] d IH]; simpl; [lia|]. case_decide; simpl; lia. Qed.
Lemma dkeys_dpop_sublist d k : dkeys (dpop d k) `sublist_of` dkeys d.
Proof.
  induction d as [|[k1 v1] d IH]; simpl; [done|].
  case_decide; simpl; [by apply sublist_cons|]. by apply sublist_skip.
Qed.
End odict.
#[export] Hint Rewrite @dget_dset_eq @dget_dpop_eq : mdrj.

(** ** Comparison functions

    Python compares tuples lexicographically and [sorted] needs a total
    preorder; [CompareOrder] is that promise, closed under products, [+inf] for
    a missing value, and keys. *)
Class CompareOrder {A} (cmp : A → A → comparison) := {
  cmp_sym : ∀ x y, cmp y x = CompOpp (cmp x y);
  cmp_trans : ∀ x y z, cmp x y ≠ Gt → cmp y z ≠ Gt → cmp x z ≠ Gt }.

Definition cmp_leb {A} (cmp : A → A → comparison) (x y : A) : bool :=
  match cmp x y with Gt => false | _ => true end.

Definition cmp_then (c d : comparison) : comparison := match c with Eq => d | _ => c end.
Definition cmp_pair {A B} (ca : A → A → comparison) (cb : B → B → comparison)
    (p q : A * B) : comparison := cmp_then (ca p.1 q.1) (cb p.2 q.2).
(** [None] stands for [float("inf")]. *)
Definition cmp_inf {A} (c : A → A → comparison) (x y : option A) : comparison :=
  match x, y with
  | Some a, Some b => c a b
  | Some _, None => Lt
  | None, Some _ => Gt
  | None, None => Eq
  end.
Definition cmp_on {A K} (f : A → K) (c : K → K → comparison) (x y : A) : comparison := c (f x) (f y).
(** [False < True]. *)
Definition cmp_bool (a b : bool) : comparison :=
  match a, b with false, true => Lt | true, false => Gt | _, _ => Eq end.

#[export] Instance compare_Z : CompareOrder Z.compare.
Proof.
  split; [intros; apply Z.compare_antisym|].
  intros x y z. change (x <= y → y <= z → x <= z). lia.
Qed.
#[export] Instance compare_nat : CompareOrder Nat.compare.
Proof.
  split; [intros; apply Nat.compare_antisym|].
  intros x y z. rewrite !Nat.compare_le_iff. lia.
Qed.
#[export] Instance compare_Q : CompareOrder Qcompare.
Proof.
  split; [intros; symmetry; apply Qcompare_antisym|].
  intros x y z. rewrite <- !Qle_alt. lra.
Qed.
#[export] Instance compare_string : CompareOrder String.compare.
Proof.
  split; [intros; apply String.compare_antisym|].
  intros x y z Hxy Hyz.
  assert (string_leb x z = true) as H.
  { apply string_leb_trans with y; unfold string_leb, String.leb.
    - by destruct (String.compare x y).
    - by destruct (String.compare y z). }
  unfold string_leb, String.leb in H. by destruct (String.compare x z).
Qed.
#[export] Instance compare_bool : CompareOrder cmp_bool.
Proof. split; [by intros [] []|by intros [] [] []]. Qed.

#[export] Instance compare_on {A K} (f : A → K) c : CompareOrder c → CompareOrder (cmp_on f c).
Proof. intros Hc. split; unfold cmp_on; intros; [apply cmp_sym|]. eapply cmp_trans; eauto. Qed.
#[export] Instance compare_inf {A} (c : A → A → comparison) : CompareOrder c → CompareOrder (cmp_inf c).
Proof.
  intros Hc. split.
  - intros [x|] [y|]; simpl; [apply cmp_sym|done..].
  - intros [x|] [y|] [z|]; simpl; try done. apply cmp_trans.
Qed.

Section compare_laws.
Context {A} (cmp : A → A → comparison) `{!CompareOrder cmp}.
Lemma cmp_refl x : cmp x x = Eq.
Proof. pose proof (cmp_sym (cmp:=cmp) x x) as H. by destruct (cmp x x). Qed.
Lemma cmp_le_or x y : cmp x y ≠ Gt ∨ cmp y x ≠ Gt.
Proof. rewrite (cmp_sym (cmp:=cmp) x y). destruct (cmp x y); simpl; auto. Qed.
Lemma cmp_lt_le x y z : cmp x y = Lt → cmp y z ≠ Gt → cmp x z = Lt.
Proof.
  intros Hxy Hyz. destruct (cmp x z) eqn:E; [|done|].
  - assert (cmp y x ≠ Gt) as H.
    { apply (cmp_trans (cmp:=cmp) y z x); [done|]. by rewrite (cmp_sym (cmp:=cmp) x z), E. }
    by rewrite (cmp_sym (cmp:=cmp) x y), Hxy in H.
  - destruct (cmp_trans (cmp:=cmp) x y z); [congruence|done..].
Qed.
Lemma cmp_le_lt x y z : cmp x y ≠ Gt → cmp y z = Lt → cmp x z = Lt.
Proof.
  intros Hxy Hyz. destruct (cmp x z) eqn:E; [|done|].
  - assert (cmp z y ≠ Gt) as H.
    { apply (cmp_trans (cmp:=cmp) z x y); [|done]. by rewrite (cmp_sym (cmp:=cmp) x z), E. }
    by rewrite (cmp_sym (cmp:=cmp) y z), Hyz in H.
  - destruct (cmp_trans (cmp:=cmp) x y z); [done|congruence|done].
Qed.
Lemma cmp_leb_total x y : cmp_leb cmp x y = true ∨ cmp_leb cmp y x = true.
Proof. unfold cmp_leb. destruct (cmp_le_or x y); [left|right]; by case_match. Qed.
Lemma cmp_leb_le x y : cmp_leb cmp x y = true ↔ cmp x y ≠ Gt.
Proof. unfold cmp_leb. by destruct (cmp x y). Qed.
Lemma cmp_leb_trans x y z : cmp_leb cmp x y = true → cmp_leb cmp y z = true → cmp_leb cmp x z = true.
Proof. rewrite !cmp_leb_le. apply (cmp_trans (cmp:=cmp)). Qed.
Lemma cmp_leb_antisym x y : cmp_leb cmp x y = true → cmp_leb cmp y x = true → cmp x y = Eq.
Proof. rewrite !cmp_leb_le, (cmp_sym (cmp:=cmp) x y). by destruct (cmp x y). Qed.
End compare_laws.

#[export] Instance compare_pair {A B} (ca : A → A → comparison) (cb : B → B → comparison) :
  CompareOrder ca → CompareOrder cb → CompareOrder (cmp_pair ca cb).
Proof.
  intros Ha Hb. unfold cmp_pair, cmp_then. split.
  - intros [x1 x2] [y1 y2]; simpl. rewrite (cmp_sym (cmp:=ca) x1 y1). destruct (ca x1 y1); simpl; [apply (cmp_sym (cmp:=cb))|done..].
  - intros [x1 x2] [y1 y2] [z1 z2]; simpl.
    destruct (ca x1 y1) eqn:E1; try done; destruct (ca y1 z1) eqn:E2; try done; intros H1 H2.
    + assert (ca x1 z1 = Eq) as ->; [|by apply (cmp_trans (cmp:=cb) _ y2)].
      apply (cmp_leb_antisym ca); apply (cmp_leb_le ca); apply (cmp_trans (cmp:=ca) _ y1); try congruence.
      * by rewrite (cmp_sym (cmp:=ca) y1 z1), E2.
      * by rewrite (cmp_sym (cmp:=ca) x1 y1), E1.
    + rewrite (cmp_le_lt ca x1 y1 z1); [done|congruence|done].
    + rewrite (cmp_lt_le ca x1 y1 z1); [done|done|congruence].
    + rewrite (cmp_lt_le ca x1 y1 z1); [done|done|congruence].
Qed.

(** [sorted(l, key=f)] for a key compared by [c]. *)
Definition sort_on {A K} (f : A → K) (c : K → K → comparison) : list A → list A :=
  sort_by (cmp_leb (cmp_on f c)).

Section sort_on.
Context {A K} (f : A → K) (c : K → K → comparison) `{!CompareOrder c}.
Lemma sort_on_perm l : sort_on f c l ≡ₚ l.
Proof. apply sort_by_perm. Qed.
Lemma sort_on_sorted l : StronglySorted (λ x y, c (f x) (f y) ≠ Gt) (sort_on f c l).
Proof.
  assert (∀ l, StronglySorted (leb_rel (cmp_leb (cmp_on f c))) l →
    StronglySorted (λ x y, c (f x) (f y) ≠ Gt) l) as Hmono.
  { induction 1 as [|x l' Hs IH Hx]; constructor; [done|]. eapply Forall_impl; [exact Hx|].
    intros y Hy. by apply (cmp_leb_le (cmp_on f c)) in Hy. }
  apply Hmono, sort_by_sorted; [apply cmp_leb_total, _|apply cmp_leb_trans, _].
Qed.
Lemma sort_on_perm_eq l1 l2 :
  l1 ≡ₚ l2 → (∀ x y, x ∈ l1 → y ∈ l1 → c (f x) (f y) = Eq → x = y) →
  sort_on f c l1 = sort_on f c l2.
Proof.
  intros Hp Heq. apply sort_by_perm_eq; [..|done|].
  - apply cmp_leb_total, _.
  - apply cmp_leb_trans, _.
  - intros x y Hx Hy H1 H2. apply Heq; [done..|].
    by apply (cmp_leb_antisym (cmp_on f c)).
Qed.
End sort_on.
