(* ===== verification/Sha256.v ===== *)
(** The parts of Python's [hashlib] and [hmac] the sources call, executable.

    [bytes] is a list of integers in [0, 255].  [sha256] is FIPS 180-4 and
    [hmac_sha256] is RFC 2104; nothing below assumes a property of the hash:
    a theorem that needs two digests to differ says between which messages
    ([collision_free], over the messages that are actually hashed). *)
From S2P Require Import Prelude.

Definition bytes := list Z.

(** [str.encode("utf-8")] for code points below 256. *)
Fixpoint utf8_encode (s : string) : bytes :=
  match s with
  | EmptyString => []
  | String c s' =>
      let n := Z.of_N (Ascii.N_of_ascii c) in
      (if n <? 128 then [n] else [192 + Z.shiftr n 6; 128 + Z.land n 63]) ++ utf8_encode s'
  end.

Lemma utf8_encode_app s1 s2 : utf8_encode (s1 +:+ s2) = utf8_encode s1 ++ utf8_encode s2.
Proof. induction s1 as [|c s1 IH]; simpl; [done|]. by rewrite IH, (assoc_L (++)). Qed.

Lemma N_of_ascii_bound c : 0 <= Z.of_N (Ascii.N_of_ascii c) < 256.
Proof. pose proof (Ascii.N_ascii_bounded c). lia. Qed.

Lemma Z_of_ascii_inj c1 c2 :
  Z.of_N (Ascii.N_of_ascii c1) = Z.of_N (Ascii.N_of_ascii c2) → c1 = c2.
Proof.
  intros H%N2Z.inj. rewrite <- (Ascii.ascii_N_embedding c1), <- (Ascii.ascii_N_embedding c2).
  by rewrite H.
Qed.

#[export] Instance utf8_encode_inj : Inj (=) (=) utf8_encode.
Proof.
  intros s1. induction s1 as [|c1 s1 IH]; intros [|c2 s2]; simpl; try done.
  - case_if; simpl; discriminate.
  - case_if; simpl; discriminate.
  - pose proof (N_of_ascii_bound c1). pose proof (N_of_ascii_bound c2).
    pose proof (Z_of_ascii_inj c1 c2) as Hinj.
    set (n1 := Z.of_N (Ascii.N_of_ascii c1)) in *. set (n2 := Z.of_N (Ascii.N_of_ascii c2)) in *.
    assert (∀ n, 0 <= Z.shiftr n 6 ↔ 0 <= n) as Hsh by (intros; apply Z.shiftr_nonneg).
    assert (∀ n, n = 64 * Z.shiftr n 6 + Z.land n 63) as Hdec.
    { intros n. change 63 with (Z.ones 6). rewrite Z.land_ones by lia.
      rewrite Z.shiftr_div_pow2 by lia. change (2 ^ 6) with 64.
      pose proof (Z.div_mod n 64). lia. }
    pose proof (proj2 (Hsh n1)). pose proof (proj2 (Hsh n2)).
    do 2 case_if; simpl; intros Heq; injection Heq as Heq1 Heq2; try lia.
    + f_equal; [by apply Hinj|by apply IH].
    + f_equal; [|by eapply IH].
      apply Hinj. rewrite (Hdec n1), (Hdec n2). lia.
Qed.

(** ** SHA-256 *)
Definition w32 : Z := 4294967296.
Definition add32 (a b : Z) : Z := (a + b) mod w32.
Definition rotr (n x : Z) : Z := Z.lor (Z.shiftr x n) ((Z.shiftl x (32 - n)) mod w32).
Definition not32 (x : Z) : Z := Z.lxor x 4294967295.

Definition sha_k : list Z :=
  [
   1116352408; 1899447441; 3049323471; 3921009573;
   961987163; 1508970993; 2453635748; 2870763221;
   3624381080; 310598401; 607225278; 1426881987;
   1925078388; 2162078206; 2614888103; 3248222580;
   3835390401; 4022224774; 264347078; 604807628;
   770255983; 1249150122; 1555081692; 1996064986;
   2554220882; 2821834349; 2952996808; 3210313671;
   3336571891; 3584528711; 113926993; 338241895;
   666307205; 773529912; 1294757372; 1396182291;
   1695183700; 1986661051; 2177026350; 2456956037;
   2730485921; 2820302411; 3259730800; 3345764771;
   3516065817; 3600352804; 4094571909; 275423344;
   430227734; 506948616; 659060556; 883997877;
   958139571; 1322822218; 1537002063; 1747873779;
   1955562222; 2024104815; 2227730452; 2361852424;
   2428436474; 2756734187; 3204031479; 3329325298
  ].

Record sha_state := ShaState { sa : Z; sb : Z; sc : Z; sd : Z; se : Z; sf : Z; sg : Z; sh : Z }.

Definition sha_init : sha_state :=
  ShaState 1779033703 3144134277 1013904242 2773480762 1359893119 2600822924 528734635 1541459225.

Definition big_sigma0 (x : Z) := Z.lxor (Z.lxor (rotr 2 x) (rotr 13 x)) (rotr 22 x).
Definition big_sigma1 (x : Z) := Z.lxor (Z.lxor (rotr 6 x) (rotr 11 x)) (rotr 25 x).
Definition small_sigma0 (x : Z) := Z.lxor (Z.lxor (rotr 7 x) (rotr 18 x)) (Z.shiftr x 3).
Definition small_sigma1 (x : Z) := Z.lxor (Z.lxor (rotr 17 x) (rotr 19 x)) (Z.shiftr x 10).

(** The message schedule, most recent word first. *)
Fixpoint sha_extend (n : nat) (ws : list Z) : list Z :=
  match n with
  | O => ws
  | S n' =>
      let w i := nth i ws 0 in
      sha_extend n' (add32 (add32 (small_sigma1 (w 1%nat)) (w 6%nat))
                           (add32 (small_sigma0 (w 14%nat)) (w 15%nat)) :: ws)
  end.

Definition sha_round (s : sha_state) (kw : Z * Z) : sha_state :=
  let ch := Z.lxor (Z.land (se s) (sf s)) (Z.land (not32 (se s)) (sg s)) in
  let maj := Z.lxor (Z.lxor (Z.land (sa s) (sb s)) (Z.land (sa s) (sc s))) (Z.land (sb s) (sc s)) in
  let t1 := add32 (add32 (add32 (sh s) (big_sigma1 (se s))) ch) (add32 kw.1 kw.2) in
  let t2 := add32 (big_sigma0 (sa s)) maj in
  ShaState (add32 t1 t2) (sa s) (sb s) (sc s) (add32 (sd s) t1) (se s) (sf s) (sg s).

Definition sha_block (s : sha_state) (words : list Z) : sha_state :=
  let s' := foldl sha_round s (zip sha_k (reverse (sha_extend 48 (reverse words)))) in
  ShaState (add32 (sa s) (sa s')) (add32 (sb s) (sb s')) (add32 (sc s) (sc s')) (add32 (sd s) (sd s'))
           (add32 (se s) (se s')) (add32 (sf s) (sf s')) (add32 (sg s) (sg s')) (add32 (sh s) (sh s')).

Fixpoint be_words (bs : bytes) : list Z :=
  match bs with
  | b0 :: b1 :: b2 :: b3 :: rest =>
      (b0 * 16777216 + b1 * 65536 + b2 * 256 + b3) :: be_words rest
  | _ => []
  end.

Definition be_bytes32 (w : Z) : bytes :=
  [(w / 16777216) mod 256; (w / 65536) mod 256; (w / 256) mod 256; w mod 256].

Definition sha_pad (m : bytes) : bytes :=
  let n := Z.of_nat (length m) in
  m ++ [128] ++ replicate (Z.to_nat ((55 - n) mod 64)) 0
    ++ be_bytes32 ((8 * n) / w32) ++ be_bytes32 ((8 * n) mod w32).

Fixpoint sha_blocks (fuel : nat) (s : sha_state) (ws : list Z) : sha_state :=
  match fuel, ws with
  | S fuel', _ :: _ => sha_blocks fuel' (sha_block s (take 16 ws)) (drop 16 ws)
  | _, _ => s
  end.

Definition sha256 (m : bytes) : bytes :=
  let ws := be_words (sha_pad m) in
  let s := sha_blocks (S (length ws)) sha_init ws in
  concat (be_bytes32 <$> [sa s; sb s; sc s; sd s; se s; sf s; sg s; sh s]).

Definition hex_digit (n : Z) : Ascii.ascii :=
  Ascii.ascii_of_N (Z.to_N (if n <? 10 then 48 + n else 87 + n)).

Fixpoint hex_encode (bs : bytes) : string :=
  match bs with
  | [] => ""
  | b :: bs' => String (hex_digit (b / 16)) (String (hex_digit (b mod 16)) (hex_encode bs'))
  end.

(** [hashlib.sha256(b).hexdigest()]. *)
Definition sha256_hex (m : bytes) : string := hex_encode (sha256 m).

(** [hmac.new(key, msg, sha256).hexdigest()]. *)
Definition hmac_sha256 (key msg : bytes) : bytes :=
  let k0 := if (64 <? Z.of_nat (length key)) then sha256 key else key in
  let k := k0 ++ replicate (64 - length k0) 0 in
  sha256 ((Z.lxor 92 <$> k) ++ sha256 ((Z.lxor 54 <$> k) ++ msg)).
Definition hmac_sha256_hex (key msg : bytes) : string := hex_encode (hmac_sha256 key msg).

Lemma length_sha256 m : length (sha256 m) = 32%nat.
Proof. reflexivity. Qed.

Lemma sha256_range m : Forall (λ b, 0 <= b < 256) (sha256 m).
Proof.
  unfold sha256. cbv zeta. apply Forall_concat, Forall_fmap, Forall_true. intros w. unfold compose, be_bytes32.
  repeat constructor; Z.to_euclidean_division_equations; lia.
Qed.
Lemma hmac_sha256_range key m : Forall (λ b, 0 <= b < 256) (hmac_sha256 key m).
Proof. apply sha256_range. Qed.
Lemma length_hex_encode bs : String.length (hex_encode bs) = (2 * length bs)%nat.
Proof. induction bs as [|b bs IH]; simpl; [done|]. rewrite IH. lia. Qed.

Lemma length_sha256_hex m : String.length (sha256_hex m) = 64%nat.
Proof. unfold sha256_hex. by rewrite length_hex_encode, length_sha256. Qed.

Example sha256_hex_empty :
  sha256_hex [] = "e3b0c44298fc1c149afbf4c8996fb92427ae41e4649b934ca495991b7852b855".
Proof. vm_compute. reflexivity. Qed.
Example sha256_hex_abc :
  sha256_hex (utf8_encode "abc") = "ba7816bf8f01cfea414140de5dae2223b00361a396177a9cb410ff61f20015ad".
Proof. vm_compute. reflexivity. Qed.
Example hmac_sha256_hex_jefe :
  hmac_sha256_hex (utf8_encode "Jefe") (utf8_encode "what do ya want for nothing?")
  = "5bdcc146bf60754e6a042426089575c75a003f089d2739839dec58b964ec3843".
Proof. vm_compute. reflexivity. Qed.

(** ** Collisions

    [collision_free l]: no two different messages of [l] have the same digest.
    It is decidable, so a witness checks it by computation. *)
Definition collision_free (l : list bytes) : Prop :=
  ∀ m1 m2, m1 ∈ l → m2 ∈ l → sha256_hex m1 = sha256_hex m2 → m1 = m2.

Lemma collision_free_submseteq l1 l2 : l1 ⊆ l2 → collision_free l2 → collision_free l1.
Proof. intros Hs Hc m1 m2 H1 H2. apply Hc; by apply Hs. Qed.

Definition collision_free_b (l : list bytes) : bool :=
  let hashed := (λ m, (m, sha256_hex m)) <$> l in
  forallb (λ p, forallb (λ q, bool_decide (p.1 = q.1) || negb (bool_decide (p.2 = q.2))) hashed) hashed.

Lemma collision_free_b_spec l : collision_free_b l = true → collision_free l.
Proof.
  unfold collision_free_b. rewrite forallb_forall. intros H m1 m2 H1 H2 Heq.
  apply (list_elem_of_fmap_2 (λ m, (m, sha256_hex m))), list_elem_of_In in H1, H2.
  specialize (H _ H1). rewrite forallb_forall in H. specialize (H _ H2). simpl in H.
  reflect_bool. by destruct H as [H|H].
Qed.

#[global] Opaque sha256 hmac_sha256.
