(* ===== verification/Json.v ===== *)
(** Python values that cross a serialisation boundary (JSON bodies, YAML
    sections, TEXT columns), their rendering by [json.dumps], and Python's
    conversions [bool], [str], [int] and [float] on them.

    [float.__repr__] is a parameter ([FloatFormat]): a [pyfloat] is an exact
    rational here, so the shortest-digits rendering of a binary64 cannot be
    computed.  Everything else is executable. *)
From S2P Require Import Prelude.

Inductive json :=
  | JNull
  | JBool (b : bool)
  | JInt (z : Z)
  | JFloat (q : Q)
  | JStr (s : string)
  | JArr (l : list json)
  | JObj (kvs : list (string * json)).

Class FloatFormat := float_repr : Q → string.

(** [d.get(k)] with [None] for a missing key, and [d.get(k, dflt)]. *)
Definition jget (d : odict json) (k : string) : json := default JNull (dget d k).
Definition jget_or (d : odict json) (k : string) (dflt : json) : json := default dflt (dget d k).

Definition jopt {A} (f : A → json) (o : option A) : json :=
  match o with Some a => f a | None => JNull end.

Section dumps.
Context `{FloatFormat}.

Definition dquote : string := String (Ascii.ascii_of_N 34) "".
Definition hex_nibble (n : N) : Ascii.ascii :=
  Ascii.ascii_of_N (if n <? 10 then 48 + n else 87 + n)%N.

(** [json.encoder]'s ASCII escapes. *)
Definition json_escape_char (c : Ascii.ascii) : string :=
  let n := Ascii.N_of_ascii c in
  if (n =? 34)%N then "\" +:+ dquote
  else if (n =? 92)%N then "\\"
  else if (n =? 10)%N then "\n"
  else if (n =? 13)%N then "\r"
  else if (n =? 9)%N then "\t"
  else if (n =? 8)%N then "\b"
  else if (n =? 12)%N then "\f"
  else if ((32 <=? n) && (n <=? 126))%N then String c ""
  else "\u00" +:+ String (hex_nibble (n / 16)) (String (hex_nibble (n mod 16)) "").

Fixpoint json_escape (s : string) : string :=
  match s with
  | EmptyString => ""
  | String c s' => json_escape_char c +:+ json_escape s'
  end.

Definition json_quote (s : string) : string := dquote +:+ json_escape s +:+ dquote.

Fixpoint json_dump (item_sep key_sep : string) (v : json) : string :=
  match v with
  | JNull => "null"
  | JBool true => "true"
  | JBool false => "false"
  | JInt z => py_str_int z
  | JFloat q => float_repr q
  | JStr s => json_quote s
  | JArr l => "[" +:+ py_join item_sep (json_dump item_sep key_sep <$> l) +:+ "]"
  | JObj kvs =>
      "{" +:+ py_join item_sep
        ((λ p, json_quote p.1 +:+ key_sep +:+ json_dump item_sep key_sep p.2) <$> kvs) +:+ "}"
  end.

Definition key_leb {A} (p q : string * A) : bool := string_leb p.1 q.1.

(** The effect of [sort_keys=True]. *)
Fixpoint sort_keys (v : json) : json :=
  match v with
  | JArr l => JArr (sort_keys <$> l)
  | JObj kvs => JObj (sort_by key_leb ((λ p, (p.1, sort_keys p.2)) <$> kvs))
  | _ => v
  end.

(** [utils.canonical_json] *)
Definition canonical_json (data : json) : string := json_dump "," ":" (sort_keys data).

(** [json.dumps(payload)] with the default separators. *)
Definition json_dumps (payload : json) : string := json_dump ", " ": " payload.

(** The rendering does not see the insertion order of a dict. *)
Lemma sort_keys_perm (m1 m2 : list (string * json)) :
  m1 ≡ₚ m2 → NoDup m1.*1 → sort_keys (JObj m1) = sort_keys (JObj m2).
Proof.
  intros Hp Hnd. simpl. f_equal. apply sort_by_perm_eq.
  - intros [k1 ?] [k2 ?]. apply string_leb_total.
  - intros [k1 ?] [k2 ?] [k3 ?]. apply string_leb_trans.
  - by apply fmap_Permutation.
  - intros [k1 v1] [k2 v2] H1 H2 Hle1 Hle2. unfold key_leb in *. simpl in *.
    assert (k1 = k2) as -> by eauto using string_leb_antisym. f_equal.
    apply list_elem_of_fmap in H1 as ([? w1] & [= -> ->] & H1).
    apply list_elem_of_fmap in H2 as ([? w2] & [= <- ->] & H2).
    apply dget_in in H1, H2; [|done..]. simpl. congruence.
Qed.

Lemma canonical_json_perm (m1 m2 : list (string * json)) :
  m1 ≡ₚ m2 → NoDup m1.*1 → canonical_json (JObj m1) = canonical_json (JObj m2).
Proof. intros. unfold canonical_json. by rewrite (sort_keys_perm m1 m2). Qed.
End dumps.

(** ** Conversions *)
Definition py_bool (v : json) : bool :=
  match v with
  | JNull => false
  | JBool b => b
  | JInt z => negb (z =? 0)
  | JFloat q => negb (q =?q 0)%Q
  | JStr s => bool_decide (s ≠ "")
  | JArr l => match l with [] => false | _ => true end
  | JObj kvs => match kvs with [] => false | _ => true end
  end.

(** [a or b]. *)
Definition py_or (a b : json) : json := if py_bool a then a else b.

Section repr.
Context `{FloatFormat}.

Definition repr_char (q : Ascii.ascii) (c : Ascii.ascii) : string :=
  let n := Ascii.N_of_ascii c in
  if decide (c = q) then String "\"%char (String c "")
  else if (n =? 92)%N then "\\"
  else if (n =? 10)%N then "\n"
  else if (n =? 13)%N then "\r"
  else if (n =? 9)%N then "\t"
  else if ((n <? 32) || (127 <=? n) && (n <=? 160) || (n =? 173))%N
  then "\x" +:+ String (hex_nibble (n / 16)) (String (hex_nibble (n mod 16)) "")
  else String c "".

Definition repr_str (s : string) : string :=
  let cs := String.list_ascii_of_string s in
  let dq := Ascii.ascii_of_N 34 in
  let q := if bool_decide ("'"%char ∈ cs) && negb (bool_decide (dq ∈ cs)) then dq else "'"%char in
  String q (String.concat "" (repr_char q <$> cs) +:+ String q "").

Fixpoint py_repr (v : json) : string :=
  match v with
  | JNull => "None"
  | JBool true => "True"
  | JBool false => "False"
  | JInt z => py_str_int z
  | JFloat q => float_repr q
  | JStr s => repr_str s
  | JArr l => "[" +:+ py_join ", " (py_repr <$> l) +:+ "]"
  | JObj kvs => "{" +:+ py_join ", " ((λ p, repr_str p.1 +:+ ": " +:+ py_repr p.2) <$> kvs) +:+ "}"
  end.

Definition py_str (v : json) : string :=
  match v with JStr s => s | _ => py_repr v end.
End repr.

Definition digit_of (c : Ascii.ascii) : option Z :=
  let n := Ascii.N_of_ascii c in
  if ((48 <=? n) && (n <=? 57))%N then Some (Z.of_N n - 48) else None.

(** The digits of [int(s)]: a single underscore may separate two digits. *)
Fixpoint int_body (acc : Z) (prev : bool) (s : string) : option Z :=
  match s with
  | EmptyString => if prev then Some acc else None
  | String c s' =>
      match digit_of c with
      | Some d => int_body (10 * acc + d) true s'
      | None => if bool_decide (c = "_"%char) && prev then int_body acc false s' else None
      end
  end.

Definition split_sign (s : string) : Z * string :=
  match s with
  | String "-" s' => (-1, s')
  | String "+" s' => (1, s')
  | _ => (1, s)
  end.

Definition int_of_str (s : string) : option Z :=
  let '(sg, body) := split_sign (py_strip s) in
  z ← int_body 0 false body; Some (sg * z).

(** A run of digits: value, number of digits, rest. *)
Fixpoint scan_digits (acc : Z) (n : nat) (s : string) : Z * nat * string :=
  match s with
  | EmptyString => (acc, n, s)
  | String c s' =>
      match digit_of c with
      | Some d => scan_digits (10 * acc + d) (S n) s'
      | None => (acc, n, s)
      end
  end.

Definition Qpow10 (e : Z) : Q := Qpower (10 # 1) e.

(** Decimal literals of [float(s)]; ["inf"] and ["nan"] are not rationals and
    are rejected. *)
Definition float_of_str (s : string) : option Q :=
  let '(sg, body) := split_sign (py_strip s) in
  let '(ip, n1, r1) := scan_digits 0 0 body in
  let '(m, n2, r2) :=
    match r1 with
    | String "." r => let '(m, n, r') := scan_digits ip 0 r in (m, n, r')
    | _ => (ip, O, r1)
    end in
  if (Nat.eqb (n1 + n2) 0) then None
  else
    let mant : Q := inject_Z (sg * m) in
    match r2 with
    | EmptyString => Some (Qred (mant * Qpow10 (- Z.of_nat n2)))%Q
    | String c r =>
        if bool_decide (c = "e"%char ∨ c = "E"%char) then
          let '(esg, eb) := split_sign r in
          let '(e, n3, r3) := scan_digits 0 0 eb in
          if Nat.eqb n3 0 || bool_decide (r3 ≠ "") then None
          else Some (Qred (mant * Qpow10 (esg * e - Z.of_nat n2)))%Q
        else None
    end.

(** Truncation toward zero, as [int(x)] on a float. *)
Definition Qtrunc (q : Q) : Z := Z.quot (Qnum q) (Zpos (Qden q)).

Definition py_int (v : json) : result Z :=
  match v with
  | JInt z => Ok z
  | JBool b => Ok (if b then 1 else 0)
  | JFloat q => Ok (Qtrunc q)
  | JStr s => result_of_option (ValueError "invalid literal for int()") (int_of_str s)
  | _ => Err (TypeError "int() argument must be a string or a number")
  end.

Definition py_float (v : json) : result Q :=
  match v with
  | JInt z => Ok (inject_Z z)
  | JBool b => Ok (if b then 1 else 0)%Q
  | JFloat q => Ok q
  | JStr s => result_of_option (ValueError "could not convert string to float") (float_of_str s)
  | _ => Err (TypeError "float() argument must be a string or a number")
  end.

(** Typed reads.  Where the sources pass a JSON value on without a conversion,
    the model reads it at the type the dataclass declares; a value of another
    type, which the program would carry on, leaves the model ([Untyped]). *)
Definition as_str (v : json) : result string :=
  match v with JStr s => Ok s | _ => Err (Untyped "str") end.
Definition as_opt_str (v : json) : result (option string) :=
  match v with JNull => Ok None | JStr s => Ok (Some s) | _ => Err (Untyped "str or None") end.
Definition as_opt_int (v : json) : result (option Z) :=
  match v with JNull => Ok None | JInt z => Ok (Some z) | _ => Err (Untyped "int or None") end.
Definition as_opt_float (v : json) : result (option Q) :=
  match v with JNull => Ok None | JFloat q => Ok (Some q) | _ => Err (Untyped "float or None") end.
Definition as_obj (v : json) : result (odict json) :=
  match v with JObj kvs => Ok kvs | _ => Err (TypeError "dict expected") end.
Definition as_arr (v : json) : result (list json) :=
  match v with JArr l => Ok l | _ => Err (TypeError "list expected") end.
Definition as_strs (v : json) : result (list string) := l ← as_arr v; mapR as_str l.

(** [list(v)]. *)
Definition py_list (v : json) : result (list json) :=
  match v with
  | JArr l => Ok l
  | JStr s => Ok ((λ c, JStr (String c "")) <$> String.list_ascii_of_string s)
  | JObj kvs => Ok ((λ p : string * json, JStr p.1) <$> kvs)
  | _ => Err (TypeError "object is not iterable")
  end.
Definition py_strs (v : json) : result (list string) := l ← py_list v; mapR as_str l.


(** [dict(v)]: a dict, or a sequence of pairs. *)
Definition dict_item (v : json) : result (string * json) :=
  match v with
  | JArr _ | JStr _ | JObj _ =>
      l ← py_list v;
      match l with
      | [JStr k; x] => Ok (k, x)
      | [JArr _; _] | [JObj _; _] => Err (TypeError "unhashable type")
      | [_; _] => Err (Untyped "key")
      | _ => Err (ValueError "dictionary update sequence element; 2 is required")
      end
  | _ => Err (TypeError "cannot convert dictionary update sequence element to a sequence")
  end.
Definition py_dict (v : json) : result (odict json) :=
  match v with
  | JObj kvs => Ok kvs
  | _ => l ← py_list v; items ← mapR dict_item l; Ok (dupdate [] items)
  end.

(** [d[k]]. *)
Definition dget_req (d : odict json) (k : string) : result json :=
  result_of_option (KeyError k) (dget d k).

(** [str(exc)] *)
Definition exn_text (e : exn) : string :=
  match e with
  | KeyError m => repr_str m
  | ValueError m | TypeError m | IndexError m | OtherError m | Untyped m => m
  end.

(** A rendering of rationals used by the witnesses: numerator, [e],
    denominator. *)
Definition frac_format : FloatFormat :=
  λ q, py_str_int (Qnum q) +:+ "e" +:+ py_str_int (Zpos (Qden q)).

Example canonical_json_ex :
  @canonical_json frac_format (JObj [("b", JInt 1); ("a", JArr [JNull; JStr "x"])])
  = "{" +:+ dquote +:+ "a" +:+ dquote +:+ ":[null," +:+ dquote +:+ "x" +:+ dquote +:+ "],"
      +:+ dquote +:+ "b" +:+ dquote +:+ ":1}".
Proof. vm_compute. reflexivity. Qed.
Example int_of_str_ex : int_of_str " -1_2 " = Some (-12).
Proof. vm_compute. reflexivity. Qed.
Example float_of_str_ex : float_of_str "1.5e1" = Some (15 # 1)%Q.
Proof. vm_compute. reflexivity. Qed.
