(* ===== verification/VectorClock.v ===== *)
(** [mdrj/vectorclock.py]: Lamport and vector clocks.

    The dataclass wraps one dict; its iteration order is never observable, so a
    clock is a [gmap].  A missing entry counts as 0 ([vc_get]). *)
From S2P Require Import Prelude.

Inductive VectorRelation := BEFORE | AFTER | CONCURRENT | EQUAL.
#[export] Instance VectorRelation_eq_dec : EqDecision VectorRelation.
Proof. solve_decision. Defined.

Abbreviation VectorClock := (gmap string Z).

(** [clock.get(k, 0)] *)
Definition vc_get (c : VectorClock) (k : string) : Z := default 0 (c !! k).

Definition vc_increment (c : VectorClock) (node_id : string) : VectorClock :=
  <[node_id := vc_get c node_id + 1]> c.

Definition vc_merge (c other : VectorClock) : VectorClock :=
  map_fold (λ node_id counter merged, <[node_id := Z.max (vc_get merged node_id) counter]> merged)
    c other.

Definition vc_relation_step (c other : VectorClock) (flags : bool * bool) (key : string) : bool * bool :=
  let '(a_dominates, b_dominates) := flags in
  let a := vc_get c key in
  let b := vc_get other key in
  if a <? b then (a_dominates, true)
  else if b <? a then (true, b_dominates)
  else flags.

Definition vc_relation (c other : VectorClock) : VectorRelation :=
  let keys := elements (dom c ∪ dom other) in
  let '(a_dominates, b_dominates) := foldl (vc_relation_step c other) (false, false) keys in
  if a_dominates && negb b_dominates then AFTER
  else if b_dominates && negb a_dominates then BEFORE
  else if negb a_dominates && negb b_dominates then EQUAL
  else CONCURRENT.

Definition vc_happened_before (c other : VectorClock) : bool :=
  bool_decide (vc_relation c other = BEFORE).

(** [sum(clock.values())] *)
Definition vc_sum (c : VectorClock) : Z := map_fold (λ _ v acc, v + acc) 0 c.

Definition vc_compare_lamport (c other : VectorClock) : Z :=
  let total_self := vc_sum c in
  let total_other := vc_sum other in
  if total_self <? total_other then -1
  else if total_other <? total_self then 1
  else 0.

Definition merge_all (clocks : list VectorClock) : VectorClock := foldl vc_merge ∅ clocks.

(** ** The causal order the clocks represent *)
Definition vc_le (a b : VectorClock) : Prop := ∀ k, vc_get a k <= vc_get b k.
Definition vc_lt (a b : VectorClock) : Prop := vc_le a b ∧ ¬ vc_le b a.

(** Counters are never negative: the empty clock, [increment] and [merge] keep
    it so. *)
Definition vc_wf (c : VectorClock) : Prop := map_Forall (λ _ v, 0 <= v) c.
#[export] Instance vc_wf_dec c : Decision (vc_wf c).
Proof. unfold vc_wf. apply _. Defined.

#[export] Instance vc_le_preorder : PreOrder vc_le.
Proof.
  split.
  - intros a k. lia.
  - intros a b c Hab Hbc k. specialize (Hab k). specialize (Hbc k). lia.
Qed.

#[export] Instance vc_lt_strict : StrictOrder vc_lt.
Proof.
  split.
  - intros a [H1 H2]. done.
  - intros a b c [Hab Hba] [Hbc Hcb]. split; [by etrans|].
    intros Hca. apply Hcb. by etrans.
Qed.

Lemma vc_wf_get c k : vc_wf c → 0 <= vc_get c k.
Proof. unfold vc_get. intros Hc. destruct (c !! k) eqn:E; simpl; [by eapply Hc|lia]. Qed.

Lemma lookup_vc_merge c other k :
  vc_merge c other !! k =
  match other !! k with Some v => Some (Z.max (vc_get c k) v) | None => c !! k end.
Proof.
  unfold vc_merge. revert k.
  apply (map_fold_weak_ind (λ r m, ∀ k, r !! k =
    match m !! k with Some v => Some (Z.max (vc_get c k) v) | None => c !! k end)).
  - intros k. by rewrite lookup_empty.
  - intros i x m r Hi IH k. destruct (decide (i = k)) as [->|Hne].
    + rewrite !lookup_insert_eq. unfold vc_get. by rewrite IH, Hi.
    + by rewrite !lookup_insert_ne, IH.
Qed.

Lemma vc_get_merge c other k :
  vc_wf c → vc_wf other → vc_get (vc_merge c other) k = Z.max (vc_get c k) (vc_get other k).
Proof.
  intros Hc Ho. unfold vc_get at 1. rewrite lookup_vc_merge.
  pose proof (vc_wf_get c k Hc). unfold vc_get at 3.
  destruct (other !! k) eqn:E; simpl; [done|]. unfold vc_get in *. lia.
Qed.

Lemma vc_get_increment c n k :
  vc_get (vc_increment c n) k = if decide (n = k) then vc_get c k + 1 else vc_get c k.
Proof.
  unfold vc_increment, vc_get at 1. case_decide as Hd; subst.
  - by rewrite lookup_insert_eq.
  - by rewrite lookup_insert_ne.
Qed.

Lemma vc_wf_empty : vc_wf ∅.
Proof. apply map_Forall_empty. Qed.
Lemma vc_wf_increment c n : vc_wf c → vc_wf (vc_increment c n).
Proof. intros Hc. apply map_Forall_insert_2; [|done]. pose proof (vc_wf_get c n Hc). lia. Qed.
Lemma vc_wf_merge c other : vc_wf c → vc_wf other → vc_wf (vc_merge c other).
Proof.
  intros Hc Ho k v. rewrite lookup_vc_merge. pose proof (vc_wf_get c k Hc).
  destruct (other !! k) as [w|] eqn:E; [intros [= <-]; lia|]. apply Hc.
Qed.
Create HintDb vclock.
#[export] Hint Resolve vc_wf_empty vc_wf_increment vc_wf_merge : vclock.

Lemma vc_le_merge_l c other : vc_wf c → vc_wf other → vc_le c (vc_merge c other).
Proof. intros Hc Ho k. rewrite vc_get_merge by done. lia. Qed.
Lemma vc_le_merge_r c other : vc_wf c → vc_wf other → vc_le other (vc_merge c other).
Proof. intros Hc Ho k. rewrite vc_get_merge by done. lia. Qed.
Lemma vc_lt_increment c n : vc_lt c (vc_increment c n).
Proof.
  split.
  - intros k. rewrite vc_get_increment. case_decide; lia.
  - intros H. specialize (H n). rewrite vc_get_increment, decide_True in H by done. lia.
Qed.
#[export] Hint Resolve vc_le_merge_l vc_le_merge_r vc_lt_increment : vclock.

Lemma vc_lt_le_trans a b c : vc_le a b → vc_lt b c → vc_lt a c.
Proof. intros Hab [Hbc Hcb]. split; [by etrans|]. intros Hca. apply Hcb. by etrans. Qed.

(** ** [relation] decides the causal order *)
Lemma vc_get_outside c k : k ∉ dom c → vc_get c k = 0.
Proof. intros Hk. unfold vc_get. by rewrite (proj1 (not_elem_of_dom c k) Hk). Qed.

Lemma vc_relation_fold c other keys fl :
  foldl (vc_relation_step c other) fl keys =
  (fl.1 || existsb (λ k, vc_get other k <? vc_get c k) keys,
   fl.2 || existsb (λ k, vc_get c k <? vc_get other k) keys).
Proof.
  revert fl. induction keys as [|k keys IH]; intros [x y]; simpl; [by rewrite !orb_false_r|].
  rewrite IH. unfold vc_relation_step. simpl.
  destruct (Z.ltb_spec (vc_get c k) (vc_get other k)), (Z.ltb_spec (vc_get other k) (vc_get c k));
    simpl; rewrite ?orb_true_r; try done; lia.
Qed.

Lemma vc_dominates_spec c other :
  existsb (λ k, vc_get c k <? vc_get other k) (elements (dom c ∪ dom other)) = false
  ↔ vc_le other c.
Proof.
  rewrite <- not_true_iff_false, existsb_exists. split.
  - intros H k. destruct (decide (k ∈ dom c ∪ dom other)) as [Hk|Hk].
    + destruct (Z.ltb_spec (vc_get c k) (vc_get other k)) as [Hlt|]; [|lia].
      destruct H. exists k. split; [apply list_elem_of_In; set_solver|]. by apply Z.ltb_lt.
    + rewrite !vc_get_outside; set_solver.
  - intros Hle (k & _ & Hk%Z.ltb_lt). specialize (Hle k). lia.
Qed.

Lemma vc_relation_cases c other :
  match vc_relation c other with
  | BEFORE => vc_lt c other
  | AFTER => vc_lt other c
  | EQUAL => vc_le c other ∧ vc_le other c
  | CONCURRENT => ¬ vc_le c other ∧ ¬ vc_le other c
  end.
Proof.
  unfold vc_relation. rewrite vc_relation_fold. simpl.
  pose proof (vc_dominates_spec c other) as H1.
  pose proof (vc_dominates_spec other c) as H2. rewrite (union_comm_L (dom other)) in H2.
  destruct (existsb (λ k, vc_get other k <? vc_get c k) _) eqn:E1,
    (existsb (λ k, vc_get c k <? vc_get other k) _) eqn:E2; simpl;
    unfold vc_lt; rewrite <- ?H1, <- ?H2; intuition congruence.
Qed.

(** ** The Lamport total is monotone in the causal order *)
Lemma vc_sum_insert c k v : c !! k = None → vc_sum (<[k := v]> c) = v + vc_sum c.
Proof. intros Hk. apply (map_fold_insert_L (λ _ v acc, v + acc)); [intros; lia|done]. Qed.

Lemma vc_sum_delete c k : vc_sum c = vc_get c k + vc_sum (delete k c).
Proof.
  unfold vc_get. destruct (c !! k) as [v|] eqn:E; simpl.
  - rewrite <- (insert_delete_id c k v E) at 1.
    rewrite vc_sum_insert; [done|apply lookup_delete_eq].
  - by rewrite delete_id.
Qed.

Lemma vc_get_delete c k k' : vc_get (delete k c) k' = if decide (k = k') then 0 else vc_get c k'.
Proof.
  unfold vc_get. case_decide; subst; [by rewrite lookup_delete_eq|by rewrite lookup_delete_ne].
Qed.

Lemma vc_sum_mono a b : vc_wf b → vc_le a b → vc_sum a <= vc_sum b.
Proof.
  revert b. induction a as [|k v a Hk IH] using map_ind; intros b Hb Hle.
  - unfold vc_sum at 1. rewrite map_fold_empty. clear Hle.
    induction b as [|k v b Hk IH] using map_ind; [done|].
    apply map_Forall_insert in Hb as [Hv Hb]; [|done].
    rewrite vc_sum_insert by done. specialize (IH Hb). lia.
  - rewrite vc_sum_insert by done. rewrite (vc_sum_delete b k).
    assert (vc_sum a <= vc_sum (delete k b)).
    { apply IH; [by apply map_Forall_delete|]. intros k'. specialize (Hle k').
      rewrite vc_get_delete. unfold vc_get in Hle at 1. case_decide as Hd; subst.
      - unfold vc_get. by rewrite Hk.
      - by rewrite lookup_insert_ne in Hle. }
    specialize (Hle k). unfold vc_get in Hle at 1. rewrite lookup_insert_eq in Hle. simpl in Hle. lia.
Qed.

Lemma vc_sum_strict a b : vc_wf a → vc_wf b → vc_lt a b → vc_sum a < vc_sum b.
Proof.
  intros Ha Hb [Hle Hnle].
  destruct (existsb (λ k, vc_get a k <? vc_get b k) (elements (dom a ∪ dom b))) eqn:E;
    [|by apply vc_dominates_spec in E].
  apply existsb_exists in E as (k & _ & Hk%Z.ltb_lt).
  rewrite (vc_sum_delete a k), (vc_sum_delete b k).
  assert (vc_sum (delete k a) <= vc_sum (delete k b)); [|lia].
  apply vc_sum_mono; [by apply map_Forall_delete|].
  intros k'. rewrite !vc_get_delete. specialize (Hle k'). case_decide; lia.
Qed.

(** ** Properties *)

(** [relation] decides causality: it answers BEFORE, AFTER, EQUAL or
    CONCURRENT exactly when the two clocks are so related in the pointwise
    order, whatever keys each of them lacks. *)
Theorem vc_relation_spec (c other : VectorClock) :
  (vc_relation c other = BEFORE ↔ vc_lt c other) ∧
  (vc_relation c other = AFTER ↔ vc_lt other c) ∧
  (vc_relation c other = EQUAL ↔ vc_le c other ∧ vc_le other c) ∧
  (vc_relation c other = CONCURRENT ↔ ¬ vc_le c other ∧ ¬ vc_le other c).
Proof.
  pose proof (vc_relation_cases c other) as H. unfold vc_lt in *.
  destruct (vc_relation c other); intuition congruence.
Qed.

(** [merge] is the least upper bound of two clocks in the causal order. *)
Theorem vc_merge_lub (c other : VectorClock) :
  vc_wf c → vc_wf other →
  vc_le c (vc_merge c other) ∧ vc_le other (vc_merge c other) ∧
  (∀ u, vc_le c u → vc_le other u → vc_le (vc_merge c other) u).
Proof.
  intros Hc Ho. split_and!; auto with vclock.
  intros u Hcu Hou k. rewrite vc_get_merge by done. specialize (Hcu k). specialize (Hou k). lia.
Qed.

Lemma vc_merge_lub_witness :
  let a : VectorClock := {["n1" := 2; "n2" := 1]} in
  let b : VectorClock := {["n2" := 3]} in
  vc_wf a ∧ vc_wf b ∧ vc_le a (vc_merge a b) ∧ vc_le b (vc_merge a b) ∧
  (∀ u, vc_le a u → vc_le b u → vc_le (vc_merge a b) u).
Proof.
  intros a b.
  assert (vc_wf a) as Ha by (apply (bool_decide_unpack _); vm_compute; exact I).
  assert (vc_wf b) as Hb by (apply (bool_decide_unpack _); vm_compute; exact I).
  split; [exact Ha|]. split; [exact Hb|]. exact (vc_merge_lub a b Ha Hb).
Defined.

(** The Lamport comparison is consistent with causality: if one clock
    happened before another then [compare_lamport] answers -1. *)
Theorem vc_compare_lamport_consistent (c other : VectorClock) :
  vc_wf c → vc_wf other → vc_happened_before c other = true → vc_compare_lamport c other = -1.
Proof.
  intros Hc Ho H. unfold vc_happened_before in H. apply bool_decide_eq_true in H.
  apply vc_relation_spec in H. apply vc_sum_strict in H; [|done..].
  unfold vc_compare_lamport. by rewrite (proj2 (Z.ltb_lt _ _) H).
Qed.

Lemma vc_compare_lamport_consistent_witness :
  let a : VectorClock := {["n1" := 2; "n2" := 1]} in
  let b : VectorClock := {["n1" := 2; "n2" := 3]} in
  vc_wf a ∧ vc_wf b ∧ vc_happened_before a b = true ∧ vc_compare_lamport a b = -1.
Proof.
  intros a b.
  assert (vc_wf a) as Ha by (apply (bool_decide_unpack _); vm_compute; exact I).
  assert (vc_wf b) as Hb by (apply (bool_decide_unpack _); vm_compute; exact I).
  assert (vc_happened_before a b = true) as Hlt by (vm_compute; reflexivity).
  split; [exact Ha|]. split; [exact Hb|]. split; [exact Hlt|].
  exact (vc_compare_lamport_consistent a b Ha Hb Hlt).
Defined.
