(* ===== verification/Models.v ===== *)
(** [mdrj/models.py] and the hashing helpers of [mdrj/utils.py]: events,
    envelopes, peers, their JSON and SQL-row forms.

    - A payload is an insertion-ordered dict of JSON values; a vector clock is a
      map.  A [path_meta] hop is the record of the two keys the sources read,
      each possibly absent.
    - A SQL row is a dict of [sqlval].  A TEXT column that holds
      [canonical_json(v)] is represented by [SJson] of the value that text
      denotes, i.e. [v] with its keys sorted; the text itself is
      [canonical_json v].
    - [Envelope.from_dict] and [Event.from_record] do not look at the types of
      most fields.  A field whose value has another type than the dataclass
      declares would be carried on by the program and cannot be held by the
      records here: decoding it leaves the model ([Untyped], see Prelude.v). *)
From S2P Require Import Prelude Sha256 Json VectorClock.

(** ** Roles and event classes *)
Definition NODE_ROLE_NODE : string := "node".
Definition NODE_ROLE_RESPONDER : string := "responder".
Definition NODE_ROLES : list string := [NODE_ROLE_NODE; NODE_ROLE_RESPONDER].
Definition FAME_DECISION_KIND_PENDING : string := "pending".
Definition FAME_DECISION_KIND_VOTE : string := "vote".
Definition FAME_DECISION_KIND_COIN_SURROGATE : string := "coin_surrogate".

(** [str(value or "").strip().lower()], the normal form all three
    [normalize_*] helpers start from. *)
Definition normalized_text `{FloatFormat} (value : json) : string :=
  py_lower (py_strip (py_str (py_or value (JStr "")))).

Definition normalize_node_role `{FloatFormat} (value : json) : string :=
  let text := normalized_text value in
  if decide (text ∈ NODE_ROLES) then text else NODE_ROLE_NODE.

Inductive EventClass := A | B | C.
#[export] Instance EventClass_eq_dec : EqDecision EventClass.
Proof. solve_decision. Defined.

Definition EventClass_value (c : EventClass) : string :=
  match c with A => "A" | B => "B" | C => "C" end.

Definition EventClass_from_str (value : string) : result EventClass :=
  if decide (value = "A") then Ok A
  else if decide (value = "B") then Ok B
  else if decide (value = "C") then Ok C
  else Err (ValueError ("unknown event class: " +:+ value)).

Lemma EventClass_from_str_value c : EventClass_from_str (EventClass_value c) = Ok c.
Proof. by destruct c. Qed.

Record NodeProfile := {
  memory_mb : Z;
  bw_kbps : Z;
  cpu_quota : pyfloat;
  profile_role : string;
  threat_level : string }.

(** ** Events *)
Record Event := mkEvent {
  ev_id : string;
  ev_cls : EventClass;
  ev_source : string;
  ev_creator : string;
  ev_ts_local : pyfloat;
  ev_vclock : VectorClock;
  ev_parents : list string;
  ev_self_parent_id : option string;
  ev_other_parent_id : option string;
  ev_payload : odict json;
  ev_sig : option string;
  ev_consensus_ts : option pyfloat;
  ev_lamport_ts : option Z;
  ev_round : option Z;
  ev_round_received : option Z;
  ev_is_witness : bool;
  ev_is_famous_witness : bool;
  ev_fame_decided : bool;
  ev_fame_decision_round : option Z;
  ev_fame_decision_kind : string;
  ev_fame_needs_coin : bool;
  ev_fame_coin_used : bool;
  ev_fame_coin_round : option Z;
  ev_fame_vote_round : option Z;
  ev_fame_vote_yes : Z;
  ev_fame_vote_no : Z }.

#[export] Instance json_eq_dec : EqDecision json.
Proof.
  refine (fix go (v w : json) : Decision (v = w) :=
    let d : EqDecision json := go in
    match v, w with
    | JNull, JNull => left eq_refl
    | JBool a, JBool b => cast_if (decide (a = b))
    | JInt a, JInt b => cast_if (decide (a = b))
    | JFloat (Qmake n1 d1), JFloat (Qmake n2 d2) => cast_if_and (decide (n1 = n2)) (decide (d1 = d2))
    | JStr a, JStr b => cast_if (decide (a = b))
    | JArr a, JArr b => cast_if (decide (a = b))
    | JObj a, JObj b => cast_if (decide (a = b))
    | _, _ => right _
    end); clear go d; abstract congruence.
Defined.

Definition vclock_json (c : VectorClock) : json :=
  JObj ((λ p, (p.1, JInt p.2)) <$> map_to_list c).
Definition strs_json (l : list string) : json := JArr (JStr <$> l).

Section events.
Context `{FloatFormat}.

(** [utils.compute_event_id] *)
Definition compute_event_id (header payload : json) : string :=
  sha256_hex (utf8_encode (canonical_json header) ++ utf8_encode "::"
              ++ utf8_encode (canonical_json payload)).

(** [utils.hmac_signature] and [utils.hmac_request_signature] *)
Definition hmac_signature (key : string) (message : json) : string :=
  hmac_sha256_hex (utf8_encode key) (utf8_encode (canonical_json message)).
Definition hmac_request_signature (key : string) (body : bytes) : string :=
  hmac_sha256_hex (utf8_encode key) body.

(** [utils.signed_request_body]: the body and the headers. *)
Definition signed_request_body (payload : json) (hmac_key : option string)
    : bytes * odict string :=
  let body := utf8_encode (json_dumps payload) in
  let headers := [("Content-Type", "application/json")] in
  match hmac_key with
  | Some k => if decide (k = "") then (body, headers)
              else (body, dset headers "X-MDRJ-Sig" (hmac_request_signature k body))
  | None => (body, headers)
  end.

(** [utils.bytes_cost] *)
Definition bytes_cost (obj : json) : Z := Z.of_nat (length (utf8_encode (canonical_json obj))).

Definition event_header (cls : EventClass) (source : string) (ts_local : Q)
    (vclock : VectorClock) (parents : list string) : json :=
  JObj [("cls", JStr (EventClass_value cls)); ("source", JStr source);
        ("ts_local", JFloat ts_local); ("vclock", vclock_json vclock);
        ("parents", strs_json parents)].

Definition Event_create (cls_name : EventClass) (source : string) (ts_local : Q)
    (vclock : VectorClock) (parents : list string) (payload : odict json)
    (sig creator self_parent_id other_parent_id : option string) : Event :=
  let self_parent_id := match self_parent_id with Some s => Some s | None => parents !! 0%nat end in
  let other_parent_id := match other_parent_id with Some s => Some s | None => parents !! 1%nat end in
  let header := event_header cls_name source ts_local vclock parents in
  let event_id := compute_event_id header (JObj payload) in
  {| ev_id := event_id;
     ev_cls := cls_name;
     ev_source := source;
     ev_creator := str_or_opt creator source;
     ev_ts_local := ts_local;
     ev_vclock := vclock;
     ev_parents := parents;
     ev_self_parent_id := self_parent_id;
     ev_other_parent_id := other_parent_id;
     ev_payload := payload;
     ev_sig := sig;
     ev_consensus_ts := None;
     ev_lamport_ts := Some (vc_sum vclock);
     ev_round := None;
     ev_round_received := None;
     ev_is_witness := false;
     ev_is_famous_witness := false;
     ev_fame_decided := false;
     ev_fame_decision_round := None;
     ev_fame_decision_kind := FAME_DECISION_KIND_PENDING;
     ev_fame_needs_coin := false;
     ev_fame_coin_used := false;
     ev_fame_coin_round := None;
     ev_fame_vote_round := None;
     ev_fame_vote_yes := 0;
     ev_fame_vote_no := 0 |}.

Definition Event_to_dict (e : Event) : json :=
  JObj [("id", JStr (ev_id e));
        ("cls", JStr (EventClass_value (ev_cls e)));
        ("source", JStr (ev_source e));
        ("creator", JStr (ev_creator e));
        ("ts_local", JFloat (ev_ts_local e));
        ("vclock", vclock_json (ev_vclock e));
        ("parents", strs_json (ev_parents e));
        ("self_parent_id", jopt JStr (ev_self_parent_id e));
        ("other_parent_id", jopt JStr (ev_other_parent_id e));
        ("payload", JObj (ev_payload e));
        ("sig", jopt JStr (ev_sig e));
        ("consensus_ts", jopt JFloat (ev_consensus_ts e));
        ("lamport_ts", jopt JInt (ev_lamport_ts e));
        ("round", jopt JInt (ev_round e));
        ("round_received", jopt JInt (ev_round_received e));
        ("is_witness", JBool (ev_is_witness e));
        ("is_famous_witness", JBool (ev_is_famous_witness e));
        ("fame_decided", JBool (ev_fame_decided e));
        ("fame_decision_round", jopt JInt (ev_fame_decision_round e));
        ("fame_decision_kind", JStr (ev_fame_decision_kind e));
        ("fame_needs_coin", JBool (ev_fame_needs_coin e));
        ("fame_coin_used", JBool (ev_fame_coin_used e));
        ("fame_coin_round", jopt JInt (ev_fame_coin_round e));
        ("fame_vote_round", jopt JInt (ev_fame_vote_round e));
        ("fame_vote_yes", JInt (ev_fame_vote_yes e));
        ("fame_vote_no", JInt (ev_fame_vote_no e))].
End events.

(** ** SQL rows *)
Inductive sqlval :=
  | SNull
  | SInt (z : Z)
  | SReal (q : Q)
  | SText (s : string)
  | SJson (v : json).

Abbreviation sqlrow := (odict sqlval).

Definition sql_opt {A} (f : A → sqlval) (o : option A) : sqlval :=
  match o with Some a => f a | None => SNull end.
Definition sql_of_bool (b : bool) : sqlval := SInt (if b then 1 else 0).

(** [row["c"] if "c" in row.keys() else None] *)
Definition sql_get (r : sqlrow) (c : string) : sqlval := default SNull (dget r c).
(** [row["c"]] *)
Definition sql_req (r : sqlrow) (c : string) : result sqlval :=
  result_of_option (IndexError ("No item with that key: " +:+ c)) (dget r c).

Definition sql_truthy (v : sqlval) : bool :=
  match v with
  | SNull => false
  | SInt z => negb (z =? 0)
  | SReal q => negb (q =?q 0)%Q
  | SText s => bool_decide (s ≠ "")
  | SJson _ => true
  end.

Definition sql_as_opt_str (v : sqlval) : result (option string) :=
  match v with SNull => Ok None | SText s => Ok (Some s) | _ => Err (Untyped "str or None") end.
Definition sql_as_opt_int (v : sqlval) : result (option Z) :=
  match v with SNull => Ok None | SInt z => Ok (Some z) | _ => Err (Untyped "int or None") end.
Definition sql_as_opt_real (v : sqlval) : result (option Q) :=
  match v with
  | SNull => Ok None
  | SReal q => Ok (Some q)
  | SInt z => Ok (Some (inject_Z z))
  | _ => Err (Untyped "float or None")
  end.
(** [v or dflt] for a text column. *)
Definition sql_str_or (v : sqlval) (dflt : string) : result string :=
  s ← sql_as_opt_str v; Ok (str_or_opt s dflt).
(** [int(v) if v is not None else 0]; [v or 0]. *)
Definition sql_int_or0 (v : sqlval) : result Z := z ← sql_as_opt_int v; Ok (default 0 z).
Definition sql_real_or0 (v : sqlval) : result Q := q ← sql_as_opt_real v; Ok (default 0%Q q).

Section records.
Context `{FloatFormat}.

Definition sjson (v : json) : sqlval := SJson (sort_keys v).

Definition Event_to_record (e : Event) : sqlrow :=
  [("id", SText (ev_id e));
   ("cls", SText (EventClass_value (ev_cls e)));
   ("source", SText (ev_source e));
   ("creator", SText (ev_creator e));
   ("ts_local", SReal (ev_ts_local e));
   ("vclock", sjson (vclock_json (ev_vclock e)));
   ("parents", sjson (strs_json (ev_parents e)));
   ("self_parent_id", sql_opt SText (ev_self_parent_id e));
   ("other_parent_id", sql_opt SText (ev_other_parent_id e));
   ("payload", sjson (JObj (ev_payload e)));
   ("sig", sql_opt SText (ev_sig e));
   ("consensus_ts", sql_opt SReal (ev_consensus_ts e));
   ("lamport_ts", sql_opt SInt (ev_lamport_ts e));
   ("round", sql_opt SInt (ev_round e));
   ("round_received", sql_opt SInt (ev_round_received e));
   ("is_witness", sql_of_bool (ev_is_witness e));
   ("is_famous_witness", sql_of_bool (ev_is_famous_witness e));
   ("fame_decided", sql_of_bool (ev_fame_decided e));
   ("fame_decision_round", sql_opt SInt (ev_fame_decision_round e));
   ("fame_decision_kind", SText (ev_fame_decision_kind e));
   ("fame_needs_coin", sql_of_bool (ev_fame_needs_coin e));
   ("fame_coin_used", sql_of_bool (ev_fame_coin_used e));
   ("fame_coin_round", sql_opt SInt (ev_fame_coin_round e));
   ("fame_vote_round", sql_opt SInt (ev_fame_vote_round e));
   ("fame_vote_yes", SInt (ev_fame_vote_yes e));
   ("fame_vote_no", SInt (ev_fame_vote_no e))].
End records.

(** [load_json_field(name, default)] *)
Definition load_json_field (r : sqlrow) (name : string) (dflt : json) : result json :=
  match sql_get r name with
  | SNull => Ok dflt
  | SText s => if decide (s = "") then Ok dflt else Err (Untyped "JSON column")
  | SJson v => Ok v
  | _ => Err (TypeError "the JSON object must be str")
  end.

(** A dict as a clock, and a value of a [vclock] column. *)
Definition clock_of (kvs : odict json) : result VectorClock :=
  ps ← mapR (λ p : string * json, match p.2 with
                       | JInt z => Ok (p.1, z)
                       | _ => Err (Untyped "clock value") end) kvs;
  Ok (list_to_map (reverse ps)).
Definition as_vclock (v : json) : result VectorClock :=
  match v with JObj kvs => clock_of kvs | _ => Err (Untyped "vclock") end.
(** The values of a [payload] and of a [parents] column. *)
Definition as_payload (v : json) : result (odict json) :=
  match v with JObj kvs => Ok kvs | _ => Err (Untyped "payload") end.
Definition as_parents (v : json) : result (list string) :=
  match v with JArr l => mapR as_str l | _ => Err (Untyped "parents") end.

(** [x if x is not None else parents[i]] when the list is long enough. *)
Definition parent_default (x : option string) (parents : list string) (i : nat) : option string :=
  match x with Some s => Some s | None => parents !! i end.

Definition Event_from_record (record : sqlrow) : result Event :=
  sig ← sql_as_opt_str (sql_get record "sig");
  consensus_ts ← sql_as_opt_real (sql_get record "consensus_ts");
  lamport_ts ← sql_as_opt_int (sql_get record "lamport_ts");
  parents_v ← load_json_field record "parents" (JArr []);
  parents ← as_parents parents_v;
  self_parent_id ← sql_as_opt_str (sql_get record "self_parent_id");
  other_parent_id ← sql_as_opt_str (sql_get record "other_parent_id");
  id_v ← sql_req record "id"; id ← sql_str_or id_v "";
  cls_v ← sql_req record "cls"; cls_s ← sql_str_or cls_v (EventClass_value C);
  cls ← EventClass_from_str cls_s;
  source_v ← sql_req record "source"; source ← sql_str_or source_v "unknown";
  creator ← sql_str_or (sql_get record "creator") source;
  ts_v ← sql_req record "ts_local"; ts_local ← sql_real_or0 ts_v;
  vclock_v ← load_json_field record "vclock" (JObj []);
  vclock ← as_vclock vclock_v;
  payload_v ← load_json_field record "payload" (JObj []);
  payload ← as_payload payload_v;
  round ← sql_as_opt_int (sql_get record "round");
  round_received ← sql_as_opt_int (sql_get record "round_received");
  fame_decision_round ← sql_as_opt_int (sql_get record "fame_decision_round");
  fame_decision_kind ← sql_str_or (sql_get record "fame_decision_kind") FAME_DECISION_KIND_PENDING;
  fame_coin_round ← sql_as_opt_int (sql_get record "fame_coin_round");
  fame_vote_round ← sql_as_opt_int (sql_get record "fame_vote_round");
  fame_vote_yes ← sql_int_or0 (sql_get record "fame_vote_yes");
  fame_vote_no ← sql_int_or0 (sql_get record "fame_vote_no");
  Ok {| ev_id := id;
        ev_cls := cls;
        ev_source := source;
        ev_creator := creator;
        ev_ts_local := ts_local;
        ev_vclock := vclock;
        ev_parents := parents;
        ev_self_parent_id := parent_default self_parent_id parents 0;
        ev_other_parent_id := parent_default other_parent_id parents 1;
        ev_payload := payload;
        ev_sig := sig;
        ev_consensus_ts := consensus_ts;
        ev_lamport_ts := lamport_ts;
        ev_round := round;
        ev_round_received := round_received;
        ev_is_witness := sql_truthy (sql_get record "is_witness");
        ev_is_famous_witness := sql_truthy (sql_get record "is_famous_witness");
        ev_fame_decided := sql_truthy (sql_get record "fame_decided");
        ev_fame_decision_round := fame_decision_round;
        ev_fame_decision_kind := fame_decision_kind;
        ev_fame_needs_coin := sql_truthy (sql_get record "fame_needs_coin");
        ev_fame_coin_used := sql_truthy (sql_get record "fame_coin_used");
        ev_fame_coin_round := fame_coin_round;
        ev_fame_vote_round := fame_vote_round;
        ev_fame_vote_yes := fame_vote_yes;
        ev_fame_vote_no := fame_vote_no |}.

(** ** Envelopes *)
Record Hop := mkHop { hop_node : option string; hop_ts : option pyfloat }.
#[export] Instance Hop_eq_dec : EqDecision Hop.
Proof. solve_decision. Defined.

Record Envelope := mkEnvelope { env_event : Event; env_path_meta : list Hop }.
#[export] Instance Event_eq_dec : EqDecision Event.
Proof. solve_decision. Defined.
#[export] Instance Envelope_eq_dec : EqDecision Envelope.
Proof. solve_decision. Defined.

Definition Envelope_add_hop (env : Envelope) (node_id : string) (ts : Q) : Envelope :=
  mkEnvelope (env_event env) (env_path_meta env ++ [mkHop (Some node_id) (Some ts)]).

Definition consensus_candidates (env : Envelope) : list Q :=
  omap hop_ts (env_path_meta env).

Definition hop_to_json (h : Hop) : json :=
  JObj (match hop_node h with Some n => [("node", JStr n)] | None => [] end ++
        match hop_ts h with Some t => [("ts", JFloat t)] | None => [] end).

Definition Envelope_to_dict (env : Envelope) : json :=
  JObj [("event", Event_to_dict (env_event env));
        ("path_meta", JArr (hop_to_json <$> env_path_meta env))].

(** [dict(hop)]: any dict.  The model has the hops of at most the two keys the
    sources read, a string and a float. *)
Definition hop_value {A} (f : json → result (option A)) (d : odict json) (k : string) : result (option A) :=
  match dget d k with
  | None => Ok None
  | Some JNull => Err (Untyped "hop")
  | Some v => f v
  end.
Definition hop_from_json (v : json) : result Hop :=
  d ← py_dict v;
  if existsb (λ k, negb (bool_decide (k ∈ ["node"; "ts"]))) (dkeys d) then Err (Untyped "hop")
  else
    node ← hop_value as_opt_str d "node";
    ts ← hop_value as_opt_float d "ts";
    Ok (mkHop node ts).

(** [event_data.get(k) or (event_data["parents"][i] if there are so many else None)];
    [parents]: the list made of [raw]. *)
Definition wire_parent (d : odict json) (k : string) (raw : json) (parents : list string) (i : nat)
    : result (option string) :=
  let given := jget d k in
  if py_bool given then as_opt_str given
  else match parents !! i, raw with
       | None, _ => Ok None
       | Some _, JObj _ => Err (KeyError (py_str_int (Z.of_nat i)))
       | Some p, _ => Ok (Some p)
       end.

(** [int(event_data.get(k, 0) or 0)] *)
Definition wire_int_or0 (d : odict json) (k : string) : result Z :=
  py_int (py_or (jget d k) (JInt 0)).

Section wire.
Context `{FloatFormat}.

Definition Event_from_dict (event_data : odict json) : result Event :=
  id_v ← dget_req event_data "id"; id ← as_str id_v;
  cls_v ← dget_req event_data "cls";
  cls ← match cls_v with JStr s => EventClass_from_str s | v => Err (ValueError ("unknown event class: " +:+ py_str v)) end;
  source_v ← dget_req event_data "source"; source ← as_str source_v;
  creator ← as_str (py_or (jget event_data "creator") source_v);
  ts_v ← dget_req event_data "ts_local"; ts_local ← py_float ts_v;
  vclock_v ← dget_req event_data "vclock"; vclock_d ← py_dict vclock_v; vclock ← clock_of vclock_d;
  parents_v ← dget_req event_data "parents"; parents ← py_strs parents_v;
  self_parent_id ← wire_parent event_data "self_parent_id" parents_v parents 0;
  other_parent_id ← wire_parent event_data "other_parent_id" parents_v parents 1;
  payload_v ← dget_req event_data "payload"; payload ← py_dict payload_v;
  sig ← as_opt_str (jget event_data "sig");
  consensus_ts ← as_opt_float (jget event_data "consensus_ts");
  lamport_ts ← as_opt_int (jget event_data "lamport_ts");
  round ← as_opt_int (jget event_data "round");
  round_received ← as_opt_int (jget event_data "round_received");
  fame_decision_round ← as_opt_int (jget event_data "fame_decision_round");
  fame_coin_round ← as_opt_int (jget event_data "fame_coin_round");
  fame_vote_round ← as_opt_int (jget event_data "fame_vote_round");
  fame_vote_yes ← wire_int_or0 event_data "fame_vote_yes";
  fame_vote_no ← wire_int_or0 event_data "fame_vote_no";
  Ok {| ev_id := id;
        ev_cls := cls;
        ev_source := source;
        ev_creator := creator;
        ev_ts_local := ts_local;
        ev_vclock := vclock;
        ev_parents := parents;
        ev_self_parent_id := self_parent_id;
        ev_other_parent_id := other_parent_id;
        ev_payload := payload;
        ev_sig := sig;
        ev_consensus_ts := consensus_ts;
        ev_lamport_ts := lamport_ts;
        ev_round := round;
        ev_round_received := round_received;
        ev_is_witness := py_bool (jget_or event_data "is_witness" (JBool false));
        ev_is_famous_witness := py_bool (jget_or event_data "is_famous_witness" (JBool false));
        ev_fame_decided := py_bool (jget_or event_data "fame_decided" (JBool false));
        ev_fame_decision_round := fame_decision_round;
        ev_fame_decision_kind :=
          py_str (py_or (jget event_data "fame_decision_kind") (JStr FAME_DECISION_KIND_PENDING));
        ev_fame_needs_coin := py_bool (jget_or event_data "fame_needs_coin" (JBool false));
        ev_fame_coin_used := py_bool (jget_or event_data "fame_coin_used" (JBool false));
        ev_fame_coin_round := fame_coin_round;
        ev_fame_vote_round := fame_vote_round;
        ev_fame_vote_yes := fame_vote_yes;
        ev_fame_vote_no := fame_vote_no |}.

Definition Envelope_from_dict (data : json) : result Envelope :=
  d ← as_obj data;
  event_v ← dget_req d "event"; event_data ← as_obj event_v;
  event ← Event_from_dict event_data;
  hops ← py_list (jget_or d "path_meta" (JArr []));
  path_meta ← mapR hop_from_json hops;
  Ok (mkEnvelope event path_meta).

(** ** Peers *)
Definition PEER_APPROVAL_PENDING : string := "pending".
Definition PEER_APPROVAL_APPROVED : string := "approved".
Definition PEER_APPROVAL_REJECTED : string := "rejected".
Definition PEER_APPROVAL_STATUSES : list string :=
  [PEER_APPROVAL_PENDING; PEER_APPROVAL_APPROVED; PEER_APPROVAL_REJECTED].

Definition normalize_approval_status (value : json) : string :=
  let text := normalized_text value in
  if decide (text ∈ PEER_APPROVAL_STATUSES) then text else PEER_APPROVAL_APPROVED.

Record PeerInfo := mkPeer {
  pi_address : string;
  pi_node_id : string;
  pi_last_seen : option pyfloat;
  pi_healthy : bool;
  pi_enabled : bool;
  pi_note : string;
  pi_source : string;
  pi_role : string;
  pi_is_self : bool;
  pi_approval_status : string }.

Definition PeerInfo_to_dict (p : PeerInfo) : json :=
  JObj [("address", JStr (pi_address p));
        ("node_id", JStr (pi_node_id p));
        ("last_seen", jopt JFloat (pi_last_seen p));
        ("healthy", JBool (pi_healthy p));
        ("enabled", JBool (pi_enabled p));
        ("note", JStr (pi_note p));
        ("source", JStr (pi_source p));
        ("role", JStr (normalize_node_role (JStr (pi_role p))));
        ("is_self", JBool (pi_is_self p));
        ("approval_status", JStr (normalize_approval_status (JStr (pi_approval_status p))))].

Lemma normalize_node_role_in v : normalize_node_role v ∈ NODE_ROLES.
Proof. unfold normalize_node_role. case_decide; [done|]. by left. Qed.
Lemma normalize_approval_status_in v : normalize_approval_status v ∈ PEER_APPROVAL_STATUSES.
Proof. unfold normalize_approval_status. case_decide; [done|]. right. by left. Qed.
Lemma normalize_node_role_fixed r : r ∈ NODE_ROLES → normalize_node_role (JStr r) = r.
Proof. unfold NODE_ROLES. intros Hr. by elim_in Hr. Qed.
Lemma normalize_approval_status_fixed a :
  a ∈ PEER_APPROVAL_STATUSES → normalize_approval_status (JStr a) = a.
Proof. unfold PEER_APPROVAL_STATUSES. intros Hr. by elim_in Hr. Qed.
End wire.

(** ** Round trips *)
Lemma sql_as_opt_str_opt o : sql_as_opt_str (sql_opt SText o) = Ok o.
Proof. by destruct o. Qed.
Lemma sql_as_opt_int_opt o : sql_as_opt_int (sql_opt SInt o) = Ok o.
Proof. by destruct o. Qed.
Lemma sql_as_opt_real_opt o : sql_as_opt_real (sql_opt SReal o) = Ok o.
Proof. by destruct o. Qed.
Lemma sql_truthy_bool b : sql_truthy (sql_of_bool b) = b.
Proof. by destruct b. Qed.
Lemma as_opt_str_jopt o : as_opt_str (jopt JStr o) = Ok o.
Proof. by destruct o. Qed.
Lemma as_opt_int_jopt o : as_opt_int (jopt JInt o) = Ok o.
Proof. by destruct o. Qed.
Lemma as_opt_float_jopt o : as_opt_float (jopt JFloat o) = Ok o.
Proof. by destruct o. Qed.
Create Rewrite HintDb roundtrip.
#[export] Hint Rewrite sql_as_opt_str_opt sql_as_opt_int_opt sql_as_opt_real_opt sql_truthy_bool
  as_opt_str_jopt as_opt_int_jopt as_opt_float_jopt EventClass_from_str_value : roundtrip.

Lemma mapR_strs l : mapR as_str (JStr <$> l) = Ok l.
Proof. apply mapR_Ok. induction l; by constructor. Qed.
Lemma as_parents_strs_json l : as_parents (strs_json l) = Ok l.
Proof. apply mapR_strs. Qed.
Lemma py_strs_strs_json l : py_strs (strs_json l) = Ok l.
Proof. apply mapR_strs. Qed.
Lemma sort_keys_strs_json l : sort_keys (strs_json l) = strs_json l.
Proof. unfold strs_json. simpl. f_equal. induction l; simpl; [done|]. by f_equal. Qed.

Lemma clock_of_perm (c : VectorClock) kvs :
  kvs ≡ₚ (λ p, (p.1, JInt p.2)) <$> map_to_list c → clock_of kvs = Ok c.
Proof.
  intros Hp. apply Permutation_map_inv in Hp as (ps & -> & Hp).
  unfold clock_of.
  rewrite (mapR_total _ (λ p, (p.1, match p.2 with JInt z => z | _ => 0 end))).
  - simpl. f_equal. change (map ?f ?l) with (f <$> l).
    rewrite <- list_fmap_compose.
    replace ((λ p : string * json, (p.1, match p.2 with JInt z => z | _ => 0 end))
              ∘ (λ p : string * Z, (p.1, JInt p.2)) <$> ps) with ps.
    + rewrite <- (list_to_map_to_list c). apply list_to_map_proper.
      * rewrite reverse_Permutation, <- Hp. apply NoDup_fst_map_to_list.
      * by rewrite reverse_Permutation, <- Hp.
    + clear Hp. induction ps as [|[k z] ps IH]; simpl; [done|]. by f_equal.
  - intros [k v] Hv. change (map ?f ?l) with (f <$> l) in Hv.
    apply list_elem_of_fmap in Hv as ([k' z] & [= -> ->] & _). done.
Qed.

Lemma as_vclock_json (c : VectorClock) : as_vclock (vclock_json c) = Ok c.
Proof. by apply clock_of_perm. Qed.

Lemma as_vclock_sorted (c : VectorClock) : as_vclock (sort_keys (vclock_json c)) = Ok c.
Proof.
  apply clock_of_perm. simpl. rewrite sort_by_perm.
  induction (map_to_list c) as [|[k z] l IH]; simpl; [done|]. by f_equiv.
Qed.

(** The dict a payload reads back as: the same keys and values, sorted. *)
Definition sorted_payload (p : odict json) : odict json :=
  match sort_keys (JObj p) with JObj kvs => kvs | _ => [] end.

Lemma sort_keys_payload p : sort_keys (JObj p) = JObj (sorted_payload p).
Proof. reflexivity. Qed.

Definition set_payload (e : Event) (p : odict json) : Event :=
  {| ev_id := ev_id e; ev_cls := ev_cls e; ev_source := ev_source e; ev_creator := ev_creator e;
     ev_ts_local := ev_ts_local e; ev_vclock := ev_vclock e; ev_parents := ev_parents e;
     ev_self_parent_id := ev_self_parent_id e; ev_other_parent_id := ev_other_parent_id e;
     ev_payload := p; ev_sig := ev_sig e; ev_consensus_ts := ev_consensus_ts e;
     ev_lamport_ts := ev_lamport_ts e; ev_round := ev_round e;
     ev_round_received := ev_round_received e; ev_is_witness := ev_is_witness e;
     ev_is_famous_witness := ev_is_famous_witness e; ev_fame_decided := ev_fame_decided e;
     ev_fame_decision_round := ev_fame_decision_round e;
     ev_fame_decision_kind := ev_fame_decision_kind e;
     ev_fame_needs_coin := ev_fame_needs_coin e; ev_fame_coin_used := ev_fame_coin_used e;
     ev_fame_coin_round := ev_fame_coin_round e; ev_fame_vote_round := ev_fame_vote_round e;
     ev_fame_vote_yes := ev_fame_vote_yes e; ev_fame_vote_no := ev_fame_vote_no e |}.

(** The events the code builds: [Event.create] fills the parents in and never
    leaves source, creator or the decision kind empty. *)
Definition event_normal (e : Event) : Prop :=
  ev_source e ≠ "" ∧ ev_creator e ≠ "" ∧ ev_fame_decision_kind e ≠ "" ∧
  parent_default (ev_self_parent_id e) (ev_parents e) 0 = ev_self_parent_id e ∧
  parent_default (ev_other_parent_id e) (ev_parents e) 1 = ev_other_parent_id e ∧
  ev_self_parent_id e ≠ Some "" ∧ ev_other_parent_id e ≠ Some "".
#[export] Instance event_normal_dec e : Decision (event_normal e).
Proof. unfold event_normal. apply _. Defined.

Ltac compute_gets :=
  repeat match goal with
  | |- context [sql_get (Event_to_record ?e) ?c] =>
      let v := eval cbv -[sql_opt sjson sql_of_bool vclock_json strs_json EventClass_value]
        in (sql_get (Event_to_record e) c) in
      change (sql_get (Event_to_record e) c) with v
  | |- context [sql_req (Event_to_record ?e) ?c] =>
      let v := eval cbv -[sql_opt sjson sql_of_bool vclock_json strs_json EventClass_value]
        in (sql_req (Event_to_record e) c) in
      change (sql_req (Event_to_record e) c) with v
  end.

(** Storing an event as a row and reading it back gives the event, with the
    keys of its payload sorted. *)
Theorem Event_record_roundtrip (e : Event) :
  event_normal e →
  Event_from_record (Event_to_record e) = Ok (set_payload e (sorted_payload (ev_payload e))).
Proof.
  destruct e as [i cls src cre ts vc ps sp op pl]. intros (Hsrc & Hcre & Hk & Hsp & Hop & _).
  unfold Event_from_record, load_json_field. compute_gets.
  unfold sjson. rewrite sort_keys_strs_json, sort_keys_payload. simpl in Hsp, Hop.
  autorewrite with roundtrip. cbn [mbind result_bind].
  rewrite as_parents_strs_json. autorewrite with roundtrip. cbn [mbind result_bind].
  unfold sql_str_or, str_or_opt. cbn [mbind result_bind sql_as_opt_str default].
  rewrite str_or_empty_r, !str_or_nonempty by (done || by destruct cls). autorewrite with roundtrip.
  cbn [mbind result_bind sql_real_or0 sql_as_opt_real].
  rewrite as_vclock_sorted. autorewrite with roundtrip. cbn.
  autorewrite with roundtrip. by rewrite Hsp, Hop.
Qed.

Definition example_event : Event :=
  @Event_create frac_format B "n1" (5 # 1) {["n1" := 3]} ["p"; "q"]
    [("k", JInt 1); ("a", JStr "x")] None None None None.

Lemma Event_record_roundtrip_witness :
  event_normal example_event ∧
  Event_from_record (Event_to_record example_event)
  = Ok (set_payload example_event (sorted_payload (ev_payload example_event))).
Proof.
  assert (event_normal example_event) as Hn.
  { split_and!; vm_compute; congruence. }
  split; [exact Hn|]. exact (Event_record_roundtrip example_event Hn).
Defined.

Ltac compute_jgets :=
  repeat match goal with
  | |- context [jget ?d ?c] =>
      let v := eval cbv -[jopt vclock_json strs_json EventClass_value] in (jget d c) in
      change (jget d c) with v
  | |- context [jget_or ?d ?c ?x] =>
      let v := eval cbv -[jopt vclock_json strs_json EventClass_value] in (jget_or d c x) in
      change (jget_or d c x) with v
  | |- context [dget_req ?d ?c] =>
      let v := eval cbv -[jopt vclock_json strs_json EventClass_value] in (dget_req d c) in
      change (dget_req d c) with v
  end.

Lemma hop_roundtrip h : hop_from_json (hop_to_json h) = Ok h.
Proof. destruct h as [[n|] [t|]]; vm_compute; reflexivity. Qed.

Lemma mapR_hops hs : mapR hop_from_json (hop_to_json <$> hs) = Ok hs.
Proof. apply mapR_Ok. induction hs; constructor; eauto using hop_roundtrip. Qed.

Lemma wire_parent_normal d k o l parents i :
  jget d k = jopt JStr o → parent_default o parents i = o → o ≠ Some "" →
  wire_parent d k (JArr l) parents i = Ok o.
Proof.
  intros Hj Hp Ho. unfold wire_parent. rewrite Hj. destruct o as [s|]; simpl in *; [|by rewrite Hp].
  by rewrite bool_decide_true by congruence.
Qed.

Lemma py_or_nonempty s d : s ≠ "" → py_or (JStr s) d = JStr s.
Proof. intros. unfold py_or. simpl. by rewrite bool_decide_true. Qed.
Lemma clock_of_json (c : VectorClock) : clock_of ((λ p, (p.1, JInt p.2)) <$> map_to_list c) = Ok c.
Proof. by apply clock_of_perm. Qed.

(** An envelope sent to a peer decodes to the envelope that was sent. *)
Lemma Envelope_wire_roundtrip `{FloatFormat} (env : Envelope) :
  event_normal (env_event env) → Envelope_from_dict (Envelope_to_dict env) = Ok env.
Proof.
  destruct env as [[i cls src cre ts vc ps sp op pl sig cts lam rd rr w fw fd fdr fk fn fc fcr fvr fy fno] hops].
  intros (Hsrc & Hcre & Hk & Hsp & Hop & Hsp' & Hop'). simpl in *.
  unfold Envelope_from_dict. simpl. fold (hop_to_json <$> hops).
  unfold Event_from_dict, wire_int_or0. compute_jgets.
  cbn [mbind result_bind as_str as_opt_str py_float as_obj].
  autorewrite with roundtrip. cbn [mbind result_bind].
  rewrite py_or_nonempty by done. cbn [mbind result_bind as_str vclock_json py_dict].
  rewrite clock_of_json. cbn [mbind result_bind]. rewrite py_strs_strs_json. cbn [mbind result_bind].
  unfold strs_json. rewrite (wire_parent_normal _ _ sp _ ps 0), (wire_parent_normal _ _ op _ ps 1) by done.
  cbn [mbind result_bind py_dict]. autorewrite with roundtrip. cbn [mbind result_bind].
  do 5 (autorewrite with roundtrip; cbn [mbind result_bind]).
  assert (∀ z, py_int (py_or (JInt z) (JInt 0)) = Ok z) as Hint.
  { intros z. unfold py_or, py_bool. destruct (Z.eqb_spec z 0) as [->|]; done. }
  rewrite !Hint. cbn [mbind result_bind].
  rewrite py_or_nonempty by done. cbn [py_str py_list].
  change (mapR hop_from_json (map hop_to_json hops)) with (mapR hop_from_json (hop_to_json <$> hops)).
  by rewrite mapR_hops.
Qed.

(** An event id does not depend on the order in which the keys of the
    payload were inserted. *)
Theorem compute_event_id_perm `{FloatFormat} (header : json) (p1 p2 : odict json) :
  p1 ≡ₚ p2 → NoDup (dkeys p1) →
  compute_event_id header (JObj p1) = compute_event_id header (JObj p2).
Proof. intros. unfold compute_event_id. by rewrite (canonical_json_perm p1 p2). Qed.

Lemma compute_event_id_perm_witness :
  let p1 := [("k", JInt 1); ("a", JStr "x")] in
  let p2 := [("a", JStr "x"); ("k", JInt 1)] in
  p1 ≡ₚ p2 ∧ NoDup (dkeys p1) ∧
  @compute_event_id frac_format JNull (JObj p1) = @compute_event_id frac_format JNull (JObj p2).
Proof.
  intros p1 p2.
  assert (p1 ≡ₚ p2) as Hp by apply Permutation_swap.
  assert (NoDup (dkeys p1)) as Hn by (apply (bool_decide_unpack _); vm_compute; exact I).
  split; [exact Hp|]. split; [exact Hn|]. exact (@compute_event_id_perm frac_format JNull p1 p2 Hp Hn).
Defined.
