(* ===== verification/Utils.v ===== *)
(** The list helpers of [mdrj/utils.py]: [median], [chunked],
    [sliding_window]. *)
From S2P Require Import Prelude.

Definition Qsort : list Q → list Q := sort_on id Qcompare.

Definition median (values : list Q) : result Q :=
  if bool_decide (values = []) then Err (ValueError "cannot compute median of empty sequence")
  else
    let ordered := Qsort values in
    let mid := (length ordered / 2)%nat in
    if Nat.odd (length ordered) then Ok (nth mid ordered 0%Q)
    else Ok ((nth (mid - 1) ordered 0 + nth mid ordered 0) / 2)%Q.

(** [seq[idx : idx + size] for idx in range(0, len(seq), max(1, size))] *)
Fixpoint chunked_fuel {A} (fuel : nat) (size : nat) (seq : list A) : list (list A) :=
  match fuel, seq with
  | _, [] | O, _ => []
  | S f, _ => take size seq :: chunked_fuel f size (drop (Nat.max 1 size) seq)
  end.
Definition chunked {A} (seq : list A) (size : Z) : list (list A) :=
  chunked_fuel (length seq) (Z.to_nat size) seq.

Definition sliding_window {A} (values : list A) (window : Z) : list A :=
  if window <=? 0 then values else drop (length values - Z.to_nat window) values.

(** ** Lemmas *)
Lemma Qsort_elem x l : x ∈ Qsort l ↔ x ∈ l.
Proof. unfold Qsort. by rewrite sort_on_perm. Qed.
Lemma length_Qsort l : length (Qsort l) = length l.
Proof. unfold Qsort. by rewrite sort_on_perm. Qed.

Lemma nth_Qsort_in i l : (i < length l)%nat → nth i (Qsort l) 0%Q ∈ l.
Proof.
  intros Hi. rewrite <- Qsort_elem, list_elem_of_In. apply nth_In. by rewrite length_Qsort.
Qed.

Lemma half_lt (n : nat) : (0 < n)%nat → (n / 2 < n)%nat.
Proof. intros. apply Nat.div_lt; lia. Qed.

Lemma median_total l : l ≠ [] → ∃ m, median l = Ok m.
Proof.
  intros Hl. unfold median. rewrite bool_decide_false by done. case_match; eauto.
Qed.

Lemma median_bounds l m lo hi :
  median l = Ok m → Forall (λ x, lo <= x <= hi)%Q l → (lo <= m <= hi)%Q.
Proof.
  unfold median. case_bool_decide as Hl; [done|]. intros Hm Hall.
  rewrite Forall_forall in Hall. rewrite length_Qsort in Hm.
  assert (0 < length l)%nat as Hlen by (destruct l; simpl; [done|lia]).
  pose proof (half_lt _ Hlen) as Hmid.
  assert (∀ i, (i < length l)%nat → (lo <= nth i (Qsort l) 0 <= hi)%Q) as Hn.
  { intros i Hi. by apply Hall, nth_Qsort_in. }
  set (mid := (length l / 2)%nat) in *. clearbody mid.
  destruct (Nat.odd (length l)); injection Hm as <-; [by apply Hn|].
  destruct (Hn _ Hmid) as [H1 H2].
  destruct (Hn _ (Nat.le_lt_trans _ _ _ (Nat.le_sub_l _ 1) Hmid)) as [H3 H4].
  split; [apply Qle_shift_div_l|apply Qle_shift_div_r]; lra.
Qed.

(** The reduced forms of a sorted list do not depend on the order of the
    input. *)
Lemma Qsort_perm_red l1 l2 : l1 ≡ₚ l2 → Qred <$> Qsort l1 = Qred <$> Qsort l2.
Proof.
  intros Hp.
  assert (∀ l, StronglySorted Qle (Qred <$> Qsort l)) as Hs.
  { intros l. pose proof (sort_on_sorted id Qcompare l) as Hs. fold Qsort in Hs.
    induction Hs as [|x l' Hs IH Hx]; simpl; constructor; [done|].
    apply Forall_fmap. eapply Forall_impl; [exact Hx|].
    intros y Hy. simpl. rewrite !Qred_correct. by apply Qle_alt. }
  apply (StronglySorted_unique_strong Qle); [|apply Hs..|].
  - intros x y Hx Hy Hxy Hyx.
    apply list_elem_of_fmap in Hx as (x' & -> & _), Hy as (y' & -> & _).
    rewrite !Qred_correct in Hxy, Hyx. apply Qred_complete. by apply Qle_antisym.
  - apply fmap_Permutation. unfold Qsort. by rewrite !sort_on_perm.
Qed.

Lemma nth_Qred i l1 l2 :
  Qred <$> l1 = Qred <$> l2 → nth i l1 0%Q == nth i l2 0%Q.
Proof.
  revert i l2. induction l1 as [|x l1 IH]; intros i [|y l2]; simpl; try done.
  intros [= Hxy Hl]. destruct i; [|by apply IH].
  rewrite <- (Qred_correct x), <- (Qred_correct y). by rewrite Hxy.
Qed.

Lemma median_perm l1 l2 m1 m2 :
  l1 ≡ₚ l2 → median l1 = Ok m1 → median l2 = Ok m2 → m1 == m2.
Proof.
  intros Hp. unfold median. do 2 (case_bool_decide; [done|]).
  pose proof (Qsort_perm_red _ _ Hp) as Hr.
  rewrite !length_Qsort, (Permutation_length Hp).
  pose proof (λ i, nth_Qred i _ _ Hr) as Hn.
  destruct (Nat.odd (length l2)); intros [= <-] [= <-]; [apply Hn|].
  by rewrite !Hn.
Qed.

(** ** A median is not moved by a minority *)
Lemma count_if_take_all {A} (p : A → bool) (l : list A) n :
  Forall (λ x, p x = true) (take n l) → (Nat.min n (length l) <= count_if p l)%nat.
Proof.
  revert n. induction l as [|x l IH]; intros [|n]; simpl; try lia.
  intros [Hx Hl]%Forall_cons. rewrite count_if_cons, Hx. specialize (IH n Hl). lia.
Qed.

Lemma count_if_drop_all {A} (p : A → bool) (l : list A) n :
  Forall (λ x, p x = true) (drop n l) → (length l - n <= count_if p l)%nat.
Proof.
  revert n. induction l as [|x l IH]; intros [|n]; simpl; try lia; rewrite count_if_cons.
  - intros [Hx Hl]%Forall_cons. rewrite Hx. specialize (IH 0%nat). rewrite drop_0 in IH.
    specialize (IH Hl). lia.
  - intros Hl. specialize (IH n Hl). lia.
Qed.

Lemma count_if_perm {A} (p : A → bool) (l1 l2 : list A) : l1 ≡ₚ l2 → count_if p l1 = count_if p l2.
Proof. intros Hp. unfold count_if. by rewrite Hp. Qed.

Definition outside (lo hi x : Q) : bool := negb (Qle_bool lo x && Qle_bool x hi).

Lemma outside_false lo hi x : outside lo hi x = false ↔ (lo <= x <= hi)%Q.
Proof. unfold outside. by rewrite negb_false_iff, andb_true_iff, !Qle_bool_iff. Qed.

Lemma nth_lookup_in {A} (d : A) (l : list A) i : (i < length l)%nat → l !! i = Some (nth i l d).
Proof. intros Hi. destruct (nth_lookup_or_length l i d) as [H|H]; [done|lia]. Qed.

Lemma StronglySorted_take_drop {A} (R : relation A) (l : list A) n :
  StronglySorted R l → ∀ x y, x ∈ take n l → y ∈ drop n l → R x y.
Proof.
  intros Hs. revert n. induction Hs as [|z l Hs IH Hz]; intros [|n] x y; simpl; try set_solver.
  rewrite Forall_forall in Hz. intros [->|Hx]%elem_of_cons Hy; [|by eapply IH].
  apply Hz. rewrite <- (take_drop n l). apply elem_of_app. by right.
Qed.

(** The [i]-th smallest value lies in the interval when at most [i] values, and
    fewer than [length l - i], lie outside it. *)
Lemma nth_Qsort_majority l lo hi i :
  (i < length l)%nat →
  (count_if (outside lo hi) l <= i)%nat → (count_if (outside lo hi) l < length l - i)%nat →
  (lo <= nth i (Qsort l) 0 <= hi)%Q.
Proof.
  intros Hi H1 H2. set (s := Qsort l) in *.
  assert (length s = length l) as Hlen by apply length_Qsort.
  rewrite <- (count_if_perm _ s l) in H1, H2 by apply sort_on_perm.
  set (x := nth i s 0%Q).
  assert (drop i s = x :: drop (S i) s) as Hd.
  { apply drop_S. apply nth_lookup_in; lia. }
  pose proof (sort_on_sorted id Qcompare l) as Hs. fold Qsort in Hs. fold s in Hs.
  split; apply Qnot_lt_le; intros Hlt.
  - assert (Forall (λ y, outside lo hi y = true) (take (S i) s)) as Hall.
    { apply Forall_forall. intros y Hy. apply not_false_iff_true. rewrite outside_false. intros [Hy1 _].
      assert (y <= x)%Q; [|lra]. rewrite (take_S_r _ _ x) in Hy by (apply nth_lookup_in; lia).
      apply elem_of_app in Hy as [Hy|Hy%list_elem_of_singleton]; [|subst y; lra].
      apply Qle_alt. apply (StronglySorted_take_drop _ s i Hs); [done|]. rewrite Hd. by left. }
    apply count_if_take_all in Hall. lia.
  - assert (Forall (λ y, outside lo hi y = true) (drop i s)) as Hall.
    { apply Forall_forall. intros y Hy. apply not_false_iff_true. rewrite outside_false. intros [_ Hy1].
      assert (x <= y)%Q; [|lra]. rewrite Hd in Hy. apply elem_of_cons in Hy as [->|Hy]; [lra|].
      apply Qle_alt. apply (StronglySorted_take_drop _ s (S i) Hs); [|done].
      rewrite (take_S_r _ _ x) by (apply nth_lookup_in; lia). set_solver. }
    apply count_if_drop_all in Hall. lia.
Qed.

Lemma median_majority l m lo hi :
  median l = Ok m → (2 * count_if (outside lo hi) l < length l)%nat → (lo <= m <= hi)%Q.
Proof.
  unfold median. case_bool_decide as Hl; [done|]. rewrite length_Qsort. intros Hm Hc.
  set (n := length l) in *.
  assert (n = 2 * (n / 2) + n mod 2)%nat as Hn by (apply Nat.div_mod; lia).
  pose proof (Nat.mod_upper_bound n 2). 
  set (h := (n / 2)%nat) in *. clearbody h.
  destruct (Nat.odd n) eqn:Ho.
  - injection Hm as <-. apply Nat.odd_spec in Ho as [k Hk].
    apply nth_Qsort_majority; fold n; lia.
  - injection Hm as <-.
    assert (Nat.even n = true) as He by (by rewrite <- Nat.negb_odd, Ho).
    apply Nat.even_spec in He as [k Hk].
    pose proof (nth_Qsort_majority l lo hi (h - 1)) as Ha.
    pose proof (nth_Qsort_majority l lo hi h) as Hb. fold n in Ha, Hb.
    destruct Ha as [Ha1 Ha2]; [lia..|]. destruct Hb as [Hb1 Hb2]; [lia..|].
    split; [apply Qle_shift_div_l|apply Qle_shift_div_r]; lra.
Qed.
