(* ===== verification/Consensus.v ===== *)
(** [mdrj/consensus.py]: the round/witness/fame engine, definitions.

    One definition per method of [ConsensusEngine].  The dicts whose iteration
    order is not observable are [gmap]s; "for k in sorted(d)" is
    [sorted_keys].  Exceptions cannot occur on the modelled inputs, so the
    functions are total.

    [_ancestor_ids] is the only recursive method and the only one that uses the
    memo table.  [ancestor_ids] threads that table and takes fuel; [ancestors]
    is its answer from an empty table with fuel [S (size by_id)].
    ConsensusFacts proves that on every event list whose parents precede their
    children this fuel is enough, and that any valid table gives the same answer
    ([ancestor_ids_memo]), which is why the callers below read [ancestors]. *)
From S2P Require Import Prelude Sha256 Json VectorClock Models Utils.

Record MembershipEntry := mkMember {
  me_node_id : string;
  me_address : string;
  me_role : string;
  me_is_self : bool }.

Record ConsensusState := mkState {
  cs_event_id : string;
  cs_creator : string;
  cs_self_parent_id : option string;
  cs_other_parent_id : option string;
  cs_round : Z;
  cs_round_received : option Z;
  cs_is_witness : bool;
  cs_is_famous_witness : bool;
  cs_fame_decided : bool;
  cs_fame_decision_round : option Z;
  cs_fame_decision_kind : string;
  cs_fame_needs_coin : bool;
  cs_fame_coin_used : bool;
  cs_fame_coin_round : option Z;
  cs_fame_vote_round : option Z;
  cs_fame_vote_yes : Z;
  cs_fame_vote_no : Z;
  cs_consensus_ts : option pyfloat }.

Abbreviation EventMap := (gmap string Event).
Abbreviation AncestorCache := (gmap string (gset string)).
(** round -> creator -> witness id *)
Abbreviation WitnessMap := (gmap Z (gmap string string)).
(** creator -> vote; [None] is an undecided vote *)
Abbreviation Votes := (gmap string (option bool)).
Abbreviation VoteHistory := (gmap Z Votes).
Abbreviation PathMeta := (gmap string (list Hop)).

(** [event.creator or event.source] *)
Definition event_creator (e : Event) : string := str_or (ev_creator e) (ev_source e).

(** [{event.id: event for event in topo}] *)
Definition events_by_id (events : list Event) : EventMap :=
  foldl (λ m e, <[ev_id e := e]> m) ∅ events.

Definition sorted_keys {A} (m : gmap Z A) : list Z := sort_on id Z.compare (elements (dom m)).

Definition map_values {K A} `{Countable K} (m : gmap K A) : list A := (map_to_list m).*2.

(** ** Membership *)
Definition normalize_membership (self_node_id : string) (membership : list MembershipEntry)
    : list string :=
  let normalized := foldl (λ acc entry,
    let node_id := py_strip (me_node_id entry) in
    if decide (node_id = "" ∨ node_id ∈ acc) then acc else acc ++ [node_id]) [] membership in
  if decide (self_node_id ∈ normalized) then normalized else normalized ++ [self_node_id].

Definition supermajority_threshold (members : nat) : nat := Nat.max 1 ((2 * members) / 3 + 1).

Definition membership_entry_json (e : MembershipEntry) : json :=
  JObj [("node_id", JStr (me_node_id e)); ("address", JStr (me_address e));
        ("role", JStr (me_role e)); ("is_self", JBool (me_is_self e))].

Definition membership_fingerprint (node_ids : list string) : string :=
  sha256_hex (utf8_encode (py_join "::" node_ids)).

Record MembershipSnapshot := mkSnapshot {
  ms_epoch : Z;
  ms_members : list MembershipEntry;
  ms_hash : string;
  ms_size : Z }.

Definition membership_snapshot (epoch : Z) (members : list MembershipEntry) : MembershipSnapshot :=
  let normalized := sort_on me_node_id String.compare members in
  mkSnapshot epoch normalized (membership_fingerprint (me_node_id <$> normalized))
    (Z.of_nat (length normalized)).

(** ** Ancestry *)
Fixpoint ancestor_ids (fuel : nat) (by_id : EventMap) (cache : AncestorCache) (event_id : string)
    : AncestorCache * gset string :=
  match fuel with
  | O => (cache, ∅)
  | S fuel' =>
      match cache !! event_id with
      | Some seen => (cache, seen)
      | None =>
          match by_id !! event_id with
          | None => (<[event_id := ∅]> cache, ∅)
          | Some event =>
              let '(cache', seen) :=
                foldl (λ '(c, seen) parent_id,
                         let '(c', up) := ancestor_ids fuel' by_id c parent_id in
                         (c', seen ∪ {[parent_id]} ∪ up))
                  (cache, ∅) (ev_parents event) in
              (<[event_id := seen]> cache', seen)
          end
      end
  end.

Definition ancestors (by_id : EventMap) (event_id : string) : gset string :=
  (ancestor_ids (S (size by_id)) by_id ∅ event_id).2.

Definition can_see (by_id : EventMap) (observer_id target_id : string) : bool :=
  bool_decide (observer_id = target_id ∨ target_id ∈ ancestors by_id observer_id).

Definition sees_supermajority (by_id : EventMap) (event_id : string)
    (witness_ids membership_ids : list string) : bool :=
  let seen_creators : gset string := list_to_set (omap (λ witness_id,
    w ← by_id !! witness_id;
    if can_see by_id event_id witness_id then Some (event_creator w) else None) witness_ids) in
  bool_decide (supermajority_threshold (length membership_ids)
               ≤ size (seen_creators ∩ list_to_set membership_ids))%nat.

(** ** Rounds and witnesses: the first loop of [recompute] *)
Record RoundState := mkRounds {
  rs_rounds : gmap string Z;
  rs_witness_flags : gmap string bool;
  rs_witnesses_by_round : WitnessMap }.

Definition empty_rounds : RoundState := mkRounds ∅ ∅ ∅.

Definition witnesses_at (w : WitnessMap) (r : Z) : gmap string string := default ∅ (w !! r).

Definition base_round (st : RoundState) (event : Event) : Z :=
  max_list_Z 0 (omap (λ p, rs_rounds st !! p) (ev_parents event)).

Definition event_round (by_id : EventMap) (membership_ids : list string)
    (st : RoundState) (event : Event) : Z :=
  let base := base_round st event in
  let witness_ids := map_values (witnesses_at (rs_witnesses_by_round st) base) in
  if bool_decide (witness_ids ≠ []) && sees_supermajority by_id (ev_id event) witness_ids membership_ids
  then base + 1 else base.

Definition round_step (by_id : EventMap) (membership_ids : list string)
    (st : RoundState) (event : Event) : RoundState :=
  let creator := event_creator event in
  let r := event_round by_id membership_ids st event in
  let creator_witnesses := witnesses_at (rs_witnesses_by_round st) r in
  let is_witness := bool_decide (creator_witnesses !! creator = None) in
  let creator_witnesses' :=
    if is_witness then <[creator := ev_id event]> creator_witnesses else creator_witnesses in
  mkRounds (<[ev_id event := r]> (rs_rounds st))
    (<[ev_id event := is_witness]> (rs_witness_flags st))
    (<[r := creator_witnesses']> (rs_witnesses_by_round st)).

Definition compute_rounds (by_id : EventMap) (membership_ids : list string)
    (topo : list Event) : RoundState :=
  foldl (round_step by_id membership_ids) empty_rounds topo.

(** ** Fame voting *)
Record FameDecision := mkFame {
  fd_famous : bool;
  fd_decided : bool;
  fd_decision_round : option Z;
  fd_decision_kind : string;
  fd_needs_coin : bool;
  fd_coin_used : bool;
  fd_coin_round : option Z;
  fd_vote_round : option Z;
  fd_vote_yes : Z;
  fd_vote_no : Z }.

Definition pending_decision : FameDecision :=
  mkFame false false None "pending" false false None None 0 0.

Definition deterministic_coin_choice (witness_id : string) (vote_round : Z) : bool :=
  let digest := sha256 (utf8_encode (witness_id +:+ ":" +:+ py_str_int vote_round)) in
  negb (Z.land (nth 0 digest 0) 1 =? 0).

Definition is_yes (v : option bool) : bool := match v with Some true => true | _ => false end.
Definition is_no (v : option bool) : bool := match v with Some false => true | _ => false end.

(** The votes cast in round [round_no + 1]: direct visibility. *)
Definition first_votes (by_id : EventMap) (membership_ids : list string)
    (next_witnesses : gmap string string) (witness_id : string) : Votes :=
  map_imap (λ next_creator next_witness_id,
    if decide (next_creator ∈ membership_ids)
    then Some (Some (can_see by_id next_witness_id witness_id)) else None) next_witnesses.

Definition visible_votes (by_id : EventMap) (membership_ids : list string)
    (previous_witnesses : gmap string string) (previous_votes : Votes)
    (later_witness_id : string) : list (option bool) :=
  omap (λ p : string * option bool,
    let '(prev_creator, vote) := p in
    match previous_witnesses !! prev_creator, vote with
    | Some prev_witness, Some _ =>
        if bool_decide (prev_creator ∈ membership_ids) && can_see by_id later_witness_id prev_witness
        then Some vote else None
    | _, _ => None
    end) (map_to_list previous_votes).

Definition collected_vote (threshold : nat) (visible : list (option bool)) : option bool :=
  if (threshold <=? count_if is_yes visible)%nat then Some true
  else if (threshold <=? count_if is_no visible)%nat then Some false
  else None.

Definition later_votes (by_id : EventMap) (membership_ids : list string) (threshold : nat)
    (w : WitnessMap) (previous_votes : Votes) (later_round : Z) : Votes :=
  map_imap (λ later_creator later_witness_id,
    if decide (later_creator ∈ membership_ids)
    then Some (collected_vote threshold
                 (visible_votes by_id membership_ids (witnesses_at w (later_round - 1))
                    previous_votes later_witness_id))
    else None) (witnesses_at w later_round).

Definition record_votes (h : VoteHistory) (r : Z) (v : Votes) : VoteHistory :=
  if decide (v = ∅) then h else <[r := v]> h.

Definition witness_vote_history (by_id : EventMap) (membership_ids : list string) (threshold : nat)
    (w : WitnessMap) (ordered_rounds : list Z) (round_no : Z) (witness_id : string) : VoteHistory :=
  let next_round := round_no + 1 in
  let previous_votes := first_votes by_id membership_ids (witnesses_at w next_round) witness_id in
  let history := record_votes ∅ next_round previous_votes in
  (foldl (λ '(history, previous_votes) later_round,
     if later_round <=? round_no + 1 then (history, previous_votes)
     else
       let current_votes := later_votes by_id membership_ids threshold w previous_votes later_round in
       (record_votes history later_round current_votes, current_votes))
    (history, previous_votes) ordered_rounds).1.

Fixpoint resolve_votes (threshold : nat) (history : VoteHistory) (rounds : list Z)
    (decision : FameDecision) : FameDecision :=
  match rounds with
  | [] => decision
  | vote_round :: rest =>
      let votes := map_values (default ∅ (history !! vote_round)) in
      let yes_total := count_if is_yes votes in
      let no_total := count_if is_no votes in
      let decided famous :=
        mkFame famous true (Some vote_round) "vote" false false None
          (Some vote_round) (Z.of_nat yes_total) (Z.of_nat no_total) in
      if (threshold <=? yes_total)%nat then decided true
      else if (threshold <=? no_total)%nat then decided false
      else resolve_votes threshold history rest
             (mkFame (fd_famous decision) (fd_decided decision) (fd_decision_round decision)
                (fd_decision_kind decision) (fd_needs_coin decision) (fd_coin_used decision)
                (fd_coin_round decision)
                (Some vote_round) (Z.of_nat yes_total) (Z.of_nat no_total))
  end.

Definition resolve_fame_from_vote_history (witness_id : string) (history : VoteHistory)
    (threshold : nat) : FameDecision :=
  let rounds := sorted_keys history in
  let decision := resolve_votes threshold history rounds pending_decision in
  if fd_decided decision then decision
  else if (2 <=? length rounds)%nat then
    let coin_round := max_list_Z 0 rounds in
    mkFame (deterministic_coin_choice witness_id coin_round) true (Some coin_round) "coin_surrogate"
      false true (Some coin_round) (fd_vote_round decision) (fd_vote_yes decision) (fd_vote_no decision)
  else decision.

Abbreviation FameMap := (gmap Z (gmap string FameDecision)).

(** [{witness_id: f(witness_id) for creator, witness_id in witnesses.items()}] *)
Definition by_witness {A} (f : string → A) (witnesses : gmap string string) : gmap string A :=
  map_fold (λ _ witness_id m, <[witness_id := f witness_id]> m) ∅ witnesses.

(** The two components of [_fame_vote_history_and_decisions]. *)
Definition vote_history_by_round (by_id : EventMap) (membership_ids : list string)
    (w : WitnessMap) : gmap Z (gmap string VoteHistory) :=
  let threshold := supermajority_threshold (length membership_ids) in
  let ordered_rounds := sorted_keys w in
  map_imap (λ round_no witnesses,
    Some (by_witness (witness_vote_history by_id membership_ids threshold w ordered_rounds round_no)
            witnesses)) w.

Definition fame_decisions_by_round (by_id : EventMap) (membership_ids : list string)
    (w : WitnessMap) : FameMap :=
  let threshold := supermajority_threshold (length membership_ids) in
  fmap (M := gmap Z) (map_imap (λ witness_id history,
    Some (resolve_fame_from_vote_history witness_id history threshold)))
    (vote_history_by_round by_id membership_ids w).

Definition fame_of (fame : FameMap) (r : Z) (witness_id : string) : option FameDecision :=
  fame_state ← fame !! r; fame_state !! witness_id.

Definition is_famous (fame : FameMap) (r : Z) (witness_id : string) : bool :=
  match fame_of fame r witness_id with
  | Some d => fd_decided d && fd_famous d
  | None => false
  end.

(** [famous_witnesses_by_round] of [recompute]. *)
Definition famous_witnesses (fame : FameMap) (w : WitnessMap) : WitnessMap :=
  map_imap (λ round_no witnesses,
    Some (filter (λ p, is_famous fame round_no p.2 = true) witnesses)) w.

(** ** Round received, consensus timestamp, total order *)
Definition round_witnesses (w famous : WitnessMap) (fame : FameMap) (round_no : Z)
    : option (gmap string string) :=
  let fame_state := map_values (default ∅ (fame !! round_no)) in
  if bool_decide (fame_state ≠ []) && forallb fd_decided fame_state
  then Some (witnesses_at famous round_no)
  else if bool_decide (fame_state ≠ []) && existsb fd_decided fame_state
  then None
  else Some (witnesses_at w round_no).

Definition seeing_creators (by_id : EventMap) (witnesses : gmap string string) (event_id : string)
    : gset string :=
  dom (filter (λ p, can_see by_id p.2 event_id = true) witnesses).

Definition receives (by_id : EventMap) (membership_ids : list string) (w famous : WitnessMap)
    (fame : FameMap) (event_id : string) (round_no : Z) : bool :=
  match round_witnesses w famous fame round_no with
  | None => false
  | Some witnesses =>
      bool_decide (supermajority_threshold (length membership_ids)
        ≤ size (seeing_creators by_id witnesses event_id ∩ list_to_set membership_ids))%nat
  end.

Definition round_received (by_id : EventMap) (membership_ids : list string) (w famous : WitnessMap)
    (fame : FameMap) (event_id : string) : option Z :=
  List.find (receives by_id membership_ids w famous fame event_id) (sorted_keys w).

Definition observe_hop (membership_ids : list string) (observations : gmap string Q) (hop : Hop)
    : gmap string Q :=
  let node_id := py_strip (str_or_opt (hop_node hop) "") in
  match hop_ts hop with
  | Some ts =>
      if decide (node_id ∈ membership_ids) then
        match observations !! node_id with
        | Some t => if ts <?q t then <[node_id := ts]> observations else observations
        | None => <[node_id := ts]> observations
        end
      else observations
  | None => observations
  end.

Definition observations (membership_ids : list string) (hops : list Hop) : gmap string Q :=
  foldl (observe_hop membership_ids) ∅ hops.

Definition consensus_timestamp (event_id : string) (membership_ids : list string) (quorum : nat)
    (path_meta_by_event : PathMeta) : option Q :=
  let obs := observations membership_ids (default [] (path_meta_by_event !! event_id)) in
  if bool_decide (size obs < quorum)%nat then None
  else match median (map_values obs) with Ok m => Some m | Err _ => None end.

Abbreviation Resolved := (gmap string (option Z * option Q)).
Abbreviation order_key := (option Z * (option Q * (string * nat)))%type.

Definition cmp_order_key : order_key → order_key → comparison :=
  cmp_pair (cmp_inf Z.compare) (cmp_pair (cmp_inf Qcompare) (cmp_pair String.compare Nat.compare)).

Definition order_key_of (resolved : Resolved) (index : nat) (event : Event) : order_key :=
  let '(rr, ts) := default (ev_round_received event, ev_consensus_ts event)
                     (resolved !! ev_id event) in
  (rr, (ts, (ev_id event, index))).

(** [resolved = None] and [resolved = {}] behave alike: both are [∅]. *)
Definition total_order (events : list Event) (resolved : Resolved) : list Event :=
  (sort_on fst cmp_order_key (imap (λ index event, (order_key_of resolved index event, event)) events)).*2.

(** ** [recompute] *)
Definition state_of (by_id : EventMap) (membership_ids : list string) (quorum : nat)
    (path_meta_by_event : PathMeta) (rounds : RoundState) (famous : WitnessMap) (fame : FameMap)
    (event : Event) : ConsensusState :=
  let w := rs_witnesses_by_round rounds in
  let rr := round_received by_id membership_ids w famous fame (ev_id event) in
  let ts := consensus_timestamp (ev_id event) membership_ids quorum path_meta_by_event in
  let r := default 0 (rs_rounds rounds !! ev_id event) in
  let d := default pending_decision (fame_of fame r (ev_id event)) in
  mkState (ev_id event) (event_creator event) (ev_self_parent_id event) (ev_other_parent_id event)
    r rr (default false (rs_witness_flags rounds !! ev_id event))
    (fd_famous d) (fd_decided d) (fd_decision_round d) (fd_decision_kind d) (fd_needs_coin d)
    (fd_coin_used d) (fd_coin_round d) (fd_vote_round d) (fd_vote_yes d) (fd_vote_no d)
    (match rr with Some _ => ts | None => None end).

Definition resolve_all (by_id : EventMap) (membership_ids : list string) (quorum : nat)
    (path_meta_by_event : PathMeta) (w famous : WitnessMap) (fame : FameMap)
    (topo : list Event) : Resolved :=
  foldl (λ m event, <[ev_id event :=
    (round_received by_id membership_ids w famous fame (ev_id event),
     consensus_timestamp (ev_id event) membership_ids quorum path_meta_by_event)]> m) ∅ topo.

Definition ordering_map (ordered : list Event) : gmap string nat :=
  foldl (λ m p, <[ev_id p.2 := p.1]> m) ∅ (imap pair ordered).

Definition recompute (self_node_id : string) (events : list Event)
    (membership : list MembershipEntry) (path_meta_by_event : PathMeta) : list ConsensusState :=
  if bool_decide (events = []) then []
  else
    let membership_ids := normalize_membership self_node_id membership in
    let topo := events in
    let by_id := events_by_id topo in
    let rounds := compute_rounds by_id membership_ids topo in
    let w := rs_witnesses_by_round rounds in
    let fame := fame_decisions_by_round by_id membership_ids w in
    let famous := famous_witnesses fame w in
    let quorum := supermajority_threshold (length membership_ids) in
    let resolved := resolve_all by_id membership_ids quorum path_meta_by_event w famous fame topo in
    let index := ordering_map (total_order topo resolved) in
    state_of by_id membership_ids quorum path_meta_by_event rounds famous fame
      <$> sort_on (λ e, default 0%nat (index !! ev_id e)) Nat.compare topo.
