(* ===== verification/ConsensusFacts.v ===== *)
(** Theorems about the consensus engine of Consensus.v: ancestry and its memo
    table, the total order, rounds and witnesses, fame voting, round received
    and the consensus timestamp. *)
From S2P Require Import Prelude Sha256 Json VectorClock Models Utils Consensus.

(** ** Ancestry *)
Definition parent_of (by_id : EventMap) (p c : string) : Prop :=
  ∃ ev, by_id !! c = Some ev ∧ p ∈ ev_parents ev.

(** [anc by_id x y]: [x] is a proper ancestor of [y]. *)
Definition anc (by_id : EventMap) : string → string → Prop := tc (parent_of by_id).

(** A rank that decreases from child to stored parent; [S rank] bounds the
    recursion depth. *)
Definition ranked (by_id : EventMap) (rank : string → nat) : Prop :=
  ∀ p c, parent_of by_id p c → is_Some (by_id !! p) → (rank p < rank c)%nat.

Definition cache_valid (by_id : EventMap) (cache : AncestorCache) : Prop :=
  ∀ y seen, cache !! y = Some seen → ∀ x, x ∈ seen ↔ anc by_id x y.

Lemma anc_step by_id x y ev :
  by_id !! y = Some ev → anc by_id x y ↔ ∃ p, p ∈ ev_parents ev ∧ (x = p ∨ anc by_id x p).
Proof.
  intros Hy. split.
  - intros Hxy. induction Hxy as [x y (ev' & He & Hp)|x z y (ev' & He & Hp) Hzy IH].
    + rewrite Hy in He. injection He as ->. eauto.
    + destruct (IH Hy) as (p & Hpp & [->|Hzp]).
      * exists p. split; [done|]. right. apply tc_once. by exists ev'.
      * exists p. split; [done|]. right. eapply tc_l; [by exists ev'|done].
  - intros (p & Hp & [->|Hxp]).
    + apply tc_once. by exists ev.
    + eapply tc_r; [exact Hxp|]. by exists ev.
Qed.

Lemma anc_None by_id x y : by_id !! y = None → ¬ anc by_id x y.
Proof.
  intros Hy Hxy. induction Hxy as [x y (ev & He & _)|x z y _ _ IH]; [congruence|auto].
Qed.

Section memo.
Context (by_id : EventMap) (rank : string → nat).
Context (Hrank : ranked by_id rank).

Definition answer_ok (r : AncestorCache * gset string) (y : string) : Prop :=
  cache_valid by_id r.1 ∧ ∀ x, x ∈ r.2 ↔ anc by_id x y.

Lemma cache_valid_insert cache y seen :
  cache_valid by_id cache → (∀ x, x ∈ seen ↔ anc by_id x y) →
  cache_valid by_id (<[y := seen]> cache).
Proof.
  intros Hc Hs z s. destruct (decide (y = z)) as [->|].
  - rewrite lookup_insert_eq. by intros [= <-].
  - rewrite lookup_insert_ne by done. apply Hc.
Qed.

Lemma ancestor_fold_ok f ps cache seen :
  (∀ p c, p ∈ ps → cache_valid by_id c → answer_ok (f c p) p) →
  cache_valid by_id cache →
  let r := foldl (λ '(c, seen) p, let '(c', up) := f c p in (c', seen ∪ {[p]} ∪ up)) (cache, seen) ps in
  cache_valid by_id r.1 ∧
  ∀ x, x ∈ r.2 ↔ x ∈ seen ∨ ∃ p, p ∈ ps ∧ (x = p ∨ anc by_id x p).
Proof.
  revert cache seen. induction ps as [|p ps IH]; intros cache seen Hf Hc; simpl.
  - split; [done|]. intros x. set_solver.
  - destruct (Hf p cache (list_elem_of_here _ _) Hc) as [Hc' Hup].
    destruct (f cache p) as [c' up]. simpl in *.
    destruct (IH c' (seen ∪ {[p]} ∪ up)) as [H1 H2]; [|done|].
    { intros q c Hq. apply Hf. by right. }
    split; [done|]. intros x. rewrite H2. set_solver.
Qed.

Lemma ancestor_ids_ok fuel cache y :
  (S (if decide (is_Some (by_id !! y)) then S (rank y) else 0) <= fuel)%nat →
  cache_valid by_id cache → answer_ok (ancestor_ids fuel by_id cache y) y.
Proof.
  revert cache y. induction fuel as [|fuel IH]; intros cache y Hfuel Hc; [lia|].
  simpl. destruct (cache !! y) as [seen|] eqn:Hcy; [split; [done|by eapply Hc]|].
  destruct (by_id !! y) as [ev|] eqn:Hy.
  - rewrite decide_True in Hfuel by done.
    pose proof (ancestor_fold_ok (ancestor_ids fuel by_id) (ev_parents ev) cache ∅) as Hfold.
    destruct (foldl _ (cache, ∅) (ev_parents ev)) as [c' seen]. simpl in Hfold.
    destruct Hfold as [Hc' Hs]; [|done|].
    + intros p c Hp Hcv. apply IH; [|done]. case_decide as Hsome; [|lia].
      assert (rank p < rank y)%nat; [|lia]. apply Hrank; [by exists ev|done].
    + assert (∀ x, x ∈ seen ↔ anc by_id x y) as Hseen.
      { intros x. rewrite Hs, (anc_step by_id x y ev) by done. set_solver. }
      split; simpl; [by apply cache_valid_insert|done].
  - assert (∀ x, x ∈ (∅ : gset string) ↔ anc by_id x y) as Hseen.
    { intros x. split; [set_solver|]. intros Hx. by apply anc_None in Hx. }
    split; simpl; [by apply cache_valid_insert|done].
Qed.
End memo.

(** ** Topologically ordered event lists *)

(** Ids are distinct and every parent that is present comes earlier. *)
Definition topo_ordered (events : list Event) : Prop :=
  NoDup (ev_id <$> events) ∧
  ∀ i e p, events !! i = Some e → p ∈ ev_parents e → p ∈ ev_id <$> events →
    p ∈ ev_id <$> take i events.

Lemma events_by_id_snoc l e : events_by_id (l ++ [e]) = <[ev_id e := e]> (events_by_id l).
Proof. unfold events_by_id. by rewrite foldl_app. Qed.

Lemma events_by_id_Some l y e : events_by_id l !! y = Some e → e ∈ l ∧ ev_id e = y.
Proof.
  induction l as [|e' l IH] using rev_ind; [done|].
  rewrite events_by_id_snoc. destruct (decide (ev_id e' = y)) as [<-|Hne].
  - rewrite lookup_insert_eq. intros [= ->]. set_solver.
  - rewrite lookup_insert_ne by done. intros H. apply IH in H. set_solver.
Qed.

Lemma events_by_id_in l e : NoDup (ev_id <$> l) → e ∈ l → events_by_id l !! ev_id e = Some e.
Proof.
  induction l as [|e' l IH] using rev_ind; [set_solver|].
  rewrite events_by_id_snoc, fmap_app, NoDup_app. intros (Hd & Hnot & _) He.
  apply elem_of_app in He as [He|He].
  - rewrite lookup_insert_ne; [by apply IH|]. intros Heq.
    apply (Hnot (ev_id e)); [by apply list_elem_of_fmap_2|]. simpl. rewrite Heq. by left.
  - apply list_elem_of_singleton in He as ->. apply lookup_insert_eq.
Qed.

Lemma events_by_id_is_Some l y : is_Some (events_by_id l !! y) ↔ y ∈ ev_id <$> l.
Proof.
  split.
  - intros [e He]. apply events_by_id_Some in He as [He <-]. by apply list_elem_of_fmap_2.
  - induction l as [|e l IH] using rev_ind; [set_solver|].
    rewrite events_by_id_snoc, fmap_app, elem_of_app. intros Hy.
    destruct (decide (ev_id e = y)) as [<-|Hne]; [rewrite lookup_insert_eq; eauto|].
    rewrite lookup_insert_ne by done. apply IH. set_solver.
Qed.

Lemma size_events_by_id l : NoDup (ev_id <$> l) → size (events_by_id l) = length l.
Proof.
  induction l as [|e l IH] using rev_ind; [done|].
  rewrite events_by_id_snoc, fmap_app, NoDup_app, length_app. intros (Hd & Hnot & _).
  rewrite map_size_insert_None; [rewrite IH by done; simpl; lia|].
  apply eq_None_not_Some. intros Hs%events_by_id_is_Some. apply (Hnot _ Hs). by left.
Qed.

(** The position of an id, used as its rank. *)
Definition id_index (l : list Event) (y : string) : nat :=
  match list_find (λ e, ev_id e = y) l with Some (i, _) => i | None => 0%nat end.

Lemma id_index_lookup l i e :
  NoDup (ev_id <$> l) → l !! i = Some e → id_index l (ev_id e) = i.
Proof.
  intros Hd Hi. unfold id_index.
  destruct (list_find _ l) as [[j e']|] eqn:Hf.
  - apply list_find_Some in Hf as (Hj & Heq & _).
    eapply (NoDup_lookup _ j i (ev_id e)); [exact Hd|..]; rewrite list_lookup_fmap, ?Hj, ?Hi; simpl; congruence.
  - apply list_find_None in Hf. rewrite Forall_forall in Hf.
    destruct (Hf e); [by eapply list_elem_of_lookup_2|done].
Qed.

Lemma topo_ranked l : topo_ordered l → ranked (events_by_id l) (id_index l).
Proof.
  intros [Hd Ho] p c (ev & Hc & Hp) Hsome.
  apply events_by_id_Some in Hc as [Hin <-]. apply events_by_id_is_Some in Hsome.
  apply list_elem_of_lookup in Hin as [i Hi].
  rewrite (id_index_lookup l i ev) by done.
  specialize (Ho i ev p Hi Hp Hsome). apply list_elem_of_fmap in Ho as (e & -> & He).
  apply list_elem_of_lookup in He as [j Hj].
  assert (j < i)%nat as Hji.
  { pose proof (lookup_lt_Some _ _ _ Hj). rewrite length_take in *. lia. }
  rewrite lookup_take_lt in Hj by done. by rewrite (id_index_lookup l j e).
Qed.

Lemma id_index_lt l y : y ∈ ev_id <$> l → (id_index l y < length l)%nat.
Proof.
  intros Hy. unfold id_index. destruct (list_find _ l) as [[j e]|] eqn:Hf.
  - apply list_find_Some in Hf as (Hj & _). by eapply lookup_lt_Some.
  - destruct l; [set_solver|simpl; lia].
Qed.

(** C12: with fuel [S (size by_id)] the memoised ancestor search ends, its answer
    is the set of proper ancestors, and it keeps the memo table valid: the
    answer does not depend on which valid table the search starts from. *)
Theorem ancestor_ids_memo (events : list Event) (cache : AncestorCache) (event_id : string) :
  topo_ordered events → cache_valid (events_by_id events) cache →
  let by_id := events_by_id events in
  let '(cache', seen) := ancestor_ids (S (size by_id)) by_id cache event_id in
  cache_valid by_id cache' ∧ seen = ancestors by_id event_id ∧
  ∀ x, x ∈ seen ↔ anc by_id x event_id.
Proof.
  intros Ht Hc by_id.
  assert (∀ c, cache_valid by_id c → answer_ok by_id (ancestor_ids (S (size by_id)) by_id c event_id) event_id) as Hok.
  { intros c Hcv. apply (ancestor_ids_ok by_id (id_index events)); [by apply topo_ranked| |done].
    unfold by_id. rewrite size_events_by_id by apply Ht. case_decide as Hs; [|lia].
    apply events_by_id_is_Some, id_index_lt in Hs. lia. }
  destruct (Hok cache Hc) as [H1 H2].
  destruct (Hok ∅) as [_ H3]; [by intros y s Hs|].
  destruct (ancestor_ids _ by_id cache event_id) as [cache' seen]. simpl in *.
  split_and!; [done| |done]. apply set_eq. intros x. by rewrite H2, H3.
Qed.

Definition topo_check (events : list Event) : bool :=
  bool_decide (NoDup (ev_id <$> events)) &&
  forallb (λ p : nat * Event, forallb (λ q,
    negb (bool_decide (q ∈ ev_id <$> events)) || bool_decide (q ∈ ev_id <$> take p.1 events))
    (ev_parents p.2)) (imap pair events).

Lemma topo_check_ordered events : topo_check events = true → topo_ordered events.
Proof.
  unfold topo_check. rewrite andb_true_iff, bool_decide_eq_true, forallb_forall.
  intros [Hd Ho]. split; [done|]. intros i e p Hi Hp Hin.
  specialize (Ho (i, e)). rewrite forallb_forall in Ho.
  assert ((i, e) ∈ imap pair events) as Hie.
  { apply list_elem_of_lookup. exists i. by rewrite list_lookup_imap, Hi. }
  apply list_elem_of_In in Hie, Hp. specialize (Ho Hie p Hp). simpl in Ho.
  reflect_bool. by destruct Ho.
Qed.

(** A small run of three nodes, used by the witnesses: each node issues a first
    event, then events that join the others' latest ones. *)
Definition sample_event (id creator : string) (parents : list string) : Event :=
  {| ev_id := id; ev_cls := B; ev_source := creator; ev_creator := creator;
     ev_ts_local := 0; ev_vclock := ∅; ev_parents := parents;
     ev_self_parent_id := parents !! 0%nat; ev_other_parent_id := parents !! 1%nat;
     ev_payload := []; ev_sig := None; ev_consensus_ts := None; ev_lamport_ts := None;
     ev_round := None; ev_round_received := None; ev_is_witness := false;
     ev_is_famous_witness := false; ev_fame_decided := false; ev_fame_decision_round := None;
     ev_fame_decision_kind := "pending"; ev_fame_needs_coin := false; ev_fame_coin_used := false;
     ev_fame_coin_round := None; ev_fame_vote_round := None; ev_fame_vote_yes := 0;
     ev_fame_vote_no := 0 |}.

Definition sample_layer (prev cur : string) (from : list string) : list Event :=
  (λ c, sample_event (cur +:+ c) c ((λ d, prev +:+ d) <$> from)) <$> ["n1"; "n2"; "n3"].

Definition sample_run : list Event :=
  sample_layer "" "a" [] ++
  sample_layer "a" "b" ["n1"; "n2"; "n3"] ++
  sample_layer "b" "c" ["n1"; "n2"; "n3"] ++
  sample_layer "c" "d" ["n1"; "n2"; "n3"].

Definition sample_members : list MembershipEntry :=
  (λ n, mkMember n (n +:+ ":9001") "node" false) <$> ["n1"; "n2"; "n3"].

Definition sample_path_meta : PathMeta :=
  {["an1" := [mkHop (Some "n1") (Some (1 # 1)); mkHop (Some "n2") (Some (3 # 1));
              mkHop (Some "n3") (Some (2 # 1))]]}.

Lemma sample_run_topo : topo_ordered sample_run.
Proof. apply topo_check_ordered. vm_compute. reflexivity. Qed.

Example sample_run_states :
  (λ s, (cs_event_id s, (cs_round s, cs_round_received s, cs_consensus_ts s))) <$>
    take 4 (recompute "n1" sample_run sample_members sample_path_meta)
  = [("an1", (0, Some 1, Some (2 # 1)%Q)); ("an2", (0, Some 1, None)); ("an3", (0, Some 1, None));
     ("bn1", (1, Some 2, None))].
Proof. vm_compute. reflexivity. Qed.

Lemma ancestor_ids_memo_witness :
  let by_id := events_by_id sample_run in
  topo_ordered sample_run ∧ cache_valid by_id ∅ ∧
  let '(cache', seen) := ancestor_ids (S (size by_id)) by_id ∅ "bn2" in
  cache_valid by_id cache' ∧ seen = ancestors by_id "bn2" ∧ ∀ x, x ∈ seen ↔ anc by_id x "bn2".
Proof.
  intros by_id. assert (cache_valid by_id ∅) as Hc by (intros y s H; discriminate H).
  split; [exact sample_run_topo|]. split; [exact Hc|].
  exact (ancestor_ids_memo sample_run ∅ "bn2" sample_run_topo Hc).
Defined.

(** ** The total order *)
Abbreviation event_key := (option Z * (option Q * string))%type.
Definition cmp_event_key : event_key → event_key → comparison :=
  cmp_pair (cmp_inf Z.compare) (cmp_pair (cmp_inf Qcompare) String.compare).
Definition event_key_of (resolved : Resolved) (e : Event) : event_key :=
  let '(rr, ts) := default (ev_round_received e, ev_consensus_ts e) (resolved !! ev_id e) in
  (rr, (ts, ev_id e)).

Lemma cmp_event_key_id resolved e1 e2 :
  cmp_event_key (event_key_of resolved e1) (event_key_of resolved e2) = Eq → ev_id e1 = ev_id e2.
Proof.
  unfold cmp_event_key, event_key_of, cmp_pair, cmp_then.
  destruct (default _ (resolved !! ev_id e1)), (default _ (resolved !! ev_id e2)); simpl.
  repeat (case_match; try done). intros. by apply String.compare_eq_iff.
Qed.

Lemma cmp_order_key_drop resolved i j e1 e2 :
  cmp_order_key (order_key_of resolved i e1) (order_key_of resolved j e2) ≠ Gt →
  cmp_event_key (event_key_of resolved e1) (event_key_of resolved e2) ≠ Gt.
Proof.
  unfold cmp_order_key, cmp_event_key, order_key_of, event_key_of, cmp_pair, cmp_then.
  destruct (default _ (resolved !! ev_id e1)), (default _ (resolved !! ev_id e2)); simpl.
  by repeat case_match.
Qed.

Definition decorate (resolved : Resolved) (events : list Event) : list (order_key * Event) :=
  imap (λ index event, (order_key_of resolved index event, event)) events.

Lemma total_order_perm events resolved : total_order events resolved ≡ₚ events.
Proof.
  unfold total_order. rewrite sort_on_perm.
  assert ((imap (λ index event, (order_key_of resolved index event, event)) events).*2 = events) as ->;
    [|done].
  rewrite fmap_imap. by apply list_eq; intros i; rewrite list_lookup_imap; destruct (events !! i).
Qed.

Lemma total_order_sorted events resolved :
  StronglySorted (λ a b, cmp_event_key (event_key_of resolved a) (event_key_of resolved b) ≠ Gt)
    (total_order events resolved).
Proof.
  unfold total_order. fold (decorate resolved events).
  assert (Forall (λ p, ∃ i, p.1 = order_key_of resolved i p.2)
    (sort_on fst cmp_order_key (decorate resolved events))) as Hk.
  { rewrite sort_on_perm. apply Forall_lookup. intros i [k e] Hi. unfold decorate in Hi.
    rewrite list_lookup_imap in Hi. destruct (events !! i); simplify_eq/=. eauto. }
  pose proof (sort_on_sorted fst cmp_order_key (decorate resolved events)) as Hs.
  induction Hs as [|[k e] l Hs IH Hx]; simpl; [constructor|].
  apply Forall_cons in Hk as [[i Hi] Hk]. simpl in Hi. constructor; [by apply IH|].
  apply Forall_fmap. rewrite Forall_forall in Hx, Hk. apply Forall_forall.
  intros [k' e'] He'. destruct (Hk _ He') as [j Hj]. specialize (Hx _ He'). simpl in *.
  rewrite Hi, Hj in Hx. by apply cmp_order_key_drop in Hx.
Qed.

(** The total order is a permutation of the events sorted by (round received,
    consensus timestamp, id), missing values last. *)
Theorem total_order_spec (events : list Event) (resolved : Resolved) :
  total_order events resolved ≡ₚ events ∧
  StronglySorted (λ a b, cmp_event_key (event_key_of resolved a) (event_key_of resolved b) ≠ Gt)
    (total_order events resolved).
Proof. split; [apply total_order_perm|apply total_order_sorted]. Qed.

Lemma NoDup_id_inj (l : list Event) e1 e2 :
  NoDup (ev_id <$> l) → e1 ∈ l → e2 ∈ l → ev_id e1 = ev_id e2 → e1 = e2.
Proof.
  intros Hd H1 H2 Heq. apply events_by_id_in in H1, H2; [|done..]. congruence.
Qed.

(** Two nodes that hold the same events with the same resolved rounds and
    timestamps list them in the same order, whatever order each stored them in. *)
Theorem total_order_deterministic (l1 l2 : list Event) (resolved : Resolved) :
  NoDup (ev_id <$> l1) → l1 ≡ₚ l2 → total_order l1 resolved = total_order l2 resolved.
Proof.
  intros Hd Hp.
  eapply StronglySorted_unique_strong; [|apply total_order_sorted..|by rewrite !total_order_perm].
  intros x y Hx Hy Hxy Hyx. rewrite total_order_perm in Hx, Hy. rewrite <- Hp in Hy.
  apply (NoDup_id_inj l1); [done..|]. apply (cmp_event_key_id resolved).
  apply (cmp_leb_antisym cmp_event_key); by apply (cmp_leb_le cmp_event_key).
Qed.

Lemma total_order_deterministic_witness :
  NoDup (ev_id <$> sample_run) ∧ sample_run ≡ₚ reverse sample_run ∧
  total_order sample_run ∅ = total_order (reverse sample_run) ∅.
Proof.
  assert (NoDup (ev_id <$> sample_run)) as Hd by exact (proj1 sample_run_topo).
  assert (sample_run ≡ₚ reverse sample_run) as Hp by (symmetry; apply reverse_Permutation).
  split; [exact Hd|]. split; [exact Hp|].
  exact (total_order_deterministic sample_run (reverse sample_run) ∅ Hd Hp).
Defined.

(** ** [recompute] emits one state per event, in total order *)
Lemma ordering_map_lookup (l : list Event) i e :
  NoDup (ev_id <$> l) → l !! i = Some e → ordering_map l !! ev_id e = Some i.
Proof.
  unfold ordering_map. revert i e. induction l as [|e' l IH] using rev_ind; intros i e; [done|].
  rewrite imap_app, foldl_app, fmap_app, NoDup_app. intros (Hd & Hnot & _) Hi. simpl.
  rewrite Nat.add_0_r.
  apply lookup_app_Some in Hi as [Hi|[Hge Hi]].
  - rewrite lookup_insert_ne; [by apply IH|]. intros Heq.
    apply (Hnot (ev_id e)); [by eapply list_elem_of_fmap_2, list_elem_of_lookup_2|].
    simpl. rewrite Heq. by left.
  - assert (i = length l) as ->.
    { apply lookup_lt_Some in Hi. simpl in Hi. lia. }
    rewrite Nat.sub_diag in Hi. simpl in Hi. injection Hi as ->. apply lookup_insert_eq.
Qed.

Lemma sort_by_position (topo ordered : list Event) :
  NoDup (ev_id <$> topo) → ordered ≡ₚ topo →
  sort_on (λ e, default 0%nat (ordering_map ordered !! ev_id e)) Nat.compare topo = ordered.
Proof.
  intros Hd Hp.
  assert (NoDup (ev_id <$> ordered)) as Hdo by by rewrite Hp.
  set (pos := λ e, default 0%nat (ordering_map ordered !! ev_id e)).
  assert (∀ i e, ordered !! i = Some e → pos e = i) as Hpos.
  { intros i e Hi. unfold pos. by rewrite (ordering_map_lookup ordered i e). }
  apply (StronglySorted_unique_strong (λ x y, Nat.compare (pos x) (pos y) ≠ Gt)).
  - intros x y Hx Hy. rewrite sort_on_perm, <- Hp in Hx.
    apply list_elem_of_lookup in Hx as [i Hi], Hy as [j Hj].
    rewrite (Hpos i x), (Hpos j y) by done. rewrite !Nat.compare_le_iff.
    intros. assert (i = j) as -> by lia. congruence.
  - apply sort_on_sorted, _.
  - clear Hd Hp topo Hdo.
    assert (∀ k l, (∀ i e, l !! i = Some e → pos e = (k + i)%nat) →
      StronglySorted (λ x y, Nat.compare (pos x) (pos y) ≠ Gt) l) as Hs.
    { intros k l. revert k. induction l as [|e l IH]; intros k Hl; constructor.
      - apply (IH (S k)). intros i e' Hi. rewrite (Hl (S i) e') by done. lia.
      - apply Forall_lookup. intros i e' Hi. rewrite (Hl 0%nat e), (Hl (S i) e') by done.
        apply Nat.compare_le_iff. lia. }
    apply (Hs 0%nat). done.
  - by rewrite sort_on_perm.
Qed.

Lemma recompute_unfold self e events membership pm :
  NoDup (ev_id <$> (e :: events)) →
  let topo := e :: events in
  let mids := normalize_membership self membership in
  let by_id := events_by_id topo in
  let rounds := compute_rounds by_id mids topo in
  let w := rs_witnesses_by_round rounds in
  let fame := fame_decisions_by_round by_id mids w in
  let famous := famous_witnesses fame w in
  let quorum := supermajority_threshold (length mids) in
  recompute self topo membership pm =
  state_of by_id mids quorum pm rounds famous fame <$>
    total_order topo (resolve_all by_id mids quorum pm w famous fame topo).
Proof.
  intros Hd topo mids by_id rounds w fame famous quorum. unfold recompute.
  rewrite bool_decide_false by done.
  fold topo mids by_id rounds w fame famous quorum.
  by rewrite sort_by_position; [..|apply total_order_perm].
Qed.

Lemma state_of_id by_id mids q pm rounds famous fame (l : list Event) :
  cs_event_id <$> (state_of by_id mids q pm rounds famous fame <$> l) = ev_id <$> l.
Proof. rewrite <- list_fmap_compose. by apply list_fmap_ext. Qed.

Lemma resolve_all_lookup by_id mids q pm w famous fame l e :
  e ∈ l → resolve_all by_id mids q pm w famous fame l !! ev_id e =
    Some (round_received by_id mids w famous fame (ev_id e), consensus_timestamp (ev_id e) mids q pm).
Proof.
  unfold resolve_all. induction l as [|e' l IH] using rev_ind; [set_solver|].
  rewrite foldl_app, elem_of_app. simpl. intros He.
  destruct (decide (ev_id e' = ev_id e)) as [->|Hne]; [by rewrite lookup_insert_eq|].
  rewrite lookup_insert_ne by done. destruct He as [He|He]; [by apply IH|].
  apply list_elem_of_singleton in He. congruence.
Qed.

(** A recomputation gives every event exactly one consensus state, and lists
    the states by round received, undecided rounds last. *)
Theorem recompute_complete (self : string) (events : list Event)
    (membership : list MembershipEntry) (pm : PathMeta) :
  NoDup (ev_id <$> events) →
  let states := recompute self events membership pm in
  cs_event_id <$> states ≡ₚ ev_id <$> events ∧
  StronglySorted (λ a b, cmp_inf Z.compare (cs_round_received a) (cs_round_received b) ≠ Gt) states.
Proof.
  intros Hd. destruct events as [|e events]; [by split; [|constructor]|].
  cbv zeta. rewrite recompute_unfold by done. rewrite state_of_id.
  split; [apply fmap_Permutation, total_order_perm|].
  set (topo := e :: events) in *. set (res := resolve_all _ _ _ _ _ _ _ _).
  pose proof (total_order_sorted topo res) as Hs.
  assert (∀ x, x ∈ total_order topo res → x ∈ topo) as Hin.
  { intros x. by rewrite total_order_perm. }
  induction Hs as [|x l Hs IH Hx]; simpl; constructor.
  { apply IH. intros y Hy. apply Hin. by right. }
  apply Forall_fmap. rewrite Forall_forall in Hx. apply Forall_forall. intros y Hy.
  specialize (Hx y Hy). simpl. unfold event_key_of, res in Hx.
  rewrite !resolve_all_lookup in Hx by (apply Hin; set_solver). simpl in Hx.
  unfold cmp_event_key, cmp_pair, cmp_then in Hx. simpl in Hx. by case_match.
Qed.

Lemma recompute_complete_witness :
  NoDup (ev_id <$> sample_run) ∧
  let states := recompute "n1" sample_run sample_members sample_path_meta in
  cs_event_id <$> states ≡ₚ ev_id <$> sample_run ∧
  StronglySorted (λ a b, cmp_inf Z.compare (cs_round_received a) (cs_round_received b) ≠ Gt) states.
Proof.
  assert (NoDup (ev_id <$> sample_run)) as Hd by exact (proj1 sample_run_topo).
  split; [exact Hd|]. exact (recompute_complete "n1" sample_run sample_members sample_path_meta Hd).
Defined.

(** ** Rounds and witnesses *)
Section rounds.
Context (by_id : EventMap) (mids : list string).
Implicit Types (st : RoundState) (e : Event).

Record rounds_inv (done : list Event) st : Prop := {
  ri_dom : ∀ y, is_Some (rs_rounds st !! y) ↔ y ∈ ev_id <$> done;
  ri_wit : ∀ r c w, witnesses_at (rs_witnesses_by_round st) r !! c = Some w →
    ∃ e, e ∈ done ∧ ev_id e = w ∧ event_creator e = c ∧ rs_rounds st !! w = Some r;
  ri_flag : ∀ e r, e ∈ done → rs_rounds st !! ev_id e = Some r →
    rs_witness_flags st !! ev_id e = Some (bool_decide
      (witnesses_at (rs_witnesses_by_round st) r !! event_creator e = Some (ev_id e))) ∧
    is_Some (witnesses_at (rs_witnesses_by_round st) r !! event_creator e) }.

Lemma witnesses_at_insert w r r' m :
  witnesses_at (<[r := m]> w) r' = if decide (r = r') then m else witnesses_at w r'.
Proof.
  unfold witnesses_at. case_decide; subst; [by rewrite lookup_insert_eq|by rewrite lookup_insert_ne].
Qed.

Lemma compute_rounds_snoc l e :
  compute_rounds by_id mids (l ++ [e]) = round_step by_id mids (compute_rounds by_id mids l) e.
Proof. unfold compute_rounds. by rewrite foldl_app. Qed.

(** Witnesses are only ever added. *)
Lemma round_step_witnesses st e r c w :
  witnesses_at (rs_witnesses_by_round st) r !! c = Some w →
  witnesses_at (rs_witnesses_by_round (round_step by_id mids st e)) r !! c = Some w.
Proof.
  intros Hw. simpl. rewrite witnesses_at_insert. case_decide as Hr; [|done]. subst r.
  case_bool_decide as Hc; [|done].
  rewrite lookup_insert_ne; [done|]. intros <-. congruence.
Qed.

Lemma round_step_new_witness st e :
  let r := event_round by_id mids st e in
  let W := witnesses_at (rs_witnesses_by_round st) r in
  witnesses_at (rs_witnesses_by_round (round_step by_id mids st e)) r !! event_creator e =
    match W !! event_creator e with Some w => Some w | None => Some (ev_id e) end.
Proof.
  simpl. rewrite witnesses_at_insert, decide_True by done.
  case_bool_decide as Hc; [by rewrite lookup_insert_eq, Hc|].
  by destruct (_ !! event_creator e).
Qed.

Lemma round_step_inv done st e :
  ev_id e ∉ ev_id <$> done → rounds_inv done st → rounds_inv (done ++ [e]) (round_step by_id mids st e).
Proof.
  intros Hnew [Hdom Hwit Hflag]. pose proof (round_step_new_witness st e) as Hnw. cbv zeta in Hnw.
  set (r0 := event_round by_id mids st e) in *.
  assert (∀ e', e' ∈ done → ev_id e' ≠ ev_id e) as Hne.
  { intros e' He' Heq. apply Hnew. rewrite <- Heq. by apply list_elem_of_fmap_2. }
  split.
  - intros y. simpl. rewrite fmap_app, elem_of_app, <- Hdom. simpl.
    destruct (decide (ev_id e = y)) as [<-|Hy].
    + rewrite lookup_insert_eq. set_solver.
    + rewrite lookup_insert_ne by done. set_solver.
  - intros r c w Hw. simpl in Hw. rewrite witnesses_at_insert in Hw.
    assert (witnesses_at (rs_witnesses_by_round st) r !! c = Some w ∨
            (r = r0 ∧ c = event_creator e ∧ w = ev_id e)) as [Hold|(-> & -> & ->)].
    { fold r0 in Hw. case_decide as Hr; [|by left]. subst r.
      case_bool_decide; [|by left]. apply lookup_insert_Some in Hw. naive_solver. }
    + destruct (Hwit r c w Hold) as (e' & He' & <- & <- & Hr). exists e'.
      split_and!; [set_solver|done|done|]. simpl. rewrite lookup_insert_ne; [done|]. by apply not_eq_sym, Hne.
    + exists e. split_and!; [set_solver|done|done|]. simpl. by rewrite lookup_insert_eq.
  - intros e' r [He'|He']%elem_of_app Hr; simpl in Hr |- *.
    + rewrite lookup_insert_ne in Hr by (by apply not_eq_sym, Hne).
      rewrite lookup_insert_ne by (by apply not_eq_sym, Hne).
      destruct (Hflag e' r He' Hr) as [Hf [w Hw]]. rewrite Hf.
      pose proof (round_step_witnesses st e r _ w Hw) as Hw'. simpl in Hw'. rewrite Hw', Hw.
      split; [done|eauto].
    + apply list_elem_of_singleton in He' as ->. rewrite lookup_insert_eq in Hr. injection Hr as <-.
      rewrite lookup_insert_eq. fold r0. simpl in Hnw. fold r0 in Hnw. rewrite Hnw. clear Hnw.
      destruct (witnesses_at (rs_witnesses_by_round st) r0 !! event_creator e) as [w|] eqn:HW;
        split; eauto.
      * rewrite !bool_decide_false; [done|..|done]. intros [= ->].
        destruct (Hwit _ _ _ HW) as (e' & He' & Heq & _). by apply (Hne e').
      * by rewrite !bool_decide_true.
Qed.

Lemma compute_rounds_inv l : NoDup (ev_id <$> l) → rounds_inv l (compute_rounds by_id mids l).
Proof.
  induction l as [|e l IH] using rev_ind.
  - intros _. split; simpl.
    + intros y. rewrite lookup_empty. split; [by intros []|set_solver].
    + intros r c w. unfold witnesses_at. rewrite lookup_empty. simpl. by rewrite lookup_empty.
    + set_solver.
  - rewrite compute_rounds_snoc, fmap_app, NoDup_app. intros (Hd & Hnot & _).
    apply round_step_inv; [|by apply IH]. intros Hin. apply (Hnot _ Hin). by left.
Qed.
End rounds.

Lemma recompute_state self events membership pm s :
  NoDup (ev_id <$> events) → s ∈ recompute self events membership pm →
  let mids := normalize_membership self membership in
  let by_id := events_by_id events in
  let rounds := compute_rounds by_id mids events in
  ∃ e, e ∈ events ∧ cs_event_id s = ev_id e ∧ cs_creator s = event_creator e ∧
    rs_rounds rounds !! ev_id e = Some (cs_round s) ∧
    rs_witness_flags rounds !! ev_id e = Some (cs_is_witness s).
Proof.
  intros Hd Hs. destruct events as [|e0 events]; [by apply not_elem_of_nil in Hs|].
  rewrite recompute_unfold in Hs by done. cbv zeta in *.
  apply list_elem_of_fmap in Hs as (e & -> & He). rewrite total_order_perm in He.
  exists e. pose proof (compute_rounds_inv (events_by_id (e0 :: events))
    (normalize_membership self membership) (e0 :: events) Hd) as [Hdom _ Hflag].
  destruct (proj2 (Hdom (ev_id e))) as [r Hr]; [by apply list_elem_of_fmap_2|].
  destruct (Hflag e r He Hr) as [Hf _].
  split_and!; [done..| |]; simpl; by rewrite ?Hr, ?Hf.
Qed.

Lemma recompute_state_of self events membership pm e :
  NoDup (ev_id <$> events) → e ∈ events →
  ∃ s, s ∈ recompute self events membership pm ∧ cs_event_id s = ev_id e.
Proof.
  intros Hd He. pose proof (recompute_complete self events membership pm Hd) as [Hp _].
  assert (ev_id e ∈ cs_event_id <$> recompute self events membership pm) as Hin.
  { rewrite Hp. by apply list_elem_of_fmap_2. }
  apply list_elem_of_fmap in Hin as (s & Heq & Hs). eauto.
Qed.

(** C11: each creator has exactly one witness in every round it has an event in:
    two witness states with the same creator and round are the same event, and
    every state has such a witness. *)
Theorem witness_unique (self : string) (events : list Event)
    (membership : list MembershipEntry) (pm : PathMeta) (s : ConsensusState) :
  NoDup (ev_id <$> events) →
  let states := recompute self events membership pm in
  s ∈ states →
  ∃ wit, wit ∈ states ∧ cs_is_witness wit = true ∧ cs_creator wit = cs_creator s ∧
    cs_round wit = cs_round s ∧
    ∀ s', s' ∈ states → cs_is_witness s' = true → cs_creator s' = cs_creator s →
      cs_round s' = cs_round s → cs_event_id s' = cs_event_id wit.
Proof.
  intros Hd states Hs.
  set (mids := normalize_membership self membership).
  set (by_id := events_by_id events).
  destruct (compute_rounds_inv by_id mids events Hd) as [Hdom Hwit Hflag].
  destruct (recompute_state _ _ _ _ s Hd Hs) as (e & He & Hid & Hc & Hr & _).
  destruct (Hflag e _ He Hr) as [_ [w Hw]].
  destruct (Hwit _ _ _ Hw) as (ew & Hew & <- & Hcw & Hrw).
  destruct (recompute_state_of self events membership pm ew Hd Hew) as (wit & Hwin & Hwid).
  destruct (recompute_state _ _ _ _ wit Hd Hwin) as (e2 & He2 & Hid2 & Hc2 & Hr2 & Hf2).
  assert (e2 = ew) as -> by (apply (NoDup_id_inj events); congruence).
  fold mids by_id in Hr2, Hf2, Hr. destruct (Hflag ew _ Hew Hrw) as [Hfw _].
  exists wit. split_and!; [done|..|congruence|congruence|].
  - rewrite Hf2 in Hfw. injection Hfw as ->. apply bool_decide_true. congruence.
  - intros s' Hs' Hwit' Hcr' Hr'.
    destruct (recompute_state _ _ _ _ s' Hd Hs') as (e3 & He3 & Hid3 & Hc3 & Hr3 & Hf3).
    fold mids by_id in Hr3, Hf3. destruct (Hflag e3 _ He3 Hr3) as [Hf3' _].
    rewrite Hf3, Hwit' in Hf3'. injection Hf3' as Hbd. symmetry in Hbd.
    apply bool_decide_eq_true in Hbd. congruence.
Qed.

Lemma witness_unique_witness :
  let states := recompute "n1" sample_run sample_members sample_path_meta in
  let s := nth 1 states (mkState "" "" None None 0 None false false false None "" false false None None 0 0 None) in
  NoDup (ev_id <$> sample_run) ∧ s ∈ states ∧
  ∃ wit, wit ∈ states ∧ cs_is_witness wit = true ∧ cs_creator wit = cs_creator s ∧
    cs_round wit = cs_round s ∧
    ∀ s', s' ∈ states → cs_is_witness s' = true → cs_creator s' = cs_creator s →
      cs_round s' = cs_round s → cs_event_id s' = cs_event_id wit.
Proof.
  intros states s.
  assert (NoDup (ev_id <$> sample_run)) as Hd by exact (proj1 sample_run_topo).
  assert (s ∈ states) as Hs.
  { apply list_elem_of_In, nth_In. apply Nat.ltb_lt. vm_compute. reflexivity. }
  split; [exact Hd|]. split; [exact Hs|].
  exact (witness_unique "n1" sample_run sample_members sample_path_meta s Hd Hs).
Defined.
