(* ===== verification/ConsensusVotes.v ===== *)
(** More theorems about the consensus engine of Consensus.v: fame votes never
    conflict, how a fame decision is taken, which round receives an event, and
    what bounds a consensus timestamp. *)
From S2P Require Import Prelude Sha256 Json VectorClock Models Utils Consensus ConsensusFacts.

(** ** Counting votes *)
Definition yes_count (v : Votes) : nat := count_if is_yes (map_values v).
Definition no_count (v : Votes) : nat := count_if is_no (map_values v).

Lemma threshold_pos n : (1 <= supermajority_threshold n)%nat.
Proof. unfold supermajority_threshold. lia. Qed.

(** Two supermajorities of the same members overlap. *)
Lemma threshold_quorum n : (n < 2 * supermajority_threshold n)%nat.
Proof.
  unfold supermajority_threshold.
  pose proof (Nat.div_mod (2 * n) 3). pose proof (Nat.mod_upper_bound (2 * n) 3). lia.
Qed.

(** A third of the members is a minority of any supermajority. *)
Lemma threshold_third n f : (3 * f <= n → 2 * f < supermajority_threshold n)%nat.
Proof.
  unfold supermajority_threshold. intros.
  pose proof (Nat.div_mod (2 * n) 3). pose proof (Nat.mod_upper_bound (2 * n) 3). lia.
Qed.

Lemma yes_no_exclusive (l : list (option bool)) : (count_if is_yes l + count_if is_no l <= length l)%nat.
Proof. apply count_if_disjoint. by intros [[]|]. Qed.

Lemma length_map_values {A} (m : gmap string A) : length (map_values m) = size m.
Proof. unfold map_values. rewrite length_fmap. apply length_map_to_list. Qed.

Lemma size_list_to_set_le (l : list string) : (size (list_to_set l : gset string) <= length l)%nat.
Proof.
  induction l as [|x l IH]; [done|]. simpl.
  rewrite size_union_alt, size_singleton.
  assert (size (list_to_set l ∖ {[x]} : gset string) <= size (list_to_set l : gset string))%nat; [|lia].
  apply subseteq_size. set_solver.
Qed.

Lemma dom_size_members {A} (v : gmap string A) (mids : list string) :
  dom v ⊆ list_to_set mids → (size v <= length mids)%nat.
Proof.
  intros Hd%subseteq_size. rewrite size_dom in Hd. pose proof (size_list_to_set_le mids). lia.
Qed.

Section votes.
Context (by_id : EventMap) (mids : list string) (w : WitnessMap).
Implicit Types (pv : Votes).

Definition thr : nat := supermajority_threshold (length mids).
Definition member_votes pv : Prop := dom pv ⊆ list_to_set mids.

Lemma member_votes_count pv : member_votes pv → (yes_count pv + no_count pv <= length mids)%nat.
Proof.
  intros Hm. unfold yes_count, no_count. pose proof (yes_no_exclusive (map_values pv)) as H.
  rewrite length_map_values in H. pose proof (dom_size_members pv mids Hm). lia.
Qed.

Lemma first_votes_members next wid : member_votes (first_votes by_id mids next wid).
Proof.
  intros c Hc. apply elem_of_dom in Hc as [v Hv]. unfold first_votes in Hv.
  rewrite map_lookup_imap in Hv. destruct (next !! c); simplify_eq/=.
  case_decide; [|done]. by apply elem_of_list_to_set.
Qed.

Lemma later_votes_members pv r : member_votes (later_votes by_id mids thr w pv r).
Proof.
  intros c Hc. apply elem_of_dom in Hc as [v Hv]. unfold later_votes in Hv.
  rewrite map_lookup_imap in Hv. destruct (witnesses_at w r !! c); simplify_eq/=.
  case_decide; [|done]. by apply elem_of_list_to_set.
Qed.

(** What a later witness can collect is bounded by what was cast. *)
Lemma count_visible (p : option bool → bool) prev pv l :
  (count_if p (visible_votes by_id mids prev pv l) <= count_if p (map_values pv))%nat.
Proof.
  unfold visible_votes, map_values. induction (map_to_list pv) as [|[c v] ps IH]; [done|].
  cbn [omap list_omap fmap list_fmap snd]. rewrite count_if_cons.
  destruct (prev !! c) as [pw|]; [|lia]. destruct v as [b|]; [|lia].
  destruct (bool_decide (c ∈ mids) && can_see by_id l pw); [rewrite count_if_cons|]; lia.
Qed.

Lemma count_zero (p : option bool → bool) pv :
  (∀ c v, pv !! c = Some v → p v = false) → count_if p (map_values pv) = 0%nat.
Proof.
  intros Hp. unfold map_values.
  assert (∀ ps, (∀ x, x ∈ ps → x ∈ map_to_list pv) → count_if p ps.*2 = 0%nat) as H; [|by apply H].
  induction ps as [|[c v] ps IH]; intros Hin; [done|]. rewrite fmap_cons, count_if_cons. simpl snd.
  rewrite (Hp c v); [apply IH; set_solver|]. apply elem_of_map_to_list, Hin. by left.
Qed.

Lemma later_votes_no_zero pv r :
  (no_count pv < thr)%nat → no_count (later_votes by_id mids thr w pv r) = 0%nat.
Proof.
  intros Hn. apply count_zero. intros c v. unfold later_votes. rewrite map_lookup_imap.
  destruct (witnesses_at w r !! c) as [wid|]; [|done]. simpl. case_decide; [|done].
  intros [= <-]. unfold collected_vote. case_if; [done|]. case_if; [|done].
  pose proof (count_visible is_no (witnesses_at w (r - 1)) pv wid). unfold no_count in Hn. lia.
Qed.

Lemma later_votes_yes_zero pv r :
  (yes_count pv < thr)%nat → yes_count (later_votes by_id mids thr w pv r) = 0%nat.
Proof.
  intros Hn. apply count_zero. intros c v. unfold later_votes. rewrite map_lookup_imap.
  destruct (witnesses_at w r !! c) as [wid|]; [|done]. simpl. case_decide; [|done].
  intros [= <-]. unfold collected_vote. case_if; [|by case_if].
  pose proof (count_visible is_yes (witnesses_at w (r - 1)) pv wid). unfold yes_count in Hn. lia.
Qed.

(** The invariant of the vote loop: members vote, and once a round is decisive
    the opposite votes stay below the threshold. *)
Record votes_inv (h : VoteHistory) pv : Prop := {
  vi_pv : member_votes pv;
  vi_members : ∀ r v, h !! r = Some v → member_votes v;
  vi_yes : ∀ r v, h !! r = Some v → (thr <= yes_count v)%nat → (no_count pv < thr)%nat;
  vi_no : ∀ r v, h !! r = Some v → (thr <= no_count v)%nat → (yes_count pv < thr)%nat;
  vi_agree : ∀ r1 r2 v1 v2, h !! r1 = Some v1 → h !! r2 = Some v2 →
    (thr <= yes_count v1)%nat → (thr <= no_count v2)%nat → False }.

Lemma decisive_exclusive pv :
  member_votes pv → ((thr <= yes_count pv → no_count pv < thr) ∧ (thr <= no_count pv → yes_count pv < thr))%nat.
Proof.
  intros Hm. pose proof (member_votes_count pv Hm). pose proof (threshold_quorum (length mids)).
  unfold thr. lia.
Qed.

Lemma record_votes_lookup h r v r' v' :
  record_votes h r v !! r' = Some v' → (r' = r ∧ v' = v) ∨ h !! r' = Some v'.
Proof.
  unfold record_votes. case_decide; [by right|].
  intros [[-> ->]|[_ ?]]%lookup_insert_Some; auto.
Qed.

Lemma votes_inv_record h pv r :
  votes_inv h pv → (∀ r v, h !! r = Some v → (thr <= yes_count v → no_count pv = 0)%nat) →
  (∀ r v, h !! r = Some v → (thr <= no_count v → yes_count pv = 0)%nat) →
  votes_inv (record_votes h r pv) pv.
Proof.
  intros [Hpv Hm Hy Hn Ha] Hy0 Hn0. pose proof (decisive_exclusive pv Hpv) as [He1 He2].
  pose proof (threshold_pos (length mids)) as Ht. fold thr in Ht.
  split; [done|..]; intros *.
  - intros [[_ ->]|Hv]%record_votes_lookup; eauto.
  - intros [[_ ->]|Hv]%record_votes_lookup; eauto.
  - intros [[_ ->]|Hv]%record_votes_lookup; eauto.
  - intros [[_ ->]|Hv1]%record_votes_lookup [[_ ->]|Hv2]%record_votes_lookup Hc1 Hc2; [lia|..].
    + specialize (Hn0 _ _ Hv2 Hc2). lia.
    + specialize (Hy0 _ _ Hv1 Hc1). lia.
    + eauto.
Qed.

Lemma votes_inv_step h pv r :
  votes_inv h pv → let cur := later_votes by_id mids thr w pv r in votes_inv (record_votes h r cur) cur.
Proof.
  intros [Hpv Hm Hy Hn Ha] cur. pose proof (threshold_pos (length mids)) as Ht. fold thr in Ht.
  assert (∀ r' v, h !! r' = Some v → (thr <= yes_count v → no_count cur = 0)%nat) as Hy0.
  { intros r' v Hv Hc. eapply later_votes_no_zero, Hy; eauto. }
  assert (∀ r' v, h !! r' = Some v → (thr <= no_count v → yes_count cur = 0)%nat) as Hn0.
  { intros r' v Hv Hc. eapply later_votes_yes_zero, Hn; eauto. }
  apply votes_inv_record; [|done..]. split; [apply later_votes_members|done|..|done].
  - intros r' v Hv Hc. rewrite (Hy0 r' v Hv Hc). lia.
  - intros r' v Hv Hc. rewrite (Hn0 r' v Hv Hc). lia.
Qed.

Lemma witness_vote_history_inv rounds round_no wid :
  ∃ pv, votes_inv (witness_vote_history by_id mids thr w rounds round_no wid) pv.
Proof.
  unfold witness_vote_history. set (fv := first_votes _ _ _ _).
  assert (votes_inv (record_votes ∅ (round_no + 1) fv) fv) as Hi.
  { apply votes_inv_record; [|by intros ??; rewrite lookup_empty..].
    split; [apply first_votes_members|by intros ??; rewrite lookup_empty..|].
    by intros ????; rewrite lookup_empty. }
  generalize dependent fv. intros fv. generalize (record_votes ∅ (round_no + 1) fv).
  revert fv. induction rounds as [|r rounds IH]; intros fv h Hi; simpl; [by exists fv|].
  case_if; [by apply IH|]. by apply IH, votes_inv_step.
Qed.
End votes.

(** C7: the votes on one witness never conflict: no two rounds of its vote
    history reach a supermajority for opposite answers, so a later round cannot
    overturn a fame decision. *)
Theorem fame_votes_never_conflict (by_id : EventMap) (mids : list string) (w : WitnessMap)
    (round_no : Z) (witness_id : string) (r1 r2 : Z) (v1 v2 : Votes) :
  let threshold := supermajority_threshold (length mids) in
  let h := witness_vote_history by_id mids threshold w (sorted_keys w) round_no witness_id in
  h !! r1 = Some v1 → h !! r2 = Some v2 →
  ¬ (threshold <= yes_count v1 ∧ threshold <= no_count v2)%nat.
Proof.
  intros threshold h H1 H2 [Hy Hn].
  destruct (witness_vote_history_inv by_id mids w (sorted_keys w) round_no witness_id) as [pv Hi].
  exact (vi_agree mids _ _ Hi r1 r2 v1 v2 H1 H2 Hy Hn).
Qed.

Definition sample_by_id : EventMap := events_by_id sample_run.
Definition sample_ids : list string := ["n1"; "n2"; "n3"].
Definition sample_witnesses : WitnessMap :=
  rs_witnesses_by_round (compute_rounds sample_by_id sample_ids sample_run).

Lemma fame_votes_never_conflict_witness :
  let threshold := supermajority_threshold (length sample_ids) in
  let h := witness_vote_history sample_by_id sample_ids threshold sample_witnesses
             (sorted_keys sample_witnesses) 0 "an1" in
  let v1 := default ∅ (h !! 1) in
  let v2 := default ∅ (h !! 2) in
  (threshold <= yes_count v1)%nat ∧ h !! 1 = Some v1 ∧ h !! 2 = Some v2 ∧
  ¬ (threshold <= yes_count v1 ∧ threshold <= no_count v2)%nat.
Proof.
  intros threshold h v1 v2.
  assert (h !! 1 = Some v1) as H1 by (vm_compute; reflexivity).
  assert (h !! 2 = Some v2) as H2 by (vm_compute; reflexivity).
  split; [apply Nat.leb_le; vm_compute; reflexivity|]. split; [exact H1|]. split; [exact H2|].
  exact (fame_votes_never_conflict sample_by_id sample_ids sample_witnesses 0 "an1" 1 2 v1 v2 H1 H2).
Defined.

(** ** Fame decisions *)
Definition decisive (threshold : nat) (h : VoteHistory) (r : Z) : bool :=
  let v := default ∅ (h !! r) in
  (threshold <=? yes_count v)%nat || (threshold <=? no_count v)%nat.

Lemma resolve_votes_find threshold h rounds d :
  fd_decided d = false →
  match List.find (decisive threshold h) rounds with
  | Some r =>
      let v := default ∅ (h !! r) in
      resolve_votes threshold h rounds d =
        mkFame (threshold <=? yes_count v)%nat true (Some r) "vote" false false None (Some r)
          (Z.of_nat (yes_count v)) (Z.of_nat (no_count v))
  | None =>
      let d' := resolve_votes threshold h rounds d in
      fd_decided d' = false ∧ fd_famous d' = fd_famous d ∧ fd_decision_round d' = fd_decision_round d ∧
      fd_decision_kind d' = fd_decision_kind d ∧ fd_needs_coin d' = fd_needs_coin d ∧
      fd_coin_used d' = fd_coin_used d ∧ fd_coin_round d' = fd_coin_round d
  end.
Proof.
  revert d. induction rounds as [|r rounds IH]; intros d Hd; simpl; [done|].
  unfold decisive at 1, yes_count at 1, no_count at 1.
  destruct (threshold <=? count_if is_yes _)%nat eqn:Hy; simpl.
  { unfold yes_count. by rewrite Hy. }
  destruct (threshold <=? count_if is_no _)%nat eqn:Hn; simpl.
  { unfold yes_count. by rewrite Hy. }
  match goal with |- context [resolve_votes threshold h rounds ?d'] => exact (IH d' Hd) end.
Qed.

(** A witness's fame is decided by the first round, in ascending order, whose
    votes reach the threshold; without one, by the coin of the last round when at
    least two rounds voted; otherwise it stays pending.  The "needs coin" flag is
    never raised. *)
Theorem resolve_fame_spec (witness_id : string) (h : VoteHistory) (threshold : nat) :
  let d := resolve_fame_from_vote_history witness_id h threshold in
  let rounds := sorted_keys h in
  fd_needs_coin d = false ∧
  match List.find (decisive threshold h) rounds with
  | Some r =>
      fd_decided d = true ∧ fd_decision_kind d = "vote" ∧ fd_decision_round d = Some r ∧
      fd_coin_used d = false ∧
      (fd_famous d = true ↔ (threshold <= yes_count (default ∅ (h !! r)))%nat)
  | None =>
      if (2 <=? length rounds)%nat then
        fd_decided d = true ∧ fd_decision_kind d = "coin_surrogate" ∧ fd_coin_used d = true ∧
        ∃ r, r ∈ rounds ∧ (∀ r', r' ∈ rounds → r' <= r) ∧ fd_coin_round d = Some r ∧
          fd_decision_round d = Some r ∧ fd_famous d = deterministic_coin_choice witness_id r
      else fd_decided d = false ∧ fd_decision_kind d = "pending" ∧ fd_famous d = false
  end.
Proof.
  intros d rounds. unfold d, resolve_fame_from_vote_history. fold rounds.
  pose proof (resolve_votes_find threshold h rounds pending_decision eq_refl) as Hr.
  destruct (List.find _ rounds) as [r|]; cbv zeta in Hr.
  - rewrite Hr. simpl. by rewrite Nat.leb_le.
  - destruct Hr as (Hd & Hf & Hdr & Hk & Hnc & Hcu & Hcr). cbv zeta. rewrite Hd.
    destruct (2 <=? length rounds)%nat eqn:Hl; simpl.
    + split_and!; [done..|]. exists (max_list_Z 0 rounds). split_and!; [|apply max_list_Z_ge|done..].
      apply max_list_Z_in. intros E. by rewrite E in Hl.
    + by rewrite Hd, Hnc, Hk, Hf.
Qed.

(** ** Round received *)
Lemma round_received_find by_id mids w famous fame ev r :
  round_received by_id mids w famous fame ev = Some r →
  is_Some (w !! r) ∧ receives by_id mids w famous fame ev r = true ∧
  ∀ r', is_Some (w !! r') → r' < r → receives by_id mids w famous fame ev r' = false.
Proof.
  unfold round_received. intros Hf.
  assert (StronglySorted Z.le (sorted_keys w)) as Hs.
  { pose proof (sort_on_sorted id Z.compare (elements (dom w))) as Hs. exact Hs. }
  assert (∀ x, x ∈ sorted_keys w ↔ is_Some (w !! x)) as Hk.
  { intros x. unfold sorted_keys. rewrite sort_on_perm, elem_of_elements. apply elem_of_dom. }
  assert (∀ l, StronglySorted Z.le l → List.find (receives by_id mids w famous fame ev) l = Some r →
    r ∈ l ∧ receives by_id mids w famous fame ev r = true ∧
    ∀ r', r' ∈ l → r' < r → receives by_id mids w famous fame ev r' = false) as Hl.
  { induction 1 as [|x l Hl IH Hx]; simpl; [done|].
    destruct (receives _ _ _ _ _ _ x) eqn:Hr.
    - intros [= ->]. split_and!; [by left|done|]. rewrite Forall_forall in Hx.
      intros r' [->|Hr']%elem_of_cons; [lia|]. specialize (Hx _ Hr'). lia.
    - intros (Hin & Hrr & Hlt)%IH. split_and!; [by right|done|].
      intros r' [->|Hr']%elem_of_cons; auto. }
  destruct (Hl _ Hs Hf) as (Hin & Hr & Hlt). split_and!; [by apply Hk|done|].
  intros r' Hr'. by apply Hlt, Hk.
Qed.

(** The creators, among the members, of the round-[r] witnesses [ws] that see
    the event. *)
Definition member_seers (by_id : EventMap) (mids : list string) (ws : gmap string string) (id : string)
    : gset string := seeing_creators by_id ws id ∩ list_to_set mids.

(** C9: an event is received in the first round whose deciding witnesses see it
    from a supermajority of the members.  The deciding witnesses are the famous
    ones when the fame of every witness of the round is decided; a round whose
    fame is only partly decided receives nothing. *)
Theorem round_received_sound (by_id : EventMap) (mids : list string) (w : WitnessMap)
    (event_id : string) (r : Z) :
  let fame := fame_decisions_by_round by_id mids w in
  let famous := famous_witnesses fame w in
  round_received by_id mids w famous fame event_id = Some r →
  (∀ r', is_Some (w !! r') → r' < r → receives by_id mids w famous fame event_id r' = false) ∧
  let decisions := map_values (default ∅ (fame !! r)) in
  let threshold := supermajority_threshold (length mids) in
  ((∀ d, d ∈ decisions → fd_decided d = true) ∧ decisions ≠ [] ∧
     (threshold <= size (member_seers by_id mids (witnesses_at famous r) event_id))%nat) ∨
  ((∀ d, d ∈ decisions → fd_decided d = false) ∧
     (threshold <= size (member_seers by_id mids (witnesses_at w r) event_id))%nat).
Proof.
  intros fame famous Hr. apply round_received_find in Hr as (_ & Hr & Hlt).
  split; [done|]. intros decisions threshold. unfold receives, round_witnesses in Hr.
  fold decisions in Hr. destruct (bool_decide (decisions ≠ []) && forallb fd_decided decisions) eqn:H1.
  - left. apply andb_true_iff in H1 as [H1 H2]. rewrite forallb_forall in H2.
    apply bool_decide_eq_true in H1, Hr. split_and!; [|done|done].
    intros d Hd. by apply H2, list_elem_of_In.
  - destruct (bool_decide (decisions ≠ []) && existsb fd_decided decisions) eqn:H2; [done|].
    right. apply bool_decide_eq_true in Hr. split; [|done].
    intros d Hd. apply not_true_iff_false. intros Hdec.
    apply andb_false_iff in H2 as [H2|H2].
    + apply bool_decide_eq_false in H2. destruct decisions; [by apply not_elem_of_nil in Hd|by destruct H2].
    + apply not_true_iff_false in H2. apply H2, existsb_exists. exists d.
      split; [by apply list_elem_of_In|done].
Qed.

Lemma round_received_sound_witness :
  let by_id := sample_by_id in let mids := sample_ids in let w := sample_witnesses in
  let fame := fame_decisions_by_round by_id mids w in
  let famous := famous_witnesses fame w in
  round_received by_id mids w famous fame "an1" = Some 1 ∧
  (∀ r', is_Some (w !! r') → r' < 1 → receives by_id mids w famous fame "an1" r' = false) ∧
  let decisions := map_values (default ∅ (fame !! 1)) in
  let threshold := supermajority_threshold (length mids) in
  ((∀ d, d ∈ decisions → fd_decided d = true) ∧ decisions ≠ [] ∧
     (threshold <= size (member_seers by_id mids (witnesses_at famous 1) "an1"))%nat) ∨
  ((∀ d, d ∈ decisions → fd_decided d = false) ∧
     (threshold <= size (member_seers by_id mids (witnesses_at w 1) "an1"))%nat).
Proof.
  intros by_id mids w fame famous.
  assert (round_received by_id mids w famous fame "an1" = Some 1) as H by (vm_compute; reflexivity).
  split; [exact H|]. exact (round_received_sound by_id mids w "an1" 1 H).
Defined.

(** ** Consensus timestamps *)
Definition hop_member (hop : Hop) : string := py_strip (str_or_opt (hop_node hop) "").

(** The members that report the event with a time. *)
Definition reporters (mids : list string) (hops : list Hop) : gset string :=
  list_to_set (omap (λ hop, match hop_ts hop with
                            | Some _ => if decide (hop_member hop ∈ mids) then Some (hop_member hop) else None
                            | None => None end) hops).

Lemma observe_hop_lookup mids obs hop n t :
  observe_hop mids obs hop !! n = Some t →
  obs !! n = Some t ∨ (n = hop_member hop ∧ hop_ts hop = Some t).
Proof.
  unfold observe_hop, hop_member. destruct (hop_ts hop) as [ts|]; [|by left].
  case_decide; [|by left]. destruct (obs !! _) as [t0|] eqn:Ho.
  - case_if; [|by left]. intros [[<- <-]|[_ ?]]%lookup_insert_Some; auto.
  - intros [[<- <-]|[_ ?]]%lookup_insert_Some; auto.
Qed.

Lemma observe_hop_dom mids obs hop :
  dom (observe_hop mids obs hop) =
    match hop_ts hop with
    | Some _ => if decide (hop_member hop ∈ mids) then {[hop_member hop]} ∪ dom obs else dom obs
    | None => dom obs
    end.
Proof.
  unfold observe_hop, hop_member. destruct (hop_ts hop) as [ts|]; [|done].
  case_decide; [|done]. destruct (obs !! _) as [t0|] eqn:Ho.
  - assert (py_strip (str_or_opt (hop_node hop) "") ∈ dom obs) by (apply elem_of_dom; eauto).
    case_if; [rewrite dom_insert_L|]; set_solver.
  - by rewrite dom_insert_L.
Qed.

Lemma observations_snoc mids hops hop :
  observations mids (hops ++ [hop]) = observe_hop mids (observations mids hops) hop.
Proof. unfold observations. by rewrite foldl_app. Qed.

Lemma observations_dom mids hops : dom (observations mids hops) = reporters mids hops.
Proof.
  induction hops as [|hop hops IH] using rev_ind; [done|].
  rewrite observations_snoc, observe_hop_dom, IH. unfold reporters.
  rewrite omap_app, list_to_set_app_L. simpl.
  destruct (hop_ts hop); simpl; [|set_solver]. case_decide; simpl; set_solver.
Qed.

Lemma observations_hop mids hops n t :
  observations mids hops !! n = Some t → ∃ hop, hop ∈ hops ∧ hop_member hop = n ∧ hop_ts hop = Some t.
Proof.
  induction hops as [|hop hops IH] using rev_ind; [done|].
  rewrite observations_snoc. intros [Hn|[-> Ht]]%observe_hop_lookup.
  - destruct (IH Hn) as (h & Hin & ?). exists h. set_solver.
  - exists hop. set_solver.
Qed.

Lemma map_values_nonempty {A} (m : gmap string A) : (1 <= size m)%nat → map_values m ≠ [].
Proof. intros Hs E. pose proof (length_map_values m) as H. rewrite E in H. simpl in H. lia. Qed.

(** An event gets a consensus timestamp exactly when a supermajority of the
    members reports a time for it. *)
Theorem consensus_timestamp_quorum (event_id : string) (mids : list string) (pm : PathMeta) :
  let threshold := supermajority_threshold (length mids) in
  is_Some (consensus_timestamp event_id mids threshold pm) ↔
  (threshold <= size (reporters mids (default [] (pm !! event_id))))%nat.
Proof.
  intros threshold. unfold consensus_timestamp.
  rewrite <- observations_dom, size_dom.
  pose proof (threshold_pos (length mids)) as Ht. fold threshold in Ht.
  case_bool_decide as Hq.
  - split; [by intros []|lia].
  - split; [lia|]. intros _.
    destruct (median_total (map_values (observations mids (default [] (pm !! event_id))))) as [m ->]; [|eauto].
    apply map_values_nonempty. lia.
Qed.

Lemma count_keys_le (p : Q → bool) (l : list (string * Q)) (F : gset string) :
  NoDup l.*1 → (∀ x, x ∈ l → p x.2 = true → x.1 ∈ F) → (count_if p l.*2 <= size F)%nat.
Proof.
  revert F. induction l as [|[c t] l IH]; intros F; [intros; apply Nat.le_0_l|].
  rewrite !fmap_cons, NoDup_cons, count_if_cons. simpl. intros [Hc Hd] Hin.
  destruct (p t) eqn:Hp.
  - assert (c ∈ F) as HcF by (apply (Hin (c, t)); [by left|done]).
    assert (count_if p l.*2 <= size (F ∖ {[c]}))%nat as Hle.
    { apply IH; [done|]. intros x Hx Hpx. apply elem_of_difference. split; [apply Hin; [by right|done]|].
      intros E%elem_of_singleton. apply Hc. rewrite <- E. by apply list_elem_of_fmap_2. }
    rewrite size_difference in Hle by set_solver. rewrite size_singleton in Hle.
    assert (size F ≠ 0)%nat; [|lia]. intros E%size_empty_inv. set_solver.
  - apply IH; [done|]. intros x Hx. apply Hin. by right.
Qed.

Lemma observed_outside mids hops lo hi (F : gset string) :
  (∀ hop t, hop ∈ hops → hop_member hop ∉ F → hop_ts hop = Some t → (lo <= t <= hi)%Q) →
  (count_if (outside lo hi) (map_values (observations mids hops)) <= size F)%nat.
Proof.
  intros Hh. apply count_keys_le; [apply NoDup_fst_map_to_list|].
  intros [n t] Ht%elem_of_map_to_list Hout. simpl in *.
  destruct (decide (n ∈ F)); [done|]. apply observations_hop in Ht as (hop & Hin & <- & Hts).
  assert (lo <= t <= hi)%Q as Hb by eauto. apply outside_false in Hb. congruence.
Qed.

(** C8: the consensus timestamp tolerates a third of the members: if every hop
    reported by a member outside [F] lies in [[lo, hi]] and [F] holds at most a
    third of the members, the timestamp lies in [[lo, hi]], whatever the members
    of [F] report and however often. *)
Theorem consensus_timestamp_robust (event_id : string) (mids : list string) (pm : PathMeta)
    (F : gset string) (lo hi m : Q) :
  (3 * size F <= length mids)%nat →
  (∀ hop t, hop ∈ default [] (pm !! event_id) → hop_member hop ∉ F → hop_ts hop = Some t →
    (lo <= t <= hi)%Q) →
  consensus_timestamp event_id mids (supermajority_threshold (length mids)) pm = Some m →
  (lo <= m <= hi)%Q.
Proof.
  intros HF Hh. unfold consensus_timestamp. set (hops := default [] _) in *.
  case_bool_decide as Hq; [done|]. destruct (median _) as [m'|] eqn:Hm; [|done]. intros [= ->].
  eapply median_majority; [exact Hm|].
  pose proof (observed_outside mids hops lo hi F Hh). pose proof (threshold_third _ _ HF).
  rewrite length_map_values. lia.
Qed.

Lemma consensus_timestamp_robust_witness :
  let F : gset string := {["n3"]} in
  let pm : PathMeta := {["an1" := [mkHop (Some "n1") (Some (1 # 1)); mkHop (Some "n2") (Some (2 # 1));
                                   mkHop (Some "n3") (Some (900 # 1))]]} in
  (3 * size F <= length sample_ids)%nat ∧
  consensus_timestamp "an1" sample_ids (supermajority_threshold (length sample_ids)) pm = Some (2 # 1)%Q ∧
  (1 <= 2 # 1 <= 3)%Q.
Proof.
  intros F pm.
  assert (3 * size F <= length sample_ids)%nat as HF by (apply Nat.leb_le; vm_compute; reflexivity).
  assert (consensus_timestamp "an1" sample_ids (supermajority_threshold (length sample_ids)) pm
          = Some (2 # 1)%Q) as Hm by (vm_compute; reflexivity).
  split; [exact HF|]. split; [exact Hm|].
  refine (consensus_timestamp_robust "an1" sample_ids pm F 1 3 (2 # 1) HF _ Hm).
  intros hop t Hin Hn Ht.
  assert (default [] (pm !! "an1") = [mkHop (Some "n1") (Some (1 # 1)); mkHop (Some "n2") (Some (2 # 1));
           mkHop (Some "n3") (Some (900 # 1))]) as E by (vm_compute; reflexivity).
  rewrite E in Hin. clear Hm HF E. elim_in Hin.
  - injection Ht as <-. by split.
  - injection Ht as <-. by split.
  - exfalso. apply Hn, (bool_decide_unpack _). vm_compute. exact I.
Defined.

(** ** Membership *)
Lemma normalize_membership_self self (membership : list MembershipEntry) entry :
  entry ∈ membership → py_strip (me_node_id entry) = self → self ≠ "" →
  normalize_membership self membership =
  foldl (λ acc entry,
    let node_id := py_strip (me_node_id entry) in
    if decide (node_id = "" ∨ node_id ∈ acc) then acc else acc ++ [node_id]) [] membership.
Proof.
  intros Hin Hid Hne. unfold normalize_membership. set (f := foldl _ _ _). rewrite decide_True; [done|].
  unfold f. clear f. induction membership as [|e l IH] using rev_ind; [set_solver|].
  rewrite foldl_app. simpl. set (acc := foldl _ _ l) in *. apply elem_of_app in Hin as [Hin|Hin].
  - specialize (IH Hin). case_decide; set_solver.
  - apply list_elem_of_singleton in Hin as <-. rewrite Hid. case_decide as Hd; [|set_solver].
    by destruct Hd.
Qed.

(** ** Rounds along the DAG *)
Lemma compute_rounds_persist by_id mids l l' y r :
  NoDup (ev_id <$> (l ++ l')) → rs_rounds (compute_rounds by_id mids l) !! y = Some r →
  rs_rounds (compute_rounds by_id mids (l ++ l')) !! y = Some r.
Proof.
  revert l. induction l' as [|e l' IH]; intros l Hd Hy; [by rewrite app_nil_r|].
  replace (l ++ e :: l') with ((l ++ [e]) ++ l') in Hd |- * by by rewrite <- app_assoc.
  apply IH; [done|]. rewrite compute_rounds_snoc. simpl.
  rewrite lookup_insert_ne; [done|]. intros <-.
  rewrite fmap_app in Hd. apply NoDup_app in Hd as [Hd _]. rewrite fmap_app in Hd.
  apply NoDup_app in Hd as (Hd & Hnot & _). apply (Hnot (ev_id e)); [|by left].
  apply (ri_dom l _ (compute_rounds_inv by_id mids l Hd)). by rewrite Hy.
Qed.

Lemma compute_rounds_at by_id mids events i e :
  NoDup (ev_id <$> events) → events !! i = Some e →
  rs_rounds (compute_rounds by_id mids events) !! ev_id e =
  Some (event_round by_id mids (compute_rounds by_id mids (take i events)) e).
Proof.
  intros Hd Hi. rewrite <- (take_drop_middle events i e) in Hd |- * by done.
  replace (take i events ++ e :: drop (S i) events)
    with ((take i events ++ [e]) ++ drop (S i) events) in Hd |- * by by rewrite <- app_assoc.
  rewrite (compute_rounds_persist by_id mids (take i events ++ [e]) _ _
             (event_round by_id mids (compute_rounds by_id mids (take i events)) e)); [|done|].
  - assert (take i ((take i events ++ [e]) ++ drop (S i) events) = take i events) as ->; [|done].
    rewrite <- app_assoc. rewrite take_app_le; [by rewrite take_take, Nat.min_id|].
    rewrite length_take. apply lookup_lt_Some in Hi. lia.
  - rewrite compute_rounds_snoc. simpl. by rewrite lookup_insert_eq.
Qed.

Lemma event_round_base by_id mids st e :
  base_round st e <= event_round by_id mids st e <= base_round st e + 1.
Proof. unfold event_round. case_if; lia. Qed.

(** Rounds follow the DAG: in a topologically ordered log an event's round is
    at least that of each of its parents and exceeds the largest of them (0
    without parents) by at most one. *)
Theorem round_monotone (by_id : EventMap) (mids : list string) (events : list Event) (e : Event) (r : Z) :
  topo_ordered events → e ∈ events →
  let rounds := rs_rounds (compute_rounds by_id mids events) in
  rounds !! ev_id e = Some r →
  (∀ p rp, p ∈ ev_parents e → rounds !! p = Some rp → rp <= r) ∧
  (r <= 1 ∨ ∃ p rp, p ∈ ev_parents e ∧ rounds !! p = Some rp ∧ r <= rp + 1).
Proof.
  intros [Hd Ho] (i & Hi)%list_elem_of_lookup rounds Hr.
  pose proof (compute_rounds_at by_id mids events i e Hd Hi) as Hat. fold rounds in Hat.
  rewrite Hr in Hat. injection Hat as Hr'.
  set (st := compute_rounds by_id mids (take i events)) in *.
  pose proof (event_round_base by_id mids st e) as Hb. rewrite <- Hr' in Hb.
  assert (events = take i events ++ drop i events) as Hsplit by by rewrite take_drop.
  assert (NoDup (ev_id <$> take i events)) as Hdt.
  { rewrite Hsplit, fmap_app in Hd. by apply NoDup_app in Hd as [? _]. }
  assert (∀ p rp, rs_rounds st !! p = Some rp → rounds !! p = Some rp) as Hpers.
  { intros p rp Hp. unfold rounds. rewrite Hsplit. apply compute_rounds_persist; [by rewrite <- Hsplit|done]. }
  split.
  - intros p rp Hp Hrp.
    assert (p ∈ ev_id <$> take i events) as Hpin.
    { apply (Ho i e p Hi Hp).
      apply (ri_dom events _ (compute_rounds_inv by_id mids events Hd)). by eexists. }
    apply (ri_dom _ _ (compute_rounds_inv by_id mids _ Hdt)) in Hpin as [rp' Hrp']. fold st in Hrp'.
    pose proof (Hpers _ _ Hrp'). assert (rp' = rp) as -> by congruence.
    assert (rp <= base_round st e); [|lia]. apply max_list_Z_ge, list_elem_of_omap. eauto.
  - unfold base_round in Hb. set (l := omap _ _) in *.
    destruct (decide (l = [])) as [Hl|Hl]; [left; rewrite Hl in Hb; simpl in Hb; lia|right].
    pose proof (max_list_Z_in 0 l Hl) as Hin. apply list_elem_of_omap in Hin as (p & Hp & Hrp).
    exists p, (max_list_Z 0 l). split_and!; [done|by apply Hpers|lia].
Qed.

Lemma round_monotone_witness :
  let e := sample_event "cn1" "n1" ["bn1"; "bn2"; "bn3"] in
  let rounds := rs_rounds (compute_rounds sample_by_id sample_ids sample_run) in
  topo_ordered sample_run ∧ e ∈ sample_run ∧ rounds !! ev_id e = Some 2 ∧
  (∀ p rp, p ∈ ev_parents e → rounds !! p = Some rp → rp <= 2) ∧
  (2 <= 1 ∨ ∃ p rp, p ∈ ev_parents e ∧ rounds !! p = Some rp ∧ 2 <= rp + 1).
Proof.
  intros e rounds.
  assert (e ∈ sample_run) as He.
  { apply list_elem_of_lookup. exists 6%nat. vm_compute. reflexivity. }
  assert (rounds !! ev_id e = Some 2) as Hr by (vm_compute; reflexivity).
  split; [exact sample_run_topo|]. split; [exact He|]. split; [exact Hr|].
  exact (round_monotone sample_by_id sample_ids sample_run e 2 sample_run_topo He Hr).
Defined.
