(* ===== verification/ConsensusAgreement.v ===== *)
(** Agreement: two nodes that hold the same DAG compute the same consensus,
    whatever order each stored the events in - as long as no creator forks.

    [recompute] takes the events in storage order, and makes the first event of
    a creator that reaches a round its witness, so rounds, witnesses and fame
    are functions of a list.  [event_round_settled] and [witness_first] describe
    them without the list: the round of an event depends on the witnesses among
    its ancestors only, and the witness of a creator is its event of that round
    that no other one of them precedes. *)
From Stdlib Require Import FunctionalExtensionality.
From S2P Require Import Prelude Sha256 Json VectorClock Models Utils Consensus ConsensusFacts ConsensusVotes.

(** ** Ranks along ancestry *)
Lemma anc_rank by_id rank x y :
  ranked by_id rank → anc by_id x y → is_Some (by_id !! x) → (rank x < rank y)%nat.
Proof.
  intros Hrank Hxy. induction Hxy as [x y Hp|x z y Hp Hzy IH]; intros Hx; [by apply Hrank|].
  assert (is_Some (by_id !! z)) as Hz.
  { destruct Hzy as [z y (ev & He & _)|z z' y (ev & He & Hp') _]; [|by destruct Hp as (ev' & ? & _); eauto].
    by destruct Hp as (ev' & ? & _); eauto. }
  specialize (IH Hz). assert (rank x < rank z)%nat by by apply Hrank. lia.
Qed.

Lemma topo_anc_index l x y :
  topo_ordered l → anc (events_by_id l) x y → x ∈ ev_id <$> l → (id_index l x < id_index l y)%nat.
Proof. intros Ht Hxy Hx. eapply anc_rank; [by apply topo_ranked|done|]. by apply events_by_id_is_Some. Qed.

Lemma topo_ancestors l x y : topo_ordered l → x ∈ ancestors (events_by_id l) y ↔ anc (events_by_id l) x y.
Proof.
  intros Ht. unfold ancestors. pose proof (ancestor_ids_memo l ∅ y Ht) as Hm.
  cbv zeta in Hm. destruct (ancestor_ids _ _ ∅ y) as [c seen]. apply Hm. by intros z s Hz.
Qed.

Lemma id_index_take l y i : (id_index l y < i)%nat → y ∈ ev_id <$> l → y ∈ ev_id <$> take i l.
Proof.
  intros Hlt Hy. unfold id_index in Hlt. destruct (list_find _ l) as [[j e]|] eqn:Hf.
  - apply list_find_Some in Hf as (Hj & <- & _). apply list_elem_of_fmap_2, list_elem_of_lookup.
    exists j. by rewrite lookup_take_lt.
  - apply list_find_None in Hf. apply list_elem_of_fmap in Hy as (e & -> & He).
    rewrite Forall_forall in Hf. by destruct (Hf e He).
Qed.
Lemma take_id_index l y i : NoDup (ev_id <$> l) → y ∈ ev_id <$> take i l → (id_index l y < i)%nat.
Proof.
  intros Hd Hy. apply list_elem_of_fmap in Hy as (e & -> & He). apply list_elem_of_lookup in He as [j Hj].
  apply lookup_take_Some in Hj as [Hj Hlt]. by rewrite (id_index_lookup l j e).
Qed.

(** ** Rounds and witnesses of a whole list *)
Section settled.
Context (mids : list string) (l : list Event) (Hl : topo_ordered l).
#[local] Notation by_id := (events_by_id l).
#[local] Notation final := (compute_rounds by_id mids l).
#[local] Notation W r := (witnesses_at (rs_witnesses_by_round final) r).

Lemma witness_persist l1 l2 r c w :
  witnesses_at (rs_witnesses_by_round (compute_rounds by_id mids l1)) r !! c = Some w →
  witnesses_at (rs_witnesses_by_round (compute_rounds by_id mids (l1 ++ l2))) r !! c = Some w.
Proof.
  intros Hw. induction l2 as [|e l2 IH] using rev_ind; [by rewrite app_nil_r|].
  rewrite app_assoc, compute_rounds_snoc. by apply round_step_witnesses.
Qed.

Lemma NoDup_take i : NoDup (ev_id <$> take i l).
Proof. destruct Hl as [Hd _]. rewrite <- (take_drop i l), fmap_app in Hd. by apply NoDup_app in Hd as [? _]. Qed.

Lemma round_take i y : y ∈ ev_id <$> take i l →
  rs_rounds (compute_rounds by_id mids (take i l)) !! y = rs_rounds final !! y.
Proof.
  intros Hy. apply (ri_dom _ _ (compute_rounds_inv by_id mids _ (NoDup_take i))) in Hy as [r Hr].
  rewrite Hr. symmetry. rewrite <- (take_drop i l) at 2. apply compute_rounds_persist; [|done].
  rewrite take_drop. apply Hl.
Qed.

Lemma witness_take i r c w : w ∈ ev_id <$> take i l → W r !! c = Some w →
  witnesses_at (rs_witnesses_by_round (compute_rounds by_id mids (take i l))) r !! c = Some w.
Proof.
  intros Hw HW. destruct (compute_rounds_inv by_id mids _ (proj1 Hl)) as [_ Hwit _].
  destruct (Hwit r c w HW) as (e & He & <- & <- & Hr).
  apply list_elem_of_fmap in Hw as (e1 & Heq & He1).
  assert (e1 = e) as ->.
  { apply (NoDup_id_inj l); [apply Hl| |done|done]. rewrite <- (take_drop i l). set_solver. }
  rewrite <- (round_take i) in Hr by by apply list_elem_of_fmap_2.
  destruct (compute_rounds_inv by_id mids _ (NoDup_take i)) as [_ _ Hflag].
  destruct (Hflag e r He1 Hr) as [_ [w Hw]]. pose proof (witness_persist (take i l) (drop i l) _ _ _ Hw) as Hw'.
  rewrite take_drop, HW in Hw'. congruence.
Qed.

(** The witness of a creator in a round precedes its other events of the round. *)
Lemma witness_first r c w e : W r !! c = Some w → e ∈ l → event_creator e = c →
  rs_rounds final !! ev_id e = Some r → (id_index l w <= id_index l (ev_id e))%nat.
Proof.
  intros HW He Hc Hr. apply list_elem_of_lookup in He as [i Hi].
  assert (e ∈ take (S i) l) as He.
  { apply list_elem_of_lookup. exists i. by rewrite lookup_take_lt by lia. }
  destruct (compute_rounds_inv by_id mids _ (NoDup_take (S i))) as [_ Hwit Hflag].
  rewrite <- (round_take (S i)) in Hr by by apply list_elem_of_fmap_2.
  destruct (Hflag e r He Hr) as [_ [w1 Hw1]].
  pose proof (witness_persist (take (S i) l) (drop (S i) l) _ _ _ Hw1) as Hw'.
  rewrite take_drop, Hc, HW in Hw'. injection Hw' as <-.
  destruct (Hwit _ _ _ Hw1) as (ew & Hew & <- & _).
  rewrite (id_index_lookup l i e) by (done || apply Hl).
  assert (id_index l (ev_id ew) < S i)%nat; [|lia].
  apply take_id_index; [apply Hl|by apply list_elem_of_fmap_2].
Qed.

(** The creators whose witness in [ws] is an ancestor of [id]. *)
Definition seen_below (ancs : gset string) (ws : gmap string string) : gset string :=
  dom (filter (λ p, p.2 ∈ ancs) ws).
Lemma elem_of_seen_below ancs ws c : c ∈ seen_below ancs ws ↔ ∃ w, ws !! c = Some w ∧ w ∈ ancs.
Proof.
  unfold seen_below. rewrite elem_of_dom. split.
  - intros [w Hw]. apply map_lookup_filter_Some in Hw as [? ?]. eauto.
  - intros (w & ? & ?). exists w. by apply map_lookup_filter_Some.
Qed.

Definition settled_round (R : gmap string Z) (ws : Z → gmap string string) (ancs : gset string) (parents : list string) : Z :=
  let base := max_list_Z 0 (omap (λ p, R !! p) parents) in
  if bool_decide (supermajority_threshold (length mids) <= size (seen_below ancs (ws base) ∩ list_to_set mids))%nat
  then base + 1 else base.

Lemma base_round_settled i e : l !! i = Some e →
  base_round (compute_rounds by_id mids (take i l)) e = max_list_Z 0 (omap (λ p, rs_rounds final !! p) (ev_parents e)).
Proof.
  intros Hi. unfold base_round. f_equal. apply list_omap_ext, Forall_Forall2_diag, Forall_forall. intros p Hp.
  destruct (decide (p ∈ ev_id <$> l)) as [Hin|Hout].
  - apply round_take. by apply (proj2 Hl i e p).
  - assert (rs_rounds final !! p = None) as ->.
    { apply eq_None_not_Some. by rewrite (ri_dom _ _ (compute_rounds_inv by_id mids _ (proj1 Hl))). }
    apply eq_None_not_Some. rewrite (ri_dom _ _ (compute_rounds_inv by_id mids _ (NoDup_take i))).
    intros Hp'. apply Hout. rewrite <- (take_drop i l), fmap_app. set_solver.
Qed.

Lemma event_round_settled e : e ∈ l →
  rs_rounds final !! ev_id e =
  Some (settled_round (rs_rounds final) (λ r, W r) (ancestors by_id (ev_id e)) (ev_parents e)).
Proof.
  intros (i & Hi)%list_elem_of_lookup. rewrite (compute_rounds_at by_id mids l i e) by (done || apply Hl). f_equal.
  unfold event_round, settled_round. rewrite base_round_settled by done. set (base := max_list_Z 0 _).
  set (st := compute_rounds by_id mids (take i l)).
  assert (seen_below (ancestors by_id (ev_id e)) (W base) =
    list_to_set (omap (λ w, ew ← by_id !! w; if can_see by_id (ev_id e) w then Some (event_creator ew) else None)
      (map_values (witnesses_at (rs_witnesses_by_round st) base)))) as ->.
  { apply set_eq. intros c. rewrite elem_of_seen_below, elem_of_list_to_set, list_elem_of_omap.
    destruct (compute_rounds_inv by_id mids _ (NoDup_take i)) as [_ Hwit _].
    split.
    - intros (w & HW & Ha). pose proof Ha as Hanc. apply (topo_ancestors l) in Hanc; [|done].
      destruct (compute_rounds_inv by_id mids _ (proj1 Hl)) as [_ Hwit' _].
      destruct (Hwit' _ _ _ HW) as (ew & Hew & <- & <- & _). pose proof (list_elem_of_fmap_2 ev_id _ _ Hew) as Hin.
      pose proof (topo_anc_index l _ _ Hl Hanc Hin) as Hlt. rewrite (id_index_lookup l i e) in Hlt by (done || apply Hl).
      pose proof (witness_take i _ _ _ (id_index_take _ _ _ Hlt Hin) HW) as Hwi.
      exists (ev_id ew). split; [apply list_elem_of_fmap; exists (event_creator ew, ev_id ew); split; [done|by apply elem_of_map_to_list]|].
      rewrite (events_by_id_in l ew) by (done || apply Hl). cbn. unfold can_see. by rewrite bool_decide_true by by right.
    - intros (w & Hw & He). apply list_elem_of_fmap in Hw as ([c' w'] & -> & Hw). apply elem_of_map_to_list in Hw.
      cbn [snd] in He. destruct (Hwit _ _ _ Hw) as (ew & Hew & <- & <- & _).
      assert (ew ∈ l) as Hewl by (rewrite <- (take_drop i l); set_solver).
      rewrite (events_by_id_in l ew) in He by (done || apply Hl). cbn in He.
      destruct (can_see _ _ _) eqn:Hsee; [|done]. injection He as <-. exists (ev_id ew).
      pose proof (witness_persist (take i l) (drop i l) _ _ _ Hw) as HW. rewrite take_drop in HW. split; [done|].
      unfold can_see in Hsee. apply bool_decide_eq_true in Hsee as [Heq|?]; [|done].
      pose proof (take_id_index l (ev_id ew) i (proj1 Hl) (list_elem_of_fmap_2 _ _ _ Hew)) as Hlt.
      rewrite <- Heq, (id_index_lookup l i e) in Hlt by (done || apply Hl). lia. }
  unfold sees_supermajority. destruct (map_values _) as [|w ws]; [|by rewrite (bool_decide_true (w :: ws ≠ []))].
  rewrite (bool_decide_false ([] ≠ ([] : list string))) by (by intros []). cbn [andb]. rewrite bool_decide_false; [done|].
  cbn [omap list_omap list_to_set]. assert ((∅ : gset string) ∩ list_to_set mids = ∅) as -> by set_solver.
  rewrite size_empty. pose proof (threshold_pos (length mids)). lia.
Qed.
End settled.

(** ** The same DAG in two orders *)
(** What the DAG is made of; the recorded consensus fields, the signature, the
    payload and the timestamps may differ. *)
Definition dag_view (e : Event) : string * string * list string * (option string * option string) :=
  (ev_id e, event_creator e, ev_parents e, (ev_self_parent_id e, ev_other_parent_id e)).
Definition same_dag (l l' : list Event) : Prop := dag_view <$> l ≡ₚ dag_view <$> l'.

(** No creator has two events neither of which descends from the other. *)
Definition fork_free (l : list Event) : Prop :=
  ∀ e1 e2, e1 ∈ l → e2 ∈ l → event_creator e1 = event_creator e2 →
    e1 = e2 ∨ anc (events_by_id l) (ev_id e1) (ev_id e2) ∨ anc (events_by_id l) (ev_id e2) (ev_id e1).

Lemma dag_view_inv e e' : dag_view e = dag_view e' →
  ev_id e = ev_id e' ∧ event_creator e = event_creator e' ∧ ev_parents e = ev_parents e' ∧
  ev_self_parent_id e = ev_self_parent_id e' ∧ ev_other_parent_id e = ev_other_parent_id e'.
Proof. unfold dag_view. naive_solver. Qed.

#[export] Instance same_dag_equiv : Equivalence same_dag.
Proof.
  unfold same_dag. split; [by intros l|intros l l' H; by rewrite H|intros l1 l2 l3 H1 H2; by rewrite H1].
Qed.
Lemma same_dag_in l l' e : same_dag l l' → e ∈ l → ∃ e', e' ∈ l' ∧ dag_view e = dag_view e'.
Proof.
  unfold same_dag. intros Hs He. apply (list_elem_of_fmap_2 dag_view) in He. rewrite Hs in He.
  apply list_elem_of_fmap in He as (e' & -> & He'). eauto.
Qed.
Lemma same_dag_ids l l' : same_dag l l' → ev_id <$> l ≡ₚ ev_id <$> l'.
Proof.
  intros Hs. assert (∀ k : list Event, ev_id <$> k = (λ v, v.1.1.1) <$> (dag_view <$> k)) as E.
  { intros k. rewrite <- list_fmap_compose. by apply list_fmap_ext. }
  rewrite !E. by apply fmap_Permutation.
Qed.
Lemma same_dag_by_id l l' y : NoDup (ev_id <$> l) → same_dag l l' →
  dag_view <$> events_by_id l !! y = dag_view <$> events_by_id l' !! y.
Proof.
  intros Hd Hs. pose proof (same_dag_ids _ _ Hs) as Hp. assert (NoDup (ev_id <$> l')) as Hd' by by rewrite <- Hp.
  destruct (events_by_id l !! y) as [e|] eqn:He.
  - apply events_by_id_Some in He as [He <-]. destruct (same_dag_in _ _ _ Hs He) as (e' & He' & Hv).
    pose proof (dag_view_inv _ _ Hv) as [-> _]. rewrite (events_by_id_in l' e') by done. cbn. by f_equal.
  - destruct (events_by_id l' !! y) as [e'|] eqn:He'; [|done].
    assert (is_Some (events_by_id l !! y)) as [? ?]; [|congruence].
    apply events_by_id_is_Some. rewrite Hp. apply events_by_id_is_Some. eauto.
Qed.

Lemma ancestor_ids_view (m m' : EventMap) : (∀ y, ev_parents <$> m !! y = ev_parents <$> m' !! y) →
  ∀ fuel cache y, ancestor_ids fuel m cache y = ancestor_ids fuel m' cache y.
Proof.
  intros Hm. induction fuel as [|fuel IH]; intros cache y; [done|]. cbn [ancestor_ids].
  destruct (cache !! y); [done|]. specialize (Hm y). destruct (m !! y) as [e|], (m' !! y) as [e'|]; try done.
  injection Hm as Hp. rewrite Hp.
  assert (∀ ps acc, foldl (λ '(c, seen) parent_id, let '(c', up) := ancestor_ids fuel m c parent_id in (c', seen ∪ {[parent_id]} ∪ up)) acc ps =
    foldl (λ '(c, seen) parent_id, let '(c', up) := ancestor_ids fuel m' c parent_id in (c', seen ∪ {[parent_id]} ∪ up)) acc ps) as ->; [|done].
  induction ps as [|p ps IHp]; intros [c seen]; [done|]. cbn [foldl]. by rewrite IH, IHp.
Qed.

Section agreement.
Context (mids : list string) (l l' : list Event).
Context (Hl : topo_ordered l) (Hl' : topo_ordered l') (Hs : same_dag l l').

Lemma view_by_id y : dag_view <$> events_by_id l !! y = dag_view <$> events_by_id l' !! y.
Proof. apply same_dag_by_id; [apply Hl|done]. Qed.
Lemma same_ancestors y : ancestors (events_by_id l) y = ancestors (events_by_id l') y.
Proof.
  unfold ancestors. assert (size (events_by_id l) = size (events_by_id l')) as ->.
  { rewrite !size_events_by_id by (apply Hl || apply Hl').
    pose proof (Permutation_length Hs) as Hlen. by rewrite !length_fmap in Hlen. }
  f_equal. apply ancestor_ids_view. intros z. pose proof (view_by_id z) as Hv.
  destruct (events_by_id l !! z), (events_by_id l' !! z); try done. injection Hv. cbn. congruence.
Qed.
Lemma same_anc x y : anc (events_by_id l) x y ↔ anc (events_by_id l') x y.
Proof. by rewrite <- !topo_ancestors, same_ancestors. Qed.
Lemma same_can_see : can_see (events_by_id l) = can_see (events_by_id l').
Proof.
  apply functional_extensionality. intros x. apply functional_extensionality. intros y.
  unfold can_see. by rewrite same_ancestors.
Qed.
Lemma fork_free_same : fork_free l → fork_free l'.
Proof.
  intros Hf e1 e2 H1 H2 Hc. assert (same_dag l' l) as Hs' by by symmetry.
  destruct (same_dag_in _ _ _ Hs' H1) as (f1 & Hf1 & (I1 & C1 & _)%dag_view_inv).
  destruct (same_dag_in _ _ _ Hs' H2) as (f2 & Hf2 & (I2 & C2 & _)%dag_view_inv).
  rewrite <- !same_anc, I1, I2. destruct (Hf f1 f2 Hf1 Hf2) as [->|]; [congruence| |by right].
  left. apply (NoDup_id_inj l'); [apply Hl'|done|done|congruence].
Qed.
End agreement.

(** The witness of a creator in a round, told without the list: its event of that
    round that none of its other events of the round precedes. *)
Definition first_of (by_id : EventMap) (R : gmap string Z) (r : Z) (c w : string) : Prop :=
  (event_creator <$> by_id !! w) = Some c ∧ R !! w = Some r ∧
  ∀ y, (event_creator <$> by_id !! y) = Some c → R !! y = Some r → ¬ anc by_id y w.

Lemma witness_first_of mids l r c w : topo_ordered l → fork_free l →
  let st := compute_rounds (events_by_id l) mids l in
  witnesses_at (rs_witnesses_by_round st) r !! c = Some w ↔ first_of (events_by_id l) (rs_rounds st) r c w.
Proof.
  intros Hl Hf st. destruct (compute_rounds_inv (events_by_id l) mids _ (proj1 Hl)) as [Hdom Hwit Hflag]. fold st in Hdom, Hwit, Hflag.
  assert (∀ w' e, witnesses_at (rs_witnesses_by_round st) r !! c = Some w' → e ∈ l → event_creator e = c →
    rs_rounds st !! ev_id e = Some r → ¬ anc (events_by_id l) (ev_id e) w') as Hfirst.
  { intros w' e HW He Hc Hr Ha. pose proof (witness_first mids l Hl r c w' e HW He Hc Hr).
    pose proof (topo_anc_index l _ _ Hl Ha (list_elem_of_fmap_2 _ _ _ He)). lia. }
  split.
  - intros HW. destruct (Hwit _ _ _ HW) as (ew & Hew & <- & Hc & Hr).
    split; [rewrite (events_by_id_in l ew) by (done || apply Hl); cbn; by rewrite Hc|]. split; [done|].
    intros y Hy Hry. destruct (events_by_id l !! y) as [ey|] eqn:Ey; [|done]. injection Hy as Hcy.
    apply events_by_id_Some in Ey as [Hey <-]. by apply Hfirst.
  - intros (Hw & Hr & Hmin). destruct (events_by_id l !! w) as [ew|] eqn:Ew; [|done]. injection Hw as Hc.
    apply events_by_id_Some in Ew as [Hew <-]. destruct (Hflag ew r Hew Hr) as [_ [w2 HW]]. rewrite Hc in HW.
    destruct (Hwit _ _ _ HW) as (e2 & He2 & <- & Hc2 & Hr2).
    destruct (Hf ew e2 Hew He2) as [->|[Ha|Ha]]; [congruence|done| |].
    + by destruct (Hfirst (ev_id e2) ew HW Hew Hc Hr).
    + destruct (Hmin (ev_id e2)); [|done|done]. rewrite (events_by_id_in l e2) by (done || apply Hl). cbn. by rewrite Hc2.
Qed.

Lemma witnesses_nonempty by_id mids l r m :
  rs_witnesses_by_round (compute_rounds by_id mids l) !! r = Some m → m ≠ ∅.
Proof.
  induction l as [|e l IH] using rev_ind; [done|]. rewrite compute_rounds_snoc. cbn [round_step rs_witnesses_by_round].
  set (st := compute_rounds by_id mids l) in *. set (r0 := event_round by_id mids st e).
  destruct (decide (r0 = r)) as [->|Hr]; [rewrite lookup_insert_eq|by rewrite lookup_insert_ne].
  intros [= <-] Hm. assert (∀ c, (if bool_decide (witnesses_at (rs_witnesses_by_round st) r !! event_creator e = None)
    then <[event_creator e := ev_id e]> (witnesses_at (rs_witnesses_by_round st) r)
    else witnesses_at (rs_witnesses_by_round st) r) !! c = None) as Hn by (intros c; rewrite Hm; apply lookup_empty).
  specialize (Hn (event_creator e)). case_bool_decide as Hc; [by rewrite lookup_insert_eq in Hn|done].
Qed.

(** ** Rounds and witnesses agree *)
Lemma first_of_transfer by_id by_id' R R' r c w :
  (∀ y, event_creator <$> by_id !! y = event_creator <$> by_id' !! y) →
  (∀ x y, anc by_id x y ↔ anc by_id' x y) →
  (∀ y, y = w ∨ anc by_id y w → R !! y = R' !! y) →
  first_of by_id R r c w → first_of by_id' R' r c w.
Proof.
  intros Hc Ha HR (Hw & Hr & Hmin). split; [by rewrite <- Hc|]. split; [rewrite <- HR by (by left); done|].
  intros y Hy Hry Hyw. rewrite <- Ha in Hyw. apply (Hmin y); [by rewrite Hc| |done]. rewrite HR by (by right). done.
Qed.

Section agreement2.
Context (mids : list string) (l l' : list Event).
Context (Hl : topo_ordered l) (Hl' : topo_ordered l') (Hs : same_dag l l') (Hf : fork_free l).
#[local] Notation st := (compute_rounds (events_by_id l) mids l).
#[local] Notation st' := (compute_rounds (events_by_id l') mids l').

Lemma creators_agree y : event_creator <$> events_by_id l !! y = event_creator <$> events_by_id l' !! y.
Proof.
  pose proof (view_by_id l l' Hl Hs y) as Hv.
  destruct (events_by_id l !! y), (events_by_id l' !! y); try done. injection Hv. cbn. congruence.
Qed.
Lemma rounds_outside y : y ∉ ev_id <$> l → rs_rounds st !! y = None ∧ rs_rounds st' !! y = None.
Proof.
  intros Hy. split; apply eq_None_not_Some.
  - by rewrite (ri_dom _ _ (compute_rounds_inv (events_by_id l) mids _ (proj1 Hl))).
  - by rewrite (ri_dom _ _ (compute_rounds_inv (events_by_id l') mids _ (proj1 Hl'))), <- (same_dag_ids l l').
Qed.

(** When the rounds of a possible witness and of its ancestors agree, so does whether it is one. *)
Lemma witness_agrees r c w :
  (∀ y, y = w ∨ anc (events_by_id l) y w → rs_rounds st !! y = rs_rounds st' !! y) →
  witnesses_at (rs_witnesses_by_round st) r !! c = Some w ↔ witnesses_at (rs_witnesses_by_round st') r !! c = Some w.
Proof.
  intros HR. rewrite !witness_first_of by (done || by eapply (fork_free_same l)).
  assert (∀ x y, anc (events_by_id l) x y ↔ anc (events_by_id l') x y) as Ha by by apply same_anc.
  split; apply first_of_transfer; try done.
  - apply creators_agree.
  - intros y. symmetry. apply creators_agree.
  - intros y Hy. symmetry. apply HR. by rewrite Ha.
Qed.

Lemma rounds_agree y : rs_rounds st !! y = rs_rounds st' !! y.
Proof.
  induction y as [y IH] using (induction_ltof1 _ (id_index l)). unfold ltof in IH.
  destruct (decide (y ∈ ev_id <$> l)) as [Hy|Hy]; [|by destruct (rounds_outside y Hy) as [-> ->]].
  assert (∀ x, anc (events_by_id l) x y → rs_rounds st !! x = rs_rounds st' !! x) as Hanc.
  { intros x Hx. destruct (decide (x ∈ ev_id <$> l)) as [Hin|Hout]; [|by destruct (rounds_outside x Hout) as [-> ->]].
    apply IH. by apply topo_anc_index. }
  apply list_elem_of_fmap in Hy as (e & -> & He). destruct (same_dag_in _ _ _ Hs He) as (e' & He' & Hv).
  pose proof (dag_view_inv _ _ Hv) as (Hid & _ & Hps & _). rewrite (event_round_settled mids l Hl e He).
  rewrite Hid, (event_round_settled mids l' Hl' e' He'), <- Hps, <- Hid, <- (same_ancestors l l') by done. f_equal.
  unfold settled_round.
  assert (omap (λ p, rs_rounds st' !! p) (ev_parents e) = omap (λ p, rs_rounds st !! p) (ev_parents e)) as ->.
  { apply list_omap_ext, Forall_Forall2_diag, Forall_forall. intros p Hp. symmetry. apply Hanc, tc_once.
    exists e. split; [|done]. apply events_by_id_in; [apply Hl|done]. }
  set (base := max_list_Z 0 _).
  assert (seen_below (ancestors (events_by_id l) (ev_id e)) (witnesses_at (rs_witnesses_by_round st) base) =
    seen_below (ancestors (events_by_id l) (ev_id e)) (witnesses_at (rs_witnesses_by_round st') base)) as ->; [|done].
  apply set_eq. intros c. rewrite !elem_of_seen_below. apply exist_proper. intros w.
  assert (∀ w, w ∈ ancestors (events_by_id l) (ev_id e) → ∀ z, z = w ∨ anc (events_by_id l) z w →
    rs_rounds st !! z = rs_rounds st' !! z) as Hbelow.
  { intros v Hv' z Hz. apply topo_ancestors in Hv'; [|done]. apply Hanc. destruct Hz as [->|Hz]; [done|by eapply tc_transitive]. }
  split; intros [HW Hw]; (split; [|done]); by apply (witness_agrees base c w (Hbelow w Hw)).
Qed.

Lemma witness_maps_agree : rs_witnesses_by_round st = rs_witnesses_by_round st'.
Proof.
  assert (∀ r, witnesses_at (rs_witnesses_by_round st) r = witnesses_at (rs_witnesses_by_round st') r) as Hat.
  { intros r. apply map_eq. intros c. apply option_eq. intros w.
    apply witness_agrees. intros y _. apply rounds_agree. }
  apply map_eq. intros r. specialize (Hat r). unfold witnesses_at in Hat.
  destruct (rs_witnesses_by_round st !! r) as [m|] eqn:E, (rs_witnesses_by_round st' !! r) as [m'|] eqn:E'; cbn in Hat; try done.
  - by subst.
  - subst. by apply witnesses_nonempty in E.
  - subst. by apply witnesses_nonempty in E'.
Qed.

Lemma witness_flags_agree y : y ∈ ev_id <$> l → rs_witness_flags st !! y = rs_witness_flags st' !! y.
Proof.
  intros (e & -> & He)%list_elem_of_fmap. destruct (same_dag_in _ _ _ Hs He) as (e' & He' & (Hid & Hc & _)%dag_view_inv).
  destruct (compute_rounds_inv (events_by_id l) mids _ (proj1 Hl)) as [_ _ Hflag].
  destruct (compute_rounds_inv (events_by_id l') mids _ (proj1 Hl')) as [_ _ Hflag'].
  pose proof (event_round_settled mids l Hl e He) as Hr. destruct (Hflag _ _ He Hr) as [-> _].
  rewrite rounds_agree, Hid in Hr. rewrite Hid. destruct (Hflag' _ _ He' Hr) as [-> _]. by rewrite Hc, witness_maps_agree.
Qed.
End agreement2.

(** ** The recomputed states agree *)
Lemma fmap_agree {B} (f f' : Event → B) (k k' : list Event) :
  ev_id <$> k = ev_id <$> k' →
  (∀ e e', e ∈ k → e' ∈ k' → ev_id e = ev_id e' → f e = f' e') → f <$> k = f' <$> k'.
Proof.
  revert k'. induction k as [|e k IH]; intros [|e' k'] Hk Hf; try done. injection Hk as He Hk. cbn. f_equal.
  - by apply Hf; [left|left|].
  - apply IH; [done|]. intros x x' Hx Hx'. by apply Hf; right.
Qed.
Lemma fmap_agree_perm {B} (f f' : Event → B) (k k' : list Event) :
  ev_id <$> k ≡ₚ ev_id <$> k' →
  (∀ e e', e ∈ k → e' ∈ k' → ev_id e = ev_id e' → f e = f' e') → f <$> k ≡ₚ f' <$> k'.
Proof.
  intros Hp Hf. apply Permutation_map_inv in Hp as (k3 & Heq & Hp3). rewrite Hp3.
  rewrite (fmap_agree f f' k k3); [done|exact Heq|]. intros e e' He He'. apply Hf; [done|]. by rewrite Hp3.
Qed.

(** The order of the ids depends on what is resolved for them only. *)
Lemma total_order_ids (l l' : list Event) (res : string → option Z * option Q) (m m' : Resolved) :
  NoDup (ev_id <$> l) → ev_id <$> l ≡ₚ ev_id <$> l' →
  (∀ e, e ∈ l → m !! ev_id e = Some (res (ev_id e))) → (∀ e, e ∈ l' → m' !! ev_id e = Some (res (ev_id e))) →
  ev_id <$> total_order l m = ev_id <$> total_order l' m'.
Proof.
  intros Hd Hp Hm Hm'. set (key := λ y, ((res y).1, ((res y).2, y)) : event_key).
  assert (∀ k n, (∀ e, e ∈ k → n !! ev_id e = Some (res (ev_id e))) →
    StronglySorted (λ x y, cmp_event_key (key x) (key y) ≠ Gt) (ev_id <$> total_order k n)) as Hsort.
  { intros k n Hn. pose proof (total_order_sorted k n) as Hss.
    assert (∀ x, x ∈ total_order k n → event_key_of n x = key (ev_id x)) as Hkey.
    { intros x Hx. rewrite total_order_perm in Hx. unfold event_key_of, key. rewrite (Hn x Hx). cbn. by destruct (res (ev_id x)). }
    induction Hss as [|x t Hss IH Hx]; cbn; constructor; [apply IH; intros y Hy; apply Hkey; by right|].
    apply Forall_fmap. rewrite Forall_forall in Hx. apply Forall_forall. intros y Hy. cbn.
    rewrite <- !Hkey; [by apply Hx|by right|by left]. }
  eapply StronglySorted_unique_strong; [|by apply Hsort..|by rewrite !total_order_perm].
  intros x y _ _ Hxy Hyx. assert (cmp_event_key (key x) (key y) = Eq) as He.
  { apply (cmp_leb_antisym cmp_event_key); by apply (cmp_leb_le cmp_event_key). }
  revert He. unfold cmp_event_key, key, cmp_pair, cmp_then. cbn. repeat (case_match; try done). intros. by apply String.compare_eq_iff.
Qed.

Section states.
Context (mids : list string) (l l' : list Event).
Context (Hl : topo_ordered l) (Hl' : topo_ordered l') (Hs : same_dag l l') (Hf : fork_free l).
#[local] Notation M := (events_by_id l).
#[local] Notation M' := (events_by_id l').
#[local] Notation st := (compute_rounds M mids l).
#[local] Notation st' := (compute_rounds M' mids l').

Lemma fame_agrees w : fame_decisions_by_round M mids w = fame_decisions_by_round M' mids w.
Proof.
  unfold fame_decisions_by_round, vote_history_by_round, witness_vote_history, first_votes, later_votes, visible_votes.
  by rewrite (same_can_see l l').
Qed.
Lemma round_received_agrees w famous fame y :
  round_received M mids w famous fame y = round_received M' mids w famous fame y.
Proof. unfold round_received, receives, seeing_creators. by rewrite (same_can_see l l'). Qed.

Lemma states_agree q pm famous fame e e' : e ∈ l → e' ∈ l' → ev_id e = ev_id e' →
  state_of M mids q pm st famous fame e = state_of M' mids q pm st' famous fame e'.
Proof.
  intros He He' Hid. destruct (same_dag_in _ _ _ Hs He) as (e2 & He2 & Hv).
  assert (e2 = e') as ->.
  { apply (NoDup_id_inj l'); [apply Hl'|done|done|]. apply dag_view_inv in Hv as [? _]. congruence. }
  apply dag_view_inv in Hv as (_ & Hc & _ & Hsp & Hop). unfold state_of.
  rewrite <- Hid, Hc, Hsp, Hop, <- (rounds_agree mids l l'), <- (witness_maps_agree mids l l') by done.
  rewrite <- (witness_flags_agree mids l l'), <- round_received_agrees by (done || by apply list_elem_of_fmap_2). done.
Qed.
End states.

(** ** Membership *)
Lemma snapshot_ids epoch (entries : list MembershipEntry) :
  me_node_id <$> ms_members (membership_snapshot epoch entries) =
  sort_on id String.compare (me_node_id <$> entries).
Proof.
  cbn. eapply StronglySorted_unique_strong with (R := λ x y, String.compare x y ≠ Gt).
  - intros x y _ _ Hxy Hyx. apply String.compare_eq_iff, (cmp_leb_antisym String.compare); by apply (cmp_leb_le String.compare).
  - pose proof (sort_on_sorted me_node_id String.compare entries) as Hss.
    induction Hss as [|x t Hss IH Hx]; cbn; constructor; [done|]. by apply Forall_fmap.
  - apply (sort_on_sorted id String.compare).
  - by rewrite !sort_on_perm.
Qed.
Lemma snapshot_ids_perm epoch epoch' (entries entries' : list MembershipEntry) :
  me_node_id <$> entries ≡ₚ me_node_id <$> entries' →
  me_node_id <$> ms_members (membership_snapshot epoch entries) = me_node_id <$> ms_members (membership_snapshot epoch' entries').
Proof.
  intros Hp. rewrite !snapshot_ids. apply sort_on_perm_eq; [apply _|done|]. intros x y _ _. apply String.compare_eq_iff.
Qed.
Lemma normalize_membership_agrees self self' (ms ms' : list MembershipEntry) :
  me_node_id <$> ms = me_node_id <$> ms' → self ≠ "" → self' ≠ "" →
  self ∈ py_strip <$> (me_node_id <$> ms) → self' ∈ py_strip <$> (me_node_id <$> ms) →
  normalize_membership self ms = normalize_membership self' ms'.
Proof.
  intros Hids Hne Hne' Hin Hin'. rewrite Hids in Hin'. rewrite <- list_fmap_compose in Hin, Hin'.
  apply list_elem_of_fmap in Hin as (e & He & Hin), Hin' as (e' & He' & Hin').
  rewrite (normalize_membership_self self ms e), (normalize_membership_self self' ms' e') by done.
  assert (∀ k : list MembershipEntry, foldl (λ acc entry, let node_id := py_strip (me_node_id entry) in
      if decide (node_id = "" ∨ node_id ∈ acc) then acc else acc ++ [node_id]) [] k =
    foldl (λ acc y, if decide (py_strip y = "" ∨ py_strip y ∈ acc) then acc else acc ++ [py_strip y]) [] (me_node_id <$> k)) as E.
  { intros k. induction k as [|x k IH] using rev_ind; [done|]. by rewrite fmap_app, !foldl_app, IH. }
  by rewrite !E, Hids.
Qed.

(** A state without its consensus timestamp, the one field that depends on the
    hop times each node recorded for itself. *)
Definition undated (s : ConsensusState) : ConsensusState :=
  mkState (cs_event_id s) (cs_creator s) (cs_self_parent_id s) (cs_other_parent_id s) (cs_round s) (cs_round_received s)
    (cs_is_witness s) (cs_is_famous_witness s) (cs_fame_decided s) (cs_fame_decision_round s) (cs_fame_decision_kind s)
    (cs_fame_needs_coin s) (cs_fame_coin_used s) (cs_fame_coin_round s) (cs_fame_vote_round s) (cs_fame_vote_yes s)
    (cs_fame_vote_no s) None.
Lemma undated_state_of by_id mids q pm pm' st famous fame e :
  undated (state_of by_id mids q pm st famous fame e) = undated (state_of by_id mids q pm' st famous fame e).
Proof. done. Qed.

(** C10: replicas agree. Two members that hold the same DAG without forks and the same
    membership compute the same round, round received, witness and fame state for
    every event, whatever topological order each stored the events in, whatever it
    recorded with them before and in whatever order its registry lists the members;
    with the same hop times they list the same states in the same order, consensus
    timestamps included. *)
Theorem replicas_agree (self self' : string) (l l' : list Event) (epoch epoch' : Z)
    (entries entries' : list MembershipEntry) (pm pm' : PathMeta) :
  topo_ordered l → topo_ordered l' → same_dag l l' → fork_free l →
  me_node_id <$> entries ≡ₚ me_node_id <$> entries' → self ≠ "" → self' ≠ "" →
  self ∈ py_strip <$> (me_node_id <$> entries) → self' ∈ py_strip <$> (me_node_id <$> entries) →
  let states := recompute self l (ms_members (membership_snapshot epoch entries)) in
  let states' := recompute self' l' (ms_members (membership_snapshot epoch' entries')) in
  undated <$> states pm ≡ₚ undated <$> states' pm' ∧ (pm = pm' → states pm = states' pm').
Proof.
  intros Hl Hl' Hs Hf Hp Hne Hne' Hin Hin' states states'.
  pose proof (same_dag_ids _ _ Hs) as Hids. unfold states, states'. clear states states'.
  destruct l as [|e0 t] eqn:El; [by apply Permutation_nil, fmap_nil_inv in Hids as ->|]. rewrite <- El in *.
  destruct l' as [|e0' t'] eqn:El'; [rewrite El in Hids; by apply Permutation_sym, Permutation_nil in Hids|]. rewrite <- El' in *.
  set (mids := normalize_membership self (ms_members (membership_snapshot epoch entries))).
  assert (normalize_membership self' (ms_members (membership_snapshot epoch' entries')) = mids) as Hmids.
  { symmetry. apply normalize_membership_agrees; [by apply snapshot_ids_perm|done..| |]; by rewrite snapshot_ids, sort_on_perm. }
  pose proof (λ pm, recompute_unfold self e0 t (ms_members (membership_snapshot epoch entries)) pm) as Hu.
  pose proof (λ pm, recompute_unfold self' e0' t' (ms_members (membership_snapshot epoch' entries')) pm) as Hu'.
  rewrite <- El in Hu. rewrite <- El', Hmids in Hu'. fold mids in Hu. cbv zeta in Hu, Hu'.
  rewrite <- (witness_maps_agree mids l l'), <- (fame_agrees mids l l') in Hu' by done.
  rewrite Hu, Hu' by (apply Hl || apply Hl'). set (fame := fame_decisions_by_round _ _ _).
  set (famous := famous_witnesses _ _). set (q := supermajority_threshold _). split.
  - rewrite <- !list_fmap_compose, !total_order_perm. apply fmap_agree_perm; [done|]. intros e e' He He' Hid. cbn.
    rewrite (undated_state_of _ _ _ pm pm'). f_equal. by apply states_agree.
  - intros <-. apply fmap_agree.
    + apply (total_order_ids l l' (λ y, (round_received (events_by_id l) mids
        (rs_witnesses_by_round (compute_rounds (events_by_id l) mids l)) famous fame y, consensus_timestamp y mids q pm)));
        [apply Hl|done|..]; intros e He; rewrite resolve_all_lookup by done; [done|].
      by rewrite <- (round_received_agrees mids l l').
    + intros e e' He He'. rewrite total_order_perm in He, He'. by apply states_agree.
Qed.

Definition fork_check (l : list Event) : bool :=
  forallb (λ e1, forallb (λ e2, negb (bool_decide (event_creator e1 = event_creator e2)) || bool_decide (ev_id e1 = ev_id e2) ||
    bool_decide (ev_id e1 ∈ ancestors (events_by_id l) (ev_id e2)) ||
    bool_decide (ev_id e2 ∈ ancestors (events_by_id l) (ev_id e1))) l) l.
Lemma fork_check_free l : topo_ordered l → fork_check l = true → fork_free l.
Proof.
  unfold fork_check. rewrite forallb_forall. intros Hl Hc e1 e2 H1 H2 Hcr.
  pose proof H1 as H1'. pose proof H2 as H2'. apply list_elem_of_In in H1', H2'.
  specialize (Hc e1 H1'). rewrite forallb_forall in Hc. specialize (Hc e2 H2').
  rewrite !orb_true_iff, negb_true_iff, bool_decide_eq_false, !bool_decide_eq_true, !topo_ancestors in Hc by done.
  destruct Hc as [[[?|Hid]|?]|?]; [done| |by right; left|by right; right].
  left. by apply (NoDup_id_inj l); [apply Hl|..].
Qed.

(** The same run stored layer by layer in the opposite order, with consensus fields
    recorded, and a registry that lists the members from the end. *)
Definition recorded (e : Event) : Event :=
  {| ev_id := ev_id e; ev_cls := ev_cls e; ev_source := ev_source e; ev_creator := ev_creator e;
     ev_ts_local := ev_ts_local e; ev_vclock := ev_vclock e; ev_parents := ev_parents e;
     ev_self_parent_id := ev_self_parent_id e; ev_other_parent_id := ev_other_parent_id e;
     ev_payload := ev_payload e; ev_sig := ev_sig e; ev_consensus_ts := Some 5%Q; ev_lamport_ts := Some 4;
     ev_round := Some 9; ev_round_received := Some 9; ev_is_witness := true;
     ev_is_famous_witness := true; ev_fame_decided := true; ev_fame_decision_round := Some 9;
     ev_fame_decision_kind := "vote"; ev_fame_needs_coin := false; ev_fame_coin_used := false;
     ev_fame_coin_round := None; ev_fame_vote_round := Some 9; ev_fame_vote_yes := 3;
     ev_fame_vote_no := 0 |}.
Definition other_run : list Event :=
  recorded <$> (reverse (take 3 sample_run) ++ reverse (take 3 (drop 3 sample_run)) ++
                reverse (take 3 (drop 6 sample_run)) ++ reverse (drop 9 sample_run)).
Definition other_entries : list MembershipEntry :=
  (λ n, mkMember n "" "observer" true) <$> ["n3"; "n1"; "n2"].

Lemma replicas_agree_witness :
  let states := recompute "n1" sample_run (ms_members (membership_snapshot 1 sample_members)) in
  let states' := recompute "n3" other_run (ms_members (membership_snapshot 7 other_entries)) in
  other_run ≠ sample_run ∧ (undated <$> states sample_path_meta ≡ₚ undated <$> states' ∅) ∧
  states sample_path_meta = states' sample_path_meta ∧
  (λ s, (cs_event_id s, (cs_round s, (cs_is_witness s, cs_round_received s)))) <$> take 1 (states' ∅) =
    [("an1", (0, (true, Some 1)))].
Proof.
  assert (topo_ordered other_run) as Ht' by (apply topo_check_ordered; vm_compute; reflexivity).
  assert (same_dag sample_run other_run) as Hs.
  { unfold same_dag. apply (bool_decide_unpack _). vm_compute. exact I. }
  assert (fork_free sample_run) as Hf by (apply fork_check_free; [apply sample_run_topo|vm_compute; reflexivity]).
  assert (me_node_id <$> sample_members ≡ₚ me_node_id <$> other_entries) as Hp.
  { apply (bool_decide_unpack _). vm_compute. exact I. }
  assert ("n1" ∈ py_strip <$> (me_node_id <$> sample_members)) as H1 by (apply (bool_decide_unpack _); vm_compute; exact I).
  assert ("n3" ∈ py_strip <$> (me_node_id <$> sample_members)) as H3 by (apply (bool_decide_unpack _); vm_compute; exact I).
  assert ("n1" ≠ "") as N1 by done. assert ("n3" ≠ "") as N3 by done.
  pose proof (λ pm pm', replicas_agree "n1" "n3" sample_run other_run 1 7 sample_members other_entries pm pm'
    sample_run_topo Ht' Hs Hf Hp N1 N3 H1 H3) as Ha.
  split; [done|]. split; [|split].
  - exact (proj1 (Ha sample_path_meta ∅)).
  - exact (proj2 (Ha sample_path_meta sample_path_meta) eq_refl).
  - vm_compute. reflexivity.
Defined.

(** A fork takes the agreement away: [n4] issues two first events, and the node that
    stored "a4x" first puts "b1" in round 0 where the node that stored "a4y" first
    puts it in round 1. *)
Definition forked_run (first second : string) : list Event :=
  [sample_event "a1" "n1" []; sample_event "a2" "n2" []; sample_event first "n4" []; sample_event second "n4" [];
   sample_event "b1" "n1" ["a1"; "a2"; "a4y"]].
Example fork_breaks_agreement :
  let members := (λ n, mkMember n n "node" false) <$> ["n1"; "n2"; "n3"; "n4"] in
  let round_of l := list_find (λ s, cs_event_id s = "b1") (recompute "n1" l members ∅) ≫= λ p, Some (cs_round p.2) in
  topo_ordered (forked_run "a4x" "a4y") ∧ topo_ordered (forked_run "a4y" "a4x") ∧
  same_dag (forked_run "a4x" "a4y") (forked_run "a4y" "a4x") ∧
  (round_of (forked_run "a4x" "a4y"), round_of (forked_run "a4y" "a4x")) = (Some 0, Some 1).
Proof.
  split_and!; [by apply topo_check_ordered|by apply topo_check_ordered|unfold same_dag; apply (bool_decide_unpack _); vm_compute; exact I|].
  vm_compute. reflexivity.
Qed.
