(* ===== verification/Storage.v ===== *)
(** [mdrj/storage.py]: the SQLite backend, definitions.

    A [DB] value is the content of the database file.  The two tables whose
    columns the sources read defensively ([events], [peers]) are lists of SQL
    rows (dicts from column to value) in insertion order; a table that is only
    addressed by its primary key is a map; the others are lists of records.

    - [ORDER BY created_at] is a stable sort, [DESC] its reverse.  A SELECT
      without ORDER BY lists the table in insertion order; SQLite promises no
      order there, so the theorems about [toposort] hold for every order of the
      ids and edges.
    - [time.time()] is an argument.  The lock makes every operation atomic: one
      definition is one transition.  A transaction that raises is rolled back:
      the operation returns [Err] and no state.
    - The connection, the indexes, PRAGMAs and [db_size_bytes] (file pages) are
      not modelled. *)
From S2P Require Import Prelude Sha256 Json VectorClock Models Consensus.

Record IncidentRow := mkIncident {
  in_id : string;
  in_payload : json;
  in_created_at : pyfloat;
  in_updated_at : pyfloat }.

Record MetricsRow := mkMetrics {
  mr_id : Z;
  mr_ts : pyfloat;
  mr_snapshot : json }.

Record CheckpointRow := mkCheckpointRow {
  cp_round_received : Z;
  cp_merkle_root : string;
  cp_members_snapshot_hash : string;
  cp_signatures : odict string;
  cp_status : string;
  cp_confirmed_at : option pyfloat;
  cp_created_at : pyfloat }.

Record SkeletonRow := mkSkeleton {
  sk_id : string;
  sk_cls : string;
  sk_parent_ids : json;
  sk_round_received : option Z;
  sk_payload_hash : string;
  sk_archived_at : pyfloat }.

Record UserRow := mkUser {
  us_password_hash : string;
  us_role : string;
  us_created_at : pyfloat }.

Record DB := mkDB {
  db_events : list sqlrow;
  db_edges : list (string * string);
  db_envelopes : gmap string (list Hop);
  db_peers : list sqlrow;
  db_membership : option json;
  db_incidents : list IncidentRow;
  db_metrics : list MetricsRow;
  db_metrics_seq : Z;
  db_checkpoints : gmap Z CheckpointRow;
  db_skeletons : list SkeletonRow;
  db_users : gmap string UserRow }.

Definition empty_db : DB := mkDB [] [] ∅ [] None [] [] 0 ∅ [] ∅.

Definition set_graph (db : DB) ev ed en : DB :=
  mkDB ev ed en (db_peers db) (db_membership db) (db_incidents db) (db_metrics db)
    (db_metrics_seq db) (db_checkpoints db) (db_skeletons db) (db_users db).
Definition set_events (db : DB) ev : DB := set_graph db ev (db_edges db) (db_envelopes db).
Definition set_peers (db : DB) p : DB :=
  mkDB (db_events db) (db_edges db) (db_envelopes db) p (db_membership db) (db_incidents db)
    (db_metrics db) (db_metrics_seq db) (db_checkpoints db) (db_skeletons db) (db_users db).
Definition set_membership (db : DB) m : DB :=
  mkDB (db_events db) (db_edges db) (db_envelopes db) (db_peers db) m (db_incidents db)
    (db_metrics db) (db_metrics_seq db) (db_checkpoints db) (db_skeletons db) (db_users db).
Definition set_incidents (db : DB) i : DB :=
  mkDB (db_events db) (db_edges db) (db_envelopes db) (db_peers db) (db_membership db) i
    (db_metrics db) (db_metrics_seq db) (db_checkpoints db) (db_skeletons db) (db_users db).
Definition set_metrics (db : DB) m seq : DB :=
  mkDB (db_events db) (db_edges db) (db_envelopes db) (db_peers db) (db_membership db)
    (db_incidents db) m seq (db_checkpoints db) (db_skeletons db) (db_users db).
Definition set_checkpoints (db : DB) c : DB :=
  mkDB (db_events db) (db_edges db) (db_envelopes db) (db_peers db) (db_membership db)
    (db_incidents db) (db_metrics db) (db_metrics_seq db) c (db_skeletons db) (db_users db).
Definition set_skeletons (db : DB) s : DB :=
  mkDB (db_events db) (db_edges db) (db_envelopes db) (db_peers db) (db_membership db)
    (db_incidents db) (db_metrics db) (db_metrics_seq db) (db_checkpoints db) s (db_users db).
Definition set_users (db : DB) u : DB :=
  mkDB (db_events db) (db_edges db) (db_envelopes db) (db_peers db) (db_membership db)
    (db_incidents db) (db_metrics db) (db_metrics_seq db) (db_checkpoints db) (db_skeletons db) u.

(** ** SQL helpers *)
Definition sql_coalesce (a b : sqlval) : sqlval := match a with SNull => b | _ => a end.

Definition sql_real (v : sqlval) : Q :=
  match v with SReal q => q | SInt z => inject_Z z | _ => 0%Q end.

(** [LIMIT n]: a negative limit is no limit. *)
Definition sql_limit {X} (n : Z) (l : list X) : list X :=
  if n <? 0 then l else take (Z.to_nat n) l.

Definition row_id (r : sqlrow) : string :=
  match sql_get r "id" with SText s => s | _ => "" end.
Definition row_created_at (r : sqlrow) : Q := sql_real (sql_get r "created_at").
Definition order_by_created (rows : list sqlrow) : list sqlrow := sort_on row_created_at Qcompare rows.
Definition order_by_created_desc (rows : list sqlrow) : list sqlrow := reverse (order_by_created rows).

(** [UPDATE t SET ... WHERE p]. *)
Definition sql_update (p : sqlrow → bool) (f : sqlrow → sqlrow) (rows : list sqlrow) : list sqlrow :=
  (λ r, if p r then f r else r) <$> rows.
(** [DELETE FROM t WHERE p]. *)
Definition sql_delete {X} (p : X → bool) (rows : list X) : list X := filter (λ r, p r = false) rows.
Definition sql_select {X} (p : X → bool) (rows : list X) : list X := filter (λ r, p r = true) rows.

Definition has_id (i : string) (r : sqlrow) : bool := bool_decide (row_id r = i).

(** [SELECT ... FROM events WHERE id = ?], first row. *)
Definition find_event (db : DB) (event_id : string) : option sqlrow :=
  List.find (has_id event_id) (db_events db).

(** ** Schema migration

    [ALTER TABLE t ADD COLUMN c DEFAULT d] gives every row the default. *)
Definition add_column (c : string) (d : sqlval) (t : list string * list sqlrow)
    : list string * list sqlrow :=
  if decide (c ∈ t.1) then t else (t.1 ++ [c], (λ r, dset r c d) <$> t.2).

Fixpoint sql_ltrim (s : string) : string :=
  match s with
  | String " "%char s' => sql_ltrim s'
  | _ => s
  end.
(** [TRIM] removes spaces only. *)
Definition sql_trim (s : string) : string := string_rev (sql_ltrim (string_rev (sql_ltrim s))).

Fixpoint sql_lower (s : string) : string :=
  match s with
  | EmptyString => ""
  | String c s' =>
      let n := Ascii.N_of_ascii c in
      String (if ((65 <=? n) && (n <=? 90))%N then Ascii.ascii_of_N (n + 32) else c) (sql_lower s')
  end.

(** [c IS NULL OR TRIM(c) = ''] *)
Definition sql_blank (v : sqlval) : bool :=
  match v with SNull => true | SText s => bool_decide (sql_trim s = "") | _ => false end.
(** [LOWER(TRIM(COALESCE(c, '')))] *)
Definition sql_norm (v : sqlval) : string :=
  match v with SText s => sql_lower (sql_trim s) | _ => "" end.

Definition set_default_where (c : string) (p : sqlval → bool) (d : sqlval) (rows : list sqlrow)
    : list sqlrow :=
  sql_update (λ r, p (sql_get r c)) (λ r, dset r c d) rows.

Definition ensure_peers_schema (t : list string * list sqlrow) : list string * list sqlrow :=
  let t := add_column "node_id" (SText "") t in
  let t := add_column "enabled" (SInt 1) t in
  let t := add_column "note" (SText "") t in
  let t := add_column "source" (SText "runtime") t in
  let t := add_column "role" (SText NODE_ROLE_NODE) t in
  let t := add_column "approval_status" (SText "approved") t in
  let rows := set_default_where "role" sql_blank (SText NODE_ROLE_NODE) t.2 in
  let rows := set_default_where "role"
    (λ v, negb (bool_decide (sql_norm v ∈ ["node"; "responder"]))) (SText NODE_ROLE_NODE) rows in
  (t.1, set_default_where "approval_status" sql_blank (SText "approved") rows).

(** [json_extract(parents, '$[i]')] *)
Definition json_extract_parent (i : nat) (r : sqlrow) : sqlval :=
  match sql_get r "parents" with
  | SJson (JArr l) => match l !! i with Some (JStr s) => SText s | _ => SNull end
  | _ => SNull
  end.

Definition is_null (v : sqlval) : bool := match v with SNull => true | _ => false end.

Definition event_added_columns : list (string * sqlval) :=
  [("creator", SNull); ("self_parent_id", SNull); ("other_parent_id", SNull);
   ("round", SNull); ("round_received", SNull); ("is_witness", SInt 0);
   ("is_famous_witness", SInt 0); ("fame_decided", SInt 0); ("fame_decision_round", SNull);
   ("fame_decision_kind", SText "pending"); ("fame_needs_coin", SInt 0);
   ("fame_coin_used", SInt 0); ("fame_coin_round", SNull); ("fame_vote_round", SNull);
   ("fame_vote_yes", SInt 0); ("fame_vote_no", SInt 0)].

Definition ensure_events_schema (t : list string * list sqlrow) : list string * list sqlrow :=
  let t := foldl (λ t c, add_column c.1 c.2 t) t event_added_columns in
  let rows := set_default_where "fame_decision_kind" sql_blank (SText "pending") t.2 in
  let rows := set_default_where "fame_decision_kind"
    (λ v, negb (bool_decide (sql_norm v ∈ ["pending"; "vote"; "coin_surrogate"])))
    (SText "pending") rows in
  let rows := sql_update (λ r, sql_blank (sql_get r "creator"))
    (λ r, dset r "creator" (sql_get r "source")) rows in
  let rows := sql_update (λ r, is_null (sql_get r "self_parent_id"))
    (λ r, dset r "self_parent_id" (json_extract_parent 0 r)) rows in
  let rows := sql_update (λ r, is_null (sql_get r "other_parent_id"))
    (λ r, dset r "other_parent_id" (json_extract_parent 1 r)) rows in
  (t.1, rows).

(** ** Clearing and incidents *)
Definition clear_events (db : DB) : DB :=
  mkDB [] [] ∅ (db_peers db) (db_membership db) [] [] (db_metrics_seq db) ∅ [] (db_users db).

(** [ORDER BY updated_at DESC, created_at DESC]; payloads that are not dicts are
    skipped. *)
Definition list_incidents (db : DB) : list (odict json) :=
  omap (λ r, match in_payload r with JObj kvs => Some kvs | _ => None end)
    (reverse (sort_on (λ r, (in_updated_at r, in_created_at r)) (cmp_pair Qcompare Qcompare)
       (db_incidents db))).

Section incidents.
Context `{FloatFormat}.
(** [datetime.fromisoformat(text).timestamp()] *)
Context (fromisoformat : string → option Q).

(** [text.replace("Z", "+00:00")] *)
Fixpoint replace_Z (s : string) : string :=
  match s with
  | EmptyString => ""
  | String c s' => if decide (c = "Z"%char) then "+00:00" +:+ replace_Z s' else String c (replace_Z s')
  end.

Definition parse_iso (value : json) (fallback : Q) : Q :=
  if py_bool value then
    let text := py_strip (py_str value) in
    if decide (text = "") then fallback
    else default fallback (fromisoformat (replace_Z text))
  else fallback.

Fixpoint insert_incidents (now : Q) (index : nat) (incidents : list json) (rows : list IncidentRow)
    : result (list IncidentRow) :=
  match incidents with
  | [] => Ok rows
  | JObj incident :: rest =>
      let incident_id := py_strip (py_str (py_or (jget incident "id") (JStr ""))) in
      if decide (incident_id = "") then insert_incidents now (S index) rest rows
      else
        let created_ts := (now + inject_Z (Z.of_nat index) * (1 # 10000))%Q in
        let created_ts := parse_iso (jget incident "createdAt") created_ts in
        let updated_ts := parse_iso (jget incident "updatedAt") created_ts in
        if existsb (λ r, bool_decide (in_id r = incident_id)) rows
        then Err (OtherError "IntegrityError")
        else insert_incidents now (S index) rest
               (rows ++ [mkIncident incident_id (sort_keys (JObj incident)) created_ts updated_ts])
  | _ :: rest => insert_incidents now (S index) rest rows
  end.

Definition replace_incidents (now : Q) (incidents : list json) (db : DB) : result DB :=
  rows ← insert_incidents now 0 incidents [];
  Ok (set_incidents db rows).
End incidents.

(** ** Envelopes *)
(** Equality of the keys [(hop.get("node"), hop.get("ts"))]. *)
Definition hop_same (a b : Hop) : bool :=
  bool_decide (hop_node a = hop_node b) &&
  match hop_ts a, hop_ts b with
  | Some x, Some y => x =?q y
  | None, None => true
  | _, _ => false
  end.

Definition merge_hop (merged : list Hop) (hop : Hop) : list Hop :=
  if existsb (hop_same hop) merged then merged else merged ++ [hop].

Definition merged_path (existing : option (list Hop)) (new_path : list Hop) : list Hop :=
  foldl merge_hop (foldl merge_hop [] (default [] existing)) new_path.

Definition merge_path_meta (event_id : string) (new_path : list Hop) (db : DB) : DB :=
  set_graph db (db_events db) (db_edges db)
    (<[event_id := merged_path (db_envelopes db !! event_id) new_path]> (db_envelopes db)).

Definition event_insert_columns : list string :=
  ["id"; "cls"; "source"; "creator"; "ts_local"; "vclock"; "parents"; "self_parent_id";
   "other_parent_id"; "payload"; "sig"; "consensus_ts"; "lamport_ts"; "round";
   "round_received"; "is_witness"; "created_at"].

(** The columns the INSERT leaves to their schema defaults. *)
Definition event_default_columns : sqlrow :=
  [("is_famous_witness", SInt 0); ("fame_decided", SInt 0); ("fame_decision_round", SNull);
   ("fame_decision_kind", SText "pending"); ("fame_needs_coin", SInt 0);
   ("fame_coin_used", SInt 0); ("fame_coin_round", SNull); ("fame_vote_round", SNull);
   ("fame_vote_yes", SInt 0); ("fame_vote_no", SInt 0)].

Definition new_event_row (now : Q) (event : Event) (consensus_ts : option Q) : sqlrow :=
  let record := dset (Event_to_record event) "consensus_ts" (sql_opt SReal consensus_ts) in
  let record := dset record "created_at" (SReal now) in
  ((λ c, (c, sql_get record c)) <$> event_insert_columns) ++ event_default_columns.

Definition insert_edge (edges : list (string * string)) (e : string * string)
    : list (string * string) :=
  if decide (e ∈ edges) then edges else edges ++ [e].

Definition coalesce_columns (vals : list (string * sqlval)) (r : sqlrow) : sqlrow :=
  foldl (λ r p, dset r p.1 (sql_coalesce (sql_get r p.1) p.2)) r vals.

Definition store_envelope (now : Q) (envelope : Envelope) (consensus_ts : option Q) (db : DB)
    : DB * bool :=
  let event := env_event envelope in
  match find_event db (ev_id event) with
  | Some _ =>
      let db := merge_path_meta (ev_id event) (env_path_meta envelope) db in
      (match consensus_ts with
       | Some ts => set_events db (sql_update (has_id (ev_id event))
           (coalesce_columns [("consensus_ts", SReal ts); ("creator", SText (ev_creator event));
              ("self_parent_id", sql_opt SText (ev_self_parent_id event));
              ("other_parent_id", sql_opt SText (ev_other_parent_id event))]) (db_events db))
       | None => db
       end, false)
  | None =>
      let db := set_graph db (db_events db ++ [new_event_row now event consensus_ts])
        (foldl (λ es parent, insert_edge es (parent, ev_id event)) (db_edges db) (ev_parents event))
        (db_envelopes db) in
      (merge_path_meta (ev_id event) (env_path_meta envelope) db, true)
  end.

(** ** Consensus columns *)
Definition state_columns (s : ConsensusState) : list (string * sqlval) :=
  [("consensus_ts", sql_opt SReal (cs_consensus_ts s));
   ("round", SInt (cs_round s));
   ("round_received", sql_opt SInt (cs_round_received s));
   ("is_witness", sql_of_bool (cs_is_witness s));
   ("is_famous_witness", sql_of_bool (cs_is_famous_witness s));
   ("fame_decided", sql_of_bool (cs_fame_decided s));
   ("fame_decision_round", sql_opt SInt (cs_fame_decision_round s));
   ("fame_decision_kind", SText (str_or (cs_fame_decision_kind s) "pending"));
   ("fame_needs_coin", sql_of_bool (cs_fame_needs_coin s));
   ("fame_coin_used", sql_of_bool (cs_fame_coin_used s));
   ("fame_coin_round", sql_opt SInt (cs_fame_coin_round s));
   ("fame_vote_round", sql_opt SInt (cs_fame_vote_round s));
   ("fame_vote_yes", SInt (cs_fame_vote_yes s));
   ("fame_vote_no", SInt (cs_fame_vote_no s))].

Definition apply_state (s : ConsensusState) (r : sqlrow) : sqlrow :=
  coalesce_columns [("creator", SText (cs_creator s));
      ("self_parent_id", sql_opt SText (cs_self_parent_id s));
      ("other_parent_id", sql_opt SText (cs_other_parent_id s))]
    (dupdate r (state_columns s)).

Definition replace_consensus_state (states : list ConsensusState) (db : DB) : DB :=
  set_events db (foldl (λ rows s, sql_update (has_id (cs_event_id s)) (apply_state s) rows)
                   (db_events db) states).

(** ** Queries on events *)
Definition opt_event (row : option sqlrow) : result (option Event) :=
  match row with
  | None => Ok None
  | Some r => e ← Event_from_record r; Ok (Some e)
  end.

Definition get_event (event_id : string) (db : DB) : result (option Event) :=
  opt_event (find_event db event_id).

Definition has_text (c v : string) (r : sqlrow) : bool :=
  match sql_get r c with SText s => bool_decide (s = v) | _ => false end.

Definition latest_event_by_source (source : string) (db : DB) : result (option Event) :=
  opt_event (head (order_by_created_desc (sql_select (has_text "source" source) (db_events db)))).

Definition list_recent_events (limit : Z) (db : DB) : result (list Event) :=
  mapR Event_from_record (sql_limit limit (order_by_created_desc (db_events db))).

Definition get_envelope (event_id : string) (db : DB) : result (option Envelope) :=
  e ← get_event event_id db;
  match e with
  | None => Ok None
  | Some event => Ok (Some (mkEnvelope event (default [] (db_envelopes db !! event_id))))
  end.

Definition list_events (limit : Z) (newer_than : option Q) (db : DB) : result (list Event) :=
  let rows := match newer_than with
              | Some t => sql_select (λ r, t <?q row_created_at r) (db_events db)
              | None => db_events db
              end in
  mapR Event_from_record (sql_limit limit (order_by_created rows)).

Definition all_events (db : DB) : result (list Event) :=
  mapR Event_from_record (order_by_created (db_events db)).

Definition all_edges (db : DB) : list (string * string) := db_edges db.

Definition row_vclock (r : sqlrow) : result VectorClock :=
  match sql_get r "vclock" with
  | SJson v => as_vclock v
  | _ => Err (TypeError "the JSON object must be str")
  end.

Definition get_frontier (db : DB) : result (list (string * VectorClock)) :=
  mapR (λ r, c ← row_vclock r; Ok (row_id r, c))
    (sql_select (λ r, negb (existsb (λ e, bool_decide (e.1 = row_id r)) (db_edges db))) (db_events db)).

Definition subdag_since (ts : Q) (db : DB) : result (list Event) :=
  mapR Event_from_record
    (sql_select (λ r, ts <=?q sql_real (sql_coalesce (sql_get r "consensus_ts") (sql_get r "ts_local")))
       (db_events db)).

Definition event_count (db : DB) : nat := length (db_events db).

(** ** Topological sort *)
Abbreviation Graph := (odict (list string)).

Definition add_edge_rows (graph : Graph) (indegree : odict Z) (edges : list (string * string))
    : Graph * odict Z :=
  foldl (λ '(g, ind) '(parent, child),
    match dget g parent, dget g child, dget ind child with
    | Some cs, Some _, Some d => (dset g parent (cs ++ [child]), dset ind child (d + 1))
    | _, _, _ => (g, ind)
    end) (graph, indegree) edges.

(** One pass over the children of a node: decrement, enqueue at zero. *)
Definition relax (queue : list string) (indegree : odict Z) (children : list string)
    : list string * odict Z :=
  foldl (λ '(q, ind) child,
    let d := default 0 (dget ind child) - 1 in
    (if d =? 0 then q ++ [child] else q, dset ind child d)) (queue, indegree) children.

Fixpoint kahn (fuel : nat) (graph : Graph) (queue : list string) (indegree : odict Z)
    (order : list string) : list string :=
  match fuel, queue with
  | O, _ | _, [] => order
  | S f, node :: queue' =>
      let '(q, ind) := relax queue' indegree (default [] (dget graph node)) in
      kahn f graph q ind (order ++ [node])
  end.

Definition toposort_rows (ids : list string) (edges : list (string * string)) : result (list string) :=
  let graph : Graph := dupdate [] ((λ i, (i, [])) <$> ids) in
  let indegree : odict Z := (λ i, (i, 0)) <$> dkeys graph in
  let '(graph, indegree) := add_edge_rows graph indegree edges in
  let queue := dkeys (filter (λ p : string * Z, p.2 = 0) (indegree : list (string * Z))) in
  let order := kahn (S (length ids)) graph queue indegree [] in
  if bool_decide (length order = length graph) then Ok order
  else Err (ValueError "cycle detected in DAG").

Definition toposort (db : DB) : result (list string) :=
  toposort_rows (row_id <$> db_events db) (db_edges db).

(** ** Retention *)
Section retention.
Context `{FloatFormat}.

(** The text a column holds. *)
Definition column_text (v : sqlval) : string :=
  match v with SText s => s | SJson j => json_dump "," ":" j | _ => "" end.
Definition sql_length (v : sqlval) : Z := Z.of_nat (String.length (column_text v)).

Record PrunedEvent := mkPruned {
  pr_row : sqlrow;
  pr_payload_hash : string }.

Definition row_payload_hash (r : sqlrow) : string :=
  sha256_hex (utf8_encode (column_text (sql_get r "payload"))).

Definition row_round_received (r : sqlrow) : option Z :=
  match sql_get r "round_received" with SInt z => Some z | _ => None end.

Definition prunable (confirmed_round : Z) (age_threshold : Q) (keep_class_a : bool) (r : sqlrow) : bool :=
  match row_round_received r with
  | None => false
  | Some rr =>
      (rr <=? confirmed_round) && (row_created_at r <?q age_threshold) &&
      (negb keep_class_a || negb (has_text "cls" "A" r))
  end.

(** [INSERT OR REPLACE INTO event_skeletons] *)
Definition replace_skeleton (s : SkeletonRow) (rows : list SkeletonRow) : list SkeletonRow :=
  sql_delete (λ r, bool_decide (sk_id r = sk_id s)) rows ++ [s].

Definition row_cls (r : sqlrow) : string :=
  match sql_get r "cls" with SText s => s | _ => "" end.

Definition prune_row (now : Q) (db : DB) (r : sqlrow) : DB :=
  let sk := mkSkeleton (row_id r) (row_cls r)
    (match sql_get r "parents" with SJson j => j | _ => JNull end)
    (row_round_received r) (row_payload_hash r) now in
  let db := set_skeletons db (replace_skeleton sk (db_skeletons db)) in
  set_graph db (sql_delete (has_id (row_id r)) (db_events db)) (db_edges db)
    (delete (row_id r) (db_envelopes db)).

Definition prune_under_checkpoint (confirmed_round : Z) (max_age_seconds : Q) (keep_class_a : bool)
    (now : Q) (db : DB) : DB * list PrunedEvent :=
  let rows := sort_on (λ r, default 0 (row_round_received r)) Z.compare
    (sql_select (prunable confirmed_round (now - max_age_seconds)%Q keep_class_a) (db_events db)) in
  (foldl (prune_row now) db rows, (λ r, mkPruned r (row_payload_hash r)) <$> rows).

Definition payload_usage (rows : list sqlrow) : Z := sum_Z ((λ r, sql_length (sql_get r "payload")) <$> rows).

(** The oldest events, until what is left fits. *)
Fixpoint gc_victims (target total : Z) (rows : list sqlrow) : list string :=
  match rows with
  | [] => []
  | r :: rest =>
      if total <=? target then []
      else row_id r :: gc_victims target (total - sql_length (sql_get r "payload")) rest
  end.

Definition gc_event (db : DB) (event_id : string) : DB :=
  set_graph db (sql_delete (has_id event_id) (db_events db))
    (sql_delete (λ e, bool_decide (e.1 = event_id))
       (sql_delete (λ e, bool_decide (e.2 = event_id)) (db_edges db)))
    (delete event_id (db_envelopes db)).

Definition gc_by_quota (memory_mb : Z) (db : DB) : DB * nat :=
  let target_bytes := memory_mb * 1024 * 1024 in
  let current := payload_usage (db_events db) in
  if current <=? target_bytes then (db, 0%nat)
  else
    let to_delete := gc_victims target_bytes current (order_by_created (db_events db)) in
    (foldl gc_event db to_delete, length to_delete).

Definition storage_usage_bytes (db : DB) : Z :=
  sum_Z ((λ r, sql_length (sql_get r "payload") + sql_length (sql_get r "vclock")
               + sql_length (sql_get r "parents")) <$> db_events db).
End retention.

(** ** Metrics history *)
Definition append_metrics_snapshot (ts : Q) (snapshot : json) (db : DB) : DB :=
  let i := db_metrics_seq db + 1 in
  set_metrics db (db_metrics db ++ [mkMetrics i ts snapshot]) i.

Definition list_metrics_history (limit : Z) (since_ts : Q) (db : DB) : list (Q * json) :=
  (λ r, (mr_ts r, mr_snapshot r)) <$>
    sql_limit limit (sort_on mr_ts Qcompare (sql_select (λ r, since_ts <=?q mr_ts r) (db_metrics db))).

Definition prune_metrics_history (keep_last : Z) (db : DB) : DB * nat :=
  if keep_last <=? 0 then (db, 0%nat)
  else
    let kept := mr_id <$> sql_limit keep_last (reverse (sort_on mr_ts Qcompare (db_metrics db))) in
    let rows := sql_select (λ r, bool_decide (mr_id r ∈ kept)) (db_metrics db) in
    (set_metrics db rows (db_metrics_seq db), (length (db_metrics db) - length rows)%nat).

(** ** Users *)
Definition upsert_user (now : Q) (username password_hash role : string) (db : DB) : DB :=
  let created := match db_users db !! username with Some u => us_created_at u | None => now end in
  set_users db (<[username := mkUser password_hash role created]> (db_users db)).

Definition get_user (username : string) (db : DB) : option UserRow := db_users db !! username.

Definition list_users (db : DB) : list (string * UserRow) :=
  sort_on fst String.compare (map_to_list (db_users db)).

Definition delete_user (username : string) (db : DB) : DB * bool :=
  (set_users db (delete username (db_users db)), bool_decide (is_Some (db_users db !! username))).

Definition users_count (db : DB) : nat := size (db_users db).

(** ** Checkpoints and skeletons *)
Definition sort_dict {X} (d : odict X) : odict X := sort_by key_leb d.

Definition upsert_checkpoint (now : Q) (round_received : Z) (merkle_root members_snapshot_hash : string)
    (signatures : odict string) (status : string) (confirmed_at : option Q) (db : DB) : DB :=
  let created := match db_checkpoints db !! round_received with
                 | Some c => cp_created_at c | None => now end in
  set_checkpoints db (<[round_received :=
    mkCheckpointRow round_received merkle_root members_snapshot_hash (sort_dict signatures)
      status confirmed_at created]> (db_checkpoints db)).

Definition get_checkpoint (round_received : Z) (db : DB) : option CheckpointRow :=
  db_checkpoints db !! round_received.

Definition checkpoints_desc (db : DB) : list CheckpointRow :=
  reverse (sort_on cp_round_received Z.compare (map_to_list (db_checkpoints db)).*2).

Definition list_checkpoints (status : option string) (limit : Z) (db : DB) : list CheckpointRow :=
  sql_limit limit
    (match status with
     | Some s => sql_select (λ c, bool_decide (cp_status c = s)) (checkpoints_desc db)
     | None => checkpoints_desc db
     end).

Definition latest_confirmed_checkpoint (db : DB) : option CheckpointRow :=
  head (sql_select (λ c, bool_decide (cp_status c = "confirmed")) (checkpoints_desc db)).

Definition add_event_skeleton (now : Q) (event_id cls : string) (parent_ids : list string)
    (round_received : option Z) (payload_hash : string) (db : DB) : DB :=
  set_skeletons db (replace_skeleton
    (mkSkeleton event_id cls (strs_json parent_ids) round_received payload_hash now) (db_skeletons db)).

Definition list_event_skeletons (limit : Z) (db : DB) : list SkeletonRow :=
  sql_limit limit (sort_on sk_archived_at Qcompare (db_skeletons db)).

(** ** Peers *)
Definition has_address (a : string) (r : sqlrow) : bool := has_text "address" a r.
Definition find_peer (address : string) (db : DB) : option sqlrow :=
  List.find (has_address address) (db_peers db).

Definition sql_string (v : sqlval) : string := match v with SText s => s | _ => "" end.
Definition sql_opt_real (v : sqlval) : option Q :=
  match v with SReal q => Some q | SInt z => Some (inject_Z z) | _ => None end.
(** [row[c] if c in row.keys() else d] *)
Definition sql_get_or (r : sqlrow) (c : string) (d : sqlval) : sqlval := default d (dget r c).

Definition upsert_peer (address : string) (last_seen : Q) (healthy : bool) (db : DB) : DB :=
  match find_peer address db with
  | Some _ =>
      set_peers db (sql_update (has_address address)
        (λ r, dset (dset r "last_seen" (SReal last_seen)) "healthy" (sql_of_bool healthy)) (db_peers db))
  | None =>
      set_peers db (db_peers db ++
        [[("address", SText address); ("node_id", SText ""); ("last_seen", SReal last_seen);
          ("healthy", sql_of_bool healthy); ("enabled", SInt 1); ("note", SText "");
          ("source", SText "runtime"); ("role", SText NODE_ROLE_NODE);
          ("approval_status", SText "approved")]])
  end.

Section peers.
Context `{FloatFormat}.

Definition role_text (v : sqlval) : string := normalize_node_role (JStr (sql_string v)).
Definition approval_text (v : sqlval) : string := normalize_approval_status (JStr (sql_string v)).

Definition peer_columns (p : PeerInfo) : list (string * sqlval) :=
  [("node_id", SText (pi_node_id p)); ("last_seen", sql_opt SReal (pi_last_seen p));
   ("healthy", sql_of_bool (pi_healthy p)); ("enabled", sql_of_bool (pi_enabled p));
   ("note", SText (pi_note p)); ("source", SText (pi_source p)); ("role", SText (pi_role p));
   ("approval_status", SText (pi_approval_status p))].

(** [UPDATE peers SET ... WHERE address = ?] with the fields of [p]. *)
Definition write_peer (p : PeerInfo) (db : DB) : DB :=
  set_peers db (sql_update (has_address (pi_address p)) (λ r, dupdate r (peer_columns p)) (db_peers db)).

Definition ensure_peer (address node_id : string) (last_seen : option Q) (healthy enabled : bool)
    (note source role approval_status : string) (db : DB) : DB * PeerInfo :=
  let next_role := normalize_node_role (JStr role) in
  let next_approval := normalize_approval_status (JStr approval_status) in
  match find_peer address db with
  | Some existing =>
      let merged_source := str_or (sql_string (sql_get existing "source")) source in
      let p := mkPeer address
        (str_or (str_or (sql_string (sql_get existing "node_id")) node_id) "")
        (match last_seen with Some t => Some t | None => sql_opt_real (sql_get existing "last_seen") end)
        healthy
        (sql_truthy (sql_get existing "enabled"))
        (str_or (str_or (sql_string (sql_get existing "note")) note) "")
        merged_source
        (role_text (sql_get_or existing "role" (SText next_role)))
        (bool_decide (merged_source = "self"))
        (approval_text (sql_get_or existing "approval_status" (SText next_approval))) in
      (write_peer p db, p)
  | None =>
      let p := mkPeer address node_id last_seen healthy enabled note source next_role
        (bool_decide (source = "self")) next_approval in
      (set_peers db (db_peers db ++ [("address", SText address) :: peer_columns p]), p)
  end.

Definition update_peer (address : string) (enabled : option bool) (note : option string)
    (last_seen : option Q) (healthy : option bool) (role node_id approval_status : option string)
    (db : DB) : DB * option PeerInfo :=
  match find_peer address db with
  | None => (db, None)
  | Some existing =>
      let next_source := str_or (sql_string (sql_get existing "source")) "runtime" in
      let current_approval := str_or (sql_string (sql_get existing "approval_status")) PEER_APPROVAL_APPROVED in
      let p := mkPeer address
        (match node_id with Some n => n | None => sql_string (sql_get existing "node_id") end)
        (match last_seen with Some t => Some t | None => sql_opt_real (sql_get existing "last_seen") end)
        (match healthy with Some h => h | None => sql_truthy (sql_get existing "healthy") end)
        (match enabled with Some b => b | None => sql_truthy (sql_get existing "enabled") end)
        (match note with Some n => n | None => sql_string (sql_get existing "note") end)
        next_source
        (match role with Some x => normalize_node_role (JStr x) | None => role_text (sql_get existing "role") end)
        (bool_decide (next_source = "self"))
        (normalize_approval_status (JStr (match approval_status with
                                          | Some a => a | None => current_approval end))) in
      (write_peer p db, Some p)
  end.

Definition delete_peer (address : string) (db : DB) : DB :=
  set_peers db (sql_delete (has_address address) (db_peers db)).

Definition peer_of_row (r : sqlrow) : PeerInfo :=
  let source := str_or (sql_string (sql_get_or r "source" (SText "runtime"))) "runtime" in
  mkPeer (sql_string (sql_get r "address"))
    (sql_string (sql_get r "node_id"))
    (sql_opt_real (sql_get r "last_seen"))
    (sql_truthy (sql_get r "healthy"))
    (sql_truthy (sql_get_or r "enabled" (SInt 1)))
    (sql_string (sql_get r "note"))
    source
    (normalize_node_role (JStr (str_or (sql_string (sql_get_or r "role" (SText NODE_ROLE_NODE))) NODE_ROLE_NODE)))
    (bool_decide (source = "self"))
    (approval_text (sql_get_or r "approval_status" (SText PEER_APPROVAL_APPROVED))).

(** [key=lambda peer: (not peer.is_self, peer.address)] *)
Definition list_peers (db : DB) : list PeerInfo :=
  sort_on (λ p, (negb (pi_is_self p), pi_address p)) (cmp_pair cmp_bool String.compare)
    (peer_of_row <$> db_peers db).
End peers.

(** ** Membership snapshot *)
Definition get_consensus_membership_snapshot (db : DB) : option (odict json) :=
  match db_membership db with Some (JObj kvs) => Some kvs | _ => None end.

Definition save_consensus_membership_snapshot (snapshot : odict json) (db : DB) : DB :=
  set_membership db (Some (sort_keys (JObj snapshot))).
