(* ===== verification/Toposort.v ===== *)
(** [DAGStorage.toposort] of Storage.v: Kahn's algorithm returns a topological
    order exactly when one exists. *)
From S2P Require Import Prelude Json Models Storage.

(** ** Counting *)
Definition cnt (v : string) (l : list string) : nat := count_if (λ x, bool_decide (x = v)) l.
Definition sum_nat (l : list nat) : nat := foldr Nat.add 0%nat l.

Lemma cnt_cons v x l : cnt v (x :: l) = ((if decide (x = v) then 1 else 0) + cnt v l)%nat.
Proof. unfold cnt. rewrite count_if_cons. by repeat case_decide || case_bool_decide. Qed.

Lemma cnt_app v l1 l2 : cnt v (l1 ++ l2) = (cnt v l1 + cnt v l2)%nat.
Proof. unfold cnt, count_if. by rewrite filter_app, length_app. Qed.

Lemma cnt_zero v l : cnt v l = 0%nat ↔ v ∉ l.
Proof.
  induction l as [|x l IH]; [by split; [set_solver|]|].
  rewrite cnt_cons, not_elem_of_cons. case_decide; subst; simpl; [split; [lia|by intros []]|]. rewrite IH. naive_solver.
Qed.

Lemma sum_nat_perm l1 l2 : l1 ≡ₚ l2 → sum_nat l1 = sum_nat l2.
Proof. induction 1; simpl in *; lia. Qed.

Lemma sum_nat_zero {X} (f : X → nat) l : sum_nat (f <$> l) = 0%nat ↔ ∀ x, x ∈ l → f x = 0%nat.
Proof.
  induction l as [|x l IH]; [set_solver|].
  change (sum_nat (f <$> x :: l)) with (f x + sum_nat (f <$> l))%nat. split.
  - intros H y [->|Hy]%elem_of_cons; [lia|]. apply IH; [lia|done].
  - intros H. rewrite (H x) by by left. simpl. apply IH. intros y Hy. apply H. by right.
Qed.

(** ** In-degrees *)
Definition children (g : Graph) (u : string) : list string := default [] (dget g u).

(** The edges into [v] from nodes not yet in [order]. *)
Definition remaining (g : Graph) (order : list string) (v : string) : nat :=
  sum_nat ((λ u, cnt v (children g u)) <$> filter (λ u, u ∉ order) (dkeys g)).

Lemma filter_snoc_perm (l order : list string) x :
  NoDup l → x ∈ l → x ∉ order →
  filter (λ u, u ∉ order) l ≡ₚ x :: filter (λ u, u ∉ order ++ [x]) l.
Proof.
  intros Hd Hx Ho. apply NoDup_Permutation.
  - by apply NoDup_filter.
  - constructor; [|by apply NoDup_filter]. rewrite list_elem_of_filter. set_solver.
  - intros y. rewrite elem_of_cons, !list_elem_of_filter. destruct (decide (y = x)); set_solver.
Qed.

Lemma remaining_snoc g order x v :
  NoDup (dkeys g) → x ∈ dkeys g → x ∉ order →
  remaining g order v = (cnt v (children g x) + remaining g (order ++ [x]) v)%nat.
Proof.
  intros Hd Hx Ho. unfold remaining.
  rewrite (sum_nat_perm _ _ (fmap_Permutation _ _ _ (filter_snoc_perm _ _ _ Hd Hx Ho))). done.
Qed.

Lemma remaining_zero g order v :
  remaining g order v = 0%nat ↔ ∀ u, u ∈ dkeys g → u ∉ order → v ∉ children g u.
Proof.
  unfold remaining. rewrite sum_nat_zero. setoid_rewrite cnt_zero.
  setoid_rewrite list_elem_of_filter. naive_solver.
Qed.

(** ** One relaxation pass *)
Definition get_ind (ind : odict Z) (v : string) : Z := default 0 (dget ind v).

Lemma relax_spec children q ind :
  (∀ v, v ∈ children → Z.of_nat (cnt v children) <= get_ind ind v) →
  ∃ l, (relax q ind children).1 = q ++ l ∧ NoDup l ∧
    (∀ v, get_ind (relax q ind children).2 v = get_ind ind v - Z.of_nat (cnt v children)) ∧
    (∀ v, v ∈ l ↔ v ∈ children ∧ get_ind ind v = Z.of_nat (cnt v children)).
Proof.
  unfold relax. revert q ind. induction children as [|c cs IH]; intros q ind Hge; simpl.
  { exists []. split_and!; [by rewrite app_nil_r|constructor| |set_solver]. intros v. change (cnt v []) with 0%nat. lia. }
  fold (get_ind ind c). set (d := get_ind ind c - 1). set (ind1 := dset ind c d).
  assert (∀ v, get_ind ind1 v = if decide (c = v) then d else get_ind ind v) as H1.
  { intros v. unfold get_ind, ind1. case_decide; subst; [by rewrite dget_dset_eq|by rewrite dget_dset_ne]. }
  assert (∀ v, v ∈ cs → Z.of_nat (cnt v cs) <= get_ind ind1 v) as Hge1.
  { intros v Hv. specialize (Hge v). rewrite cnt_cons in Hge. rewrite H1. unfold d.
    case_decide; subst; [specialize (Hge (list_elem_of_here _ _)); lia|].
    apply Hge. by right. }
  destruct (IH (if d =? 0 then q ++ [c] else q) ind1 Hge1) as (l & Hq & Hd & Hi & Hl).
  assert (Z.of_nat (cnt c (c :: cs)) <= get_ind ind c) as Hc by (apply Hge; left).
  rewrite cnt_cons, decide_True in Hc by done.
  assert (∀ v, get_ind ind1 v - Z.of_nat (cnt v cs) = get_ind ind v - Z.of_nat (cnt v (c :: cs))) as Heq.
  { intros v. rewrite H1, cnt_cons. unfold d. case_decide; subst; lia. }
  assert (∀ v, v ∈ cs ∧ get_ind ind1 v = Z.of_nat (cnt v cs) ↔
               v ∈ cs ∧ get_ind ind v = Z.of_nat (cnt v (c :: cs))) as Heq2.
  { intros v. specialize (Heq v). split; intros []; split; try done; lia. }
  setoid_rewrite Heq2 in Hl. setoid_rewrite Heq in Hi.
  destruct (Z.eqb_spec d 0) as [Hd0|Hd0].
  - assert (cnt c cs = 0%nat) as Hn by lia. pose proof (proj1 (cnt_zero c cs) Hn) as Hnot.
    exists (c :: l). split_and!; [by rewrite Hq, <- app_assoc| |done|].
    + constructor; [|done]. rewrite Hl. set_solver.
    + intros v. rewrite !elem_of_cons, Hl. split; [|naive_solver].
      intros [->|[? ?]]; [|naive_solver]. rewrite cnt_cons, decide_True by done. split; [by left|lia].
  - exists l. split_and!; [done..|]. intros v. rewrite Hl, elem_of_cons. split; [naive_solver|].
    intros [[->|Hv] Hg]; [|done]. split; [|done].
    rewrite cnt_cons, decide_True in Hg by done. destruct (decide (c ∈ cs)) as [|Hn]; [done|].
    apply cnt_zero in Hn. lia.
Qed.

(** ** The main loop *)
Definition precedes (g : Graph) (order : list string) : Prop :=
  ∀ i u v, order !! i = Some v → u ∈ dkeys g → v ∈ children g u → u ∈ take i order.

Record kahn_inv (g : Graph) (queue : list string) (ind : odict Z) (order : list string) : Prop := {
  ki_nodup : NoDup (order ++ queue);
  ki_keys : ∀ v, v ∈ order ++ queue → v ∈ dkeys g;
  ki_ind : ∀ v, v ∈ dkeys g → get_ind ind v = Z.of_nat (remaining g order v);
  ki_zero : ∀ v, v ∈ dkeys g → v ∈ order ++ queue ↔ remaining g order v = 0%nat;
  ki_prec : precedes g order }.

Section kahn.
Context (g : Graph) (Hkeys : NoDup (dkeys g)).
Context (Hclosed : ∀ u v, u ∈ dkeys g → v ∈ children g u → v ∈ dkeys g).

Lemma kahn_step node queue ind order :
  kahn_inv g (node :: queue) ind order →
  let r := relax queue ind (children g node) in
  kahn_inv g r.1 r.2 (order ++ [node]).
Proof.
  intros [Hd Hk Hi Hz Hp] r.
  assert (node ∈ dkeys g) as Hnode by (apply Hk; set_solver).
  apply NoDup_app in Hd as (Hdo & Hdis & Hdq). apply NoDup_cons in Hdq as [Hnq Hdq].
  assert (node ∉ order) as Hno by (intros H; apply (Hdis _ H); by left).
  assert (remaining g order node = 0%nat) as Hn0 by (apply Hz; set_solver).
  pose proof (λ v, remaining_snoc g order node v Hkeys Hnode Hno) as Hs.
  destruct (relax_spec (children g node) queue ind) as (l & Hq & Hdl & Hil & Hl).
  { intros v Hv. rewrite Hi, Hs by eauto. lia. }
  fold r in Hq, Hil.
  assert (∀ v, v ∈ l → v ∉ order ∧ v ∉ node :: queue) as Hfresh.
  { intros v [Hv _]%Hl. assert (remaining g order v ≠ 0%nat) as Hne.
    { rewrite Hs. intros H. assert (cnt v (children g node) = 0%nat) as H0 by lia. by apply cnt_zero in H0. }
    rewrite <- Hz in Hne by eauto. set_solver. }
  rewrite Hq. split.
  - rewrite <- app_assoc. simpl. apply NoDup_app. split_and!; [done|set_solver|].
    constructor; [set_solver|]. apply NoDup_app. split_and!; [done|set_solver|done].
  - intros v. rewrite !elem_of_app, list_elem_of_singleton. intros [[Hv|Hv]|[Hv|Hv]].
    + apply Hk. set_solver.
    + by subst v.
    + apply Hk. set_solver.
    + apply Hl in Hv as [Hv _]. eauto.
  - intros v Hv. rewrite Hil, Hi, Hs by done. lia.
  - intros v Hv. rewrite !elem_of_app, list_elem_of_singleton, Hl.
    specialize (Hz v Hv). rewrite elem_of_app, elem_of_cons in Hz. rewrite Hi, (Hs v) by done.
    rewrite (Hs v) in Hz. pose proof (cnt_zero v (children g node)) as Hc.
    destruct (decide (v ∈ children g node)) as [Hin|Hin].
    + split; [|intros H; right; right; split; [done|lia]].
      intros [[H|H]|[H|[_ H]]]; [..|lia]; (assert (cnt v (children g node) + remaining g (order ++ [node]) v = 0)%nat by (apply Hz; tauto); lia).
    + apply Hc in Hin as Hcn. rewrite Hcn in *. simpl in *. rewrite <- Hz. tauto.
  - intros i u v Hiv Hu Hv. apply lookup_app_Some in Hiv as [Hiv|[Hlen Hiv]].
    + rewrite take_app_le; [by eapply Hp|]. apply lookup_lt_Some in Hiv. lia.
    + assert (i = length order) as ->.
      { apply lookup_lt_Some in Hiv. simpl in Hiv. lia. }
      rewrite Nat.sub_diag in Hiv. injection Hiv as <-. rewrite take_app_length.
      destruct (decide (u ∈ order)); [done|]. by apply (proj1 (remaining_zero _ _ _) Hn0) in Hv.
Qed.

Lemma kahn_spec fuel queue ind order :
  kahn_inv g queue ind order → (length (dkeys g) < fuel + length order)%nat →
  ∃ ind', kahn_inv g [] ind' (kahn fuel g queue ind order).
Proof.
  revert queue ind order. induction fuel as [|fuel IH]; intros queue ind order Hi Hf.
  - exfalso. assert (length order <= length (dkeys g))%nat; [|lia].
    apply submseteq_length, NoDup_submseteq; [|intros v Hv; apply (ki_keys _ _ _ _ Hi); set_solver].
    pose proof (ki_nodup _ _ _ _ Hi) as Hd. by apply NoDup_app in Hd as [? _].
  - simpl. destruct queue as [|node queue]; [eauto|].
    pose proof (kahn_step _ _ _ _ Hi) as Hs. fold (children g node). simpl in Hs.
    destruct (relax queue ind (children g node)) as [q' ind']. apply (IH _ _ _ Hs).
    rewrite length_app. simpl. lia.
Qed.
End kahn.

(** ** Building the graph *)
Record graph_inv (ids : list string) (edges : list (string * string)) (g : Graph) (ind : odict Z) : Prop := {
  gi_keys : dkeys g = ids;
  gi_ind_keys : dkeys ind = ids;
  gi_children : ∀ u v, v ∈ children g u ↔ (u, v) ∈ edges ∧ u ∈ ids ∧ v ∈ ids;
  gi_ind : ∀ v, v ∈ ids → get_ind ind v = Z.of_nat (remaining g [] v) }.

Lemma dget_is_Some {X} (d : odict X) k : is_Some (dget d k) ↔ k ∈ dkeys d.
Proof.
  pose proof (dget_None d k) as Hn. destruct (dget d k) as [x|]; split; intros H; [|eauto|by destruct H|].
  - destruct (decide (k ∈ dkeys d)) as [|Hx]; [done|]. by apply Hn in Hx.
  - exfalso. by apply Hn in H.
Qed.

Lemma remaining_dset ids g u cs c v :
  NoDup ids → dkeys g = ids → dget g u = Some cs →
  remaining (dset g u (cs ++ [c])) [] v = (remaining g [] v + if decide (c = v) then 1 else 0)%nat.
Proof.
  intros Hd Hk Hu. assert (u ∈ ids) as Hin by (rewrite <- Hk; apply dget_is_Some; eauto).
  assert (dkeys (dset g u (cs ++ [c])) = ids) as Hk'.
  { rewrite dkeys_dset, Hk. by rewrite decide_True. }
  rewrite (remaining_snoc g [] u v), (remaining_snoc (dset g u _) [] u v)
    by (rewrite ?Hk, ?Hk'; done || apply not_elem_of_nil).
  assert (remaining (dset g u (cs ++ [c])) ([] ++ [u]) v = remaining g ([] ++ [u]) v) as ->.
  { unfold remaining. rewrite Hk, Hk'. f_equal. apply list_fmap_ext. intros i x Hx.
    apply list_elem_of_lookup_2, list_elem_of_filter in Hx as [Hx _]. unfold children.
    rewrite dget_dset_ne; [done|set_solver]. }
  unfold children. rewrite dget_dset_eq, Hu. simpl. rewrite cnt_app, cnt_cons.
  assert (cnt v [] = 0%nat) as -> by done. lia.
Qed.

Lemma add_edge_rows_inv ids edges0 edges g ind :
  NoDup ids → graph_inv ids edges0 g ind →
  let r := add_edge_rows g ind edges in graph_inv ids (edges0 ++ edges) r.1 r.2.
Proof.
  intros Hd. revert edges0 g ind. unfold add_edge_rows. cbv zeta.
  induction edges as [|[p c] edges IH]; intros edges0 g ind Hi; [by rewrite app_nil_r|].
  rewrite (cons_middle _ edges0), app_assoc.
  destruct Hi as [Hk Hik Hc Hind]. cbn [foldl].
  destruct (dget g p) as [cs|] eqn:Hp; [destruct (dget g c) eqn:Hgc; [destruct (dget ind c) as [d|] eqn:Hic|]|].
  - assert (p ∈ ids) as Hpi by (rewrite <- Hk; apply dget_is_Some; eauto).
    assert (c ∈ ids) as Hci by (rewrite <- Hk; apply dget_is_Some; eauto).
    apply IH. split.
    + by rewrite dkeys_dset, Hk, decide_True.
    + by rewrite dkeys_dset, Hik, decide_True.
    + intros u v. rewrite elem_of_app, list_elem_of_singleton. unfold children in *.
      destruct (decide (u = p)) as [->|Hne].
      * rewrite dget_dset_eq. simpl. rewrite elem_of_app, list_elem_of_singleton.
        specialize (Hc p v). rewrite Hp in Hc. simpl in Hc. rewrite Hc.
        split; [naive_solver|]. intros ([?|[= ->]] & ? & ?); naive_solver.
      * rewrite dget_dset_ne by done. rewrite Hc. naive_solver.
    + intros v Hv. rewrite (remaining_dset ids g p cs c v) by done. specialize (Hind v Hv).
      unfold get_ind in *. case_decide; subst.
      * rewrite dget_dset_eq. rewrite Hic in Hind. simpl in *. lia.
      * rewrite dget_dset_ne by done. lia.
  - exfalso. apply dget_None in Hic. apply Hic. rewrite Hik, <- Hk. apply dget_is_Some. eauto.
  - apply IH. split; [done..| |done]. intros u v. rewrite elem_of_app, list_elem_of_singleton, Hc.
    apply dget_None in Hgc. rewrite Hk in Hgc. naive_solver.
  - apply IH. split; [done..| |done]. intros u v. rewrite elem_of_app, list_elem_of_singleton, Hc.
    apply dget_None in Hp. rewrite Hk in Hp. naive_solver.
Qed.

Lemma dupdate_nil_graph (ids : list string) :
  NoDup ids → dupdate [] ((λ i, (i, [])) <$> ids) = ((λ i, (i, [])) <$> ids : Graph).
Proof.
  intros Hd. unfold dupdate.
  assert (∀ (acc : Graph), (∀ x, x ∈ ids → x ∉ dkeys acc) →
    foldl (λ d p, dset d p.1 p.2) acc ((λ i, (i, [])) <$> ids) = acc ++ ((λ i, (i, [])) <$> ids)) as H.
  { induction Hd as [|x ids Hx Hd IH]; intros acc Hacc; simpl; [by rewrite app_nil_r|].
    assert (dset acc x [] = acc ++ [(x, [])]) as ->.
    { assert (x ∉ dkeys acc) as Hxa by (apply Hacc; left). clear -Hxa.
      induction acc as [|[k v] acc IH]; simpl; [done|]. unfold dkeys in Hxa. simpl in Hxa.
      rewrite decide_False by set_solver. f_equal. apply IH. set_solver. }
    rewrite IH; [by rewrite <- app_assoc|].
    intros y Hy. unfold dkeys. rewrite fmap_app. simpl. apply not_elem_of_app. split; [apply Hacc; by right|].
    set_solver. }
  by rewrite H by set_solver.
Qed.

Lemma initial_graph_inv ids :
  NoDup ids → graph_inv ids [] ((λ i, (i, [])) <$> ids) ((λ i, (i, 0)) <$> ids).
Proof.
  intros Hd.
  assert (∀ u, children ((λ i, (i, [])) <$> ids) u = []) as Hc.
  { intros u. unfold children. destruct (dget _ u) as [l|] eqn:E; [|done].
    apply dget_Some_in, list_elem_of_fmap in E as (? & [= -> ->] & _). done. }
  assert (∀ X (x : X), dkeys ((λ i, (i, x)) <$> ids) = ids) as Hk.
  { intros X x. unfold dkeys. rewrite <- list_fmap_compose. by rewrite list_fmap_id || (induction ids; simpl; f_equal; set_solver). }
  split; [apply Hk..| |].
  - intros u v. rewrite Hc. set_solver.
  - intros v Hv. unfold get_ind. rewrite (dget_in _ v 0); [|by rewrite Hk|apply list_elem_of_fmap; by exists v].
    simpl. assert (remaining ((λ i, (i, [])) <$> ids) [] v = 0%nat) as ->; [|done].
    apply remaining_zero. intros u _ _. rewrite Hc. apply not_elem_of_nil.
Qed.

(** ** Correctness *)
(** [order] lists the ids so that every stored parent precedes its child. *)
Definition topological (ids : list string) (edges : list (string * string)) (order : list string) : Prop :=
  order ≡ₚ ids ∧
  ∀ p c i, (p, c) ∈ edges → p ∈ ids → order !! i = Some c → p ∈ take i order.

(** The nodes without predecessors are the queue Kahn's algorithm starts from. *)
Definition start_queue (ind : odict Z) : list string := dkeys (filter (λ p : string * Z, p.2 = 0) (ind : list (string * Z))).
Lemma start_queue_inv ids edges g ind : NoDup ids → graph_inv ids edges g ind → kahn_inv g (start_queue ind) ind [].
Proof.
  intros Hd [Hk Hik Hc Hind]. set (queue := start_queue ind).
  assert (∀ v, v ∈ queue ↔ v ∈ ids ∧ remaining g [] v = 0%nat) as Hq.
  { intros v. unfold queue, start_queue, dkeys. rewrite list_elem_of_fmap. setoid_rewrite list_elem_of_filter. split.
    - intros ([k d] & -> & Hd0 & Hin). simpl in *. assert (k ∈ ids) as Hki.
      { rewrite <- Hik. by apply (list_elem_of_fmap_2 fst) in Hin. }
      split; [done|]. specialize (Hind k Hki). unfold get_ind in Hind.
      rewrite (dget_in ind k d) in Hind by (by rewrite ?Hik). simpl in Hind. lia.
    - intros [Hv Hr]. specialize (Hind v Hv). rewrite Hr in Hind. unfold get_ind in Hind.
      destruct (dget ind v) as [d|] eqn:E.
      + exists (v, d). apply dget_Some_in in E. done.
      + apply dget_None in E. by rewrite Hik in E. }
  split; simpl.
  - unfold queue, start_queue, dkeys. eapply (sublist_NoDup _ (dkeys ind)); [by rewrite Hik|]. unfold dkeys. apply fmap_sublist, sublist_filter.
  - intros v [Hv _]%Hq. by rewrite Hk.
  - intros v Hv. apply Hind. by rewrite <- Hk.
  - intros v Hv. rewrite Hq, <- Hk. naive_solver.
  - intros i u v. by rewrite lookup_nil.
Qed.

(** C14: [toposort] returns a topological order of the stored events when there is
    one and raises [ValueError] when there is none, in whatever order the database
    lists ids and edges. *)
Theorem toposort_correct (ids : list string) (edges : list (string * string)) :
  NoDup ids →
  match toposort_rows ids edges with
  | Ok order => topological ids edges order
  | Err e => e = ValueError "cycle detected in DAG" ∧ ∀ order, ¬ topological ids edges order
  end.
Proof.
  intros Hd. unfold toposort_rows. rewrite dupdate_nil_graph by done.
  assert (dkeys ((λ i, (i, @nil string)) <$> ids) = ids) as Hk0 by apply (gi_keys _ _ _ _ (initial_graph_inv ids Hd)).
  rewrite Hk0.
  pose proof (add_edge_rows_inv ids [] edges _ _ Hd (initial_graph_inv ids Hd)) as Hg.
  destruct (add_edge_rows _ _ edges) as [g ind]. simpl in Hg.
  pose proof (start_queue_inv ids _ g ind Hd Hg) as Hinv. destruct Hg as [Hk Hik Hc Hind]. cbv zeta.
  fold (start_queue ind). set (queue := start_queue ind) in *.
  destruct (kahn_spec g) with (fuel := S (length ids)) (queue := queue) (ind := ind) (order := @nil string)
    as [ind' Hfin]; [by rewrite Hk| |done|rewrite Hk; simpl; lia|].
  { intros u v Hu Hv. apply Hc in Hv as (_ & _ & Hv). by rewrite Hk. }
  set (order := kahn _ g queue ind []) in *.
  destruct Hfin as [Hnd Hkeys _ Hz Hp]. rewrite app_nil_r in *.
  assert (length g = length ids) as Hlen by (rewrite <- Hk; unfold dkeys; by rewrite length_fmap).
  rewrite Hlen. case_bool_decide as Hl.
  - assert (order ≡ₚ ids) as Hperm.
    { apply submseteq_length_Permutation; [|lia]. apply NoDup_submseteq; [done|]. intros v Hv.
      rewrite <- Hk. by apply Hkeys. }
    split; [done|]. intros p c i He Hpi Hi. apply (Hp i p c Hi); [by rewrite Hk|].
    apply Hc. split_and!; [done..|]. rewrite <- Hperm. by eapply list_elem_of_lookup_2.
  - split; [done|]. intros order' [Hperm' Hto]. apply Hl.
    apply Permutation_length, NoDup_Permutation; [done..|]. intros v. split.
    { intros Hv. rewrite <- Hk. by apply Hkeys. }
    rewrite <- Hperm'. intros [i Hi]%list_elem_of_lookup. revert v Hi.
    induction i as [i IH] using lt_wf_ind. intros v Hi.
    assert (v ∈ ids) as Hvi by (rewrite <- Hperm'; by eapply list_elem_of_lookup_2).
    apply Hz; [by rewrite Hk|]. apply remaining_zero.
    intros u Hu Hnot Hcu. apply Hnot. apply Hc in Hcu as (He & Hui & _).
    specialize (Hto u v i He Hui Hi). apply list_elem_of_lookup in Hto as [j Hj].
    apply lookup_take_Some in Hj as [Hj Hlt]. by apply (IH j Hlt).
Qed.

Lemma toposort_correct_witness :
  NoDup ["c"; "a"; "b"] ∧
  toposort_rows ["c"; "a"; "b"] [("a", "c"); ("b", "c"); ("a", "b")] = Ok ["a"; "b"; "c"] ∧
  topological ["c"; "a"; "b"] [("a", "c"); ("b", "c"); ("a", "b")] ["a"; "b"; "c"].
Proof.
  assert (NoDup ["c"; "a"; "b"]) as Hd by (apply (bool_decide_unpack _); vm_compute; exact I).
  split; [exact Hd|]. split; [vm_compute; reflexivity|].
  exact (toposort_correct ["c"; "a"; "b"] [("a", "c"); ("b", "c"); ("a", "b")] Hd).
Defined.
