(* ===== verification/StorageFacts.v ===== *)
(** Theorems about the storage operations of Storage.v: storing envelopes,
    reading them back, retention under a checkpoint, quota collection, peers and
    checkpoints. *)
From S2P Require Import Prelude Sha256 Json VectorClock Models Consensus Storage.

(** ** Rows *)
Lemma dset_same {X} (d : odict X) k v : dget d k = Some v → dset d k v = d.
Proof.
  induction d as [|[k' v'] d IH]; simpl; [done|].
  case_decide as Hk; [by intros [= ->]; subst|]. intros Hg. by rewrite IH.
Qed.

Lemma sql_get_dset r c v c' : sql_get (dset r c v) c' = if decide (c = c') then v else sql_get r c'.
Proof.
  unfold sql_get. case_decide; subst; [by rewrite dget_dset_eq|by rewrite dget_dset_ne].
Qed.

Lemma sql_coalesce_idem a b : sql_coalesce (sql_coalesce a b) b = sql_coalesce a b.
Proof. by destruct a, b. Qed.
Lemma sql_coalesce_nonnull a b : a ≠ SNull → sql_coalesce a b = a.
Proof. by destruct a. Qed.

(** A column with a value keeps it. *)
Definition row_grows (r r' : sqlrow) : Prop := ∀ c, sql_get r c ≠ SNull → sql_get r' c = sql_get r c.

#[export] Instance row_grows_refl : Reflexive row_grows.
Proof. by intros r c. Qed.
#[export] Instance row_grows_trans : Transitive row_grows.
Proof. intros r1 r2 r3 H1 H2 c Hc. rewrite H2, H1; [done|done|]. by rewrite H1. Qed.

Lemma coalesce_columns_cons p vals r :
  coalesce_columns (p :: vals) r = coalesce_columns vals (dset r p.1 (sql_coalesce (sql_get r p.1) p.2)).
Proof. done. Qed.

Lemma coalesce_columns_get vals r c :
  NoDup vals.*1 →
  sql_get (coalesce_columns vals r) c =
    match dget vals c with Some v => sql_coalesce (sql_get r c) v | None => sql_get r c end.
Proof.
  revert r. induction vals as [|[k v] vals IH]; intros r; [done|].
  rewrite fmap_cons, NoDup_cons. intros [Hk Hd]. rewrite coalesce_columns_cons, IH, sql_get_dset by done.
  simpl in *. destruct (decide (k = c)) as [->|Hne].
  - rewrite decide_True by done. apply dget_None in Hk. by rewrite Hk.
  - by rewrite decide_False by congruence.
Qed.

Lemma coalesce_columns_grows vals r : NoDup vals.*1 → row_grows r (coalesce_columns vals r).
Proof.
  intros Hd c Hc. rewrite coalesce_columns_get by done.
  destruct (dget vals c); [by apply sql_coalesce_nonnull|done].
Qed.

(** A second application finds the columns filled in. *)
Lemma coalesce_columns_fixed vals r :
  (∀ k v, (k, v) ∈ vals → dget r k ≠ None ∧ sql_coalesce (sql_get r k) v = sql_get r k) →
  coalesce_columns vals r = r.
Proof.
  induction vals as [|[k v] vals IH]; [done|]. intros H. rewrite coalesce_columns_cons. simpl.
  destruct (H k v) as [Hk Hv]; [by left|]. rewrite Hv, dset_same.
  - apply IH. intros k' v' Hin. apply H. by right.
  - unfold sql_get. by destruct (dget r k).
Qed.

Lemma dget_coalesce_columns vals r k : k ∈ vals.*1 → dget (coalesce_columns vals r) k ≠ None.
Proof.
  assert (∀ vals r, dget r k ≠ None → dget (coalesce_columns vals r) k ≠ None) as Hmono.
  { clear. induction vals as [|[k' v'] vals IH]; intros r Hr; [done|].
    rewrite coalesce_columns_cons. apply IH. simpl.
    destruct (decide (k' = k)) as [->|]; [by rewrite dget_dset_eq|by rewrite dget_dset_ne]. }
  revert r. induction vals as [|[k' v'] vals IH]; intros r; [set_solver|].
  rewrite coalesce_columns_cons, fmap_cons, elem_of_cons. simpl. intros [->|Hk]; [|by apply IH].
  apply Hmono. by rewrite dget_dset_eq.
Qed.

Lemma coalesce_columns_idem vals r :
  NoDup vals.*1 → coalesce_columns vals (coalesce_columns vals r) = coalesce_columns vals r.
Proof.
  intros Hd. apply coalesce_columns_fixed. intros k v Hin. split.
  - apply dget_coalesce_columns. by apply (list_elem_of_fmap_2 fst) in Hin.
  - rewrite coalesce_columns_get by done. rewrite (dget_in vals k v) by done. apply sql_coalesce_idem.
Qed.

Definition envelope_columns (ts : Q) (e : Event) : list (string * sqlval) :=
  [("consensus_ts", SReal ts); ("creator", SText (ev_creator e));
   ("self_parent_id", sql_opt SText (ev_self_parent_id e));
   ("other_parent_id", sql_opt SText (ev_other_parent_id e))].

Lemma envelope_columns_NoDup ts e : NoDup (envelope_columns ts e).*1.
Proof. simpl. apply (bool_decide_unpack _). vm_compute. exact I. Qed.

Lemma row_grows_id r r' : row_grows r r' → row_id r ≠ "" → row_id r' = row_id r.
Proof.
  unfold row_id. intros Hg Hr. destruct (sql_get r "id") eqn:E; try done. rewrite (Hg "id"); by rewrite E.
Qed.

(** ** Hops *)
Lemma hop_same_refl h : hop_same h h = true.
Proof.
  unfold hop_same. rewrite bool_decide_true by done. destruct (hop_ts h); [|done]. simpl.
  by apply Qeq_bool_iff.
Qed.

Lemma merge_hop_seen merged h : existsb (hop_same h) merged = true → merge_hop merged h = merged.
Proof. intros H. unfold merge_hop. by rewrite H. Qed.

Lemma existsb_merge_hop h merged h' :
  existsb (hop_same h) merged = true → existsb (hop_same h) (merge_hop merged h') = true.
Proof.
  unfold merge_hop. case_if; [done|]. intros H. by rewrite existsb_app, H.
Qed.

Lemma existsb_fold_merge h l merged :
  existsb (hop_same h) merged = true ∨ h ∈ l → existsb (hop_same h) (foldl merge_hop merged l) = true.
Proof.
  revert merged. induction l as [|h' l IH]; intros merged; simpl; [by intros [?|?%not_elem_of_nil]|].
  intros [H|[->|H]%elem_of_cons]; apply IH; [left|left|by right].
  - by apply existsb_merge_hop.
  - unfold merge_hop. case_if; [done|]. rewrite existsb_app. simpl. rewrite hop_same_refl.
    by rewrite orb_true_r.
Qed.

Lemma fold_merge_seen l merged :
  (∀ h, h ∈ l → existsb (hop_same h) merged = true) → foldl merge_hop merged l = merged.
Proof.
  induction l as [|h l IH]; intros H; simpl; [done|].
  rewrite merge_hop_seen by (apply H; left). apply IH. intros h' Hh'. apply H. by right.
Qed.

(** A list without repeated hops. *)
Fixpoint hops_distinct (l : list Hop) (seen : list Hop) : bool :=
  match l with
  | [] => true
  | h :: l' => negb (existsb (hop_same h) seen) && hops_distinct l' (seen ++ [h])
  end.

Lemma fold_merge_distinct l seen :
  hops_distinct l seen = true → foldl merge_hop seen l = seen ++ l.
Proof.
  revert seen. induction l as [|h l IH]; intros seen; simpl; [by rewrite app_nil_r|].
  rewrite andb_true_iff, negb_true_iff. intros [Hh Hl]. unfold merge_hop. rewrite Hh.
  rewrite IH by done. by rewrite <- app_assoc.
Qed.

Lemma hops_distinct_snoc l h seen :
  hops_distinct (l ++ [h]) seen = hops_distinct l seen && negb (existsb (hop_same h) (seen ++ l)).
Proof.
  revert seen. induction l as [|h' l IH]; intros seen; simpl.
  - by rewrite app_nil_r, andb_true_r.
  - rewrite IH, <- app_assoc. simpl. by rewrite andb_assoc.
Qed.

Lemma fold_merge_result_distinct l merged :
  hops_distinct merged [] = true → hops_distinct (foldl merge_hop merged l) [] = true.
Proof.
  revert merged. induction l as [|h l IH]; intros merged Hm; simpl; [done|]. apply IH.
  unfold merge_hop. case_if; [done|]. rewrite hops_distinct_snoc, Hm. simpl. by rewrite negb_true_iff.
Qed.

Lemma merged_path_distinct ex new : hops_distinct (merged_path ex new) [] = true.
Proof. by do 2 apply fold_merge_result_distinct. Qed.

Lemma merged_path_idem ex new : merged_path (Some (merged_path ex new)) new = merged_path ex new.
Proof.
  unfold merged_path at 1. simpl. rewrite (fold_merge_distinct _ []) by apply merged_path_distinct.
  simpl. apply fold_merge_seen. intros h Hh. apply existsb_fold_merge. by right.
Qed.

(** ** Storing envelopes *)
Lemma find_has_id i rows r : List.find (has_id i) rows = Some r → r ∈ rows ∧ row_id r = i.
Proof.
  intros H. apply List.find_some in H as [Hin Hi]. split; [by apply list_elem_of_In|].
  by apply bool_decide_eq_true in Hi.
Qed.

Lemma find_has_id_None i rows : List.find (has_id i) rows = None ↔ i ∉ row_id <$> rows.
Proof.
  split.
  - intros H (r & -> & Hr)%list_elem_of_fmap. apply list_elem_of_In in Hr.
    pose proof (List.find_none _ _ H r Hr) as Hf. by apply bool_decide_eq_false in Hf.
  - intros H. destruct (List.find _ rows) as [r|] eqn:E; [|done].
    apply find_has_id in E as [Hr <-]. destruct H. by apply list_elem_of_fmap_2.
Qed.

Lemma new_event_row_id now e ts : row_id (new_event_row now e ts) = ev_id e.
Proof. reflexivity. Qed.

Lemma find_app_r {X} (p : X → bool) l x : List.find p l = None → p x = true → List.find p (l ++ [x]) = Some x.
Proof.
  induction l as [|y l IH]; simpl; [by intros _ ->|]. by destruct (p y).
Qed.

Lemma sql_update_twice p f rows :
  (∀ r, p r = true → p (f r) = true → f (f r) = f r) → sql_update p f (sql_update p f rows) = sql_update p f rows.
Proof.
  intros H. unfold sql_update. rewrite <- list_fmap_compose. apply list_fmap_ext. intros _ r _. simpl.
  destruct (p r) eqn:E; simpl; [|by rewrite E]. destruct (p (f r)) eqn:E'; auto.
Qed.

Lemma sql_update_fixed (p : sqlrow → bool) f rows :
  (∀ r, r ∈ rows → p r = true → f r = r) → sql_update p f rows = rows.
Proof.
  intros H. unfold sql_update. rewrite <- (list_fmap_id rows) at 2. apply list_fmap_ext.
  intros i r Hr. simpl. destruct (p r) eqn:E; [|done]. apply H; [|done]. by eapply list_elem_of_lookup_2.
Qed.

Lemma find_update i f rows :
  (∀ r, has_id i r = true → has_id i (f r) = true) →
  List.find (has_id i) (sql_update (has_id i) f rows) = f <$> List.find (has_id i) rows.
Proof.
  intros Hf. unfold sql_update. induction rows as [|r rows IH]; [done|].
  rewrite fmap_cons. cbn [List.find]. destruct (has_id i r) eqn:E.
  - by rewrite Hf.
  - by rewrite E.
Qed.

Lemma new_event_row_filled now e ts :
  coalesce_columns (envelope_columns ts e) (new_event_row now e (Some ts)) = new_event_row now e (Some ts).
Proof.
  apply coalesce_columns_fixed. intros k v Hin. unfold envelope_columns in Hin.
  elim_in Hin; simplify_eq; (split; [done|]).
  all: cbv -[sql_opt sql_coalesce]; try done; apply sql_coalesce_idem || (by destruct (sql_opt _ _)).
Qed.

(** Storing the same envelope again changes nothing: the second call reports
    "not new" and leaves the database exactly as the first call left it. *)
Theorem store_envelope_idempotent (t1 t2 : Q) (env : Envelope) (ts : option Q) (db : DB) :
  ev_id (env_event env) ≠ "" →
  let db1 := (store_envelope t1 env ts db).1 in
  store_envelope t2 env ts db1 = (db1, false).
Proof.
  destruct env as [e hops]. intros Hid. simpl in Hid. unfold store_envelope. simpl.
  destruct (find_event db (ev_id e)) as [r|] eqn:Hf.
  - set (i := ev_id e) in *.
    set (db1 := merge_path_meta i hops db).
    assert (∀ db', db_envelopes db' = db_envelopes db1 → merge_path_meta i hops db' = db') as Hm.
    { intros db' He. unfold merge_path_meta. rewrite He. unfold db1, merge_path_meta. simpl.
      rewrite lookup_insert_eq, merged_path_idem, insert_insert_eq. destruct db'. simpl in He.
      unfold set_graph. simpl. by rewrite He. }
    assert (∀ r, has_id i r = true → ∀ v, has_id i (coalesce_columns (envelope_columns v e) r) = true) as Hgrow.
    { intros r0 Hr0%bool_decide_eq_true v. apply bool_decide_eq_true. rewrite <- Hr0. apply row_grows_id; [|congruence].
      apply coalesce_columns_grows, envelope_columns_NoDup. }
    destruct ts as [ts|]; simpl.
    + fold (envelope_columns ts e).
      assert (List.find (has_id i) (sql_update (has_id i) (coalesce_columns (envelope_columns ts e)) (db_events db))
              = coalesce_columns (envelope_columns ts e) <$> Some r) as Hf'.
      { rewrite find_update; [by fold (find_event db i); rewrite Hf|]. intros. by apply Hgrow. }
      unfold find_event. simpl. rewrite Hf'. simpl. f_equal.
      rewrite Hm by done. unfold set_events, set_graph. simpl. f_equal.
      apply sql_update_twice. intros r0 _ _. apply coalesce_columns_idem, envelope_columns_NoDup.
    + fold (find_event db i). unfold find_event. simpl. fold (find_event db i). rewrite Hf. by rewrite Hm.
  - set (i := ev_id e) in *. unfold find_event in *. simpl.
    rewrite (find_app_r _ _ (new_event_row t1 e ts)); [|done|by apply bool_decide_eq_true].
    set (es := foldl _ _ _). set (row := new_event_row t1 e ts).
    assert (merged_path (Some (merged_path (db_envelopes db !! i) hops)) hops
            = merged_path (db_envelopes db !! i) hops) as Hidem by apply merged_path_idem.
    unfold merge_path_meta. simpl. rewrite lookup_insert_eq, Hidem, insert_insert_eq.
    destruct ts as [ts|]; [|done]. f_equal. unfold set_events, set_graph. simpl. f_equal.
    fold (envelope_columns ts e). apply (sql_update_fixed (has_id i)).
    intros r0 [Hr0|Hr0%list_elem_of_singleton]%elem_of_app Hi%bool_decide_eq_true.
    + exfalso. apply find_has_id_None in Hf. apply Hf. rewrite <- Hi. by apply list_elem_of_fmap_2.
    + rewrite Hr0. apply new_event_row_filled.
Qed.

Definition example_envelope : Envelope := mkEnvelope example_event [mkHop (Some "n1") (Some (5 # 1))].

Lemma store_envelope_idempotent_witness :
  ev_id (env_event example_envelope) ≠ "" ∧
  let db1 := (store_envelope 1 example_envelope (Some (7 # 1)) empty_db).1 in
  store_envelope 2 example_envelope (Some (7 # 1)) db1 = (db1, false).
Proof.
  assert (ev_id (env_event example_envelope) ≠ "") as H.
  { vm_compute. discriminate. }
  split; [exact H|]. exact (store_envelope_idempotent 1 2 example_envelope (Some (7 # 1)) empty_db H).
Defined.

(** The event as the [INSERT] keeps it: the payload's keys sorted, the consensus
    columns at their defaults, the consensus time the one passed. *)
Definition stored_event (e : Event) (ts : option Q) : Event :=
  {| ev_id := ev_id e; ev_cls := ev_cls e; ev_source := ev_source e; ev_creator := ev_creator e;
     ev_ts_local := ev_ts_local e; ev_vclock := ev_vclock e; ev_parents := ev_parents e;
     ev_self_parent_id := ev_self_parent_id e; ev_other_parent_id := ev_other_parent_id e;
     ev_payload := sorted_payload (ev_payload e); ev_sig := ev_sig e; ev_consensus_ts := ts;
     ev_lamport_ts := ev_lamport_ts e; ev_round := ev_round e;
     ev_round_received := ev_round_received e; ev_is_witness := ev_is_witness e;
     ev_is_famous_witness := false; ev_fame_decided := false; ev_fame_decision_round := None;
     ev_fame_decision_kind := "pending"; ev_fame_needs_coin := false;
     ev_fame_coin_used := false; ev_fame_coin_round := None; ev_fame_vote_round := None;
     ev_fame_vote_yes := 0; ev_fame_vote_no := 0 |}.

Lemma new_event_row_read now e ts :
  event_normal e → Event_from_record (new_event_row now e ts) = Ok (stored_event e ts).
Proof.
  intros Hn. set (e' := set_payload (stored_event e ts) (ev_payload e)).
  change (Event_from_record (new_event_row now e ts)) with (Event_from_record (Event_to_record e')).
  rewrite Event_record_roundtrip; [done|].
  destruct Hn as (H1 & H2 & _ & H3 & H4 & H5 & H6). by split_and!.
Qed.

(** A new envelope is reported as new and reads back with the event that was
    stored and each of its hops once. *)
Theorem store_envelope_get (now : Q) (env : Envelope) (ts : option Q) (db : DB) :
  event_normal (env_event env) →
  find_event db (ev_id (env_event env)) = None →
  let r := store_envelope now env ts db in
  r.2 = true ∧
  get_envelope (ev_id (env_event env)) r.1 =
    Ok (Some (mkEnvelope (stored_event (env_event env) ts)
                (merged_path (db_envelopes db !! ev_id (env_event env)) (env_path_meta env)))).
Proof.
  destruct env as [e hops]. simpl. intros Hn Hf. unfold store_envelope. simpl. rewrite Hf.
  split; [done|]. unfold get_envelope, get_event, find_event. simpl.
  rewrite (find_app_r _ _ (new_event_row now e ts)); [|done|by apply bool_decide_eq_true].
  simpl. rewrite new_event_row_read by done. simpl. by rewrite lookup_insert_eq.
Qed.

Lemma store_envelope_get_witness :
  event_normal example_event ∧
  find_event empty_db (ev_id example_event) = None ∧
  let r := store_envelope 1 example_envelope None empty_db in
  r.2 = true ∧
  get_envelope (ev_id example_event) r.1 =
    Ok (Some (mkEnvelope (stored_event example_event None)
                (merged_path (db_envelopes empty_db !! ev_id example_event) (env_path_meta example_envelope)))).
Proof.
  assert (event_normal example_event) as Hn by (split_and!; vm_compute; congruence).
  assert (find_event empty_db (ev_id example_event) = None) as Hf by reflexivity.
  split; [exact Hn|]. split; [exact Hf|].
  exact (store_envelope_get 1 example_envelope None empty_db Hn Hf).
Defined.

(** Storing an envelope never rewrites history: ids stay unique, every stored
    row stays at its place and no column that has a value changes. *)
Theorem store_envelope_preserves (now : Q) (env : Envelope) (ts : option Q) (db : DB) :
  NoDup (row_id <$> db_events db) → "" ∉ row_id <$> db_events db →
  let db' := (store_envelope now env ts db).1 in
  NoDup (row_id <$> db_events db') ∧
  (∀ i r, db_events db !! i = Some r → ∃ r', db_events db' !! i = Some r' ∧ row_grows r r') ∧
  (∀ e, e ∈ db_edges db → e ∈ db_edges db').
Proof.
  destruct env as [e hops]. intros Hd Hne. unfold store_envelope. simpl.
  destruct (find_event db (ev_id e)) as [r|] eqn:Hf.
  - destruct ts as [ts|]; simpl; [|split_and!; [done| |done]; intros i r' Hr; by exists r'].
    fold (envelope_columns ts e).
    assert (∀ r, row_grows r (if has_id (ev_id e) r then coalesce_columns (envelope_columns ts e) r else r)) as Hg.
    { intros r0. destruct (has_id _ r0); [|done]. apply coalesce_columns_grows, envelope_columns_NoDup. }
    split_and!; [|intros i r' Hr; unfold sql_update; rewrite list_lookup_fmap, Hr; simpl; eauto|done].
    unfold sql_update. rewrite <- list_fmap_compose.
    replace (row_id ∘ _ <$> db_events db) with (row_id <$> db_events db); [done|].
    apply list_fmap_ext. intros i r0 Hr0. simpl. symmetry. apply row_grows_id; [apply Hg|].
    intros E. apply Hne. rewrite <- E. by eapply list_elem_of_fmap_2, list_elem_of_lookup_2.
  - simpl. split_and!.
    + rewrite fmap_app, NoDup_app. simpl. split_and!; [done| |apply NoDup_singleton].
      intros x Hx [->|[]%not_elem_of_nil]%elem_of_cons. apply find_has_id_None in Hf. by apply Hf.
    + intros i r Hr. exists r. split; [|done]. apply lookup_app_l_Some. done.
    + intros ed Hed. revert Hed. generalize (db_edges db). induction (ev_parents e) as [|p ps IH]; [done|].
      intros es Hes. simpl. apply IH. unfold insert_edge. case_decide; [done|]. set_solver.
Qed.

Lemma store_envelope_preserves_witness :
  let db := (store_envelope 1 example_envelope None empty_db).1 in
  NoDup (row_id <$> db_events db) ∧ "" ∉ row_id <$> db_events db ∧
  let db' := (store_envelope 2 example_envelope (Some (9 # 1)) db).1 in
  NoDup (row_id <$> db_events db') ∧
  (∀ i r, db_events db !! i = Some r → ∃ r', db_events db' !! i = Some r' ∧ row_grows r r') ∧
  (∀ e, e ∈ db_edges db → e ∈ db_edges db').
Proof.
  intros db.
  assert (NoDup (row_id <$> db_events db)) as Hd by (apply (bool_decide_unpack _); vm_compute; exact I).
  assert ("" ∉ row_id <$> db_events db) as Hn by (apply (bool_decide_unpack _); vm_compute; exact I).
  split; [exact Hd|]. split; [exact Hn|].
  exact (store_envelope_preserves 2 example_envelope (Some (9 # 1)) db Hd Hn).
Defined.

(** ** Retention *)
Lemma elem_of_sql_delete {X} (p : X → bool) l x : x ∈ sql_delete p l ↔ p x = false ∧ x ∈ l.
Proof. unfold sql_delete. by rewrite list_elem_of_filter. Qed.
Lemma elem_of_sql_select {X} (p : X → bool) l x : x ∈ sql_select p l ↔ p x = true ∧ x ∈ l.
Proof. unfold sql_select. by rewrite list_elem_of_filter. Qed.

Section retention.
Context `{FloatFormat}.

Definition skeleton_of (now : Q) (r : sqlrow) : SkeletonRow :=
  mkSkeleton (row_id r) (row_cls r)
    (match sql_get r "parents" with SJson j => j | _ => JNull end)
    (row_round_received r) (row_payload_hash r) now.

Lemma prune_rows_events now rows db r :
  r ∈ db_events (foldl (prune_row now) db rows) ↔ r ∈ db_events db ∧ row_id r ∉ row_id <$> rows.
Proof.
  induction rows as [|r' rows IH] using rev_ind; simpl; [set_solver|].
  rewrite foldl_app. simpl. rewrite elem_of_sql_delete, IH, fmap_app, not_elem_of_app. simpl.
  unfold has_id. rewrite bool_decide_eq_false, not_elem_of_cons. split; [|naive_solver].
  intros (? & ? & ?). split_and!; [done..|set_solver].
Qed.

Lemma prune_rows_edges now rows db : db_edges (foldl (prune_row now) db rows) = db_edges db.
Proof. induction rows as [|r' rows IH] using rev_ind; [done|]. rewrite foldl_app. simpl. by rewrite IH. Qed.

Lemma prune_rows_skeletons now rows db r :
  NoDup (row_id <$> rows) → r ∈ rows → skeleton_of now r ∈ db_skeletons (foldl (prune_row now) db rows).
Proof.
  induction rows as [|r' rows IH] using rev_ind; [set_solver|].
  rewrite foldl_app, fmap_app, NoDup_app. simpl. intros (Hd & Hdis & _) [Hr|Hr]%elem_of_app.
  - unfold replace_skeleton. apply elem_of_app. left. apply elem_of_sql_delete. split; [|by apply IH].
    apply bool_decide_eq_false. simpl. intros E. apply (Hdis (row_id r)).
    + by apply list_elem_of_fmap_2.
    + rewrite E. by left.
  - apply list_elem_of_singleton in Hr as ->. unfold replace_skeleton. apply elem_of_app. right. by left.
Qed.

(** C17: pruning under a confirmed checkpoint removes only events whose round is
    confirmed, that are old enough and, when class A is kept, not of class A; for
    each it leaves a skeleton with the hash of its payload, it keeps every edge,
    and it returns exactly the removed rows. *)
Theorem prune_contract (confirmed_round : Z) (max_age : Q) (keep_class_a : bool) (now : Q) (db : DB) :
  NoDup (row_id <$> db_events db) →
  let '(db', pruned) := prune_under_checkpoint confirmed_round max_age keep_class_a now db in
  (∀ r, r ∈ db_events db' → r ∈ db_events db) ∧
  (∀ r, r ∈ pr_row <$> pruned ↔ r ∈ db_events db ∧ r ∉ db_events db') ∧
  (∀ r, r ∈ pr_row <$> pruned →
    (∃ rr, row_round_received r = Some rr ∧ rr <= confirmed_round) ∧
    (row_created_at r < now - max_age)%Q ∧
    (keep_class_a = true → sql_get r "cls" ≠ SText "A") ∧
    skeleton_of now r ∈ db_skeletons db') ∧
  db_edges db' = db_edges db.
Proof.
  intros Hd. unfold prune_under_checkpoint.
  set (sel := sql_select _ (db_events db)). set (rows := sort_on _ Z.compare sel).
  assert (rows ≡ₚ sel) as Hp by apply sort_on_perm.
  assert (pr_row <$> ((λ r, mkPruned r (row_payload_hash r)) <$> rows) = rows) as Hrows.
  { rewrite <- list_fmap_compose. apply list_fmap_id. }
  assert (∀ r, r ∈ rows ↔ prunable confirmed_round (now - max_age)%Q keep_class_a r = true ∧ r ∈ db_events db) as Hin.
  { intros r. rewrite Hp. apply elem_of_sql_select. }
  assert (NoDup (row_id <$> rows)) as Hdr.
  { rewrite Hp. eapply sublist_NoDup; [exact Hd|]. apply fmap_sublist, sublist_filter. }
  assert (∀ r, r ∈ db_events db → row_id r ∈ row_id <$> rows → r ∈ rows) as Hinj.
  { intros r Hr (r' & Heq & Hr')%list_elem_of_fmap. replace r with r'; [done|].
    apply Hin in Hr' as [_ Hr']. apply list_elem_of_lookup in Hr as [i Hi], Hr' as [j Hj].
    assert (i = j) as ->; [|congruence].
    eapply (NoDup_lookup _ i j (row_id r)); [exact Hd|..]; rewrite list_lookup_fmap, ?Hi, ?Hj; simpl; congruence. }
  rewrite Hrows. split_and!.
  - intros r [? _]%prune_rows_events. done.
  - intros r. rewrite prune_rows_events. split.
    + intros Hr. split; [by apply Hin in Hr as [_ Hr]|]. intros [_ Hn]. apply Hn. by apply list_elem_of_fmap_2.
    + intros [Hr Hn]. apply Hinj; [done|]. apply dec_stable. tauto.
  - intros r Hr. pose proof Hr as [Hpr _]%Hin. unfold prunable in Hpr.
    destruct (row_round_received r) as [rr|]; [|done].
    apply andb_true_iff in Hpr as [[Hc Ha]%andb_true_iff Hk]. reflect_bool.
    split_and!; [by exists rr|done| |by apply prune_rows_skeletons].
    intros ->. simpl in Hk. intros E. unfold has_text in Hk. rewrite E in Hk.
    rewrite bool_decide_true in Hk by done. by destruct Hk.
  - apply prune_rows_edges.
Qed.
End retention.

(** A database with one confirmed old event of class B and one of class A. *)
Definition sample_row (id cls : string) (rr created : Z) (payload : json) : sqlrow :=
  [("id", SText id); ("cls", SText cls); ("parents", SJson (JArr [])); ("vclock", SJson (JObj []));
   ("payload", SJson payload); ("round_received", SInt rr); ("created_at", SInt created)].
Definition sample_db : DB :=
  set_graph empty_db
    [sample_row "b1" "B" 1 10 (JStr "xxxx"); sample_row "a1" "A" 1 20 (JStr "yy"); sample_row "b2" "B" 5 30 JNull]
    [("b1", "a1")] ∅.

Lemma sample_db_ids : NoDup (row_id <$> db_events sample_db).
Proof. apply (bool_decide_unpack _). vm_compute. exact I. Qed.

Lemma prune_contract_witness :
  NoDup (row_id <$> db_events sample_db) ∧
  let '(db', pruned) := @prune_under_checkpoint frac_format 3 (1 # 1) true (100 # 1) sample_db in
  (row_id <$> (pr_row <$> pruned) = ["b1"]) ∧
  (∀ r, r ∈ pr_row <$> pruned ↔ r ∈ db_events sample_db ∧ r ∉ db_events db').
Proof.
  split; [exact sample_db_ids|].
  pose proof (@prune_contract frac_format 3 (1 # 1) true (100 # 1) sample_db sample_db_ids) as Hw.
  assert (row_id <$> (pr_row <$> (@prune_under_checkpoint frac_format 3 (1 # 1) true (100 # 1) sample_db).2) = ["b1"])
    as Hids by (vm_compute; reflexivity).
  destruct (@prune_under_checkpoint frac_format 3 (1 # 1) true (100 # 1) sample_db) as [db' pruned].
  split; [exact Hids|]. exact (proj1 (proj2 Hw)).
Defined.

(** ** Quota collection *)
Section quota.
Context `{FloatFormat}.

Lemma sql_length_nonneg v : 0 <= sql_length v.
Proof. unfold sql_length. lia. Qed.

Lemma payload_usage_cons r rows :
  payload_usage (r :: rows) = sql_length (sql_get r "payload") + payload_usage rows.
Proof. done. Qed.
Lemma payload_usage_nonneg rows : 0 <= payload_usage rows.
Proof.
  unfold payload_usage. apply sum_Z_nonneg, Forall_fmap, Forall_forall. intros r _. apply sql_length_nonneg.
Qed.
Lemma payload_usage_perm r1 r2 : r1 ≡ₚ r2 → payload_usage r1 = payload_usage r2.
Proof. intros Hp. unfold payload_usage. apply sum_Z_perm. by apply fmap_Permutation. Qed.

(** The victims are the shortest prefix whose removal fits the target. *)
Lemma gc_victims_prefix target rows :
  0 <= target →
  ∃ n, gc_victims target (payload_usage rows) rows = row_id <$> take n rows ∧ (n <= length rows)%nat ∧
    payload_usage (drop n rows) <= target ∧
    ∀ m, (m < n)%nat → target < payload_usage (drop m rows).
Proof.
  intros Ht. induction rows as [|r rows IH].
  - exists 0%nat. split_and!; [done|simpl; lia|done|lia].
  - cbn [gc_victims]. destruct (payload_usage (r :: rows) <=? target) eqn:E.
    + apply Z.leb_le in E. exists 0%nat. split_and!; [done|lia|done|lia].
    + apply Z.leb_gt in E. replace (payload_usage (r :: rows) - sql_length (sql_get r "payload"))
        with (payload_usage rows) by (rewrite payload_usage_cons; lia).
      destruct IH as (n & Hv & Hn & Hu & Hm). exists (S n). split_and!; [by rewrite Hv|simpl; lia|done|].
      intros [|m] Hlt; [done|]. apply Hm. lia.
Qed.

Lemma gc_events_spec db victims :
  db_events (foldl gc_event db victims) = filter (λ r, row_id r ∉ victims) (db_events db) ∧
  ∀ e, e ∈ db_edges (foldl gc_event db victims) ↔ e ∈ db_edges db ∧ e.1 ∉ victims ∧ e.2 ∉ victims.
Proof.
  induction victims as [|v victims IH] using rev_ind.
  - simpl. split; [|set_solver]. symmetry. apply filter_all. intros; set_solver.
  - rewrite foldl_app. simpl. destruct IH as [Hev Hed]. split.
    + rewrite Hev. unfold sql_delete. rewrite list_filter_filter. apply list_filter_iff. intros r.
      unfold has_id. rewrite bool_decide_eq_false. set_solver.
    + intros e. rewrite !elem_of_sql_delete, Hed, !bool_decide_eq_false. set_solver.
Qed.

(** C18: quota collection removes the shortest run of oldest events that brings
    the payload volume under the quota, together with every edge that touches
    them, and reports how many it removed. *)
Theorem gc_contract (memory_mb : Z) (db : DB) :
  NoDup (row_id <$> db_events db) → 0 <= memory_mb →
  let target := memory_mb * 1024 * 1024 in
  let '(db', n) := gc_by_quota memory_mb db in
  let oldest := order_by_created (db_events db) in
  db_events db' ≡ₚ drop n oldest ∧ payload_usage (db_events db') <= target ∧
  (∀ m, (m < n)%nat → target < payload_usage (drop m oldest)) ∧
  ∀ e, e ∈ db_edges db' → ∀ r, r ∈ take n oldest → e.1 ≠ row_id r ∧ e.2 ≠ row_id r.
Proof.
  intros Hd Hmem target. unfold gc_by_quota. fold target.
  set (oldest := order_by_created (db_events db)).
  assert (oldest ≡ₚ db_events db) as Hp by apply sort_on_perm.
  case_if.
  - cbv zeta. rewrite drop_0. split_and!; [by rewrite Hp|done|lia|set_solver].
  - rewrite <- (payload_usage_perm _ _ Hp).
    destruct (gc_victims_prefix target oldest) as (n & -> & Hn & Hu & Hm); [lia|].
    rewrite length_fmap, length_take, Nat.min_l by done.
    destruct (gc_events_spec db (row_id <$> take n oldest)) as [Hev Hed].
    assert (filter (λ r, row_id r ∉ row_id <$> take n oldest) (db_events db) ≡ₚ drop n oldest) as Hperm.
    { rewrite <- Hp, <- (take_drop n oldest) at 1.
      rewrite <- Hp, <- (take_drop n oldest), fmap_app, NoDup_app in Hd. destruct Hd as (_ & Hdis & _).
      rewrite filter_app, filter_none, filter_all; [done|..].
      - intros r Hr Hin. apply (Hdis _ Hin). by apply list_elem_of_fmap_2.
      - intros r Hr Hin. apply Hin. by apply list_elem_of_fmap_2. }
    rewrite Hev. cbv zeta. split_and!; [done|by rewrite (payload_usage_perm _ _ Hperm)|done|].
    intros e He r Hr. apply Hed in He as (_ & H1 & H2).
    split; intros E; [apply H1|apply H2]; rewrite E; by apply list_elem_of_fmap_2.
Qed.
End quota.


Lemma gc_contract_witness :
  NoDup (row_id <$> db_events sample_db) ∧
  let '(db', n) := @gc_by_quota frac_format 0 sample_db in
  let oldest := order_by_created (db_events sample_db) in
  n = 3%nat ∧ db_events db' ≡ₚ drop n oldest ∧ @payload_usage frac_format (db_events db') <= 0.
Proof.
  split; [exact sample_db_ids|].
  pose proof (@gc_contract frac_format 0 sample_db sample_db_ids (Z.le_refl 0)) as Hw.
  assert ((@gc_by_quota frac_format 0 sample_db).2 = 3%nat) as Hn by (vm_compute; reflexivity).
  destruct (@gc_by_quota frac_format 0 sample_db) as [db' n].
  destruct Hw as (H1 & H2 & _). split; [exact Hn|]. split; [exact H1|exact H2].
Defined.

(** ** Peers *)
Section peers.
Context `{FloatFormat}.

Lemma find_address_update a f rows :
  (∀ r, has_address a r = true → has_address a (f r) = true) →
  List.find (has_address a) (sql_update (has_address a) f rows) = f <$> List.find (has_address a) rows.
Proof.
  intros Hf. unfold sql_update. induction rows as [|r rows IH]; [done|].
  rewrite fmap_cons. cbn [List.find]. destruct (has_address a r) eqn:E; [by rewrite Hf|by rewrite E].
Qed.

Lemma dupdate_get (vals : list (string * sqlval)) r c :
  NoDup vals.*1 → sql_get (dupdate r vals) c = match dget vals c with Some v => v | None => sql_get r c end.
Proof.
  revert r. unfold dupdate. induction vals as [|[k v] vals IH]; intros r; [done|].
  rewrite fmap_cons, NoDup_cons. intros [Hk Hd]. cbn [foldl]. rewrite IH by done. simpl in *.
  destruct (decide (c = k)) as [->|Hne].
  - apply dget_None in Hk. rewrite Hk, sql_get_dset, decide_True by done. done.
  - destruct (dget vals c); [done|]. rewrite sql_get_dset, decide_False by done. done.
Qed.

Lemma dupdate_dget (vals : list (string * sqlval)) r c v :
  NoDup vals.*1 → dget vals c = Some v → dget (dupdate r vals) c = Some v.
Proof.
  revert r. unfold dupdate. induction vals as [|[k w] vals IH]; intros r; [done|].
  rewrite fmap_cons, NoDup_cons. intros [Hk Hd]. cbn [foldl dget fst snd].
  destruct (decide (c = k)) as [->|Hne]; [|by apply IH].
  intros [= ->]. clear IH. apply dget_None in Hk. revert r. induction vals as [|[k' w'] vals IH]; intros r.
  - apply dget_dset_eq.
  - cbn [foldl fst snd]. simpl in Hk. destruct (decide (k = k')) as [->|]; [done|].
    rewrite fmap_cons, NoDup_cons in Hd.
    assert (∀ d, dget d k = Some v → dget (foldl (λ d p, dset d p.1 p.2) d vals) k = Some v) as Hgen.
    { clear -Hk. induction vals as [|[k1 w1] vals IH]; intros d Hd; [done|]. cbn [foldl fst snd].
      simpl in Hk. destruct (decide (k = k1)); [done|]. apply IH; [done|]. by rewrite dget_dset_ne. }
    apply Hgen. rewrite dget_dset_ne by done. apply dget_dset_eq.
Qed.

Lemma peer_columns_NoDup p : NoDup (peer_columns p).*1.
Proof. simpl. apply (bool_decide_unpack _). vm_compute. exact I. Qed.

Definition peer_row_written (p : PeerInfo) (r : sqlrow) : sqlrow := dupdate r (peer_columns p).

Lemma sql_get_or_written p r c d v :
  dget (peer_columns p) c = Some v → sql_get_or (peer_row_written p r) c d = v.
Proof. intros Hv. unfold sql_get_or, peer_row_written. by rewrite (dupdate_dget _ _ _ _ (peer_columns_NoDup p) Hv). Qed.

Lemma sql_get_written p r c v :
  dget (peer_columns p) c = Some v → sql_get (peer_row_written p r) c = v.
Proof. apply (sql_get_or_written p r c SNull v). Qed.

(** Normalised peers read back as written. *)
Definition peer_normal (p : PeerInfo) : Prop :=
  pi_source p ≠ "" ∧ pi_role p ∈ NODE_ROLES ∧ pi_approval_status p ∈ PEER_APPROVAL_STATUSES ∧
  pi_is_self p = bool_decide (pi_source p = "self").

Lemma peer_written_read p r :
  peer_normal p → sql_get r "address" = SText (pi_address p) → peer_of_row (peer_row_written p r) = p.
Proof.
  intros (Hs & Hr & Ha & Hself) Haddr. unfold peer_of_row, approval_text.
  rewrite (sql_get_or_written p r "source" _ _ eq_refl), (sql_get_or_written p r "enabled" _ _ eq_refl),
    (sql_get_or_written p r "role" _ _ eq_refl), (sql_get_or_written p r "approval_status" _ _ eq_refl).
  rewrite (sql_get_written p r "node_id" _ eq_refl), (sql_get_written p r "last_seen" _ eq_refl),
    (sql_get_written p r "healthy" _ eq_refl), (sql_get_written p r "note" _ eq_refl).
  unfold peer_row_written. rewrite dupdate_get by apply peer_columns_NoDup. simpl. rewrite Haddr. simpl.
  assert (pi_role p ≠ "") as Hrne by (intros E; rewrite E in Hr; unfold NODE_ROLES in Hr; elim_in Hr; discriminate).
  rewrite !str_or_nonempty by done.
  rewrite normalize_node_role_fixed, normalize_approval_status_fixed by done.
  destruct p as [addr nid [ls|] h en nt src ro self ap]; simpl in *; subst; by destruct h, en.
Qed.

(** Seeing a peer again (gossip, discovery, a contact) never changes what the
    operator decided about it: a stored peer keeps its enabled flag, its approval
    status, its role and its source, the peer that is returned is the one the
    database then holds, and no other peer changes. *)
Theorem ensure_peer_keeps_decisions (address node_id : string) (last_seen : option Q)
    (healthy enabled : bool) (note source role approval : string) (db : DB) (r : sqlrow) :
  find_peer address db = Some r → sql_string (sql_get r "source") ≠ "" →
  dget r "role" ≠ None → dget r "approval_status" ≠ None → dget r "enabled" ≠ None →
  sql_string (sql_get r "role") ≠ "" →
  let '(db', p) := ensure_peer address node_id last_seen healthy enabled note source role approval db in
  pi_enabled p = pi_enabled (peer_of_row r) ∧
  pi_approval_status p = pi_approval_status (peer_of_row r) ∧
  pi_role p = pi_role (peer_of_row r) ∧ pi_source p = pi_source (peer_of_row r) ∧
  (∃ r', find_peer address db' = Some r' ∧ peer_of_row r' = p) ∧
  (∀ i r0, db_peers db !! i = Some r0 → has_address address r0 = false → db_peers db' !! i = Some r0) ∧
  length (db_peers db') = length (db_peers db).
Proof.
  intros Hf Hs Hro Hap Hen Hrt. unfold ensure_peer. rewrite Hf. cbv zeta.
  set (p := mkPeer _ _ _ _ _ _ _ _ _ _).
  assert (∀ c d, dget r c ≠ None → sql_get_or r c d = sql_get r c) as Hor.
  { intros c d Hc. unfold sql_get_or, sql_get. by destruct (dget r c). }
  assert (has_address address r = true) as Haddr by by apply List.find_some in Hf as [_ Hf].
  assert (sql_get r "address" = SText address) as Hadr.
  { unfold has_address, has_text in Haddr. destruct (sql_get r "address"); try done.
    apply bool_decide_eq_true in Haddr. by subst. }
  assert (dget r "source" ≠ None) as Hsrc by (intros E; apply Hs; unfold sql_get; by rewrite E).
  assert (peer_normal p) as Hnorm.
  { split_and!; simpl; [|apply normalize_node_role_in|apply normalize_approval_status_in|done].
    by rewrite str_or_nonempty. }
  split_and!.
  - simpl. by rewrite (Hor "enabled").
  - simpl. by rewrite !(Hor "approval_status").
  - simpl. unfold role_text. rewrite !(Hor "role") by done. by rewrite str_or_nonempty.
  - simpl. rewrite (Hor "source") by done. by rewrite !str_or_nonempty.
  - exists (peer_row_written p r). split; [|by apply peer_written_read].
    unfold find_peer, write_peer. simpl. rewrite find_address_update; [by fold (find_peer address db); rewrite Hf|].
    intros r0 Hr0. change (has_address address (dupdate r0 (peer_columns p)) = true).
    unfold has_address, has_text in *. by rewrite (dupdate_get (peer_columns p) r0 "address" (peer_columns_NoDup p)).
  - intros i r0 Hi Hn. simpl. unfold sql_update. rewrite list_lookup_fmap, Hi. simpl. by rewrite Hn.
  - simpl. unfold sql_update. by rewrite length_fmap.
Qed.
End peers.

Definition rejected_peer_db : DB :=
  (@ensure_peer frac_format "10.0.0.2:9001" "n2" None true false "" "manual" "node" "rejected" empty_db).1.

Lemma ensure_peer_keeps_decisions_witness :
  let r := match find_peer "10.0.0.2:9001" rejected_peer_db with Some r => r | None => [] end in
  find_peer "10.0.0.2:9001" rejected_peer_db = Some r ∧
  let '(db', p) := @ensure_peer frac_format "10.0.0.2:9001" "n2" (Some 1%Q) true true "" "gossip" "node" "approved"
                     rejected_peer_db in
  pi_enabled p = pi_enabled (@peer_of_row frac_format r) ∧
  pi_approval_status p = pi_approval_status (@peer_of_row frac_format r).
Proof.
  intros r.
  assert (find_peer "10.0.0.2:9001" rejected_peer_db = Some r) as Hf by (vm_compute; reflexivity).
  assert (sql_string (sql_get r "source") ≠ "") as H1 by (vm_compute; discriminate).
  assert (dget r "role" ≠ None) as H2 by (vm_compute; discriminate).
  assert (dget r "approval_status" ≠ None) as H3 by (vm_compute; discriminate).
  assert (dget r "enabled" ≠ None) as H4 by (vm_compute; discriminate).
  assert (sql_string (sql_get r "role") ≠ "") as H5 by (vm_compute; discriminate).
  split; [exact Hf|].
  pose proof (@ensure_peer_keeps_decisions frac_format "10.0.0.2:9001" "n2" (Some 1%Q) true true "" "gossip" "node"
    "approved" rejected_peer_db r Hf H1 H2 H3 H4 H5) as Hw.
  destruct (@ensure_peer frac_format "10.0.0.2:9001" "n2" (Some 1%Q) true true "" "gossip" "node" "approved"
    rejected_peer_db) as [db' p].
  exact (conj (proj1 Hw) (proj1 (proj2 Hw))).
Defined.

(** ** Checkpoints *)
Lemma head_sql_select {X} (p : X → bool) (R : X → X → Prop) l :
  StronglySorted R l →
  match head (sql_select p l) with
  | Some x => x ∈ l ∧ p x = true ∧ ∀ y, y ∈ l → p y = true → y = x ∨ R x y
  | None => ∀ y, y ∈ l → p y = false
  end.
Proof.
  unfold sql_select. induction 1 as [|x l Hs IH Hx]; [by intros y Hy%not_elem_of_nil|].
  rewrite filter_cons. case_decide as Hp; cbn [head].
  - split_and!; [by left|done|]. rewrite Forall_forall in Hx.
    intros y [->|Hy]%elem_of_cons _; [by left|right; by apply Hx].
  - destruct (head _) as [z|].
    + destruct IH as (Hz & Hpz & Hm). split_and!; [by right|done|].
      intros y [->|Hy]%elem_of_cons Hpy; [done|by apply Hm].
    + intros y [->|Hy]%elem_of_cons; [by apply not_true_is_false|by apply IH].
Qed.

Lemma StronglySorted_reverse {X} (R : X → X → Prop) l :
  StronglySorted R l → StronglySorted (λ x y, R y x) (reverse l).
Proof.
  induction 1 as [|x l Hs IH Hx]; [constructor|]. rewrite reverse_cons.
  apply StronglySorted_app_2; [|done|repeat constructor]. rewrite Forall_forall in Hx.
  intros y z Hy Hz. rewrite elem_of_reverse in Hy. apply list_elem_of_singleton in Hz as ->.
  apply (Hx y Hy).
Qed.

(** The checkpoint a node prunes under is a confirmed one, and no confirmed
    checkpoint has a higher round; it is missing only when none is confirmed. *)
Theorem latest_confirmed_spec (db : DB) :
  match latest_confirmed_checkpoint db with
  | Some c =>
      (∃ k, db_checkpoints db !! k = Some c) ∧ cp_status c = "confirmed" ∧
      ∀ k c', db_checkpoints db !! k = Some c' → cp_status c' = "confirmed" →
        cp_round_received c' <= cp_round_received c
  | None => ∀ k c', db_checkpoints db !! k = Some c' → cp_status c' ≠ "confirmed"
  end.
Proof.
  unfold latest_confirmed_checkpoint, checkpoints_desc.
  set (rows := sort_on cp_round_received Z.compare _).
  assert (∀ c, c ∈ reverse rows ↔ ∃ k, db_checkpoints db !! k = Some c) as Hin.
  { intros c. rewrite elem_of_reverse. unfold rows. rewrite sort_on_perm, list_elem_of_fmap. split.
    - intros ([k c'] & -> & Hk%elem_of_map_to_list). eauto.
    - intros [k Hk]. exists (k, c). split; [done|]. by apply elem_of_map_to_list. }
  pose proof (StronglySorted_reverse _ _ (sort_on_sorted cp_round_received Z.compare (map_to_list (db_checkpoints db)).*2)) as Hs.
  fold rows in Hs. specialize (Hs (db_checkpoints db)) || idtac.
  pose proof (head_sql_select (λ c, bool_decide (cp_status c = "confirmed")) _ _ Hs) as Hh.
  destruct (head _) as [c|].
  - destruct Hh as (Hc & Hst%bool_decide_eq_true & Hmax). split; [by apply Hin|]. split; [done|].
    intros k c' Hk Hc'. apply (bool_decide_eq_true_2 (cp_status c' = "confirmed")) in Hc'.
    destruct (Hmax c' (proj2 (Hin c') (ex_intro _ k Hk)) Hc') as [->|Hle]; [lia|]. exact Hle.
  - intros k c' Hk. specialize (Hh c'). rewrite bool_decide_eq_false in Hh. apply Hh, Hin. eauto.
Qed.
