(* ===== verification/StorageTypes.v ===== *)
(** The events table of Storage.v is well typed: every operation keeps each row
    decodable, so reading events never raises. *)
From S2P Require Import Prelude Json VectorClock Models Consensus Storage StorageFacts.

(** ** Column types *)
Inductive coltype := OptText | Text | ClassName | OptInt | OptReal | Real | Strings | Clock | Object.

Definition json_val (v : sqlval) (dflt : json) : result json :=
  match v with
  | SNull => Ok dflt
  | SText s => if decide (s = "") then Ok dflt else Err (Untyped "JSON column")
  | SJson v => Ok v
  | _ => Err (TypeError "the JSON object must be str")
  end.

(** [o]: the value of the column, [None] when the row does not have it. *)
Definition val_ok (t : coltype) (o : option sqlval) : bool :=
  let v := default SNull o in
  match t with
  | OptText => is_ok (sql_as_opt_str v)
  | Text => bool_decide (is_Some o) && is_ok (sql_as_opt_str v)
  | ClassName => bool_decide (is_Some o) && is_ok (s ← sql_str_or v (EventClass_value C); EventClass_from_str s)
  | OptInt => is_ok (sql_as_opt_int v)
  | OptReal => is_ok (sql_as_opt_real v)
  | Real => bool_decide (is_Some o) && is_ok (sql_as_opt_real v)
  | Strings => is_ok (j ← json_val v (JArr []); as_parents j)
  | Clock => is_ok (j ← json_val v (JObj []); as_vclock j)
  | Object => is_ok (j ← json_val v (JObj []); as_payload j)
  end.

Definition event_schema : list (string * coltype) :=
  [("sig", OptText); ("consensus_ts", OptReal); ("lamport_ts", OptInt); ("parents", Strings);
   ("self_parent_id", OptText); ("other_parent_id", OptText); ("id", Text); ("cls", ClassName); ("source", Text);
   ("creator", OptText); ("ts_local", Real); ("vclock", Clock); ("payload", Object); ("round", OptInt);
   ("round_received", OptInt); ("fame_decision_round", OptInt); ("fame_decision_kind", OptText);
   ("fame_coin_round", OptInt); ("fame_vote_round", OptInt); ("fame_vote_yes", OptInt); ("fame_vote_no", OptInt)].

Definition row_typed (r : sqlrow) : bool := forallb (λ p : string * coltype, val_ok p.2 (dget r p.1)) event_schema.
Definition events_typed (db : DB) : Prop := ∀ r, r ∈ db_events db → row_typed r = true.

(** ** A typed row decodes *)
Lemma is_ok_inv {X} (r : result X) : is_ok r = true → ∃ x, r = Ok x.
Proof. destruct r; [by eexists|done]. Qed.
Lemma bind_is_ok {X Y} (r : result X) (f : X → result Y) : is_ok r = true → (∀ x, r = Ok x → is_ok (f x) = true) → is_ok (x ← r; f x) = true.
Proof. intros [x ->]%is_ok_inv Hf. by apply Hf. Qed.
Lemma sql_req_ok r c : is_Some (dget r c) → sql_req r c = Ok (sql_get r c).
Proof. unfold sql_req, sql_get. by intros [v ->]. Qed.

Lemma bind_is_ok_inv {X Y} (r : result X) (f : X → result Y) : is_ok (x ← r; f x) = true → ∃ x, r = Ok x ∧ is_ok (f x) = true.
Proof. destruct r as [x|]; [by exists x|done]. Qed.
Lemma sql_str_or_ok v d : is_ok (sql_as_opt_str v) = true → is_ok (sql_str_or v d) = true.
Proof. unfold sql_str_or. by destruct (sql_as_opt_str v). Qed.
Lemma sql_int_or0_ok v : is_ok (sql_as_opt_int v) = true → is_ok (sql_int_or0 v) = true.
Proof. unfold sql_int_or0. by destruct (sql_as_opt_int v). Qed.
Lemma sql_real_or0_ok v : is_ok (sql_as_opt_real v) = true → is_ok (sql_real_or0 v) = true.
Proof. unfold sql_real_or0. by destruct (sql_as_opt_real v). Qed.

Section typed.
Context `{FloatFormat}.

Lemma row_typed_decodes r : row_typed r = true → is_ok (Event_from_record r) = true.
Proof.
  unfold row_typed, event_schema. cbn [forallb fst snd val_ok]. intros Hr.
  repeat (let E := fresh "E" in apply andb_true_iff in Hr as [E Hr]; try apply andb_true_iff in E as [?%bool_decide_eq_true E]).
  clear Hr. unfold Event_from_record.
  apply bind_is_ok_inv in E2 as (ps & E2 & Eps), E10 as (vc & E10 & Evc), E11 as (pl & E11 & Epl).
  apply bind_is_ok_inv in E6 as (cs & E6 & Ecs).
  change (load_json_field r "parents" (JArr []) = Ok ps) in E2.
  change (load_json_field r "vclock" (JObj []) = Ok vc) in E10.
  change (load_json_field r "payload" (JObj []) = Ok pl) in E11.
  change (sql_str_or (sql_get r "cls") (EventClass_value C) = Ok cs) in E6.
  repeat lazymatch goal with
  | |- is_ok (Ok _) = true => reflexivity
  | |- is_ok (sql_req r ?c ≫= _) = true => rewrite (sql_req_ok r c) by assumption; cbn [mbind result_bind]
  | |- is_ok (load_json_field _ "parents" _ ≫= _) = true => rewrite E2; cbn [mbind result_bind]
  | |- is_ok (load_json_field _ "vclock" _ ≫= _) = true => rewrite E10; cbn [mbind result_bind]
  | |- is_ok (load_json_field _ _ _ ≫= _) = true => rewrite E11; cbn [mbind result_bind]
  | |- is_ok (sql_str_or (sql_get r "cls") _ ≫= _) = true => rewrite E6; cbn [mbind result_bind]
  | |- is_ok (?m ≫= _) = true =>
      apply (bind_is_ok m); [first [assumption | apply sql_str_or_ok; assumption | apply sql_int_or0_ok; assumption
                                   | apply sql_real_or0_ok; assumption]|intros ? ?]
  end.
Qed.

(** ** Typed writes *)

(** A value that fits the column [c] wherever the schema mentions it. *)
Definition fits (c : string) (v : sqlval) : bool :=
  forallb (λ p : string * coltype, if decide (p.1 = c) then val_ok p.2 (Some v) else true) event_schema.

Lemma row_typed_dset r c v : row_typed r = true → fits c v = true → row_typed (dset r c v) = true.
Proof.
  unfold row_typed, fits. rewrite !forallb_forall. intros Hr Hv p Hp. specialize (Hr p Hp). specialize (Hv p Hp).
  destruct (decide (p.1 = c)) as [Hc|Hc].
  - rewrite Hc, dget_dset_eq. done.
  - by rewrite dget_dset_ne by congruence.
Qed.
Lemma row_typed_dupdate (vals : list (string * sqlval)) r :
  row_typed r = true → forallb (λ p, fits p.1 p.2) vals = true → row_typed (dupdate r vals) = true.
Proof.
  unfold dupdate. revert r. induction vals as [|[c v] vals IH]; intros r Hr Hv; [done|].
  simpl in Hv. apply andb_true_iff in Hv as [Hc Hv]. cbn [foldl fst snd]. by apply IH; [apply row_typed_dset|].
Qed.
(** A value that is in a typed row already fits where it is. *)
Lemma row_typed_coalesce (vals : list (string * sqlval)) r :
  row_typed r = true → forallb (λ p, fits p.1 p.2) vals = true → row_typed (coalesce_columns vals r) = true.
Proof.
  unfold coalesce_columns. revert r. induction vals as [|[c v] vals IH]; intros r Hr Hv; [done|].
  simpl in Hv. apply andb_true_iff in Hv as [Hc Hv]. cbn [foldl fst snd]. apply IH; [|done].
  unfold sql_coalesce. destruct (sql_get r c) eqn:Hg; try (by apply row_typed_dset);
    (apply row_typed_dset; [done|]; unfold fits; rewrite forallb_forall; intros [c' t] Hin; simpl;
     case_decide; [subst c'|done]; unfold row_typed in Hr; rewrite forallb_forall in Hr; specialize (Hr (c, t) Hin); simpl in Hr;
     unfold sql_get in Hg; destruct (dget r c); simpl in Hg; by subst).
Qed.

Lemma state_columns_fit s : forallb (λ p, fits p.1 p.2) (state_columns s) = true.
Proof.
  destruct s as [i c sp op rd rr w fw fd fdr k nc cu cr vr y n ts].
  destruct rr, fdr, cr, vr, ts; vm_compute; reflexivity.
Qed.
Lemma apply_state_typed s r : row_typed r = true → row_typed (apply_state s r) = true.
Proof.
  intros Hr. unfold apply_state. apply row_typed_coalesce.
  - apply row_typed_dupdate; [done|apply state_columns_fit].
  - destruct s as [i c sp op]. simpl. destruct sp, op; vm_compute; reflexivity.
Qed.

Lemma strings_ok l : val_ok Strings (Some (sjson (strs_json l))) = true.
Proof. unfold sjson. rewrite sort_keys_strs_json. change (is_ok (as_parents (strs_json l)) = true). by rewrite as_parents_strs_json. Qed.
Lemma clock_ok c : val_ok Clock (Some (sjson (vclock_json c))) = true.
Proof. change (is_ok (as_vclock (sort_keys (vclock_json c))) = true). by rewrite as_vclock_sorted. Qed.
Lemma object_ok p : val_ok Object (Some (sjson (JObj p))) = true.
Proof. reflexivity. Qed.
Lemma opt_text_ok o : val_ok OptText (Some (sql_opt SText o)) = true.
Proof. by destruct o. Qed.
Lemma class_ok c : val_ok ClassName (Some (SText (EventClass_value c))) = true.
Proof. by destruct c. Qed.

Lemma new_event_row_typed now e ts : row_typed (new_event_row now e ts) = true.
Proof.
  destruct e as [i cls src cre tl vc ps sp op pl sig cts lam rd rr w fw fd fdr k nc cu cr vr y no].
  unfold row_typed, event_schema. cbn [forallb fst snd].
  repeat match goal with
  | |- context [dget (new_event_row now ?e ts) ?c] =>
      let v := eval cbv -[sql_opt sjson sql_of_bool vclock_json strs_json EventClass_value]
        in (dget (new_event_row now e ts) c) in
      change (dget (new_event_row now e ts) c) with v
  end.
  repeat match goal with |- _ && _ = true => apply andb_true_intro; split end;
    lazymatch goal with
    | |- val_ok OptText _ = true => first [reflexivity | apply opt_text_ok]
    | |- val_ok _ (Some (sql_opt _ ?o)) = true => by destruct o
    | |- val_ok ClassName _ = true => apply class_ok
    | |- val_ok Strings _ = true => apply strings_ok
    | |- val_ok Clock _ = true => apply clock_ok
    | |- val_ok Object _ = true => apply object_ok
    | |- _ => reflexivity
    end.
Qed.

(** ** The operations on the table *)
Inductive StoreOp :=
  | OpStore (now : Q) (envelope : Envelope) (consensus_ts : option Q)
  | OpStates (states : list ConsensusState)
  | OpPrune (confirmed_round : Z) (max_age_seconds : Q) (keep_class_a : bool) (now : Q)
  | OpGc (memory_mb : Z)
  | OpClear.
Definition run_store (op : StoreOp) (db : DB) : DB :=
  match op with
  | OpStore now env ts => (store_envelope now env ts db).1
  | OpStates states => replace_consensus_state states db
  | OpPrune r age keep now => (prune_under_checkpoint r age keep now db).1
  | OpGc mb => (gc_by_quota mb db).1
  | OpClear => clear_events db
  end.

Lemma update_typed p f rows :
  (∀ r, row_typed r = true → row_typed (f r) = true) → (∀ r, r ∈ rows → row_typed r = true) →
  ∀ r, r ∈ sql_update p f rows → row_typed r = true.
Proof.
  intros Hf Hr r (r0 & -> & Hin)%list_elem_of_fmap. destruct (p r0); [by apply Hf, Hr|by apply Hr].
Qed.

Lemma run_store_typed op db : events_typed db → events_typed (run_store op db).
Proof.
  intros Ht. destruct op as [now env ts|states|cr age keep now|mb|]; cbn [run_store].
  - unfold store_envelope. destruct (find_event db _).
    + destruct ts as [ts|]; [|exact Ht]. unfold events_typed. simpl. apply update_typed; [|exact Ht].
      intros r Hr. apply row_typed_coalesce; [done|].
      destruct (env_event env) as [i cls src cre tl vc ps sp op]. simpl. destruct sp, op; vm_compute; reflexivity.
    + intros r [Hr|Hr%list_elem_of_singleton]%elem_of_app; [by apply Ht|]. subst r. apply new_event_row_typed.
  - unfold events_typed, replace_consensus_state. simpl. revert Ht. unfold events_typed. generalize (db_events db) as rows.
    induction states as [|s states IH]; intros rows Ht; simpl; [done|]. apply IH.
    apply update_typed; [intros r; apply apply_state_typed|done].
  - intros r Hr. apply Ht. unfold prune_under_checkpoint in Hr. cbn [fst] in Hr. by apply prune_rows_events in Hr as [Hr _].
  - unfold gc_by_quota. case_match; [exact Ht|]. cbn [fst]. intros r. rewrite (proj1 (gc_events_spec db _)).
    intros [_ Hr]%list_elem_of_filter. by apply Ht.
  - by intros r Hr%elem_of_nil.
Qed.

(** Queries return rows of the table. *)
Lemma order_by_created_elem rows (r : sqlrow) : r ∈ order_by_created rows → r ∈ rows.
Proof. unfold order_by_created. by rewrite sort_on_perm. Qed.
Lemma order_by_created_desc_elem rows (r : sqlrow) : r ∈ order_by_created_desc rows → r ∈ rows.
Proof. unfold order_by_created_desc. rewrite elem_of_reverse. apply order_by_created_elem. Qed.
Lemma sql_limit_elem {X} n (l : list X) x : x ∈ sql_limit n l → x ∈ l.
Proof. unfold sql_limit. destruct (n <? 0); [done|]. apply subseteq_take. Qed.
Lemma sql_select_elem {X} (p : X → bool) l x : x ∈ sql_select p l → x ∈ l.
Proof. by intros [_ Hx]%list_elem_of_filter. Qed.

Lemma mapR_is_ok {X Y} (f : X → result Y) l : (∀ x, x ∈ l → is_ok (f x) = true) → is_ok (mapR f l) = true.
Proof.
  induction l as [|x l IH]; intros Hf; [done|]. cbn [mapR]. apply bind_is_ok; [apply Hf; left|intros y _].
  apply bind_is_ok; [apply IH; intros z Hz; apply Hf; by right|done].
Qed.
Lemma opt_event_ok o : (∀ r, o = Some r → row_typed r = true) → is_ok (opt_event o) = true.
Proof. intros Hr. destruct o as [r|]; [|done]. simpl. apply bind_is_ok; [by apply row_typed_decodes, Hr|done]. Qed.

(** On a typed table no query raises. *)
Lemma typed_rows db (rows : list sqlrow) :
  events_typed db → (∀ r, r ∈ rows → r ∈ db_events db) → is_ok (mapR Event_from_record rows) = true.
Proof. intros Ht Hin. apply mapR_is_ok. intros r Hr. by apply row_typed_decodes, Ht, Hin. Qed.
Lemma typed_get_event db i : events_typed db → is_ok (get_event i db) = true.
Proof.
  intros Ht. unfold get_event, find_event. apply opt_event_ok. intros r [Hr _]%List.find_some. by apply Ht, list_elem_of_In.
Qed.
Lemma typed_get_envelope db i : events_typed db → is_ok (get_envelope i db) = true.
Proof. intros Ht. unfold get_envelope. apply bind_is_ok; [by apply typed_get_event|]. by intros [e|] _. Qed.
Lemma typed_latest db s : events_typed db → is_ok (latest_event_by_source s db) = true.
Proof.
  intros Ht. unfold latest_event_by_source. apply opt_event_ok. intros r Hr. apply Ht.
  apply (sql_select_elem (has_text "source" s)), (order_by_created_desc_elem _ r). destruct (order_by_created_desc _); [done|].
  injection Hr as ->. left.
Qed.
Lemma typed_list_events db limit newer : events_typed db → is_ok (list_events limit newer db) = true.
Proof.
  intros Ht. apply (typed_rows db); [done|]. intros r Hr%sql_limit_elem%order_by_created_elem.
  destruct newer; [by apply sql_select_elem in Hr|done].
Qed.
Lemma typed_recent db limit : events_typed db → is_ok (list_recent_events limit db) = true.
Proof. intros Ht. apply (typed_rows db); [done|]. intros r Hr%sql_limit_elem. by apply order_by_created_desc_elem. Qed.
Lemma typed_all_events db : events_typed db → is_ok (all_events db) = true.
Proof. intros Ht. apply (typed_rows db); [done|]. intros r. apply order_by_created_elem. Qed.

Lemma run_stores_typed ops db : events_typed db → events_typed (foldl (λ db op, run_store op db) db ops).
Proof. revert db. induction ops as [|op ops IH]; intros db Ht; [done|]. by apply IH, run_store_typed. Qed.
Lemma empty_typed : events_typed empty_db.
Proof. by intros r Hr%elem_of_nil. Qed.

(** Type soundness of the registry: whatever sequence of stores, consensus updates,
    pruning, quota collection and clearing the events table went through, each of
    its rows has the column types of the schema, and no query on events raises: by
    id, by source, the newest ones, all of them, or an envelope. *)
Theorem registry_well_typed (ops : list StoreOp) :
  let db := foldl (λ db op, run_store op db) empty_db ops in
  events_typed db ∧
  (∀ i, is_ok (get_event i db) = true ∧ is_ok (get_envelope i db) = true) ∧
  (∀ s, is_ok (latest_event_by_source s db) = true) ∧
  (∀ limit newer, is_ok (list_events limit newer db) = true) ∧
  (∀ limit, is_ok (list_recent_events limit db) = true) ∧
  is_ok (all_events db) = true.
Proof.
  intros db. pose proof (run_stores_typed ops empty_db empty_typed) as Ht.
  split; [done|]. split_and!; intros; try split;
    by first [apply typed_get_event | apply typed_get_envelope | apply typed_latest | apply typed_list_events
             | apply typed_recent | apply typed_all_events].
Qed.
End typed.
