(* ===== verification/Config.v ===== *)
(** [mdrj/config.py]: the configuration records, their defaults and the loader;
    with the configuration dataclasses it imports from the collectors, the
    discovery, notifier and agent-relay modules.

    [yaml.safe_load] is a parameter of [load_config] (third-party code); the
    environment is a function from names to optional values. *)
From S2P Require Import Prelude Json Models.

(** ** Records *)
Record GossipConfig := mkGossipConfig { gc_period_sec : pyfloat; gc_fan_out : Z }.
Record PrioritizationConfig := mkPrioritizationConfig {
  pc_level_threshold_B : string;
  pc_max_batch_bytes : Z }.
Record LinuxIngestConfig := mkLinuxIngestConfig {
  li_enabled : bool;
  li_source_type : string;
  li_auth_log_path : option string;
  li_poll_interval_sec : pyfloat;
  li_host_id : option string;
  li_admin_users : list string;
  li_privileged_groups : list string;
  li_state_path : option string }.
Record JournaldCollectorConfig := mkJournaldConfig {
  jc_enabled : bool;
  jc_units : list string;
  jc_burst_window_sec : Z;
  jc_burst_threshold : Z;
  jc_poll_interval_sec : pyfloat }.
Record LinuxAuditCollectorConfig := mkAuditConfig {
  ac_enabled : bool;
  ac_watch_paths : list string;
  ac_poll_interval_sec : pyfloat;
  ac_hash_max_bytes : Z }.
Record LinuxFirewallCollectorConfig := mkFirewallConfig {
  fw_enabled : bool;
  fw_tool : string;
  fw_poll_interval_sec : pyfloat }.
Record LinuxProcCollectorConfig := mkProcConfig {
  prc_enabled : bool;
  prc_blocklist : list string;
  prc_privileged_uids : list Z;
  prc_poll_interval_sec : pyfloat;
  prc_proc_root : string }.
Record HostLifecycleCollectorConfig := mkHostConfig {
  hc_enabled : bool;
  hc_poll_interval_sec : pyfloat;
  hc_proc_uptime_path : string;
  hc_boot_time_drift_threshold_sec : pyfloat }.
Record CollectorsConfig := mkCollectorsConfig {
  co_journald : JournaldCollectorConfig;
  co_audit : LinuxAuditCollectorConfig;
  co_firewall : LinuxFirewallCollectorConfig;
  co_proc : LinuxProcCollectorConfig;
  co_host_lifecycle : HostLifecycleCollectorConfig }.
Record RetentionConfig := mkRetentionConfig {
  rc_enabled : bool;
  rc_max_db_bytes : Z;
  rc_max_age_days : Z;
  rc_keep_class_a : bool;
  rc_archive_path : option string;
  rc_poll_interval_sec : pyfloat }.
Record DiscoveryConfig := mkDiscoveryConfig {
  dc_mode : string;
  dc_poll_interval_sec : pyfloat;
  dc_auto_approve_discovered : bool;
  dc_advertise_port : option Z;
  dc_k8s_service : option string;
  dc_k8s_target_port : Z }.
Record EmailChannelConfig := mkEmailConfig {
  em_enabled : bool;
  em_smtp_host : string;
  em_smtp_port : Z;
  em_smtp_user : option string;
  em_smtp_password : option string;
  em_use_tls : bool;
  em_from_addr : string;
  em_to_addrs : list string }.
Record TelegramChannelConfig := mkTelegramConfig {
  tg_enabled : bool;
  tg_bot_token : string;
  tg_chat_ids : list string;
  tg_timeout_sec : pyfloat }.
Record NotifierConfig := mkNotifierConfig {
  nc_enabled : bool;
  nc_trigger_classes : list string;
  nc_email : EmailChannelConfig;
  nc_telegram : TelegramChannelConfig }.
Record AgentRelayConfig := mkAgentRelayConfig {
  ar_enabled : bool;
  ar_relay_url : string;
  ar_timeout_sec : pyfloat;
  ar_max_retries : Z;
  ar_retry_backoff_sec : pyfloat }.
Record HeartbeatConfig := mkHeartbeatConfig { hb_enabled : bool; hb_interval_sec : pyfloat }.
Record RuntimeConfig := mkRuntimeConfig {
  rt_recompute_debounce_sec : pyfloat;
  rt_checkpoint_propose_interval_sec : pyfloat;
  rt_checkpoint_propose_margin : Z;
  rt_class_a_fanout_quorum_ratio : pyfloat;
  rt_class_a_fanout_timeout_sec : pyfloat;
  rt_class_a_fanout_max_retries : Z;
  rt_frontier_sync_interval_sec : pyfloat;
  rt_tamper_verify_interval_sec : pyfloat;
  rt_hourly_status_interval_sec : pyfloat }.
Record NodeConfig := mkNodeConfig {
  cfg_node_id : string;
  cfg_listen : string;
  cfg_peers : list string;
  cfg_profile : NodeProfile;
  cfg_gossip : GossipConfig;
  cfg_prioritization : PrioritizationConfig;
  cfg_hmac_key : option string;
  cfg_sqlite_path : string;
  cfg_linux_ingest : LinuxIngestConfig;
  cfg_collectors : CollectorsConfig;
  cfg_retention : RetentionConfig;
  cfg_discovery : DiscoveryConfig;
  cfg_notifier : NotifierConfig;
  cfg_agent_relay : AgentRelayConfig;
  cfg_heartbeat : HeartbeatConfig;
  cfg_runtime : RuntimeConfig;
  cfg_ui_enabled : bool }.

Definition DEFAULT_WATCH_PATHS : list string :=
  ["/etc/passwd"; "/etc/shadow"; "/etc/sudoers"; "/etc/ssh/sshd_config"; "/etc/hosts";
   "/etc/pam.d/sshd"].
Definition DEFAULT_MALWARE_BLOCKLIST : list string :=
  ["xmrig"; "minerd"; "kdevtmpfsi"; "kinsing"; "tsunami"].

(** ** Environment variables in the text

    [ENV_PATTERN]: [${NAME}], [${NAME:default}] and [${NAME:-default}]. *)
Definition is_env_char (c : Ascii.ascii) : bool :=
  let n := Ascii.N_of_ascii c in
  ((65 <=? n) && (n <=? 90) || (48 <=? n) && (n <=? 57) || (n =? 95))%N.

(** The longest prefix of characters that satisfy [p]. *)
Fixpoint span_str (p : Ascii.ascii → bool) (s : string) : string * string :=
  match s with
  | EmptyString => ("", "")
  | String c s' => if p c then let '(a, b) := span_str p s' in (String c a, b) else ("", s)
  end.

(** A match of the pattern at the start of [s], after ["${"]: name, default and
    rest. *)
Definition env_match (s : string) : option (string * string * string) :=
  let '(name, rest) := span_str is_env_char s in
  if decide (name = "") then None
  else match rest with
       | String "}" rest' => Some (name, "", rest')
       | String ":" rest' =>
           let body := match rest' with String "-" r => r | _ => rest' end in
           let '(dflt, rest2) := span_str (λ c, negb (bool_decide (c = "}"%char))) body in
           match rest2 with
           | String _ rest3 => Some (name, dflt, rest3)
           | EmptyString => None
           end
       | _ => None
       end.

Fixpoint expand_fuel (fuel : nat) (environ : string → option string) (text : string) : string :=
  match fuel with
  | O => text
  | S f =>
      match text with
      | EmptyString => ""
      | String "$" (String "{" rest) =>
          match env_match rest with
          | Some (name, dflt, rest') =>
              (match environ name with Some v => v | None => dflt end) +:+ expand_fuel f environ rest'
          | None => String "$" (expand_fuel f environ (String "{" rest))
          end
      | String c rest => String c (expand_fuel f environ rest)
      end
  end.

Definition expand_env_vars (environ : string → option string) (text : string) : string :=
  expand_fuel (S (String.length text)) environ text.

(** ** Reading a section *)

(** [raw.get(k, {}) or {}] *)
Definition section_of (raw : odict json) (k : string) : result (odict json) :=
  as_obj (py_or (jget_or raw k (JObj [])) (JObj [])).

Definition get_float (raw : odict json) (k : string) (d : Q) : result Q := py_float (jget_or raw k (JFloat d)).
Definition get_int (raw : odict json) (k : string) (d : Z) : result Z := py_int (jget_or raw k (JInt d)).
Definition get_bool (raw : odict json) (k : string) (d : bool) : bool := py_bool (jget_or raw k (JBool d)).
Definition get_opt_str (raw : odict json) (k : string) : result (option string) := as_opt_str (jget raw k).
Definition get_strs (raw : odict json) (k : string) (d : list string) : result (list string) :=
  py_strs (jget_or raw k (strs_json d)).

Section parse.
Context `{FloatFormat}.

Definition get_str (raw : odict json) (k : string) (d : string) : string := py_str (jget_or raw k (JStr d)).

Definition parse_peers (raw_peers : json) : list string :=
  match raw_peers with
  | JArr l => filter (λ s, s ≠ "") ((λ item, py_strip (py_str item)) <$> l)
  | JStr s => filter (λ s, s ≠ "") (py_strip <$> py_split "," s)
  | _ => []
  end.

Definition parse_runtime (raw : odict json) : result RuntimeConfig :=
  a ← get_float raw "recompute_debounce_sec" 0;
  b ← get_float raw "checkpoint_propose_interval_sec" 0;
  c ← get_int raw "checkpoint_propose_margin" 5;
  d ← get_float raw "class_a_fanout_quorum_ratio" 0;
  e ← get_float raw "class_a_fanout_timeout_sec" (10 # 1);
  f ← get_int raw "class_a_fanout_max_retries" 3;
  g ← get_float raw "frontier_sync_interval_sec" 0;
  h ← get_float raw "tamper_verify_interval_sec" 0;
  i ← get_float raw "hourly_status_interval_sec" 0;
  Ok (mkRuntimeConfig a b c d e f g h i).

Definition parse_heartbeat (raw : odict json) : result HeartbeatConfig :=
  i ← get_float raw "interval_sec" (300 # 1);
  Ok (mkHeartbeatConfig (get_bool raw "enabled" false) i).

Definition parse_agent_relay (raw : odict json) : result AgentRelayConfig :=
  t ← get_float raw "timeout_sec" (5 # 1);
  r ← get_int raw "max_retries" 3;
  b ← get_float raw "retry_backoff_sec" 1;
  Ok (mkAgentRelayConfig (get_bool raw "enabled" false) (get_str raw "relay_url" "") t r b).

Definition parse_notifier (raw : odict json) : result NotifierConfig :=
  email_raw ← section_of raw "email";
  telegram_raw ← section_of raw "telegram";
  classes ← get_strs raw "trigger_classes" ["A"];
  port ← get_int email_raw "smtp_port" 587;
  user ← get_opt_str email_raw "smtp_user";
  password ← get_opt_str email_raw "smtp_password";
  to_addrs ← get_strs email_raw "to_addrs" [];
  chats ← py_list (jget_or telegram_raw "chat_ids" (JArr []));
  timeout ← get_float telegram_raw "timeout_sec" (10 # 1);
  Ok (mkNotifierConfig (get_bool raw "enabled" false) classes
        (mkEmailConfig (get_bool email_raw "enabled" false) (get_str email_raw "smtp_host" "") port
           user password (get_bool email_raw "use_tls" true) (get_str email_raw "from_addr" "") to_addrs)
        (mkTelegramConfig (get_bool telegram_raw "enabled" false) (get_str telegram_raw "bot_token" "")
           (py_str <$> chats) timeout)).

Definition parse_discovery (raw : odict json) : result DiscoveryConfig :=
  poll ← get_float raw "poll_interval_sec" (10 # 1);
  port ← match jget raw "advertise_port" with
         | JNull => Ok None
         | v => p ← py_int v; Ok (Some p)
         end;
  service ← get_opt_str raw "k8s_service";
  target ← get_int raw "k8s_target_port" 9001;
  Ok (mkDiscoveryConfig (get_str raw "mode" "disabled") poll
        (get_bool raw "auto_approve_discovered" false) port service target).

Definition parse_retention (raw : odict json) : result RetentionConfig :=
  bytes ← get_int raw "max_db_bytes" (100 * 1024 * 1024);
  days ← get_int raw "max_age_days" 30;
  path ← get_opt_str raw "archive_path";
  poll ← get_float raw "poll_interval_sec" (300 # 1);
  Ok (mkRetentionConfig (get_bool raw "enabled" false) bytes days (get_bool raw "keep_class_a" true) path poll).

Definition parse_journald (raw : odict json) : result JournaldCollectorConfig :=
  units ← get_strs raw "units" ["ssh.service"; "sshd.service"];
  window ← get_int raw "burst_window_sec" 60;
  threshold ← get_int raw "burst_threshold" 10;
  poll ← get_float raw "poll_interval_sec" (5 # 1);
  Ok (mkJournaldConfig (get_bool raw "enabled" false) units window threshold poll).

Definition parse_audit (raw : odict json) : result LinuxAuditCollectorConfig :=
  paths ← get_strs raw "watch_paths" DEFAULT_WATCH_PATHS;
  poll ← get_float raw "poll_interval_sec" (5 # 1);
  bytes ← get_int raw "hash_max_bytes" 1048576;
  Ok (mkAuditConfig (get_bool raw "enabled" false) paths poll bytes).

Definition parse_firewall (raw : odict json) : result LinuxFirewallCollectorConfig :=
  poll ← get_float raw "poll_interval_sec" (10 # 1);
  Ok (mkFirewallConfig (get_bool raw "enabled" false) (get_str raw "tool" "iptables-save") poll).

(** [_intlist(values)]: [[int(v) for v in values or []]] *)
Definition intlist (values : json) : result (list Z) :=
  l ← py_list (py_or values (JArr [])); mapR py_int l.

Definition parse_proc (raw : odict json) : result LinuxProcCollectorConfig :=
  blocklist ← get_strs raw "blocklist" DEFAULT_MALWARE_BLOCKLIST;
  uids ← intlist (jget_or raw "privileged_uids" (JArr [JInt 0]));
  poll ← get_float raw "poll_interval_sec" (3 # 1);
  Ok (mkProcConfig (get_bool raw "enabled" false) blocklist uids poll (get_str raw "proc_root" "/proc")).

Definition parse_host_lifecycle (raw : odict json) : result HostLifecycleCollectorConfig :=
  poll ← get_float raw "poll_interval_sec" (60 # 1);
  drift ← get_float raw "boot_time_drift_threshold_sec" (30 # 1);
  Ok (mkHostConfig (get_bool raw "enabled" false) poll
        (get_str raw "proc_uptime_path" "/proc/uptime") drift).

Definition parse_collectors (raw : odict json) : result CollectorsConfig :=
  journald_raw ← section_of raw "journald";
  audit_raw ← section_of raw "audit";
  firewall_raw ← section_of raw "firewall";
  proc_raw ← section_of raw "proc";
  host_raw ← section_of raw "host_lifecycle";
  journald ← parse_journald journald_raw;
  audit ← parse_audit audit_raw;
  firewall ← parse_firewall firewall_raw;
  proc ← parse_proc proc_raw;
  host ← parse_host_lifecycle host_raw;
  Ok (mkCollectorsConfig journald audit firewall proc host).

Definition parse_linux_ingest (raw : odict json) : result LinuxIngestConfig :=
  path ← get_opt_str raw "auth_log_path";
  poll ← get_float raw "poll_interval_sec" (2 # 1);
  host ← get_opt_str raw "host_id";
  users ← get_strs raw "admin_users" [];
  groups ← get_strs raw "privileged_groups" [];
  state ← get_opt_str raw "state_path";
  Ok (mkLinuxIngestConfig (get_bool raw "enabled" false) (get_str raw "source_type" "auth_log_file")
        path poll host users groups state).

(** [raw[k]] as a dict, and a required string. *)
Definition req_section (raw : odict json) (k : string) : result (odict json) :=
  v ← dget_req raw k; as_obj v.
Definition req_str (raw : odict json) (k : string) : result string := v ← dget_req raw k; as_str v.
Definition req_int (raw : odict json) (k : string) : result Z := v ← dget_req raw k; py_int v.

Definition parse_profile (raw : odict json) : result NodeProfile :=
  role ← dget_req raw "role";
  memory ← req_int raw "memory_mb";
  bw ← req_int raw "bw_kbps";
  cpu ← get_float raw "cpu_quota" 1;
  threat ← req_str raw "threat_level";
  Ok {| memory_mb := memory; bw_kbps := bw; cpu_quota := cpu;
        profile_role := normalize_node_role role; threat_level := threat |}.

Definition load_raw (raw : odict json) : result NodeConfig :=
  profile_raw ← req_section raw "profile"; profile ← parse_profile profile_raw;
  gossip_raw ← req_section raw "gossip";
  period ← get_float gossip_raw "period_sec" 1;
  fan_out ← get_int gossip_raw "fan_out" 2;
  prio_raw ← req_section raw "prioritization";
  level ← as_str (jget_or prio_raw "level_threshold_B" (JStr "ELEV"));
  max_batch ← get_int prio_raw "max_batch_bytes" 32768;
  security_raw ← as_obj (jget_or raw "security" (JObj []));
  hmac_key ← get_opt_str security_raw "hmac_key";
  storage_raw ← req_section raw "storage";
  sqlite_path ← req_str storage_raw "sqlite_path";
  linux_raw ← section_of raw "linux_ingest"; linux_ingest ← parse_linux_ingest linux_raw;
  collectors_raw ← section_of raw "collectors"; collectors ← parse_collectors collectors_raw;
  retention_raw ← section_of raw "retention"; retention ← parse_retention retention_raw;
  discovery_raw ← section_of raw "discovery"; discovery ← parse_discovery discovery_raw;
  notifier_raw ← section_of raw "notifier"; notifier ← parse_notifier notifier_raw;
  relay_raw ← section_of raw "agent_relay"; relay ← parse_agent_relay relay_raw;
  heartbeat_raw ← section_of raw "heartbeat"; heartbeat ← parse_heartbeat heartbeat_raw;
  runtime_raw ← section_of raw "runtime"; runtime ← parse_runtime runtime_raw;
  ui_raw ← section_of raw "ui";
  node_id ← req_str raw "node_id";
  listen ← req_str raw "listen";
  Ok {| cfg_node_id := node_id;
        cfg_listen := listen;
        cfg_peers := parse_peers (jget_or raw "peers" (JArr []));
        cfg_profile := profile;
        cfg_gossip := mkGossipConfig period fan_out;
        cfg_prioritization := mkPrioritizationConfig level max_batch;
        cfg_hmac_key := hmac_key;
        cfg_sqlite_path := sqlite_path;
        cfg_linux_ingest := linux_ingest;
        cfg_collectors := collectors;
        cfg_retention := retention;
        cfg_discovery := discovery;
        cfg_notifier := notifier;
        cfg_agent_relay := relay;
        cfg_heartbeat := heartbeat;
        cfg_runtime := runtime;
        cfg_ui_enabled := get_bool ui_raw "enabled" true |}.

Definition load_config (yaml_load : string → json) (environ : string → option string) (text : string)
    : result NodeConfig :=
  raw ← as_obj (yaml_load (expand_env_vars environ text)); load_raw raw.
End parse.

(** [NodeConfig.host] and [NodeConfig.port] *)
Definition cfg_host (c : NodeConfig) : string := default "" (py_split ":" (cfg_listen c) !! 0%nat).
Definition cfg_port (c : NodeConfig) : result Z :=
  match py_split ":" (cfg_listen c) !! 1%nat with
  | Some p => py_int (JStr p)
  | None => Err (IndexError "list index out of range")
  end.
