(* ===== verification/Metrics.v ===== *)
(** [mdrj/metrics.py]: the runtime metrics engine.

    The process figures (psutil) and the database size are arguments of
    [snapshot]; everything else is state of the engine or read from the storage
    model. *)
From S2P Require Import Prelude Json Models Utils Storage Config.

Record MetricsSnapshot := mkMetricsSnapshot {
  ms_a_est : pyfloat;
  ms_t_gossip : pyfloat;
  ms_k_r : pyfloat;
  ms_c_mem : pyfloat;
  ms_c_net : pyfloat;
  ms_event_count : Z;
  ms_rss_bytes : Z;
  ms_cpu_percent : pyfloat;
  ms_db_size_bytes : Z;
  ms_gossip_bytes_in_total : Z;
  ms_gossip_bytes_out_total : Z;
  ms_bytes_per_event : pyfloat;
  ms_latency_p50_ms : pyfloat;
  ms_latency_p95_ms : pyfloat }.

Record MetricsEngine := mkMetricsEngine {
  me_period_sec : pyfloat;
  me_memory_bytes : Z;
  me_bw_kbps : Z;
  me_gossip_latencies : list pyfloat;
  me_merge_quality : pyfloat;
  me_last_batch_bytes : Z;
  me_peer_health : list PeerInfo;
  me_quorum : Z;
  me_gossip_bytes_in : Z;
  me_gossip_bytes_out : Z;
  me_emit_latencies : list pyfloat }.

Definition new_metrics (gossip : GossipConfig) (memory_mb bw_kbps : Z) : MetricsEngine :=
  mkMetricsEngine (gc_period_sec gossip) (memory_mb * 1024 * 1024) bw_kbps [] 1 0 [] 1 0 0 [].

Definition set_latencies (m : MetricsEngine) l : MetricsEngine :=
  mkMetricsEngine (me_period_sec m) (me_memory_bytes m) (me_bw_kbps m) l (me_merge_quality m)
    (me_last_batch_bytes m) (me_peer_health m) (me_quorum m) (me_gossip_bytes_in m)
    (me_gossip_bytes_out m) (me_emit_latencies m).

(** [l.append(x)], dropping the oldest entry beyond the cap. *)
Definition append_capped {A} (cap : nat) (l : list A) (x : A) : list A :=
  let l := l ++ [x] in if (cap <? length l)%nat then tail l else l.

Definition record_gossip_latency (latency : Q) (m : MetricsEngine) : MetricsEngine :=
  set_latencies m (append_capped 100 (me_gossip_latencies m) latency).

Definition record_merge_quality (ratio : Q) (m : MetricsEngine) : MetricsEngine :=
  mkMetricsEngine (me_period_sec m) (me_memory_bytes m) (me_bw_kbps m) (me_gossip_latencies m) ratio
    (me_last_batch_bytes m) (me_peer_health m) (me_quorum m) (me_gossip_bytes_in m)
    (me_gossip_bytes_out m) (me_emit_latencies m).

Definition record_batch_size (batch_bytes : Z) (m : MetricsEngine) : MetricsEngine :=
  mkMetricsEngine (me_period_sec m) (me_memory_bytes m) (me_bw_kbps m) (me_gossip_latencies m)
    (me_merge_quality m) batch_bytes (me_peer_health m) (me_quorum m) (me_gossip_bytes_in m)
    (me_gossip_bytes_out m) (me_emit_latencies m).

Definition record_gossip_in_bytes (count : Z) (m : MetricsEngine) : MetricsEngine :=
  mkMetricsEngine (me_period_sec m) (me_memory_bytes m) (me_bw_kbps m) (me_gossip_latencies m)
    (me_merge_quality m) (me_last_batch_bytes m) (me_peer_health m) (me_quorum m)
    (me_gossip_bytes_in m + count) (me_gossip_bytes_out m) (me_emit_latencies m).

Definition record_gossip_out_bytes (count : Z) (m : MetricsEngine) : MetricsEngine :=
  mkMetricsEngine (me_period_sec m) (me_memory_bytes m) (me_bw_kbps m) (me_gossip_latencies m)
    (me_merge_quality m) (me_last_batch_bytes m) (me_peer_health m) (me_quorum m)
    (me_gossip_bytes_in m) (me_gossip_bytes_out m + count) (me_emit_latencies m).

Definition record_emit_to_consensus_latency (latency_sec : Q) (m : MetricsEngine) : MetricsEngine :=
  mkMetricsEngine (me_period_sec m) (me_memory_bytes m) (me_bw_kbps m) (me_gossip_latencies m)
    (me_merge_quality m) (me_last_batch_bytes m) (me_peer_health m) (me_quorum m)
    (me_gossip_bytes_in m) (me_gossip_bytes_out m) (append_capped 1000 (me_emit_latencies m) latency_sec).

Definition update_peer_health (peers : list PeerInfo) (quorum : Z) (m : MetricsEngine) : MetricsEngine :=
  mkMetricsEngine (me_period_sec m) (me_memory_bytes m) (me_bw_kbps m) (me_gossip_latencies m)
    (me_merge_quality m) (me_last_batch_bytes m) peers (Z.max 1 quorum)
    (me_gossip_bytes_in m) (me_gossip_bytes_out m) (me_emit_latencies m).

Definition reset_metrics (m : MetricsEngine) : MetricsEngine :=
  mkMetricsEngine (me_period_sec m) (me_memory_bytes m) (me_bw_kbps m) [] 1 0
    (me_peer_health m) (me_quorum m) 0 0 [].

Definition availability_estimate (m : MetricsEngine) : Q :=
  if bool_decide (me_peer_health m = []) then 1
  else
    let alive := Z.of_nat (count_if pi_healthy (me_peer_health m)) in
    Qmin 1 (inject_Z alive / inject_Z (Z.max (me_quorum m) 1)).

Definition gossip_metric (m : MetricsEngine) : Q :=
  if bool_decide (me_gossip_latencies m = []) then me_period_sec m
  else (sum_Q (me_gossip_latencies m) / inject_Z (Z.of_nat (length (me_gossip_latencies m))))%Q.

(** [max(1024, int(((kbps * 1000) // 8) * period))] *)
Definition network_budget (bw_kbps : Z) (period : Q) : Z :=
  Z.max 1024 (Qtrunc (inject_Z (bw_kbps * 1000 / 8) * period)).

(** [round(x)] for a float: nearest integer, ties to even. *)
Definition py_round (x : Q) : Z :=
  let f := Qfloor x in
  let r := (x - inject_Z f)%Q in
  if r <?q (1 # 2) then f
  else if (1 # 2) <?q r then f + 1
  else if Z.even f then f else f + 1.

Definition percentile_index (n : nat) (pct : Q) : nat :=
  Z.to_nat (Z.max 0 (Z.min (Z.of_nat n - 1) (py_round (pct / 100 * inject_Z (Z.of_nat n - 1))))).

Definition percentile (values : list Q) (pct : Q) : Q :=
  match values with
  | [] => 0%Q
  | [x] => x
  | _ => nth (percentile_index (length values) pct) (Qsort values) 0%Q
  end.

Section snapshot.
Context `{FloatFormat}.

Definition snapshot (rss : Z) (cpu : Q) (db_size : Z) (db : DB) (m : MetricsEngine) : MetricsSnapshot :=
  let storage_bytes := storage_usage_bytes db in
  let c_mem := if me_memory_bytes m =? 0 then 0%Q
               else Qmin 1 (inject_Z storage_bytes / inject_Z (me_memory_bytes m)) in
  let budget := network_budget (me_bw_kbps m) (me_period_sec m) in
  let c_net := if budget =? 0 then 0%Q
               else Qmin 1 (inject_Z (me_last_batch_bytes m) / inject_Z budget) in
  let count := Z.of_nat (event_count db) in
  let total := me_gossip_bytes_in m + me_gossip_bytes_out m in
  let bytes_per_event := if 0 <? count then (inject_Z total / inject_Z count)%Q else 0%Q in
  let latencies_ms := (λ lat, (lat * 1000)%Q) <$> me_emit_latencies m in
  mkMetricsSnapshot (availability_estimate m) (gossip_metric m) (me_merge_quality m) c_mem c_net count
    rss cpu db_size (me_gossip_bytes_in m) (me_gossip_bytes_out m) bytes_per_event
    (percentile latencies_ms 50) (percentile latencies_ms 95).
End snapshot.

(** ** Theorems *)
Lemma append_capped_length {A} cap (l : list A) x :
  (length l <= cap)%nat → (length (append_capped cap l x) <= cap)%nat.
Proof.
  intros Hl. unfold append_capped. case_if; rewrite length_app in *; simpl in *; [|lia].
  destruct l as [|y l]; simpl in *; [lia|]. rewrite length_app. simpl. lia.
Qed.

Lemma append_capped_last {A} cap (l : list A) x : (0 < cap)%nat → x ∈ append_capped cap l x.
Proof.
  intros Hc. unfold append_capped. case_if; [|set_solver].
  destruct l as [|y l]; simpl in *; [lia|]. set_solver.
Qed.

Lemma py_round_mono x y : (x <= y)%Q → py_round x <= py_round y.
Proof.
  intros Hxy. unfold py_round.
  pose proof (Qfloor_le x) as Hx1. pose proof (Qlt_floor x) as Hx2.
  pose proof (Qfloor_le y) as Hy1. pose proof (Qlt_floor y) as Hy2.
  pose proof (Qfloor_resp_le x y Hxy) as Hf.
  rewrite inject_Z_plus in Hx2, Hy2. change (inject_Z 1) with 1%Q in *.
  set (fx := Qfloor x) in *. set (fy := Qfloor y) in *. clearbody fx fy.
  destruct (Z.eq_dec fx fy) as [->|Hne].
  - repeat case_if; try lia; reflect_bool; exfalso; lra.
  - repeat case_if; lia.
Qed.

Lemma Qsort_nth_mono l i j : (i <= j < length l)%nat → (nth i (Qsort l) 0%Q <= nth j (Qsort l) 0%Q)%Q.
Proof.
  intros [Hij Hj]. destruct (decide (i = j)) as [->|Hne]; [lra|].
  pose proof (sort_on_sorted id Qcompare l) as Hs. fold Qsort in Hs.
  apply Qle_alt. apply (StronglySorted_take_drop _ (Qsort l) j Hs).
  - apply list_elem_of_lookup. exists i. rewrite lookup_take_lt by lia.
    apply nth_lookup_in. rewrite length_Qsort. lia.
  - apply list_elem_of_lookup. exists 0%nat. rewrite lookup_drop, Nat.add_0_r.
    apply nth_lookup_in. by rewrite length_Qsort.
Qed.

Lemma percentile_index_lt n pct : (0 < n)%nat → (percentile_index n pct < n)%nat.
Proof. intros. unfold percentile_index. lia. Qed.

Lemma percentile_index_mono n p q : (0 < n)%nat → (p <= q)%Q → (percentile_index n p <= percentile_index n q)%nat.
Proof.
  intros Hn Hpq. unfold percentile_index.
  assert (py_round (p / 100 * inject_Z (Z.of_nat n - 1)) <= py_round (q / 100 * inject_Z (Z.of_nat n - 1))); [|lia].
  apply py_round_mono. apply Qmult_le_compat_r.
  - unfold Qdiv. apply Qmult_le_compat_r; [done|]. discriminate.
  - rewrite <- (Zle_Qle 0). lia.
Qed.

(** A percentile of a non-empty sample is one of its values, and a higher
    percentile is never below a lower one. *)
Theorem percentile_sound (values : list Q) (p q : Q) :
  (values ≠ [] → percentile values p ∈ values) ∧
  ((p <= q)%Q → (percentile values p <= percentile values q)%Q).
Proof.
  destruct values as [|x [|y l]]; [split; [done|simpl; lra]|split; [simpl; set_solver|simpl; lra]|].
  set (v := x :: y :: l).
  assert (∀ p, percentile v p = nth (percentile_index (length v) p) (Qsort v) 0%Q) as Hp by done.
  rewrite !Hp. assert (0 < length v)%nat as Hn by (simpl; lia).
  split.
  - intros _. apply nth_Qsort_in. by apply percentile_index_lt.
  - intros Hpq. apply Qsort_nth_mono. split; [by apply percentile_index_mono|].
    by apply percentile_index_lt.
Qed.

Lemma percentile_sound_witness :
  (percentile [3 # 1; 1 # 1; 2 # 1] 50 <= percentile [3 # 1; 1 # 1; 2 # 1] 95)%Q.
Proof.
  assert ((50 <= 95)%Q) as H by (by vm_compute).
  exact (proj2 (percentile_sound [3 # 1; 1 # 1; 2 # 1] 50 95) H).
Defined.
