(* ===== verification/Prioritization.v ===== *)
(** [mdrj/prioritization.py]: which events a gossip batch carries. *)
From S2P Require Import Prelude Json Models Config.

Record Prioritizer := mkPrioritizer {
  p_bw_kbps : Z;
  p_threat_level : string;
  p_period_sec : pyfloat;
  p_level_threshold_B : string;
  p_max_batch_bytes : Z }.

Definition new_prioritizer (profile : NodeProfile) (g : GossipConfig) (c : PrioritizationConfig) : Prioritizer :=
  mkPrioritizer (bw_kbps profile) (threat_level profile) (gc_period_sec g)
    (pc_level_threshold_B c) (pc_max_batch_bytes c).

(** [THREAT_RANK.get(level, dflt)] *)
Definition threat_rank (level : string) (dflt : Z) : Z :=
  if decide (level = "LOW") then 0
  else if decide (level = "ELEV") then 1
  else if decide (level = "HIGH") then 2
  else dflt.

Definition bandwidth_budget_bytes (p : Prioritizer) : Z :=
  Z.max 1024 (Qtrunc (inject_Z (p_bw_kbps p * 1000 / 8) * p_period_sec p)).

Definition threshold_allows_b (p : Prioritizer) : bool :=
  threat_rank (p_level_threshold_B p) 1 <=? threat_rank (p_threat_level p) 0.

Definition should_relay (p : Prioritizer) (cls : EventClass) (required_for_causality force : bool) : bool :=
  if force then true
  else match cls with
       | A => true
       | B => threshold_allows_b p || required_for_causality
       | C => required_for_causality
       end.

Record BatchPlan := mkBatchPlan {
  bp_envelopes : list Envelope;
  bp_total_bytes : Z;
  bp_dropped : nat;
  bp_deferred : list Envelope;
  bp_required : gset string }.

Definition env_cls (e : Envelope) : EventClass := ev_cls (env_event e).
Definition env_id (e : Envelope) : string := ev_id (env_event e).
Definition env_parents (e : Envelope) : list string := ev_parents (env_event e).
Definition cls_rank (c : EventClass) : Z := match c with A => 0 | B => 1 | C => 2 end.

Definition is_genesis (e : Envelope) : bool := py_bool (jget (ev_payload (env_event e)) "genesis").

Definition is_required (required : gset string) (e : Envelope) : bool :=
  bool_decide (env_id e ∈ required) || existsb (λ q, bool_decide (q ∈ required)) (env_parents e) || is_genesis e.

Section plan.
Context `{FloatFormat}.

Definition envelope_cost (e : Envelope) : Z := bytes_cost (Envelope_to_dict e).

(** One iteration of the loop of [plan_batch]. *)
Definition plan_step (p : Prioritizer) (max_bytes : Z) (st : BatchPlan) (e : Envelope) : BatchPlan :=
  let force_flag := is_genesis e || bool_decide (env_cls e = B) in
  if should_relay p (env_cls e) (is_required (bp_required st) e) force_flag then
    if max_bytes <? bp_total_bytes st + envelope_cost e then
      mkBatchPlan (bp_envelopes st) (bp_total_bytes st) (bp_dropped st) (bp_deferred st ++ [e]) (bp_required st)
    else
      mkBatchPlan (bp_envelopes st ++ [e]) (bp_total_bytes st + envelope_cost e) (bp_dropped st)
        (bp_deferred st) (bp_required st ∪ list_to_set (env_parents e))
  else mkBatchPlan (bp_envelopes st) (bp_total_bytes st) (S (bp_dropped st)) (bp_deferred st) (bp_required st).

Definition plan_key (e : Envelope) : Z * Q := (cls_rank (env_cls e), ev_ts_local (env_event e)).
Definition plan_order (envelopes : list Envelope) : list Envelope :=
  sort_on plan_key (cmp_pair Z.compare Qcompare) envelopes.

Definition batch_limit (p : Prioritizer) : Z := Z.min (bandwidth_budget_bytes p) (p_max_batch_bytes p).

Definition plan_batch (p : Prioritizer) (envelopes : list Envelope) (required_events : list string) : BatchPlan :=
  foldl (plan_step p (batch_limit p)) (mkBatchPlan [] 0 0 [] (list_to_set required_events)) (plan_order envelopes).

(** ** Theorems *)

(** The invariant of the loop after the envelopes [done]. *)
Record plan_inv (limit : Z) (req0 : gset string) (done : list Envelope) (st : BatchPlan) : Prop := {
  pi_bytes : bp_total_bytes st = sum_Z (envelope_cost <$> bp_envelopes st);
  pi_limit : bp_envelopes st ≠ [] → bp_total_bytes st <= limit;
  pi_sub : ∀ e, e ∈ bp_envelopes st ∨ e ∈ bp_deferred st → e ∈ done;
  pi_count : (length (bp_envelopes st) + length (bp_deferred st) + bp_dropped st = length done)%nat;
  pi_req0 : req0 ⊆ bp_required st;
  pi_parents : ∀ e q, e ∈ bp_envelopes st → q ∈ env_parents e → q ∈ bp_required st }.

Lemma plan_step_inv p limit req0 done st e :
  plan_inv limit req0 done st → plan_inv limit req0 (done ++ [e]) (plan_step p limit st e).
Proof.
  intros [Hb Hl Hs Hc Hr Hp]. unfold plan_step.
  destruct (should_relay p _ _ _); [destruct (limit <? _) eqn:Hlim|]; split; simpl;
    rewrite ?length_app; simpl; try done; try lia; try set_solver.
  rewrite fmap_app, sum_Z_app, Hb. simpl. lia.
Qed.

Lemma plan_fold_inv p limit req0 done todo st :
  plan_inv limit req0 done st → plan_inv limit req0 (done ++ todo) (foldl (plan_step p limit) st todo).
Proof.
  revert done st. induction todo as [|e todo IH]; intros done st Hi; simpl; [by rewrite app_nil_r|].
  rewrite (cons_middle e done), app_assoc. by apply IH, plan_step_inv.
Qed.

Lemma plan_initial limit req0 : plan_inv limit req0 [] (mkBatchPlan [] 0 0 [] req0).
Proof. split; simpl; try done; set_solver. Qed.

Lemma plan_batch_inv p envs req :
  plan_inv (batch_limit p) (list_to_set req) (plan_order envs) (plan_batch p envs req).
Proof. apply (plan_fold_inv p _ _ []), plan_initial. Qed.

(** A planned batch costs what its envelopes cost and stays under the
    bandwidth and batch limits; every envelope is either sent, deferred or
    counted as dropped. *)
Theorem plan_batch_bounds (p : Prioritizer) (envs : list Envelope) (req : list string) :
  let plan := plan_batch p envs req in
  bp_total_bytes plan = sum_Z (envelope_cost <$> bp_envelopes plan) ∧
  (bp_envelopes plan ≠ [] →
     bp_total_bytes plan <= bandwidth_budget_bytes p ∧ bp_total_bytes plan <= p_max_batch_bytes p) ∧
  (∀ e, e ∈ bp_envelopes plan ∨ e ∈ bp_deferred plan → e ∈ envs) ∧
  (length (bp_envelopes plan) + length (bp_deferred plan) + bp_dropped plan = length envs)%nat.
Proof.
  destruct (plan_batch_inv p envs req) as [Hb Hl Hs Hc _ _]. cbv zeta.
  assert (plan_order envs ≡ₚ envs) as Hperm by apply sort_on_perm.
  split_and!; [done| |intros e He; rewrite <- Hperm; by apply Hs|by rewrite Hc, Hperm].
  intros Hne. specialize (Hl Hne). unfold batch_limit in Hl. lia.
Qed.

(** Later steps keep what is planned. *)
Lemma plan_step_mono p limit st e :
  (∀ x, x ∈ bp_envelopes st ∨ x ∈ bp_deferred st →
     x ∈ bp_envelopes (plan_step p limit st e) ∨ x ∈ bp_deferred (plan_step p limit st e)).
Proof.
  intros x Hx. unfold plan_step. repeat case_match; simpl; set_solver.
Qed.
Lemma plan_fold_mono p limit todo st x :
  x ∈ bp_envelopes st ∨ x ∈ bp_deferred st →
  x ∈ bp_envelopes (foldl (plan_step p limit) st todo) ∨ x ∈ bp_deferred (foldl (plan_step p limit) st todo).
Proof.
  revert st. induction todo as [|e todo IH]; intros st Hx; simpl; [done|]. by apply IH, plan_step_mono.
Qed.

(** Events of class A and B and genesis anchors are sent or deferred. *)
Lemma plan_batch_keeps p envs req e :
  e ∈ envs → env_cls e ≠ C ∨ is_genesis e = true →
  e ∈ bp_envelopes (plan_batch p envs req) ∨ e ∈ bp_deferred (plan_batch p envs req).
Proof.
  intros He Himp. assert (e ∈ plan_order envs) as Hin by (unfold plan_order; by rewrite sort_on_perm).
  apply list_elem_of_split in Hin as (pre & post & Hord). unfold plan_batch. rewrite Hord, foldl_app.
  cbn [foldl]. apply plan_fold_mono. unfold plan_step.
  replace (should_relay p _ _ _) with true; [case_match; simpl; set_solver|].
  unfold should_relay. destruct (is_genesis e); [done|]. simpl.
  destruct (env_cls e); [done|done|]. by destruct Himp.
Qed.

(** What the later steps add comes from what is left. *)
Lemma plan_fold_new p limit todo st x :
  x ∈ bp_envelopes (foldl (plan_step p limit) st todo) → x ∈ bp_envelopes st ∨ x ∈ todo.
Proof.
  revert st. induction todo as [|e todo IH]; intros st; simpl; [by left|].
  intros [Hx|Hx]%IH; [|set_solver]. unfold plan_step in Hx. repeat case_match; simpl in Hx; set_solver.
Qed.

Lemma plan_order_classes envs pre post e x :
  plan_order envs = pre ++ e :: post → x ∈ post → env_cls e = C → env_cls x = C.
Proof.
  intros Hord Hx He. pose proof (sort_on_sorted plan_key (cmp_pair Z.compare Qcompare) envs) as Hs.
  fold (plan_order envs) in Hs. rewrite Hord in Hs.
  apply StronglySorted_app_1_r, StronglySorted_inv in Hs as [_ Hs].
  rewrite Forall_forall in Hs. specialize (Hs x Hx).
  unfold plan_key, cmp_pair, cmp_then in Hs. simpl in Hs. rewrite He in Hs. simpl in Hs.
  by destruct (env_cls x).
Qed.

Lemma plan_step_dropped p limit st e :
  ¬ (e ∈ bp_envelopes (plan_step p limit st e) ∨ e ∈ bp_deferred (plan_step p limit st e)) →
  env_cls e = C ∧ is_genesis e = false ∧ env_id e ∉ bp_required st ∧
  bp_envelopes (plan_step p limit st e) = bp_envelopes st.
Proof.
  unfold plan_step. destruct (should_relay p _ _ _) eqn:Hrel.
  { intros Hnot. exfalso. apply Hnot. case_match; simpl; set_solver. }
  intros _. unfold should_relay in Hrel. destruct (is_genesis e) eqn:Hg; [done|].
  destruct (env_cls e) eqn:Hcls; simpl in Hrel; [done|done|].
  unfold is_required in Hrel. rewrite Hg, orb_false_r in Hrel. apply orb_false_iff in Hrel as [Hid _].
  by apply bool_decide_eq_false in Hid.
Qed.

(** Nothing that matters is dropped: an envelope that is neither sent nor
    deferred is of class C, is no genesis anchor, was not asked for, and no sent
    event of class A or B has it as a parent. *)
Theorem plan_batch_drops (p : Prioritizer) (envs : list Envelope) (req : list string) (e : Envelope) :
  let plan := plan_batch p envs req in
  e ∈ envs → e ∉ bp_envelopes plan → e ∉ bp_deferred plan →
  env_cls e = C ∧ is_genesis e = false ∧ env_id e ∉ req ∧
  ∀ a, a ∈ bp_envelopes plan → env_cls a ≠ C → env_id e ∉ env_parents a.
Proof.
  intros plan He Hns Hnd.
  assert (e ∈ plan_order envs) as Hin by (unfold plan_order; by rewrite sort_on_perm).
  apply list_elem_of_split in Hin as (pre & post & Hord).
  unfold plan, plan_batch in *. rewrite Hord in *. rewrite foldl_app in *. cbn [foldl] in *.
  set (st := foldl (plan_step p (batch_limit p)) _ pre) in *.
  assert (plan_inv (batch_limit p) (list_to_set req) pre st) as Hinv by apply (plan_fold_inv p _ _ []), plan_initial.
  pose proof (plan_step_dropped p (batch_limit p) st e) as Hdrop.
  set (st' := plan_step p (batch_limit p) st e) in *. clearbody st'.
  destruct Hdrop as (Hc & Hg & Hid & Henv).
  { intros H0. apply (plan_fold_mono p (batch_limit p) post) in H0. tauto. }
  destruct Hinv as [_ _ _ _ Hr0 Hpar].
  split_and!; [done..| |].
  - intros Hq. apply Hid, Hr0. by apply elem_of_list_to_set.
  - intros a Ha Hac Hpa. apply plan_fold_new in Ha as [Ha|Ha].
    + rewrite Henv in Ha. apply Hid. by eapply Hpar.
    + apply Hac. by eapply plan_order_classes.
Qed.
End plan.

Definition sample_prioritizer : Prioritizer := mkPrioritizer 64 "LOW" 1 "ELEV" 32768.
Definition heartbeat_event : Event :=
  @Event_create frac_format C "n2" (4 # 1) {["n2" := 1]} [] [("k", JInt 2)] None None None None.

Lemma plan_batch_drops_witness :
  let envs := [mkEnvelope heartbeat_event []; mkEnvelope example_event []] in
  let e := mkEnvelope heartbeat_event [] in
  let plan := @plan_batch frac_format sample_prioritizer envs [] in
  e ∈ envs ∧ e ∉ bp_envelopes plan ∧ e ∉ bp_deferred plan ∧ env_cls e = C ∧ is_genesis e = false ∧
  env_id e ∉ [] ∧ ∀ a, a ∈ bp_envelopes plan → env_cls a ≠ C → env_id e ∉ env_parents a.
Proof.
  intros envs e plan.
  assert (e ∈ envs) as He by (left).
  assert (ev_id <$> (env_event <$> bp_envelopes plan) = [ev_id example_event]) as Hp by (vm_compute; reflexivity).
  assert (bp_deferred plan = []) as Hd by (vm_compute; reflexivity).
  assert (ev_id heartbeat_event ≠ ev_id example_event) as Hne by (vm_compute; discriminate).
  assert (e ∉ bp_envelopes plan) as H1.
  { intros H0. apply (list_elem_of_fmap_2 env_event), (list_elem_of_fmap_2 ev_id) in H0.
    rewrite Hp in H0. apply list_elem_of_singleton in H0. by apply Hne. }
  assert (e ∉ bp_deferred plan) as H2 by (rewrite Hd; apply not_elem_of_nil).
  split; [exact He|]. split; [exact H1|]. split; [exact H2|].
  exact (@plan_batch_drops frac_format sample_prioritizer envs [] e He H1 H2).
Defined.
