(* ===== verification/Gossip.v ===== *)
(** [mdrj/gossip.py]: the epidemic gossip engine.

    The asyncio queue and the set of known ids are the state [Gossip]; a tick is
    one transition.  [random.sample] and the network are oracles: [sample] picks
    the peers, [net] says what the POST to an address does.  The start/stop of
    the loop task is not modelled. *)
From S2P Require Import Prelude Sha256 Json Models Utils Storage StorageFacts Config Metrics Prioritization.

Record Gossip := mkGossip { g_pending : list string; g_known : gset string }.
Definition empty_gossip : Gossip := mkGossip [] ∅.

Definition add_pending (event_id : string) (g : Gossip) : Gossip :=
  if decide (event_id ∈ g_known g) then g
  else mkGossip (g_pending g ++ [event_id]) ({[event_id]} ∪ g_known g).

Definition requeue_envelopes (envelopes : list Envelope) (g : Gossip) : Gossip :=
  foldl (λ g env, add_pending (env_id env) g) g envelopes.

(** What a POST does: a status (with a body that parses or not) or an
    exception. *)
Inductive post_outcome :=
  | Response (status : Z) (json_ok : bool)
  | NoResponse.

Definition acked (o : post_outcome) : bool :=
  match o with Response status ok => (status =? 200) && ok | NoResponse => false end.

Record GossipStats := mkStats { gs_sent : Z; gs_peers_contacted : Z; gs_dropped : Z }.

(** The engine's environment: its configuration and its oracles. *)
Record GossipEnv := mkGossipEnv {
  ge_node_id : string;
  ge_prioritizer : Prioritizer;
  ge_fan_out : Z;
  ge_hmac_key : option string;
  ge_peers : list PeerInfo;
  ge_sample : list PeerInfo → nat → list PeerInfo;
  ge_net : string → post_outcome;
  ge_now : pyfloat;
  ge_latency : pyfloat }.

(** [while not self._pending.empty()]: drains the queue.  A storage error stops
    the drain: the id that caused it is gone, the rest stays queued. *)
Fixpoint collect_pending (node_id : string) (now : Q) (db : DB) (pending : list string) (known : gset string)
    (envelopes : list Envelope) : Gossip * result (list Envelope) :=
  match pending with
  | [] => (mkGossip [] known, Ok envelopes)
  | event_id :: rest =>
      let known := known ∖ {[event_id]} in
      match get_envelope event_id db with
      | Err e => (mkGossip rest known, Err e)
      | Ok None => collect_pending node_id now db rest known envelopes
      | Ok (Some envelope) =>
          collect_pending node_id now db rest known (envelopes ++ [Envelope_add_hop envelope node_id now])
      end
  end.

(** The ids of [required] of [_tick]. *)
Definition tick_required (envelopes : list Envelope) : list string :=
  mbind (λ env, if decide (env_cls env = A ∨ env_cls env = B) then env_id env :: env_parents env else [])
    envelopes.

Section engine.
Context `{FloatFormat}.

Definition batch_entry (env : Envelope) : json :=
  let event_dict := match Event_to_dict (env_event env) with JObj d => d | _ => [] end in
  JObj [("event", JObj (dset event_dict "consensus_ts" (jopt JFloat (ev_consensus_ts (env_event env)))));
        ("path_meta", JArr (hop_to_json <$> env_path_meta env))].

Definition batch_body (hmac_key : option string) (envelopes : list Envelope) : bytes * odict string :=
  signed_request_body (JArr (batch_entry <$> envelopes)) hmac_key.

Definition send_to_peer (env : GossipEnv) (address : string) (envelopes : list Envelope)
    (s : DB * MetricsEngine) : (DB * MetricsEngine) * bool :=
  let '(db, m) := s in
  let body := (batch_body (ge_hmac_key env) envelopes).1 in
  if acked (ge_net env address) then
    ((upsert_peer address (ge_now env) true db, record_gossip_out_bytes (Z.of_nat (length body)) m), true)
  else ((upsert_peer address (ge_now env) false db, m), false).

(** [for peer in selected]: the state and the number of envelopes sent. *)
Definition send_all (env : GossipEnv) (selected : list PeerInfo) (envelopes : list Envelope)
    (s : DB * MetricsEngine) : (DB * MetricsEngine) * Z :=
  foldl (λ '(s, sent) peer,
    let '(s, ok) := send_to_peer env (pi_address peer) envelopes s in
    (s, if ok then sent + Z.of_nat (length envelopes) else sent)) (s, 0) selected.

(** [random.sample(peers, min(fan_out, len(peers)))] *)
Definition select_peers (env : GossipEnv) : result (list PeerInfo) :=
  let k := Z.min (ge_fan_out env) (Z.of_nat (length (ge_peers env))) in
  if k <? 0 then Err (ValueError "Sample larger than population or is negative")
  else Ok (ge_sample env (ge_peers env) (Z.to_nat k)).

Record TickState := mkTick { ts_gossip : Gossip; ts_db : DB; ts_metrics : MetricsEngine }.

Definition tick_plan (env : GossipEnv) (envelopes : list Envelope) : BatchPlan :=
  plan_batch (ge_prioritizer env) envelopes (tick_required envelopes).

(** [_tick] after the queue was drained to [envelopes]. *)
Definition tick_send (env : GossipEnv) (envelopes : list Envelope) (s : TickState) : TickState * result GossipStats :=
  if bool_decide (envelopes = []) then (s, Ok (mkStats 0 0 0))
  else
    let plan := tick_plan env envelopes in
    let dropped := Z.of_nat (bp_dropped plan) in
    let g := requeue_envelopes (bp_deferred plan) (ts_gossip s) in
    let s := mkTick g (ts_db s) (ts_metrics s) in
    if bool_decide (bp_envelopes plan = []) then (s, Ok (mkStats 0 0 dropped))
    else
      let m := record_batch_size (bp_total_bytes plan) (ts_metrics s) in
      if bool_decide (ge_peers env = []) then
        (mkTick (requeue_envelopes (bp_envelopes plan) g) (ts_db s) m, Ok (mkStats 0 0 dropped))
      else
        match select_peers env with
        | Err e => (mkTick g (ts_db s) m, Err e)
        | Ok selected =>
            let '(db, m, sent_total) := send_all env selected (bp_envelopes plan) (ts_db s, m) in
            let g := if sent_total =? 0 then requeue_envelopes (bp_envelopes plan) g else g in
            (mkTick g db (record_gossip_latency (ge_latency env) m),
             Ok (mkStats sent_total (Z.of_nat (length selected)) dropped))
        end.

Definition tick (env : GossipEnv) (s : TickState) : TickState * result GossipStats :=
  let '(g, r) := collect_pending (ge_node_id env) (ge_now env) (ts_db s)
                   (g_pending (ts_gossip s)) (g_known (ts_gossip s)) [] in
  let s := mkTick g (ts_db s) (ts_metrics s) in
  match r with
  | Err e => (s, Err e)
  | Ok envelopes => tick_send env envelopes s
  end.

(** ** The queue *)

(** The set mirrors the queue, which lists no id twice. *)
Definition queue_ok (g : Gossip) : Prop := NoDup (g_pending g) ∧ g_known g = list_to_set (g_pending g).

Lemma add_pending_ok i g : queue_ok g → queue_ok (add_pending i g).
Proof.
  intros [Hd Hk]. unfold add_pending. case_decide as Hi; [done|]. split; simpl.
  - rewrite Hk in Hi. rewrite elem_of_list_to_set in Hi. apply NoDup_app. split_and!; [done|set_solver|apply NoDup_singleton].
  - rewrite Hk, list_to_set_app_L. set_solver.
Qed.

Lemma add_pending_in i g : queue_ok g → i ∈ g_pending (add_pending i g).
Proof.
  intros [_ Hk]. unfold add_pending. case_decide as Hi; [|simpl; set_solver].
  rewrite Hk in Hi. by apply elem_of_list_to_set in Hi.
Qed.
Lemma add_pending_keeps i j g : j ∈ g_pending g → j ∈ g_pending (add_pending i g).
Proof. unfold add_pending. case_decide; simpl; set_solver. Qed.

Lemma requeue_ok envs g : queue_ok g → queue_ok (requeue_envelopes envs g).
Proof. revert g. induction envs as [|e envs IH]; intros g Hg; simpl; [done|]. by apply IH, add_pending_ok. Qed.
Lemma requeue_keeps envs g j : j ∈ g_pending g → j ∈ g_pending (requeue_envelopes envs g).
Proof. revert g. induction envs as [|e envs IH]; intros g Hg; simpl; [done|]. by apply IH, add_pending_keeps. Qed.
Lemma requeue_in envs g e : queue_ok g → e ∈ envs → env_id e ∈ g_pending (requeue_envelopes envs g).
Proof.
  revert g. induction envs as [|e' envs IH]; intros g Hg; [set_solver|]. simpl.
  intros [->|He]%elem_of_cons; [by apply requeue_keeps, add_pending_in|]. by apply IH; [apply add_pending_ok|].
Qed.

(** ** Draining *)
Lemma sql_str_or_empty v s :
  sql_str_or v "" = Ok s → s = match v with SText t => t | _ => "" end.
Proof.
  unfold sql_str_or, str_or_opt. destruct v; cbn; try done; rewrite ?str_or_empty_r; by intros [= <-].
Qed.

Lemma Event_from_record_id row e :
  Event_from_record row = Ok e → ev_id e = row_id row.
Proof.
  unfold Event_from_record, row_id. intros Hr.
  repeat (match type of Hr with
          | (_ ← ?m; _) = Ok _ => let E := fresh "E" in destruct m as [?|?] eqn:E; cbn [mbind result_bind] in Hr; [|done]
          end).
  injection Hr as <-. simpl.
  unfold sql_req in *. unfold sql_get.
  repeat match goal with
  | E : result_of_option _ (dget row "id") = Ok _ |- _ =>
      destruct (dget row "id") as [v|]; [injection E as ->|discriminate E]
  end.
  match goal with E : sql_str_or _ "" = Ok _ |- _ => apply sql_str_or_empty in E as -> end. done.
Qed.

Lemma get_envelope_id i db e : get_envelope i db = Ok (Some e) → env_id e = i.
Proof.
  unfold get_envelope, get_event, opt_event. destruct (find_event db i) as [r|] eqn:Hf; [|done].
  apply find_has_id in Hf as [_ Hid].
  destruct (Event_from_record r) as [ev|] eqn:He; simpl; [|done].
  apply Event_from_record_id in He. intros [= <-]. unfold env_id. simpl. by rewrite He.
Qed.

Lemma collect_pending_queue node_id now db pending known envs :
  NoDup pending → known = list_to_set pending →
  queue_ok (collect_pending node_id now db pending known envs).1.
Proof.
  revert known envs. induction pending as [|i rest IH]; intros known envs Hd Hk; simpl; [by split|].
  apply NoDup_cons in Hd as [Hi Hd].
  assert (known ∖ {[i]} = list_to_set rest) as Hk' by (subst; simpl; set_solver).
  destruct (get_envelope i db) as [[e|]|]; [by apply IH..|by split].
Qed.

(** A drain that does not fail reads every stored event of the queue. *)
Lemma collect_pending_reads node_id now db pending known envs g out :
  collect_pending node_id now db pending known envs = (g, Ok out) →
  (∀ x, x ∈ envs → x ∈ out) ∧
  ∀ i e, i ∈ pending → get_envelope i db = Ok (Some e) → Envelope_add_hop e node_id now ∈ out.
Proof.
  revert known envs. induction pending as [|i rest IH]; intros known envs; simpl.
  { intros [= _ <-]. split; [done|]. intros i e []%not_elem_of_nil. }
  destruct (get_envelope i db) as [[e|]|] eqn:Hg; [| |done]; intros [Hin Hall]%IH; split.
  - intros x Hx. apply Hin. set_solver.
  - intros j e' [->|Hj]%elem_of_cons Hge; [|by eapply Hall].
    rewrite Hg in Hge. injection Hge as <-. apply Hin. set_solver.
  - done.
  - intros j e' [->|Hj]%elem_of_cons Hge; [congruence|by eapply Hall].
Qed.

Lemma tick_send_queue env envs s :
  queue_ok (ts_gossip s) → queue_ok (ts_gossip (tick_send env envs s).1).
Proof.
  intros Hq. unfold tick_send. repeat case_match; simpl; repeat apply requeue_ok; done.
Qed.

(** A gossip round keeps the queue well formed, whatever fails: no id is
    queued twice and the set of known ids mirrors the queue. *)
Theorem tick_queue_ok (env : GossipEnv) (s : TickState) :
  queue_ok (ts_gossip s) → queue_ok (ts_gossip (tick env s).1).
Proof.
  intros [Hd Hk]. unfold tick.
  pose proof (collect_pending_queue (ge_node_id env) (ge_now env) (ts_db s) _ _ [] Hd Hk) as Hc.
  destruct (collect_pending _ _ _ _ _ _) as [g [envs|e]]; [by apply tick_send_queue|done].
Qed.

Lemma send_all_acked env selected envs s n :
  (send_all env selected envs s).2 ≠ n →
  n = 0 → ∃ p, p ∈ selected ∧ acked (ge_net env (pi_address p)) = true.
Proof.
  intros Hn ->. unfold send_all in Hn. revert Hn. rewrite <- (rev_involutive selected).
  induction (rev selected) as [|p l IH]; simpl; [done|]. rewrite foldl_app. cbn [foldl].
  destruct (foldl _ _ (rev l)) as [s' sent]. simpl in IH.
  unfold send_to_peer. destruct s' as [db m]. destruct (acked _) eqn:Ha; simpl; intros Hn.
  - exists p. split; [set_solver|done].
  - destruct (IH Hn) as (p' & Hp' & Ha'). exists p'. split; [set_solver|done].
Qed.

Lemma tick_send_plan env envs s s' st x :
  tick_send env envs s = (s', Ok st) → queue_ok (ts_gossip s) →
  (∀ peers k, ge_sample env peers k ⊆ peers) →
  x ∈ envs → x ∈ bp_envelopes (tick_plan env envs) ∨ x ∈ bp_deferred (tick_plan env envs) →
  env_id x ∈ g_pending (ts_gossip s') ∨
  x ∈ bp_envelopes (tick_plan env envs) ∧ ∃ p, p ∈ ge_peers env ∧ acked (ge_net env (pi_address p)) = true.
Proof.
  intros Ht Hq Hs Hx. unfold tick_send in Ht.
  rewrite bool_decide_false in Ht by (by intros ->; apply not_elem_of_nil in Hx).
  set (plan := tick_plan env envs) in *. set (g := requeue_envelopes _ (ts_gossip s)) in *.
  assert (queue_ok g) as Hg by by apply requeue_ok.
  intros Hplan. assert (x ∈ bp_deferred plan → env_id x ∈ g_pending g) as Hdef by (intros; by apply requeue_in).
  assert (∀ l, env_id x ∈ g_pending g → env_id x ∈ g_pending (requeue_envelopes l g)) as Hkeep
    by (intros; by apply requeue_keeps).
  case_bool_decide as Hb. { injection Ht as <- _. left. rewrite Hb in Hplan. set_solver. }
  case_bool_decide as Hp.
  { injection Ht as <- _. left. simpl. destruct Hplan; [by apply requeue_in|auto]. }
  destruct (select_peers env) as [selected|e] eqn:Hsel; [|done].
  destruct (send_all _ _ _ _) as [[db m] sent] eqn:Hsend. injection Ht as <- _. simpl.
  destruct Hplan as [He|Hd]; [|left; case_match; auto].
  destruct (sent =? 0) eqn:Hz; [left; by apply requeue_in|].
  right. split; [done|]. apply Z.eqb_neq in Hz.
  destruct (send_all_acked env selected (bp_envelopes plan)
    (ts_db s, record_batch_size (bp_total_bytes plan) (ts_metrics s)) 0) as (p & Hp' & Ha); [exact (λ E, Hz (eq_trans (eq_sym (f_equal snd Hsend)) E))|done|].
  exists p. split; [|done]. unfold select_peers in Hsel. case_match; [done|]. injection Hsel as <-. by eapply Hs.
Qed.

(** Gossip loses no event that matters: after a round that ends without an
    exception, a stored event of class A or B (or a genesis anchor) that was
    queued is queued again, unless it was in the batch of the round and some peer
    acknowledged that batch. *)
Theorem tick_no_loss (env : GossipEnv) (s s' : TickState) (st : GossipStats) (i : string) (e : Envelope) :
  tick env s = (s', Ok st) →
  queue_ok (ts_gossip s) →
  (∀ peers k, ge_sample env peers k ⊆ peers) →
  i ∈ g_pending (ts_gossip s) →
  get_envelope i (ts_db s) = Ok (Some e) →
  env_cls e ≠ C ∨ is_genesis e = true →
  i ∈ g_pending (ts_gossip s') ∨
  ∃ g envs p, collect_pending (ge_node_id env) (ge_now env) (ts_db s) (g_pending (ts_gossip s))
                (g_known (ts_gossip s)) [] = (g, Ok envs) ∧
    i ∈ env_id <$> bp_envelopes (tick_plan env envs) ∧
    p ∈ ge_peers env ∧ acked (ge_net env (pi_address p)) = true.
Proof.
  intros Ht [Hd Hk] Hs Hi Hget Himp. unfold tick in Ht.
  pose proof (collect_pending_queue (ge_node_id env) (ge_now env) (ts_db s) _ _ [] Hd Hk) as Hq.
  destruct (collect_pending _ _ _ _ _ _) as [g [envs|err]] eqn:Hc; [|done].
  destruct (collect_pending_reads _ _ _ _ _ _ _ _ Hc) as [_ Hall]. specialize (Hall i e Hi Hget).
  set (x := Envelope_add_hop e (ge_node_id env) (ge_now env)) in *.
  assert (env_id x = i) as Hid by by apply get_envelope_id in Hget.
  assert (x ∈ bp_envelopes (tick_plan env envs) ∨ x ∈ bp_deferred (tick_plan env envs)) as Hplan.
  { by apply plan_batch_keeps. }
  destruct (tick_send_plan _ _ _ _ _ x Ht Hq Hs Hall Hplan) as [Hl|(Hb & p & Hp & Ha)].
  - left. by rewrite <- Hid.
  - right. exists g, envs, p. split_and!; [done| |done..]. rewrite <- Hid. by apply list_elem_of_fmap_2.
Qed.

End engine.

(** A node with one peer that acknowledges everything. *)
Definition sample_env : GossipEnv :=
  {| ge_node_id := "n1"; ge_prioritizer := sample_prioritizer; ge_fan_out := 2; ge_hmac_key := None;
     ge_peers := [mkPeer "n2:8000" "n2" None true true "" "runtime" "node" false "approved"];
     ge_sample := λ peers k, take k peers; ge_net := λ _, Response 200 true; ge_now := 5; ge_latency := 1 |}.
Definition sample_tick : TickState :=
  mkTick (add_pending (ev_id example_event) empty_gossip)
    (store_envelope 1 example_envelope None empty_db).1 (new_metrics (mkGossipConfig 1 2) 64 64).

Lemma sample_tick_queue : queue_ok (ts_gossip sample_tick).
Proof. apply add_pending_ok. split; [apply NoDup_nil_2|done]. Defined.

Lemma tick_queue_ok_witness :
  queue_ok (ts_gossip sample_tick) ∧ queue_ok (ts_gossip (@tick frac_format sample_env sample_tick).1).
Proof. split; [exact sample_tick_queue|]. exact (@tick_queue_ok frac_format sample_env sample_tick sample_tick_queue). Defined.

Lemma tick_no_loss_witness :
  let r := @tick frac_format sample_env sample_tick in
  let i := ev_id example_event in
  ∃ s' st e, r = (s', Ok st) ∧ get_envelope i (ts_db sample_tick) = Ok (Some e) ∧
  (i ∈ g_pending (ts_gossip s') ∨
   ∃ g envs p, collect_pending "n1" 5 (ts_db sample_tick) (g_pending (ts_gossip sample_tick))
                 (g_known (ts_gossip sample_tick)) [] = (g, Ok envs) ∧
     i ∈ env_id <$> bp_envelopes (@tick_plan frac_format sample_env envs) ∧
     p ∈ ge_peers sample_env ∧ acked (ge_net sample_env (pi_address p)) = true).
Proof.
  intros r i.
  assert (r = (r.1, Ok (mkStats 1 1 0))) as Ht by (vm_compute; reflexivity).
  assert (i ∈ g_pending (ts_gossip sample_tick)) as Hi by (left).
  destruct (get_envelope i (ts_db sample_tick)) as [[e|]|] eqn:He; [|vm_compute in He; discriminate..].
  assert (env_cls e = B) as Hcls by (vm_compute in He; injection He as <-; reflexivity).
  exists r.1, (mkStats 1 1 0), e. split; [exact Ht|]. split; [reflexivity|].
  refine (@tick_no_loss frac_format sample_env sample_tick r.1 _ i e Ht sample_tick_queue _ Hi He _).
  - intros peers k x Hx. eapply elem_of_take in Hx as (j & Hj & _). by eapply list_elem_of_lookup_2.
  - left. by rewrite Hcls.
Defined.
