(* ===== verification/GossipLiveness.v ===== *)
(** Liveness of gossip: with a peer that answers, the queue of Gossip.v drains and
    every event that matters is delivered. *)
From S2P Require Import Prelude Sha256 Json Models Utils Storage StorageFacts Config Metrics Prioritization Gossip.

Section liveness.
Context `{FloatFormat}.

(** ** A plan makes progress *)
Lemma plan_first_fits p limit todo st :
  (bp_envelopes st = [] → bp_deferred st = []) →
  bp_total_bytes st = sum_Z (envelope_cost <$> bp_envelopes st) →
  (∀ e, e ∈ todo → envelope_cost e <= limit) →
  bp_envelopes (foldl (plan_step p limit) st todo) = [] → bp_deferred (foldl (plan_step p limit) st todo) = [].
Proof.
  revert st. induction todo as [|e todo IH]; intros st Hst Hb Hfit; [done|]. cbn [foldl].
  assert (envelope_cost e <= limit) as He by (apply Hfit; left).
  apply IH; [| |intros x Hx; apply Hfit; by right]; unfold plan_step;
    (destruct (should_relay p _ _ _); [|done]; destruct (limit <? _) eqn:Hl; simpl; [|try done]).
  - intros Hn. rewrite Hn in Hb. simpl in Hb. apply Z.ltb_lt in Hl. lia.
  - by intros [_ [=]]%app_eq_nil.
  - done.
  - rewrite fmap_app, sum_Z_app, Hb. simpl. lia.
Qed.

Lemma plan_progress p envs req :
  envs ≠ [] → (∀ e, e ∈ envs → envelope_cost e <= batch_limit p) →
  (length (bp_deferred (plan_batch p envs req)) < length envs)%nat.
Proof.
  intros Hne Hfit. destruct (plan_batch_inv p envs req) as [_ _ _ Hc _ _].
  assert (plan_order envs ≡ₚ envs) as Hperm by apply sort_on_perm. rewrite Hperm in Hc.
  assert (bp_envelopes (plan_batch p envs req) = [] → bp_deferred (plan_batch p envs req) = []) as Hd.
  { unfold plan_batch. apply plan_first_fits; [done..|]. intros e He. apply Hfit. by rewrite <- Hperm. }
  destruct (bp_envelopes (plan_batch p envs req)) as [|x l].
  - rewrite Hd by done. destruct envs; [done|simpl; lia].
  - simpl in Hc. lia.
Qed.

(** ** One round *)

(** What a drain returns when every queued id can be read. *)
Definition readable (db : DB) (i : string) : Prop := ∃ e, get_envelope i db = Ok (Some e).

Lemma collect_all node_id now db pending known envs :
  (∀ i, i ∈ pending → readable db i) →
  ∃ known' out, collect_pending node_id now db pending known envs = (mkGossip [] known', Ok (envs ++ out)) ∧
    env_id <$> out = pending ∧
    ∀ x, x ∈ out → ∃ i e, i ∈ pending ∧ get_envelope i db = Ok (Some e) ∧ x = Envelope_add_hop e node_id now.
Proof.
  revert known envs. induction pending as [|i rest IH]; intros known envs Hr; cbn [collect_pending].
  { exists known, []. rewrite app_nil_r. split_and!; [done..|]. by intros x Hx%elem_of_nil. }
  destruct (Hr i ltac:(left)) as [e He]. rewrite He.
  destruct (IH (known ∖ {[i]}) (envs ++ [Envelope_add_hop e node_id now])) as (known' & out & Hc & Hid & Hx);
    [intros j Hj; apply Hr; by right|].
  exists known', (Envelope_add_hop e node_id now :: out). rewrite Hc, <- app_assoc. split_and!; [done| |].
  - rewrite fmap_cons, Hid. f_equal. by apply (get_envelope_id i db e).
  - intros x [->|Hin]%elem_of_cons; [exists i, e; split_and!; [left|done|done]|].
    destruct (Hx x Hin) as (j & e' & Hj & He' & ->). exists j, e'. split_and!; [by right|done|done].
Qed.

Lemma requeue_pending envs g :
  (length (g_pending (requeue_envelopes envs g)) ≤ length (g_pending g) + length envs)%nat ∧
  ∀ i, i ∈ g_pending (requeue_envelopes envs g) → i ∈ g_pending g ∨ i ∈ env_id <$> envs.
Proof.
  revert g. induction envs as [|e envs IH]; intros g; simpl; [split; [lia|by left]|].
  destruct (IH (add_pending (env_id e) g)) as [IH1 IH2]. unfold add_pending in IH1 at 2, IH2 at 2.
  case_decide; simpl in *.
  - split; [lia|]. intros i Hi. destruct (IH2 i Hi); [by left|right; by right].
  - rewrite length_app in IH1. simpl in IH1. split; [lia|]. intros i Hi.
    destruct (IH2 i Hi) as [[?|Hj%list_elem_of_singleton]%elem_of_app|?]; [by left|subst i; right; left|right; by right].
Qed.

(** The database of a round differs in its peers only. *)
Definition same_store (db db' : DB) : Prop := db_events db' = db_events db ∧ db_envelopes db' = db_envelopes db.
Lemma same_store_get db db' i : same_store db db' → get_envelope i db' = get_envelope i db.
Proof. intros [He Hv]. unfold get_envelope, get_event, find_event. by rewrite He, Hv. Qed.
Lemma send_all_store env selected envs s : same_store s.1 (send_all env selected envs s).1.1.
Proof.
  unfold send_all. induction selected as [|p l IH] using rev_ind; [done|]. rewrite foldl_app. cbn [foldl].
  destruct (foldl _ _ l) as [[db m] sent]. simpl in IH. unfold send_to_peer.
  destruct (acked _); simpl; unfold upsert_peer; destruct (find_peer _ _); exact IH.
Qed.

(** A round in which some selected peer acknowledges. *)
Definition responsive (env : GossipEnv) : Prop :=
  ge_peers env ≠ [] ∧ ∃ selected p, select_peers env = Ok selected ∧ p ∈ selected ∧ acked (ge_net env (pi_address p)) = true.

Lemma send_all_count env selected envs s :
  (∃ p, p ∈ selected ∧ acked (ge_net env (pi_address p)) = true) → envs ≠ [] → 0 < (send_all env selected envs s).2.
Proof.
  intros (p & Hp & Ha) Hne. unfold send_all.
  assert (∀ l st, 0 <= st.2 → st.2 <= (foldl (λ '(s, sent) peer,
    let '(s, ok) := send_to_peer env (pi_address peer) envs s in
    (s, if ok then sent + Z.of_nat (length envs) else sent)) st l).2) as Hmono.
  { intros l. induction l as [|q l IH]; intros [s' sent] Hs; cbn [foldl]; [simpl; lia|].
    destruct (send_to_peer env (pi_address q) envs s') as [s1 ok]. simpl in *.
    etrans; [|apply IH]; destruct ok; simpl; lia. }
  apply list_elem_of_split in Hp as (l1 & l2 & ->). rewrite foldl_app. cbn [foldl].
  pose proof (Hmono l1 (s, 0) ltac:(done)) as H0. destruct (foldl _ (s, 0) l1) as [[db m] sent]. simpl in H0.
  assert (∃ s1, send_to_peer env (pi_address p) envs (db, m) = (s1, true)) as [s1 ->].
  { unfold send_to_peer. rewrite Ha. by eexists. }
  assert (0 < sent + Z.of_nat (length envs)) as Hpos by (destruct envs; [done|simpl in *; lia]).
  eapply Z.lt_le_trans; [|apply Hmono]; simpl; lia.
Qed.

(** The ids of the batch a round sends. *)
Definition tick_batch (env : GossipEnv) (s : TickState) : list string :=
  match (collect_pending (ge_node_id env) (ge_now env) (ts_db s) (g_pending (ts_gossip s)) (g_known (ts_gossip s)) []).2 with
  | Ok envs => env_id <$> bp_envelopes (tick_plan env envs)
  | Err _ => []
  end.

(** Every queued event can be read, and its envelope fits the batch limit. *)
Definition deliverable (env : GossipEnv) (db : DB) (i : string) : Prop :=
  ∃ e, get_envelope i db = Ok (Some e) ∧
       envelope_cost (Envelope_add_hop e (ge_node_id env) (ge_now env)) <= batch_limit (ge_prioritizer env).

Lemma tick_send_queue_is env envs s :
  envs ≠ [] → responsive env →
  g_pending (ts_gossip (tick_send env envs s).1) =
    g_pending (requeue_envelopes (bp_deferred (tick_plan env envs)) (ts_gossip s)) ∧
  same_store (ts_db s) (ts_db (tick_send env envs s).1).
Proof.
  intros Hne (Hp & selected & p & Hsel & Hin & Ha). unfold tick_send. rewrite bool_decide_false by done.
  case_bool_decide as Hb; [done|]. rewrite bool_decide_false, Hsel by done.
  cbn [ts_gossip ts_db ts_metrics].
  set (st := (ts_db s, record_batch_size (bp_total_bytes (tick_plan env envs)) (ts_metrics s))). pose proof (send_all_store env selected (bp_envelopes (tick_plan env envs)) st) as Hst.
  pose proof (send_all_count env selected (bp_envelopes (tick_plan env envs)) st ltac:(by exists p) Hb) as Hpos.
  destruct (send_all _ _ _ st) as [[db m] sent]. simpl in Hpos, Hst. cbn [fst ts_gossip ts_db].
  by rewrite (proj2 (Z.eqb_neq sent 0)) by lia.
Qed.

Lemma tick_round env s :
  queue_ok (ts_gossip s) → g_pending (ts_gossip s) ≠ [] →
  (∀ i, i ∈ g_pending (ts_gossip s) → deliverable env (ts_db s) i) → responsive env →
  let s' := (tick env s).1 in
  queue_ok (ts_gossip s') ∧ (length (g_pending (ts_gossip s')) < length (g_pending (ts_gossip s)))%nat ∧
  (∀ i, i ∈ g_pending (ts_gossip s') → i ∈ g_pending (ts_gossip s)) ∧ same_store (ts_db s) (ts_db s') ∧
  ∀ i e, i ∈ g_pending (ts_gossip s) → get_envelope i (ts_db s) = Ok (Some e) → env_cls e ≠ C ∨ is_genesis e = true →
    i ∈ g_pending (ts_gossip s') ∨ i ∈ tick_batch env s.
Proof.
  intros Hq Hne Hdel Hresp. unfold tick, tick_batch.
  pose proof (collect_pending_queue (ge_node_id env) (ge_now env) (ts_db s) _ _ [] (proj1 Hq) (proj2 Hq)) as Hq0.
  destruct (collect_all (ge_node_id env) (ge_now env) (ts_db s) (g_pending (ts_gossip s)) (g_known (ts_gossip s)) [])
    as (known & out & Hc & Hid & Hout); [intros i (e & He & _)%Hdel; by exists e|].
  rewrite Hc in Hq0 |- *. cbn [fst snd app] in *. set (s0 := mkTick (mkGossip [] known) (ts_db s) (ts_metrics s)).
  assert (out ≠ []) as Hout0 by (intros ->; by rewrite <- Hid in Hne).
  assert (length out = length (g_pending (ts_gossip s))) as Hlen by by rewrite <- Hid, length_fmap.
  assert (length (bp_deferred (tick_plan env out)) < length out)%nat as Hprog.
  { apply plan_progress; [done|]. intros x (i & e & Hi & He & ->)%Hout.
    destruct (Hdel i Hi) as (e' & He' & Hfit). rewrite He in He'. by injection He' as <-. }
  destruct (tick_send_queue_is env out s0 Hout0 Hresp) as [Hpend Hstore].
  pose proof (tick_send_queue env out s0 Hq0) as Hq1.
  destruct (requeue_pending (bp_deferred (tick_plan env out)) (ts_gossip s0)) as [Hl Hsub]. simpl in Hl, Hsub.
  change (ts_gossip s0) with (mkGossip [] known) in Hpend.
  rewrite Hpend. split_and!; [done|lia| |exact Hstore|].
  - intros i [[]%elem_of_nil|(x & -> & Hx)%list_elem_of_fmap]%Hsub. rewrite <- Hid. apply list_elem_of_fmap_2.
    pose proof (pi_sub _ _ _ _ (plan_batch_inv (ge_prioritizer env) out (tick_required out)) x (or_intror Hx)) as Hin.
    unfold plan_order in Hin. by rewrite sort_on_perm in Hin.
  - intros i e Hi He Himp. rewrite <- Hid in Hi. apply list_elem_of_fmap in Hi as (x & -> & Hx).
    destruct (plan_batch_keeps (ge_prioritizer env) out (tick_required out) x Hx) as [Hb|Hd].
    + destruct (Hout x Hx) as (j & e' & Hj & He' & ->). change (env_id (Envelope_add_hop e' (ge_node_id env) (ge_now env))) with (env_id e') in He.
      rewrite (get_envelope_id j _ _ He') in He. rewrite He in He'. by injection He' as <-.
    + right. by apply list_elem_of_fmap_2.
    + left. apply requeue_in; [done|exact Hd].
Qed.

(** ** Rounds in sequence: round [k] runs in the environment [env k]. *)
Fixpoint ticks (env : nat → GossipEnv) (n : nat) (s : TickState) : TickState :=
  match n with
  | O => s
  | S m => (tick (env m) (ticks env m s)).1
  end.

(** The state before round [k] of a run in which every round is responsive. *)
Lemma ticks_inv env s k :
  queue_ok (ts_gossip s) →
  (∀ k i, i ∈ g_pending (ts_gossip s) → deliverable (env k) (ts_db s) i) → (∀ k, responsive (env k)) →
  let s' := ticks env k s in
  queue_ok (ts_gossip s') ∧ same_store (ts_db s) (ts_db s') ∧
  (∀ i, i ∈ g_pending (ts_gossip s') → i ∈ g_pending (ts_gossip s)) ∧
  (length (g_pending (ts_gossip s')) ≤ length (g_pending (ts_gossip s)) - k)%nat ∧
  ∀ i e, i ∈ g_pending (ts_gossip s) → get_envelope i (ts_db s) = Ok (Some e) → env_cls e ≠ C ∨ is_genesis e = true →
    i ∈ g_pending (ts_gossip s') ∨ ∃ j, (j < k)%nat ∧ i ∈ tick_batch (env j) (ticks env j s).
Proof.
  intros Hq Hdel Hresp. induction k as [|k IH]; cbn [ticks]; [split_and!; [done|done|done|lia|by left]|].
  destruct IH as (Hq' & Hst & Hsub & Hlen & Hall). set (s' := ticks env k s) in *.
  assert (∀ i, i ∈ g_pending (ts_gossip s') → deliverable (env k) (ts_db s') i) as Hdel'.
  { intros i Hi. destruct (Hdel k i (Hsub i Hi)) as (e & He & Hfit). exists e. by rewrite (same_store_get _ _ _ Hst). }
  destruct (decide (g_pending (ts_gossip s') = [])) as [Hnil|Hne].
  - assert ((tick (env k) s').1 = mkTick (mkGossip [] (g_known (ts_gossip s'))) (ts_db s') (ts_metrics s')) as ->.
    { unfold tick. by rewrite Hnil. }
    cbn [ts_gossip ts_db g_pending]. destruct s' as [[pend known] db m]; simpl in *. subst pend.
    split_and!; [done|done|by intros i Hi%elem_of_nil|simpl; lia|].
    intros i e Hi He Himp. destruct (Hall i e Hi He Himp) as [Hn%elem_of_nil|(j & Hj & Hb)]; [done|].
    right. exists j. split; [lia|done].
  - destruct (tick_round (env k) s' Hq' Hne Hdel' (Hresp k)) as (H1 & H2 & H3 & H4 & H5). split_and!; [done| | |lia|].
    + destruct Hst, H4. split; congruence.
    + intros i Hi. by apply Hsub, H3.
    + intros i e Hi He Himp. destruct (Hall i e Hi He Himp) as [Hp|(j & Hj & Hb)]; [|right; exists j; split; [lia|done]].
      destruct (H5 i e Hp) as [?|Hb]; [by rewrite (same_store_get _ _ _ Hst)|done|by left|].
      right. exists k. split; [lia|done].
Qed.

(** C21: gossip delivers: if in every round a selected peer acknowledges and every
    queued envelope fits a batch, then after as many rounds as events were queued
    the queue is empty, and every event of class A or B (or genesis anchor) that was
    queued has been in the batch of one of these rounds, each of which some selected
    peer acknowledged. *)
Theorem gossip_delivers (env : nat → GossipEnv) (s : TickState) (n : nat) :
  queue_ok (ts_gossip s) →
  (∀ k i, i ∈ g_pending (ts_gossip s) → deliverable (env k) (ts_db s) i) →
  (∀ k, responsive (env k)) →
  (length (g_pending (ts_gossip s)) ≤ n)%nat →
  g_pending (ts_gossip (ticks env n s)) = [] ∧
  ∀ i e, i ∈ g_pending (ts_gossip s) → get_envelope i (ts_db s) = Ok (Some e) → env_cls e ≠ C ∨ is_genesis e = true →
    ∃ k, (k < n)%nat ∧ i ∈ tick_batch (env k) (ticks env k s) ∧
      ∃ selected p, select_peers (env k) = Ok selected ∧ p ∈ selected ∧ acked (ge_net (env k) (pi_address p)) = true.
Proof.
  intros Hq Hdel Hresp Hn. destruct (ticks_inv env s n Hq Hdel Hresp) as (_ & _ & _ & Hlen & Hall).
  assert (g_pending (ts_gossip (ticks env n s)) = []) as Hnil by (apply nil_length_inv; lia).
  split; [done|]. intros i e Hi He Himp. destruct (Hall i e Hi He Himp) as [Hp|(k & Hk & Hb)].
  - rewrite Hnil in Hp. by apply elem_of_nil in Hp.
  - exists k. split_and!; [done..|]. by destruct (Hresp k) as (_ & Hr).
Qed.
End liveness.

Lemma gossip_delivers_witness :
  let env := λ _ : nat, sample_env in
  let i := ev_id example_event in
  queue_ok (ts_gossip sample_tick) ∧ g_pending (ts_gossip sample_tick) = [i] ∧
  g_pending (ts_gossip (@ticks frac_format env 1 sample_tick)) = [] ∧
  ∀ j e, j ∈ g_pending (ts_gossip sample_tick) → get_envelope j (ts_db sample_tick) = Ok (Some e) →
    env_cls e ≠ C ∨ is_genesis e = true →
    ∃ k, (k < 1)%nat ∧ j ∈ @tick_batch frac_format (env k) (@ticks frac_format env k sample_tick) ∧
      ∃ selected p, select_peers (env k) = Ok selected ∧ p ∈ selected ∧ acked (ge_net (env k) (pi_address p)) = true.
Proof.
  intros env i.
  assert (g_pending (ts_gossip sample_tick) = [i]) as Hp by (vm_compute; reflexivity).
  assert (∀ k j, j ∈ g_pending (ts_gossip sample_tick) → @deliverable frac_format (env k) (ts_db sample_tick) j) as Hdel.
  { intros k j Hj. rewrite Hp in Hj. apply list_elem_of_singleton in Hj as ->.
    assert (match get_envelope i (ts_db sample_tick) with
            | Ok (Some e) => @envelope_cost frac_format (Envelope_add_hop e "n1" 5) <=? batch_limit sample_prioritizer
            | _ => false end = true) as Hfit by (vm_compute; reflexivity).
    unfold deliverable. destruct (get_envelope i (ts_db sample_tick)) as [[e|]|]; [|discriminate Hfit..].
    exists e. split; [reflexivity|]. apply Z.leb_le in Hfit. exact Hfit. }
  assert (∀ k, responsive (env k)) as Hresp.
  { intros k. split; [discriminate|]. eexists _, _. split; [reflexivity|]. split; [left|reflexivity]. }
  assert (length (g_pending (ts_gossip sample_tick)) ≤ 1)%nat as Hlen by (rewrite Hp; simpl; lia).
  split; [exact sample_tick_queue|]. split; [exact Hp|].
  exact (@gossip_delivers frac_format env sample_tick 1 sample_tick_queue Hdel Hresp Hlen).
Defined.
