(* ===== verification/JsonText.v ===== *)
(** Canonical renderings determine the values they render: the lemmas with
    which a hash over [canonical_json] binds the fields below it. *)
From S2P Require Import Prelude Sha256 Json Models.

Lemma string_app_assoc (a b c : string) : a +:+ (b +:+ c) = (a +:+ b) +:+ c.
Proof. induction a as [|x a IH]; [done|]. exact (f_equal (String x) IH). Qed.

Lemma string_app_inj_l (s a b : string) : s +:+ a = s +:+ b → a = b.
Proof. induction s as [|c s IH]; simpl; [done|]. intros [= H]. by apply IH. Qed.

Lemma string_app_snoc_inj a b c : a +:+ String c "" = b +:+ String c "" → a = b.
Proof.
  revert b. induction a as [|x a IH]; intros [|y b]; simpl; try done.
  - intros [= -> H]. by destruct b.
  - intros [= -> H]. by destruct a.
  - intros [= -> H]. f_equal. by apply IH.
Qed.

(** ** Quoted strings *)
Definition hex_value (c : Ascii.ascii) : N :=
  let n := Ascii.N_of_ascii c in if (n <? 58)%N then (n - 48)%N else (n - 87)%N.

(** The character an escape stands for. *)
Definition unescape (s : string) : option (Ascii.ascii * string) :=
  match s with
  | String "\" (String "u" (String _ (String _ (String a (String b r))))) =>
      Some (Ascii.ascii_of_N (hex_value a * 16 + hex_value b), r)
  | String "\" (String c r) =>
      Some (Ascii.ascii_of_N (match c with "n" => 10 | "r" => 13 | "t" => 9 | "b" => 8 | "f" => 12
                              | _ => Ascii.N_of_ascii c end)%char%N, r)
  | String c r => Some (c, r)
  | EmptyString => None
  end.

Lemma unescape_escape c r : unescape (json_escape_char c +:+ r) = Some (c, r).
Proof. destruct c as [[] [] [] [] [] [] [] []]; vm_compute; reflexivity. Qed.
Lemma escape_char_head c r s : json_escape_char c +:+ r ≠ dquote +:+ s.
Proof. destruct c as [[] [] [] [] [] [] [] []]; vm_compute; discriminate. Qed.

Lemma escape_inj s1 s2 r1 r2 :
  json_escape s1 +:+ dquote +:+ r1 = json_escape s2 +:+ dquote +:+ r2 → s1 = s2 ∧ r1 = r2.
Proof.
  revert s2. induction s1 as [|c1 s1 IH]; intros [|c2 s2]; cbn [json_escape]; rewrite <- ?string_app_assoc.
  - intros H. split; [done|]. exact (string_app_inj_l dquote _ _ H).
  - intros H. destruct (escape_char_head _ _ _ (eq_sym H)).
  - intros H. destruct (escape_char_head _ _ _ H).
  - intros H. apply (f_equal unescape) in H. rewrite !unescape_escape in H.
    injection H as -> H. apply IH in H as [-> ->]. done.
Qed.

Lemma quote_inj s1 s2 r1 r2 : json_quote s1 +:+ r1 = json_quote s2 +:+ r2 → s1 = s2 ∧ r1 = r2.
Proof.
  unfold json_quote. rewrite <- !string_app_assoc. intros H. apply string_app_inj_l in H. by apply escape_inj.
Qed.

(** ** Lists of strings *)
Lemma quoted_items_inj l1 l2 r1 r2 :
  py_join "," (json_quote <$> l1) +:+ String "]" r1 = py_join "," (json_quote <$> l2) +:+ String "]" r2 →
  l1 = l2 ∧ r1 = r2.
Proof.
  revert l2. induction l1 as [|s1 l1 IH]; intros [|s2 l2].
  - simpl. by intros [= ->].
  - destruct l2; simpl; discriminate.
  - destruct l1; simpl; discriminate.
  - destruct l1 as [|t1 l1], l2 as [|t2 l2]; cbn [fmap list_fmap py_join]; rewrite <- ?string_app_assoc; intros H.
    + apply quote_inj in H as [-> H]. by injection H as ->.
    + by apply quote_inj in H as [_ H].
    + by apply quote_inj in H as [_ H].
    + apply quote_inj in H as [-> H]. apply (string_app_inj_l ",") in H.
      apply (IH (t2 :: l2)) in H as [-> ->]. done.
Qed.

(** ** Numbers and [null] *)
Fixpoint no_comma (s : string) : bool :=
  match s with
  | EmptyString => true
  | String c s' => negb (bool_decide (c = ","%char)) && no_comma s'
  end.

Lemma comma_split a b r1 r2 :
  no_comma a = true → no_comma b = true → a +:+ String "," r1 = b +:+ String "," r2 → a = b ∧ r1 = r2.
Proof.
  revert b. induction a as [|x a IH]; intros [|y b]; simpl; rewrite ?andb_true_iff, ?negb_true_iff, ?bool_decide_eq_false.
  - by intros _ _ [= ->].
  - intros _ [Hy _] [= <- _]. done.
  - intros [Hx _] _ [= -> _]. done.
  - intros [_ Ha] [_ Hb] [= -> H]. destruct (IH b Ha Hb H) as [-> ->]. done.
Qed.

Lemma pretty_N_go_head (x : N) (s t : string) :
  (∀ t, s ≠ String "n" t) → pretty_N_go x s ≠ String "n" t.
Proof.
  revert s. induction (N.lt_wf_0 x) as [x _ IH]; intros s Hs.
  destruct (decide (x = 0)%N) as [->|Hx]; [by rewrite pretty_N_go_0|].
  rewrite pretty_N_go_step by lia. apply IH; [apply N.div_lt; lia|].
  intros t' [= Hc _]. revert Hc. unfold pretty_N_char. repeat case_match; discriminate.
Qed.

Lemma py_str_int_not_null z t : py_str_int z ≠ String "n" t.
Proof.
  unfold py_str_int. destruct z as [|p|p]; try discriminate.
  unfold pretty, pretty_Z, pretty, pretty_positive, pretty, pretty_N. case_decide; [discriminate|].
  by apply pretty_N_go_head.
Qed.

Lemma int_or_null_inj `{FloatFormat} (a b : option Z) :
  json_dump "," ":" (jopt JInt a) = json_dump "," ":" (jopt JInt b) → a = b.
Proof.
  destruct a as [a|], b as [b|]; simpl; [| | |done].
  - intros E. f_equal. by apply (inj pretty).
  - intros E. by apply py_str_int_not_null in E.
  - intros E. symmetry in E. by apply py_str_int_not_null in E.
Qed.

Lemma no_comma_app a b : no_comma (a +:+ b) = no_comma a && no_comma b.
Proof.
  induction a as [|c a IH]; [done|]. change (no_comma (String c a +:+ b)) with (negb (bool_decide (c = ","%char)) && no_comma (a +:+ b)).
  by rewrite IH, andb_assoc.
Qed.

Lemma pretty_N_go_no_comma (x : N) (s : string) : no_comma s = true → no_comma (pretty_N_go x s) = true.
Proof.
  revert s. induction (N.lt_wf_0 x) as [x _ IH]; intros s Hs.
  destruct (decide (x = 0)%N) as [->|Hx]; [by rewrite pretty_N_go_0|].
  rewrite pretty_N_go_step by lia. apply IH; [apply N.div_lt; lia|].
  simpl. rewrite Hs, andb_true_r. unfold pretty_N_char. by repeat case_match.
Qed.

Lemma py_str_int_no_comma z : no_comma (py_str_int z) = true.
Proof.
  assert (∀ x : N, no_comma (pretty x) = true) as Hn.
  { intros x. unfold pretty, pretty_N. case_decide; [done|]. by apply pretty_N_go_no_comma. }
  unfold py_str_int. destruct z as [|p|p]; [done|apply Hn|]. exact (Hn (Npos p)).
Qed.

Lemma frac_format_no_comma q : no_comma (@float_repr frac_format q) = true.
Proof.
  unfold float_repr, frac_format. by rewrite !no_comma_app, !py_str_int_no_comma.
Qed.
