(* ===== verification/JsonParse.v ===== *)
(** [json.loads] on a request body, and the round trip with [json.dumps].

    A body is a byte string.  [utf8_decode] covers the code points below 256,
    which are the characters of the model's strings; a body with another code
    point is an error here.  [NaN] and [Infinity] are no rationals and are
    rejected; [RecursionError] on deep nesting is not modelled. *)
From S2P Require Import Prelude Sha256 Json VectorClock Models JsonText.

(** ** Text *)
Fixpoint utf8_decode (bs : bytes) : option string :=
  match bs with
  | [] => Some ""
  | b :: rest =>
      if (0 <=? b) && (b <? 128) then String (Ascii.ascii_of_N (Z.to_N b)) <$> utf8_decode rest
      else match rest with
           | c :: rest' =>
               if ((b =? 194) || (b =? 195)) && (128 <=? c) && (c <? 192)
               then String (Ascii.ascii_of_N (Z.to_N ((b - 192) * 64 + (c - 128)))) <$> utf8_decode rest'
               else None
           | [] => None
           end
  end.

(** ** Tokens *)
Definition is_ws (c : Ascii.ascii) : bool := bool_decide (c ∈ [" "%char; "009"%char; "010"%char; "013"%char]).
Fixpoint skip_ws (s : string) : string :=
  match s with
  | String c s' => if is_ws c then skip_ws s' else s
  | EmptyString => s
  end.

Definition hex_digit_value (c : Ascii.ascii) : option N :=
  let n := Ascii.N_of_ascii c in
  if ((48 <=? n) && (n <=? 57))%N then Some (n - 48)%N
  else if ((97 <=? n) && (n <=? 102))%N then Some (n - 87)%N
  else if ((65 <=? n) && (n <=? 70))%N then Some (n - 55)%N
  else None.
Definition hex4 (a b c d : Ascii.ascii) : option N :=
  a ← hex_digit_value a; b ← hex_digit_value b; c ← hex_digit_value c; d ← hex_digit_value d;
  Some (((a * 16 + b) * 16 + c) * 16 + d)%N.
Definition simple_escape (c : Ascii.ascii) : option Ascii.ascii :=
  let n := Ascii.N_of_ascii c in
  if (n =? 34)%N then Some c else if (n =? 92)%N then Some c else if (n =? 47)%N then Some c
  else if (n =? 98)%N then Some "008"%char else if (n =? 102)%N then Some "012"%char
  else if (n =? 110)%N then Some "010"%char else if (n =? 114)%N then Some "013"%char
  else if (n =? 116)%N then Some "009"%char else None.

(** After the opening quote: the string and what follows the closing quote. *)
Fixpoint scan_string (s : string) : option (string * string) :=
  match s with
  | EmptyString => None
  | String c s' =>
      let n := Ascii.N_of_ascii c in
      if (n =? 34)%N then Some ("", s')
      else if (n =? 92)%N then
        match s' with
        | String "u" (String a (String b (String c (String d s'')))) =>
            n ← hex4 a b c d;
            if (n <? 256)%N then '(t, r) ← scan_string s''; Some (String (Ascii.ascii_of_N n) t, r) else None
        | String e s'' => x ← simple_escape e; '(t, r) ← scan_string s''; Some (String x t, r)
        | EmptyString => None
        end
      else if (n <? 32)%N then None
      else '(t, r) ← scan_string s'; Some (String c t, r)
  end.

(** A number: an optional minus sign, [0] or digits without a leading zero, an
    optional fraction, an optional exponent; a fraction or an exponent that does
    not match is not part of the number. *)
Definition scan_frac (ip : Z) (s : string) : Z * nat * string :=
  match s with
  | String "." s' => let '(m, n, r) := scan_digits ip 0 s' in if Nat.eqb n 0 then (ip, O, s) else (m, n, r)
  | _ => (ip, O, s)
  end.
Definition scan_exp (s : string) : option Z * string :=
  match s with
  | String c s' =>
      if decide (c = "e"%char ∨ c = "E"%char) then
        let '(sg, b) := split_sign s' in
        let '(e, n, r) := scan_digits 0 0 b in
        if Nat.eqb n 0 then (None, s) else (Some (sg * e), r)
      else (None, s)
  | EmptyString => (None, s)
  end.
Definition scan_number (s : string) : option (json * string) :=
  let '(sg, b) := match s with String "-" b => (-1, b) | _ => (1, s) end in
  let '(ip, n, r) := match b with String "0" r => (0, 1%nat, r) | _ => scan_digits 0 0 b end in
  if Nat.eqb n 0 then None
  else
    let '(m, k, r) := scan_frac ip r in
    let '(e, r) := scan_exp r in
    match k, e with
    | O, None => Some (JInt (sg * ip), r)
    | _, _ => Some (JFloat (Qred (inject_Z (sg * m) * Qpow10 (default 0 e - Z.of_nat k))), r)
    end.

Fixpoint strip_prefix (word s : string) : option string :=
  match word, s with
  | EmptyString, _ => Some s
  | String c w, String d s' => if decide (c = d) then strip_prefix w s' else None
  | _, EmptyString => None
  end.
Definition literal (word : string) (v : json) (s : string) : option (json * string) :=
  r ← strip_prefix word s; Some (v, r).

(** ** Values *)
Fixpoint scan_value (fuel : nat) (s : string) {struct fuel} : option (json * string) :=
  match fuel with
  | O => None
  | S f =>
      match s with
      | EmptyString => None
      | String c s' =>
          let n := Ascii.N_of_ascii c in
          if (n =? 34)%N then '(t, r) ← scan_string s'; Some (JStr t, r)
          else if (n =? 123)%N then
            match skip_ws s' with
            | String "}" r => Some (JObj [], r)
            | r => scan_pairs f [] r
            end
          else if (n =? 91)%N then
            match skip_ws s' with
            | String "]" r => Some (JArr [], r)
            | r => scan_items f [] r
            end
          else if (n =? 110)%N then literal "null" JNull s
          else if (n =? 116)%N then literal "true" (JBool true) s
          else if (n =? 102)%N then literal "false" (JBool false) s
          else scan_number s
      end
  end
with scan_items (fuel : nat) (acc : list json) (s : string) {struct fuel} : option (json * string) :=
  match fuel with
  | O => None
  | S f =>
      '(v, r) ← scan_value f s;
      match skip_ws r with
      | String "]" r => Some (JArr (acc ++ [v]), r)
      | String "," r => scan_items f (acc ++ [v]) (skip_ws r)
      | _ => None
      end
  end
with scan_pairs (fuel : nat) (acc : odict json) (s : string) {struct fuel} : option (json * string) :=
  match fuel with
  | O => None
  | S f =>
      match s with
      | String c s' =>
          if (Ascii.N_of_ascii c =? 34)%N then
            '(k, r) ← scan_string s';
            match skip_ws r with
            | String ":" r =>
                '(v, r) ← scan_value f (skip_ws r);
                match skip_ws r with
                | String "}" r => Some (JObj (dset acc k v), r)
                | String "," r => scan_pairs f (dset acc k v) (skip_ws r)
                | _ => None
                end
            | _ => None
            end
          else None
      | EmptyString => None
      end
  end.

(** Every call consumes a character or is made with less fuel right after one
    did, so twice the length of the text is enough. *)
Definition json_parse (s : string) : option json :=
  '(v, r) ← scan_value (S (2 * String.length s)) (skip_ws s);
  if decide (skip_ws r = "") then Some v else None.
Definition json_loads (body : bytes) : result json :=
  match utf8_decode body with
  | None => Err (ValueError "UnicodeDecodeError")
  | Some s => result_of_option (ValueError "JSONDecodeError") (json_parse s)
  end.
Example json_loads_ex : json_loads (utf8_encode (" {" +:+ dquote +:+ "a\u00e9" +:+ dquote +:+ " : [1, -2.5e1 , null,true],"
   +:+ dquote +:+ "b" +:+ dquote +:+ ":{}}  ")) = Ok (JObj [(String "a" (String (Ascii.ascii_of_N 233) ""), JArr [JInt 1; JFloat (-25#1); JNull; JBool true]); ("b", JObj [])]).
Proof. vm_compute. reflexivity. Qed.

(** ** Decoding what was encoded *)
Lemma utf8_decode_encode s : utf8_decode (utf8_encode s) = Some s.
Proof.
  induction s as [|c s IH]; [done|]. cbn [utf8_encode].
  pose proof (N_of_ascii_bound c) as Hb.
  assert (utf8_decode ((if Z.of_N (Ascii.N_of_ascii c) <? 128 then [Z.of_N (Ascii.N_of_ascii c)]
    else [192 + Z.shiftr (Z.of_N (Ascii.N_of_ascii c)) 6; 128 + Z.land (Z.of_N (Ascii.N_of_ascii c)) 63]) ++ utf8_encode s)
    = String c <$> utf8_decode (utf8_encode s)) as ->; [|by rewrite IH].
  generalize (utf8_encode s) as rest. clear. intros rest. destruct c as [[] [] [] [] [] [] [] []]; reflexivity.
Qed.

Lemma scan_string_char c s : scan_string (json_escape_char c +:+ s) = ('(t, r) ← scan_string s; Some (String c t, r)).
Proof. destruct c as [[] [] [] [] [] [] [] []]; reflexivity. Qed.
Lemma scan_string_escape s r : scan_string (json_escape s +:+ dquote +:+ r) = Some (s, r).
Proof.
  induction s as [|c s IH]; [done|]. cbn [json_escape]. rewrite <- string_app_assoc, scan_string_char, IH. done.
Qed.

(** ** Numbers *)
Definition num_stop (r : string) : bool :=
  match r with
  | String c _ => bool_decide (digit_of c = None ∧ c ∉ ["."%char; "e"%char; "E"%char; "+"%char; "-"%char])
  | EmptyString => true
  end.

Lemma scan_digits_app a n s r :
  num_stop r = true → scan_digits a n (s +:+ r) = ((scan_digits a n s).1, (scan_digits a n s).2 +:+ r).
Proof.
  intros Hr. revert a n. induction s as [|c s IH]; intros a n; simpl.
  - destruct r as [|c r]; [done|]. simpl in *. apply bool_decide_eq_true in Hr as [-> _]. done.
  - destruct (digit_of c); [apply IH|done].
Qed.
Lemma split_sign_app s r : num_stop r = true → split_sign (s +:+ r) = ((split_sign s).1, (split_sign s).2 +:+ r).
Proof.
  intros Hr. destruct s as [|c s].
  - destruct r as [|c r]; [done|]. simpl in Hr. apply bool_decide_eq_true in Hr as [_ Hc].
    rewrite !not_elem_of_cons in Hc. destruct Hc as (_ & _ & _ & H1 & H2 & _).
    destruct c as [[] [] [] [] [] [] [] []]; try reflexivity; by exfalso.
  - destruct c as [[] [] [] [] [] [] [] []]; reflexivity.
Qed.
Lemma num_stop_head c r : num_stop (String c r) = true → c ≠ "."%char ∧ c ≠ "e"%char ∧ c ≠ "E"%char ∧ digit_of c = None.
Proof. intros [Hd Hc]%bool_decide_eq_true. rewrite !not_elem_of_cons in Hc. naive_solver. Qed.
Lemma scan_frac_app ip s r : num_stop r = true → scan_frac ip (s +:+ r) = ((scan_frac ip s).1, (scan_frac ip s).2 +:+ r).
Proof.
  intros Hr. destruct s as [|c s].
  - destruct r as [|c r]; [done|]. apply num_stop_head in Hr as (H1 & _).
    destruct c as [[] [] [] [] [] [] [] []]; try reflexivity; by exfalso.
  - assert (c = "."%char ∨ c ≠ "."%char) as [->|Hc] by (destruct (decide (c = "."%char)); auto).
    + change (String "." s +:+ r) with (String "." (s +:+ r)). cbn [scan_frac]. rewrite scan_digits_app by done.
      destruct (scan_digits ip 0 s) as [[m n] t]. simpl. by destruct (Nat.eqb n 0).
    + destruct c as [[] [] [] [] [] [] [] []]; try reflexivity; by exfalso.
Qed.
Lemma scan_exp_app s r : num_stop r = true → scan_exp (s +:+ r) = ((scan_exp s).1, (scan_exp s).2 +:+ r).
Proof.
  intros Hr. destruct s as [|c s].
  - destruct r as [|c r]; [done|]. apply num_stop_head in Hr as (_ & H1 & H2 & _). simpl. by rewrite decide_False by tauto.
  - change (String c s +:+ r) with (String c (s +:+ r)). cbn [scan_exp]. destruct (decide _); [|done]. rewrite split_sign_app by done.
    destruct (split_sign s) as [sg b]. cbn [fst snd]. rewrite scan_digits_app by done.
    destruct (scan_digits 0 0 b) as [[m n] t]. simpl. by destruct (Nat.eqb n 0).
Qed.

(** The number part after the sign. *)
Definition scan_int (b : string) : Z * nat * string :=
  match b with String "0" r => (0, 1%nat, r) | _ => scan_digits 0 0 b end.
Definition scan_rest (sg ip : Z) (r : string) : json * string :=
  let '(m, k, r) := scan_frac ip r in
  let '(e, r) := scan_exp r in
  match k, e with
  | O, None => (JInt (sg * ip), r)
  | _, _ => (JFloat (Qred (inject_Z (sg * m) * Qpow10 (default 0 e - Z.of_nat k))), r)
  end.
Definition minus_sign (s : string) : Z * string := match s with String "-" b => (-1, b) | _ => (1, s) end.
Lemma scan_number_unfold s :
  scan_number s = let '(sg, b) := minus_sign s in let '(ip, n, r) := scan_int b in
                  if Nat.eqb n 0 then None else Some (scan_rest sg ip r).
Proof.
  unfold scan_number, minus_sign, scan_int, scan_rest. destruct (match s with String "-" b => (-1, b) | _ => (1, s) end) as [sg b].
  destruct (match b with String "0" r => (0, 1%nat, r) | _ => scan_digits 0 0 b end) as [[ip n] r].
  destruct (Nat.eqb n 0); [done|]. destruct (scan_frac ip r) as [[m k] r1]. destruct (scan_exp r1) as [e r2]. by destruct k, e.
Qed.
Lemma scan_rest_app sg ip s r : num_stop r = true → scan_rest sg ip (s +:+ r) = ((scan_rest sg ip s).1, (scan_rest sg ip s).2 +:+ r).
Proof.
  intros Hr. unfold scan_rest. rewrite scan_frac_app by done. destruct (scan_frac ip s) as [[m k] r1]. cbn [fst snd].
  rewrite scan_exp_app by done. destruct (scan_exp r1) as [e r2]. simpl. by destruct k, e.
Qed.
Lemma scan_int_app b r : b ≠ "" → num_stop r = true → scan_int (b +:+ r) = ((scan_int b).1, (scan_int b).2 +:+ r).
Proof.
  intros Hb Hr. destruct b as [|c b]; [done|].
  destruct (decide (c = "0"%char)) as [->|Hc]; [done|].
  assert (∀ b, scan_int (String c b) = scan_digits 0 0 (String c b)) as Heq.
  { intros b'. destruct c as [[] [] [] [] [] [] [] []]; try reflexivity; by exfalso. }
  rewrite (Heq b). etrans; [exact (Heq (b +:+ r))|]. exact (scan_digits_app 0 0 (String c b) r Hr).
Qed.
Lemma scan_number_app s v r : scan_number s = Some (v, "") → num_stop r = true → scan_number (s +:+ r) = Some (v, r).
Proof.
  rewrite !scan_number_unfold. intros Hs Hr.
  assert (minus_sign (s +:+ r) = ((minus_sign s).1, (minus_sign s).2 +:+ r)) as ->.
  { destruct s as [|c s]; [by vm_compute in Hs|]. destruct c as [[] [] [] [] [] [] [] []]; reflexivity. }
  destruct (minus_sign s) as [sg b]. cbn [fst snd].
  assert (b ≠ "") by (intros ->; by vm_compute in Hs). rewrite scan_int_app by done.
  destruct (scan_int b) as [[ip n] t]. cbn [fst snd]. destruct (Nat.eqb n 0); [done|].
  rewrite scan_rest_app by done. injection Hs as Hs. by rewrite Hs.
Qed.

Lemma digit_of_char (x : N) : (x < 10)%N → digit_of (pretty_N_char x) = Some (Z.of_N x).
Proof.
  intros Hx. assert (x ∈ [0;1;2;3;4;5;6;7;8;9]%N) as Hin by (rewrite !elem_of_cons; lia).
  rewrite !elem_of_cons in Hin. destruct_or! Hin; [subst; reflexivity..|by apply elem_of_nil in Hin].
Qed.
Lemma scan_digits_pretty (x : N) s :
  ∃ k, ((x ≠ 0)%N → k ≠ O) ∧ ∀ a n, scan_digits a n (pretty_N_go x s) = scan_digits (a * 10 ^ Z.of_nat k + Z.of_N x) (n + k) s.
Proof.
  revert s. induction (N.lt_wf_0 x) as [x _ IH]; intros s.
  destruct (decide (x = 0)%N) as [->|Hx].
  { exists O. split; [done|]. intros a n. rewrite pretty_N_go_0. f_equal; lia. }
  rewrite pretty_N_go_step by lia.
  destruct (IH (x `div` 10)%N ltac:(apply N.div_lt; lia) (String (pretty_N_char (x `mod` 10)) s)) as (k & _ & Hk).
  exists (S k). split; [done|]. intros a n. rewrite Hk. cbn [scan_digits].
  rewrite digit_of_char by (apply N.mod_lt; lia). f_equal; [|lia].
  rewrite Nat2Z.inj_succ, Z.pow_succ_r by lia. rewrite N2Z.inj_div, N2Z.inj_mod.
  pose proof (Z.div_mod (Z.of_N x) 10 ltac:(lia)). change (Z.of_N 10) with 10. nia.
Qed.
Lemma pretty_head (x : N) s : (x ≠ 0)%N → ∃ d t, pretty_N_go x s = String d t ∧ d ≠ "0"%char ∧ d ≠ "-"%char.
Proof.
  revert s. induction (N.lt_wf_0 x) as [x _ IH]; intros s Hx. rewrite pretty_N_go_step by lia.
  destruct (decide (x < 10)%N) as [Hlt|Hge].
  - rewrite N.div_small, pretty_N_go_0 by done. eexists _, _. split; [done|].
    rewrite N.mod_small by done. assert (x ∈ [1;2;3;4;5;6;7;8;9]%N) as Hin by (rewrite !elem_of_cons; lia).
    rewrite !elem_of_cons in Hin. destruct_or! Hin; [by subst..|by apply elem_of_nil in Hin].
  - apply IH; [apply N.div_lt; lia|]. intros H0%N.div_small_iff; lia.
Qed.
Lemma scan_int_pretty (p : positive) : ∃ k, scan_int (pretty (Npos p)) = (Zpos p, S k, "").
Proof.
  unfold pretty, pretty_N. rewrite decide_False by done.
  destruct (pretty_head (Npos p) "" ltac:(done)) as (d & t & Heq & Hd & _).
  destruct (scan_digits_pretty (Npos p) "") as ([|k] & Hk & Hs); [by destruct Hk|].
  exists k. rewrite <- (Hs 0 O : scan_digits 0 0 _ = (Zpos p, S k, "")). rewrite Heq.
  destruct d as [[] [] [] [] [] [] [] []]; try reflexivity; by exfalso.
Qed.
Lemma scan_number_int z : scan_number (py_str_int z) = Some (JInt z, "").
Proof.
  rewrite scan_number_unfold. unfold py_str_int. destruct z as [|p|p]; [reflexivity| |].
  - destruct (scan_int_pretty p) as [k Hk]. change (pretty (Z.pos p)) with (pretty (N.pos p)).
    assert (minus_sign (pretty (N.pos p)) = (1, pretty (N.pos p))) as ->.
    { unfold pretty, pretty_N. rewrite decide_False by done. destruct (pretty_head (Npos p) "" ltac:(done)) as (d & t & -> & _ & Hd).
      destruct d as [[] [] [] [] [] [] [] []]; try reflexivity; by exfalso. }
    by rewrite Hk.
  - destruct (scan_int_pretty p) as [k Hk]. change (pretty (Z.neg p)) with (String "-" (pretty (N.pos p))).
    cbn [minus_sign]. by rewrite Hk.
Qed.

(** ** The round trip *)
Section json_ind.
Context (P : json → Prop) (Hnull : P JNull) (Hbool : ∀ b, P (JBool b)) (Hint : ∀ z, P (JInt z)) (Hfloat : ∀ q, P (JFloat q))
  (Hstr : ∀ s, P (JStr s)) (Harr : ∀ l, Forall P l → P (JArr l)) (Hobj : ∀ kvs, Forall (λ p : string * json, P p.2) kvs → P (JObj kvs)).
Fixpoint json_nested_ind (v : json) : P v :=
  match v with
  | JNull => Hnull | JBool b => Hbool b | JInt z => Hint z | JFloat q => Hfloat q | JStr s => Hstr s
  | JArr l => Harr l ((fix go l := match l return Forall P l with [] => Forall_nil_2 P | x :: l' => Forall_cons_2 P x l' (json_nested_ind x) (go l') end) l)
  | JObj kvs => Hobj kvs ((fix go l := match l return Forall (λ p : string * json, P p.2) l with
                           | [] => Forall_nil_2 _ | x :: l' => Forall_cons_2 _ x l' (json_nested_ind x.2) (go l') end) kvs)
  end.
End json_ind.

Section roundtrip.
Context `{FloatFormat}.

(** The rendering of a float that reads back as that float, and as a float. *)
Definition float_ok (q : Q) : Prop := scan_number (float_repr q) = Some (JFloat q, "").

Fixpoint json_ok (v : json) : Prop :=
  match v with
  | JFloat q => float_ok q
  | JArr l => foldr (λ x P, json_ok x ∧ P) True l
  | JObj kvs => NoDup (dkeys kvs) ∧ foldr (λ p P, json_ok p.2 ∧ P) True kvs
  | _ => True
  end.
Fixpoint json_check (v : json) : bool :=
  match v with
  | JFloat q => bool_decide (float_ok q)
  | JArr l => foldr (λ x b, json_check x && b) true l
  | JObj kvs => bool_decide (NoDup (dkeys kvs)) && foldr (λ p b, json_check p.2 && b) true kvs
  | _ => true
  end.
Lemma json_check_ok v : json_check v = true → json_ok v.
Proof.
  induction v as [| | | | |l IH|kvs IH] using json_nested_ind; cbn [json_check json_ok]; try done.
  - by intros ?%bool_decide_eq_true.
  - induction IH as [|x l Hx _ IHl]; cbn [foldr]; [done|]. intros [? ?]%andb_true_iff. auto.
  - intros [Hd Hc]%andb_true_iff. split; [by apply bool_decide_eq_true in Hd|]. clear Hd. revert Hc.
    induction IH as [|x l Hx _ IHl]; cbn [foldr]; [done|]. intros [? ?]%andb_true_iff. auto.
Qed.
Fixpoint need (v : json) : nat :=
  match v with
  | JArr l => S (foldr (λ x n, S (need x + n)) 0 l)
  | JObj kvs => S (foldr (λ p n, S (need p.2 + n)) 0 kvs)
  | _ => 1
  end%nat.

(** [json.dumps] with the default separators, for an escaping of strings that the
    parser undoes: the ASCII escapes of [json_dumps], or those of [ensure_ascii=False]. *)
Fixpoint dump_with (esc : string → string) (v : json) : string :=
  match v with
  | JNull => "null"
  | JBool true => "true"
  | JBool false => "false"
  | JInt z => py_str_int z
  | JFloat q => float_repr q
  | JStr s => dquote +:+ esc s +:+ dquote
  | JArr l => "[" +:+ py_join ", " (dump_with esc <$> l) +:+ "]"
  | JObj kvs =>
      "{" +:+ py_join ", " ((λ p, (dquote +:+ esc p.1 +:+ dquote) +:+ ": " +:+ dump_with esc p.2) <$> kvs) +:+ "}"
  end.
Lemma dump_with_escape v : dump_with json_escape v = json_dumps v.
Proof.
  unfold json_dumps. induction v as [|[]|z|q|s|l IH|kvs IH] using json_nested_ind; try done; cbn [dump_with json_dump].
  - do 3 f_equal. induction IH as [|x l Hx _ IHl]; [done|]. cbn. by rewrite Hx, IHl.
  - do 3 f_equal. induction IH as [|x l Hx _ IHl]; [done|]. cbn. by rewrite Hx, IHl.
Qed.

Section escaping.
Context (esc : string → string) (scan_string_esc : ∀ s r, scan_string (esc s +:+ dquote +:+ r) = Some (s, r)).
Abbreviation dump := (dump_with esc).

(** Rendered values start with a character of their own. *)
Definition value_head (c : Ascii.ascii) : bool := negb (is_ws c) && bool_decide (c ≠ "]"%char ∧ c ≠ "}"%char).
Lemma scan_number_head s v r : scan_number s = Some (v, r) →
  ∃ c t, s = String c t ∧ value_head c = true ∧ Ascii.N_of_ascii c ∉ [34; 123; 91; 110; 116; 102]%N.
Proof.
  destruct s as [|c s]; [by vm_compute|]. intros Hs. exists c, s. split; [done|].
  rewrite scan_number_unfold in Hs.
  destruct c as [[] [] [] [] [] [] [] []]; try (by vm_compute in Hs);
    (split; [reflexivity|]; by apply (bool_decide_unpack _)).
Qed.
Lemma dump_head v : json_ok v → ∃ c t, dump v = String c t ∧ value_head c = true.
Proof.
  destruct v as [|[]|z|q|s|l|kvs]; intros Hv; try (eexists _, _; split; [reflexivity|reflexivity]).
  - destruct (scan_number_head _ _ _ (scan_number_int z)) as (c & t & Ht & Hc & _). by exists c, t.
  - destruct (scan_number_head _ _ _ Hv) as (c & t & Ht & Hc & _). by exists c, t.
Qed.
Lemma skip_ws_head c t : value_head c = true → skip_ws (String c t) = String c t.
Proof. intros [Hc _]%andb_true_iff. simpl. by destruct (is_ws c). Qed.

Lemma scan_value_number f s v r : scan_number s = Some (v, "") → num_stop r = true → scan_value (S f) (s +:+ r) = Some (v, r).
Proof.
  intros Hs Hr. pose proof (scan_number_app _ _ _ Hs Hr) as Happ.
  destruct (scan_number_head _ _ _ Hs) as (c & t & -> & _ & Hc). change (String c t +:+ r) with (String c (t +:+ r)) in *.
  cbn [scan_value]. rewrite !not_elem_of_cons in Hc. destruct Hc as (H1 & H2 & H3 & H4 & H5 & H6 & _).
  by rewrite (proj2 (N.eqb_neq _ _) H1), (proj2 (N.eqb_neq _ _) H2), (proj2 (N.eqb_neq _ _) H3), (proj2 (N.eqb_neq _ _) H4),
    (proj2 (N.eqb_neq _ _) H5), (proj2 (N.eqb_neq _ _) H6).
Qed.

Definition reads_back (v : json) : Prop :=
  json_ok v → ∀ f r, (need v ≤ f)%nat → num_stop r = true → scan_value f (dump v +:+ r) = Some (v, r).

Lemma join_cons x y l : py_join ", " (x :: y :: l) = x +:+ ", " +:+ py_join ", " (y :: l).
Proof. reflexivity. Qed.

Lemma scan_items_join l : l ≠ [] → Forall reads_back l → foldr (λ x P, json_ok x ∧ P) True l →
  ∀ f acc r, (foldr (λ x n, S (need x + n)) 0 l ≤ f)%nat →
  scan_items f acc (py_join ", " (dump <$> l) +:+ "]" +:+ r) = Some (JArr (acc ++ l), r).
Proof.
  intros Hl Hf. induction Hf as [|x l Hx Hf IH]; [done|]. intros [Hok Hoks] f acc r Hfuel. simpl in Hfuel.
  destruct f as [|f]; [lia|]. destruct l as [|y l].
  - cbn [fmap list_fmap py_join scan_items]. rewrite Hx by (done || lia). reflexivity.
  - cbn [fmap list_fmap]. rewrite join_cons, <- !string_app_assoc. cbn [scan_items]. rewrite Hx by (done || lia).
    cbn [mbind option_bind].
    change (skip_ws (", " +:+ py_join ", " (dump y :: (dump <$> l)) +:+ "]" +:+ r))
      with (String "," (String " " (py_join ", " (dump <$> y :: l) +:+ "]" +:+ r))). cbn iota.
    assert (skip_ws (String " " (py_join ", " (dump <$> y :: l) +:+ "]" +:+ r)) = py_join ", " (dump <$> y :: l) +:+ "]" +:+ r) as ->.
    { destruct Hoks as [Hy _]. destruct (dump_head y Hy) as (c & t & Hc & Hh). cbn [fmap list_fmap].
      match goal with |- skip_ws (String " " ?X) = _ => change (skip_ws (String " " X)) with (skip_ws X) end.
      destruct (dump <$> l) as [|z zs]; [cbn [py_join]|rewrite join_cons]; rewrite Hc; by apply skip_ws_head. }
    rewrite IH by (done || lia). by rewrite <- (assoc_L (++)).
Qed.


Definition pair_text (p : string * json) : string := (dquote +:+ esc p.1 +:+ dquote) +:+ ": " +:+ dump p.2.
Lemma scan_pairs_join kvs : kvs ≠ [] → Forall (λ p, reads_back p.2) kvs → foldr (λ p P, json_ok p.2 ∧ P) True kvs →
  ∀ f acc r, NoDup (dkeys (acc ++ kvs)) → (foldr (λ p n, S (need p.2 + n)) 0 kvs ≤ f)%nat →
  scan_pairs f acc (py_join ", " (pair_text <$> kvs) +:+ "}" +:+ r) = Some (JObj (acc ++ kvs), r).
Proof.
  intros Hl Hf. induction Hf as [|[k v] kvs Hx Hf IH]; [done|]. intros [Hok Hoks] f acc r Hd Hfuel. simpl in Hfuel, Hx, Hok.
  destruct f as [|f]; [lia|].
  assert (k ∉ dkeys acc) as Hk.
  { unfold dkeys in *. rewrite fmap_app in Hd. apply NoDup_app in Hd as (_ & Hd & _). intros Hin. apply (Hd k Hin). left. }
  assert (∀ rest, num_stop rest = true → scan_pairs (S f) acc (pair_text (k, v) +:+ rest) =
    match skip_ws rest with
    | String "}" r => Some (JObj (dset acc k v), r)
    | String "," r => scan_pairs f (dset acc k v) (skip_ws r)
    | _ => None
    end) as Hstep.
  { intros rest Hrest. unfold pair_text. cbn [fst snd]. rewrite <- !string_app_assoc.
    change (dquote +:+ (esc k +:+ dquote +:+ ": " +:+ dump v +:+ rest))
      with (String (Ascii.ascii_of_N 34) (esc k +:+ dquote +:+ ": " +:+ dump v +:+ rest)).
    cbn [scan_pairs]. change (Ascii.N_of_ascii (Ascii.ascii_of_N 34) =? 34)%N with true. cbn iota.
    rewrite scan_string_esc. cbn [mbind option_bind].
    change (skip_ws (": " +:+ dump v +:+ rest)) with (String ":" (String " " (dump v +:+ rest))). cbn iota.
    change (skip_ws (String " " (dump v +:+ rest))) with (skip_ws (dump v +:+ rest)).
    assert (skip_ws (dump v +:+ rest) = dump v +:+ rest) as ->.
    { destruct (dump_head v Hok) as (c & t & Hc & Hh). rewrite Hc. by apply skip_ws_head. }
    rewrite Hx by (done || lia). done. }
  destruct kvs as [|p kvs].
  - cbn [fmap list_fmap py_join]. rewrite Hstep by done. cbn [skip_ws String.append]. by rewrite dset_fresh by done.
  - cbn [fmap list_fmap]. rewrite join_cons, <- !string_app_assoc. rewrite Hstep by done.
    change (skip_ws (", " +:+ py_join ", " (pair_text p :: (pair_text <$> kvs)) +:+ "}" +:+ r))
      with (String "," (String " " (py_join ", " (pair_text p :: (pair_text <$> kvs)) +:+ "}" +:+ r))). cbn iota.
    assert (skip_ws (String " " (py_join ", " (pair_text p :: (pair_text <$> kvs)) +:+ "}" +:+ r))
      = py_join ", " (pair_text <$> p :: kvs) +:+ "}" +:+ r) as ->.
    { cbn [fmap list_fmap]. destruct (pair_text <$> kvs); reflexivity. }
    rewrite dset_fresh, IH by (done || lia || by rewrite <- (assoc_L (++))). by rewrite <- (assoc_L (++)).
Qed.

Lemma dump_reads_back v : reads_back v.
Proof.
  induction v as [|b|z|q|s|l IH|kvs IH] using json_nested_ind; intros Hok f r Hf Hr; (destruct f as [|f]; [simpl in Hf; lia|]).
  - reflexivity.
  - destruct b; reflexivity.
  - apply scan_value_number; [apply scan_number_int|done].
  - by apply scan_value_number.
  - cbn [dump_with]. rewrite <- !string_app_assoc.
    change (scan_value (S f) (dquote +:+ (esc s +:+ dquote +:+ r)))
      with ('(t, r) ← scan_string (esc s +:+ dquote +:+ r); Some (JStr t, r)).
    by rewrite scan_string_esc.
  - destruct l as [|x l]; [reflexivity|]. cbn [dump_with]. rewrite <- !string_app_assoc.
    change (scan_value (S f) ("[" +:+ (py_join ", " (dump <$> x :: l) +:+ "]" +:+ r)))
      with (match skip_ws (py_join ", " (dump <$> x :: l) +:+ "]" +:+ r) with
            | String "]" r => Some (JArr [], r) | r => scan_items f [] r end).
    destruct Hok as [Hx Hl]. destruct (dump_head x Hx) as (c & t & Hc & Hh).
    assert (∃ t, py_join ", " (dump <$> x :: l) +:+ "]" +:+ r = String c t) as [t' Ht].
    { cbn [fmap list_fmap]. destruct (dump <$> l) as [|z zs]; [cbn [py_join]|rewrite join_cons]; rewrite Hc; by eexists. }
    pose proof (scan_items_join (x :: l) ltac:(done) IH ltac:(done) f [] r) as Hitems. rewrite Ht in Hitems |- *.
    rewrite skip_ws_head by done. etrans; [|apply Hitems; simpl in Hf |- *; lia].
    unfold value_head in Hh. apply andb_true_iff in Hh as [_ [Hb _]%bool_decide_eq_true].
    destruct c as [[] [] [] [] [] [] [] []]; try reflexivity; by exfalso.
  - destruct kvs as [|p kvs]; [reflexivity|]. destruct Hok as [Hd Hoks]. cbn [dump_with]. rewrite <- !string_app_assoc.
    change ((λ p0 : string * json, (dquote +:+ esc p0.1 +:+ dquote) +:+ ": " +:+ dump p0.2) <$> p :: kvs) with (pair_text <$> p :: kvs).
    etrans; [|apply (scan_pairs_join (p :: kvs) ltac:(done) IH ltac:(done) f [] r); [done|simpl in Hf |- *; lia]].
    cbn [fmap list_fmap]. destruct (pair_text <$> kvs); reflexivity.
Qed.

Lemma length_app_str a b : String.length (a +:+ b) = (String.length a + String.length b)%nat.
Proof. induction a as [|c a IH]; [done|]. change (S (String.length (a +:+ b)) = S (String.length a + String.length b)). by rewrite IH. Qed.
Lemma length_join l : l ≠ [] →
  (foldr (λ s n, 2 + (String.length s + n)) 0 l ≤ String.length (py_join ", " l) + 2)%nat.
Proof.
  intros Hl. induction l as [|x [|y l] IH]; [done|simpl; lia|]. rewrite join_cons, !length_app_str.
  specialize (IH ltac:(done)). revert IH. generalize (py_join ", " (y :: l)) as j. intros j. cbn [foldr String.length]. lia.
Qed.
Lemma need_length v : json_ok v → (need v ≤ 2 * String.length (dump v))%nat.
Proof.
  induction v as [|b|z|q|s|l IH|kvs IH] using json_nested_ind; intros Hok.
  1-5: match goal with |- (need ?v ≤ _)%nat => destruct (dump_head v Hok) as (c & t & -> & _); simpl; lia end.
  - destruct l as [|x l]; [simpl; lia|].
    cbn [dump_with]. rewrite !length_app_str. pose proof (length_join (dump <$> x :: l)) as Hj. specialize (Hj ltac:(discriminate)).
    assert (length (x :: l) + foldr (λ x n, S (need x + n)) 0 (x :: l) ≤ 2 * foldr (λ s n, 2 + (String.length s + n)) 0 (dump <$> x :: l))%nat.
    { clear Hj. change (foldr (λ x P, json_ok x ∧ P) True (x :: l)) in Hok. revert Hok. induction IH as [|y ys Hy _ IHys]; intros Hok; cbn [foldr fmap list_fmap length] in *; [lia|].
      destruct Hok as [H1 H2]. specialize (Hy H1). specialize (IHys H2). lia. }
    cbn [need String.length length] in *. lia.
  - destruct kvs as [|x l]; [simpl; lia|]. destruct Hok as [_ Hok].
    cbn [dump_with]. rewrite !length_app_str. change ((λ p0 : string * json, (dquote +:+ esc p0.1 +:+ dquote) +:+ ": " +:+ dump p0.2) <$> x :: l) with (pair_text <$> x :: l).
    pose proof (length_join (pair_text <$> x :: l)) as Hj. specialize (Hj ltac:(discriminate)).
    assert (length (x :: l) + foldr (λ p n, S (need p.2 + n)) 0 (x :: l) ≤ 2 * foldr (λ s n, 2 + (String.length s + n)) 0 (pair_text <$> x :: l))%nat.
    { clear Hj. revert Hok. induction IH as [|y ys Hy _ IHys]; intros Hok; cbn [foldr fmap list_fmap length] in *; [lia|].
      destruct Hok as [H1 H2]. specialize (Hy H1). specialize (IHys H2). unfold pair_text at 1. rewrite !length_app_str. lia. }
    cbn [need String.length length] in *. lia.
Qed.

Lemma parse_dump_with v : json_ok v → json_parse (dump v) = Some v.
Proof.
  intros Hok. unfold json_parse. destruct (dump_head v Hok) as (c & t & Hc & Hh).
  assert (skip_ws (dump v) = dump v) as -> by (rewrite Hc; by apply skip_ws_head).
  pose proof (dump_reads_back v Hok (S (2 * String.length (dump v))) "" ltac:(pose proof (need_length v Hok); lia) ltac:(done)) as Hr.
  assert (dump v +:+ "" = dump v) as Heq. { generalize (dump v). induction s as [|a s IH]; [done|]. exact (f_equal (String a) IH). }
  rewrite Heq in Hr. by rewrite Hr.
Qed.
End escaping.

Lemma json_parse_dumps v : json_ok v → json_parse (json_dumps v) = Some v.
Proof. intros Hok. rewrite <- dump_with_escape. apply parse_dump_with; [apply scan_string_escape|done]. Qed.
Lemma json_loads_dumps v : json_ok v → json_loads (utf8_encode (json_dumps v)) = Ok v.
Proof. intros Hok. unfold json_loads. by rewrite utf8_decode_encode, json_parse_dumps. Qed.
End roundtrip.
