(* ===== verification/Checkpoint.v ===== *)
(** [mdrj/checkpoint.py]: proposals, the Merkle root over a confirmed prefix of
    the registry, signatures and the quorum. *)
From S2P Require Import Prelude Sha256 Json Models JsonText.

(** [hmac.compare_digest] on strings: non-ASCII arguments are a [TypeError]. *)
Definition is_ascii (s : string) : bool :=
  forallb (λ c, (Ascii.N_of_ascii c <? 128)%N) (String.list_ascii_of_string s).
Definition compare_digest (a b : string) : result bool :=
  if is_ascii a && is_ascii b then Ok (bool_decide (a = b))
  else Err (TypeError "comparing strings with non-ASCII characters is not supported").

Record CheckpointProposal := mkProposal {
  pp_round_received : Z;
  pp_merkle_root : string;
  pp_members_snapshot_hash : string;
  pp_proposer_node_id : string;
  pp_signature : string }.

Definition canonical_body (p : CheckpointProposal) : odict json :=
  [("round_received", JInt (pp_round_received p));
   ("merkle_root", JStr (pp_merkle_root p));
   ("members_snapshot_hash", JStr (pp_members_snapshot_hash p))].

Definition proposal_to_dict (p : CheckpointProposal) : json :=
  JObj (canonical_body p ++ [("proposer_node_id", JStr (pp_proposer_node_id p)); ("signature", JStr (pp_signature p))]).

Section checkpoint.
Context `{FloatFormat}.

Definition proposal_from_dict (data : odict json) : result CheckpointProposal :=
  round_v ← dget_req data "round_received"; round_received ← py_int round_v;
  root_v ← dget_req data "merkle_root";
  hash_v ← dget_req data "members_snapshot_hash";
  Ok (mkProposal round_received (py_str root_v) (py_str hash_v)
        (py_str (jget_or data "proposer_node_id" (JStr "")))
        (py_str (jget_or data "signature" (JStr "")))).

(** ** The Merkle root *)
Definition payload_message (e : Event) : bytes := utf8_encode (canonical_json (JObj (ev_payload e))).

Definition leaf_body (e : Event) : json :=
  JObj [("id", JStr (ev_id e));
        ("cls", JStr (EventClass_value (ev_cls e)));
        ("creator", JStr (ev_creator e));
        ("parents", strs_json (ev_parents e));
        ("consensus_ts", jopt JFloat (ev_consensus_ts e));
        ("round_received", jopt JInt (ev_round_received e));
        ("payload_hash", JStr (sha256_hex (payload_message e)))].
Definition leaf_message (e : Event) : bytes := utf8_encode (canonical_json (leaf_body e)).
Definition event_leaf_hash (e : Event) : string := sha256_hex (leaf_message e).

Definition merkle_key (e : Event) : Z * string := (default (-1) (ev_round_received e), ev_id e).
Definition merkle_order (events : list Event) : list Event :=
  sort_on merkle_key (cmp_pair Z.compare String.compare) events.

(** The bytes fed to [digest]. *)
Definition root_message (events : list Event) : bytes :=
  concat ((λ e, utf8_encode (event_leaf_hash e)) <$> merkle_order events).
Definition compute_merkle_root (events : list Event) : string := sha256_hex (root_message events).

(** ** Signatures *)
Definition sign_proposal (p : CheckpointProposal) (hmac_key : string) : string :=
  hmac_sha256_hex (utf8_encode hmac_key) (utf8_encode (canonical_json (JObj (canonical_body p)))).

Definition verify_proposal_signature (p : CheckpointProposal) (signature hmac_key : string) : result bool :=
  compare_digest (sign_proposal p hmac_key) signature.

Definition is_quorum_reached (signatures : odict string) (members : list string) : bool :=
  let member_set : gset string := list_to_set (filter (λ m, m ≠ "") members) in
  if bool_decide (member_set = ∅) then false
  else
    let signed := size (filter (λ m, m ∈ dkeys signatures) member_set) in
    bool_decide ((2 * size member_set + 2) / 3 ≤ signed)%nat.

Record CheckpointVerificationReport := mkReport {
  vr_matches_merkle : bool;
  vr_local_merkle_root : string;
  vr_confirmed_merkle_root : string;
  vr_checkpoint_round : Z;
  vr_has_tamper_evidence : bool;
  vr_notes : list string }.

Definition report_to_dict (r : CheckpointVerificationReport) : json :=
  JObj [("matches_merkle", JBool (vr_matches_merkle r));
        ("local_merkle_root", JStr (vr_local_merkle_root r));
        ("confirmed_merkle_root", JStr (vr_confirmed_merkle_root r));
        ("checkpoint_round", JInt (vr_checkpoint_round r));
        ("has_tamper_evidence", JBool (vr_has_tamper_evidence r));
        ("notes", JArr (JStr <$> vr_notes r))].

(** ** Theorems *)

Lemma root_nonempty events : compute_merkle_root events ≠ "".
Proof. intros E. pose proof (length_sha256_hex (root_message events)) as Hlen. unfold compute_merkle_root in E. by rewrite E in Hlen. Qed.

(** What the root commits to for one event: everything but the rendering of the
    floats, which is compared as text. *)
Definition same_leaf (e1 e2 : Event) : Prop :=
  ev_id e1 = ev_id e2 ∧ ev_cls e1 = ev_cls e2 ∧ ev_creator e1 = ev_creator e2 ∧
  ev_parents e1 = ev_parents e2 ∧ ev_round_received e1 = ev_round_received e2 ∧
  json_dump "," ":" (jopt JFloat (ev_consensus_ts e1)) = json_dump "," ":" (jopt JFloat (ev_consensus_ts e2)) ∧
  canonical_json (JObj (ev_payload e1)) = canonical_json (JObj (ev_payload e2)).

(** Every message hashed while computing a root. *)
Definition merkle_messages (events : list Event) : list bytes :=
  root_message events :: (leaf_message <$> events) ++ (payload_message <$> events).

Definition field_name (k : string) : string := json_quote k +:+ ":".

Lemma leaf_sorted e :
  sort_keys (leaf_body e) =
  JObj [("cls", JStr (EventClass_value (ev_cls e)));
        ("consensus_ts", jopt JFloat (ev_consensus_ts e));
        ("creator", JStr (ev_creator e));
        ("id", JStr (ev_id e));
        ("parents", strs_json (ev_parents e));
        ("payload_hash", JStr (sha256_hex (payload_message e)));
        ("round_received", jopt JInt (ev_round_received e))].
Proof.
  unfold leaf_body. cbn [sort_keys fmap list_fmap fst snd]. rewrite sort_keys_strs_json.
  by destruct (ev_consensus_ts e), (ev_round_received e).
Qed.

Lemma dump_strs l : json_dump "," ":" (strs_json l) = "[" +:+ py_join "," (json_quote <$> l) +:+ "]".
Proof. unfold strs_json. cbn [json_dump]. by rewrite <- list_fmap_compose. Qed.

Lemma leaf_text e :
  canonical_json (leaf_body e) =
  ("{" +:+ field_name "cls") +:+ (json_quote (EventClass_value (ev_cls e)) +:+
  (("," +:+ field_name "consensus_ts") +:+ (json_dump "," ":" (jopt JFloat (ev_consensus_ts e)) +:+
  ("," +:+ (field_name "creator" +:+ (json_quote (ev_creator e) +:+
  (("," +:+ field_name "id") +:+ (json_quote (ev_id e) +:+
  (("," +:+ field_name "parents" +:+ "[") +:+ (py_join "," (json_quote <$> ev_parents e) +:+
  String "]" (("," +:+ field_name "payload_hash") +:+ (json_quote (sha256_hex (payload_message e)) +:+
  (("," +:+ field_name "round_received") +:+ (json_dump "," ":" (jopt JInt (ev_round_received e)) +:+ "}")))))))))))))).
Proof.
  unfold canonical_json. rewrite leaf_sorted. cbn [json_dump fmap list_fmap py_join fst snd].
  rewrite dump_strs. unfold field_name. by rewrite <- !string_app_assoc.
Qed.

Lemma same_leaf_of_message e1 e2 :
  (∀ q, no_comma (float_repr q) = true) →
  leaf_message e1 = leaf_message e2 →
  (payload_message e1 = payload_message e2 ∨ sha256_hex (payload_message e1) ≠ sha256_hex (payload_message e2)) →
  same_leaf e1 e2.
Proof.
  intros Hf Hm Hp. apply (inj utf8_encode) in Hm. rewrite !leaf_text in Hm.
  assert (∀ o, no_comma (json_dump "," ":" (jopt JFloat o)) = true) as Hts by (intros [q|]; simpl; done).
  apply string_app_inj_l, quote_inj in Hm as [Hcls Hm].
  apply string_app_inj_l, comma_split in Hm as [Hcts Hm]; [|done..].
  apply string_app_inj_l, quote_inj in Hm as [Hcre Hm].
  apply string_app_inj_l, quote_inj in Hm as [Hid Hm].
  apply string_app_inj_l, quoted_items_inj in Hm as [Hpar Hm].
  apply string_app_inj_l, quote_inj in Hm as [Hph Hm].
  apply string_app_inj_l, string_app_snoc_inj, int_or_null_inj in Hm.
  destruct Hp as [Hp|]; [|done]. apply (inj utf8_encode) in Hp.
  split_and!; try done. by destruct (ev_cls e1), (ev_cls e2).
Qed.

(** Concatenated leaf hashes split back into the leaves. *)
Definition join_all (l : list string) : string := foldr String.append "" l.

Lemma concat_utf8 l : concat (utf8_encode <$> l) = utf8_encode (join_all l).
Proof. induction l as [|s l IH]; [done|].
  change (utf8_encode s ++ concat (utf8_encode <$> l) = utf8_encode (s +:+ join_all l)).
  by rewrite utf8_encode_app, IH. Qed.

Lemma string_app_split (a b r1 r2 : string) :
  String.length a = String.length b → a +:+ r1 = b +:+ r2 → a = b ∧ r1 = r2.
Proof.
  revert b. induction a as [|x a IH]; intros [|y b]; simpl; try done.
  intros [= Hl] [= -> Heq]. destruct (IH b Hl Heq) as [-> ->]. done.
Qed.

Lemma join_all_inj n l1 l2 :
  (0 < n)%nat → Forall (λ s, String.length s = n) l1 → Forall (λ s, String.length s = n) l2 →
  join_all l1 = join_all l2 → l1 = l2.
Proof.
  intros Hn Hl1. revert l2. induction Hl1 as [|s1 l1 H1 _ IH]; intros l2 Hl2; destruct Hl2 as [|s2 l2 H2 Hl2]; cbn; [done|..].
  - destruct s2; [simpl in H2; lia|discriminate].
  - destruct s1; [simpl in H1; lia|discriminate].
  - intros Heq. apply string_app_split in Heq as [-> Heq]; [|congruence]. f_equal. by apply IH.
Qed.

Lemma root_leaves es1 es2 :
  root_message es1 = root_message es2 →
  event_leaf_hash <$> merkle_order es1 = event_leaf_hash <$> merkle_order es2.
Proof.
  unfold root_message. rewrite !(list_fmap_compose event_leaf_hash utf8_encode), !concat_utf8.
  intros Heq%(inj utf8_encode). apply (join_all_inj 64); [lia|..|done];
    apply Forall_fmap, Forall_true; intros e; apply length_sha256_hex.
Qed.

Lemma fmap_lookup_eq {X Y} (f : X → Y) (l1 l2 : list X) i x y :
  f <$> l1 = f <$> l2 → l1 !! i = Some x → l2 !! i = Some y → f x = f y.
Proof.
  intros Heq H1 H2. apply (list_lookup_fmap_Some_2 f) in H1, H2. congruence.
Qed.

(** C37: the Merkle root binds the registry: two sets of events with the same root
    are, in the canonical order, the same events (id, class, creator, parents,
    round, consensus timestamp, payload), unless SHA-256 collides on one of the
    messages that were hashed. *)
Theorem merkle_root_binding (es1 es2 : list Event) :
  (∀ q, no_comma (float_repr q) = true) →
  collision_free (merkle_messages es1 ++ merkle_messages es2) →
  compute_merkle_root es1 = compute_merkle_root es2 →
  Forall2 same_leaf (merkle_order es1) (merkle_order es2).
Proof.
  intros Hf Hcf Hroot. unfold collision_free in Hcf.
  apply Hcf in Hroot; [|apply elem_of_app; left; left|apply elem_of_app; right; left]. apply root_leaves in Hroot.
  assert (∀ es e, e ∈ merkle_order es → leaf_message e ∈ merkle_messages es ∧ payload_message e ∈ merkle_messages es) as Hin.
  { intros es e He. assert (e ∈ es) as He' by (revert He; unfold merkle_order; by rewrite sort_on_perm).
    unfold merkle_messages. split; right; apply elem_of_app; [left|right]; by apply list_elem_of_fmap_2. }
  apply Forall2_same_length_lookup_2.
  { by rewrite <- (length_fmap event_leaf_hash (merkle_order es1)), Hroot, length_fmap. }
  intros i e1 e2 H1 H2.
  pose proof (fmap_lookup_eq _ _ _ _ _ _ Hroot H1 H2) as Hi.
  apply list_elem_of_lookup_2, Hin in H1 as [Hl1 Hp1]. apply list_elem_of_lookup_2, Hin in H2 as [Hl2 Hp2].
  apply same_leaf_of_message; [done| |].
  - apply Hcf; [apply elem_of_app; by left|apply elem_of_app; by right|done].
  - destruct (decide (sha256_hex (payload_message e1) = sha256_hex (payload_message e2))) as [E|E]; [left|by right].
    apply Hcf; [apply elem_of_app; by left|apply elem_of_app; by right|done].
Qed.

(** The root does not depend on the order in which a node lists its events. *)
Theorem merkle_root_perm (es1 es2 : list Event) :
  es1 ≡ₚ es2 → NoDup (ev_id <$> es1) → compute_merkle_root es1 = compute_merkle_root es2.
Proof.
  intros Hp Hd. unfold compute_merkle_root, root_message, merkle_order.
  rewrite (sort_on_perm_eq merkle_key _ es1 es2 Hp); [done|]. intros x y Hx Hy Heq.
  apply list_elem_of_lookup in Hx as [i Hi], Hy as [j Hj].
  assert (i = j) as ->; [|congruence].
  eapply (NoDup_lookup _ _ _ (ev_id x) Hd); rewrite list_lookup_fmap; [by rewrite Hi|].
  rewrite Hj. simpl. f_equal. symmetry. apply String.compare_eq_iff.
  unfold cmp_pair, cmp_then, merkle_key in Heq. simpl in Heq. by destruct (_ ?= _).
Qed.

Lemma quorum_spec signatures members :
  let M : gset string := list_to_set (filter (λ m, m ≠ "") members) in
  is_quorum_reached signatures members = true ↔
  M ≠ ∅ ∧ (2 * size M ≤ 3 * size (filter (λ m, m ∈ dkeys signatures) M))%nat.
Proof.
  intros M. unfold is_quorum_reached. fold M. case_bool_decide as HM; [naive_solver|].
  rewrite bool_decide_eq_true. split.
  - intros Hq. split; [done|]. pose proof (Nat.div_mod (2 * size M + 2) 3). pose proof (Nat.mod_upper_bound (2 * size M + 2) 3). lia.
  - intros [_ Hq]. apply Nat.lt_succ_r, Nat.Div0.div_lt_upper_bound. lia.
Qed.

(** A checkpoint quorum is two thirds of the members, so the signers of any
    two confirmed checkpoints of one membership overlap in a third of it. *)
Theorem quorum_overlap (s1 s2 : odict string) (members : list string) :
  is_quorum_reached s1 members = true → is_quorum_reached s2 members = true →
  let M : gset string := list_to_set (filter (λ m, m ≠ "") members) in
  M ≠ ∅ ∧ (size M ≤ 3 * size (filter (λ m, m ∈ dkeys s1 ∧ m ∈ dkeys s2) M))%nat.
Proof.
  rewrite !quorum_spec. set (M := list_to_set _). intros [HM H1] [_ H2]. simpl. split; [done|].
  set (A := filter (λ m, m ∈ dkeys s1) M) in *. set (B := filter (λ m, m ∈ dkeys s2) M) in *.
  assert (filter (λ m, m ∈ dkeys s1 ∧ m ∈ dkeys s2) M = A ∩ B) as -> by (apply set_eq; intros x; set_solver).
  assert (size (A ∪ B) ≤ size M)%nat as Hu by (apply subseteq_size; set_solver).
  assert (size (A ∪ B) + size (A ∩ B) = size A + size B)%nat as He.
  { rewrite size_union_alt. assert (size (B ∖ A) + size (A ∩ B) = size B)%nat as <-; [|lia].
    rewrite <- size_union by set_solver. f_equal. apply set_eq. intros x. destruct (decide (x ∈ A)); set_solver. }
  lia.
Qed.
End checkpoint.

(** ** Witnesses *)
Definition sample_registry : list Event :=
  [example_event; @Event_create frac_format C "n2" (4 # 1) {["n2" := 1]} [] [("k", JInt 2)] None None None None].

Lemma merkle_root_binding_witness :
  let es := sample_registry in
  (∀ q, no_comma (@float_repr frac_format q) = true) ∧
  collision_free (@merkle_messages frac_format es ++ @merkle_messages frac_format (reverse es)) ∧
  @compute_merkle_root frac_format es = @compute_merkle_root frac_format (reverse es) ∧
  Forall2 (@same_leaf frac_format) (merkle_order es) (merkle_order (reverse es)).
Proof.
  intros es.
  assert (collision_free (@merkle_messages frac_format es ++ @merkle_messages frac_format (reverse es))) as Hcf
    by (apply collision_free_b_spec; vm_compute; reflexivity).
  assert (@compute_merkle_root frac_format es = @compute_merkle_root frac_format (reverse es)) as Hr
    by (vm_compute; reflexivity).
  split; [exact frac_format_no_comma|]. split; [exact Hcf|]. split; [exact Hr|].
  exact (@merkle_root_binding frac_format es (reverse es) frac_format_no_comma Hcf Hr).
Defined.

Lemma merkle_root_perm_witness :
  sample_registry ≡ₚ reverse sample_registry ∧ NoDup (ev_id <$> sample_registry) ∧
  @compute_merkle_root frac_format sample_registry = @compute_merkle_root frac_format (reverse sample_registry).
Proof.
  assert (sample_registry ≡ₚ reverse sample_registry) as Hp by (symmetry; apply reverse_Permutation).
  assert (NoDup (ev_id <$> sample_registry)) as Hd by (apply (bool_decide_unpack _); vm_compute; exact I).
  split; [exact Hp|]. split; [exact Hd|].
  exact (@merkle_root_perm frac_format sample_registry (reverse sample_registry) Hp Hd).
Defined.

Lemma quorum_overlap_witness :
  let s1 := [("a", "x"); ("b", "y")] in let s2 := [("b", "y"); ("c", "z")] in let members := ["a"; "b"; "c"] in
  is_quorum_reached s1 members = true ∧ is_quorum_reached s2 members = true ∧
  let M : gset string := list_to_set (filter (λ m, m ≠ "") members) in
  M ≠ ∅ ∧ (size M ≤ 3 * size (filter (λ m, m ∈ dkeys s1 ∧ m ∈ dkeys s2) M))%nat.
Proof.
  intros s1 s2 members.
  assert (is_quorum_reached s1 members = true) as H1 by (vm_compute; reflexivity).
  assert (is_quorum_reached s2 members = true) as H2 by (vm_compute; reflexivity).
  split; [exact H1|]. split; [exact H2|]. exact (quorum_overlap s1 s2 members H1 H2).
Defined.
