(* ===== verification/Auth.v ===== *)
(** [mdrj/auth.py]: roles, password hashing and the in-memory session store.

    [hashlib.scrypt] is a parameter (a function of password, salt, n, r, p and
    dklen, which may raise); [os.urandom] and [secrets.token_urlsafe] are the
    values drawn.  Base64 is executable. *)
From S2P Require Import Prelude Sha256 Json.

Definition ROLE_VIEWER : string := "viewer".
Definition ROLE_ADMIN : string := "admin".
Definition ROLES : list string := [ROLE_VIEWER; ROLE_ADMIN].
Definition SESSION_TTL_SECONDS : Z := 8 * 3600.
Definition SCRYPT_N : Z := 2 ^ 14.
Definition SCRYPT_R : Z := 8.
Definition SCRYPT_P : Z := 1.
Definition SCRYPT_KEYLEN : Z := 32.

Definition normalize_role (value : string) : string :=
  let text := py_lower (py_strip value) in
  if decide (text ∈ ROLES) then text else ROLE_VIEWER.

(** ** Base64 *)
Definition b64_char (v : Z) : Ascii.ascii :=
  Ascii.ascii_of_N (Z.to_N (
    if v <? 26 then 65 + v else if v <? 52 then 71 + v else if v <? 62 then v - 4
    else if v =? 62 then 43 else 47)).

Fixpoint b64encode (bs : bytes) : string :=
  match bs with
  | a :: b :: c :: rest =>
      String (b64_char (Z.shiftr a 2))
        (String (b64_char (Z.lor (Z.shiftl (Z.land a 3) 4) (Z.shiftr b 4)))
          (String (b64_char (Z.lor (Z.shiftl (Z.land b 15) 2) (Z.shiftr c 6)))
            (String (b64_char (Z.land c 63)) (b64encode rest))))
  | [a; b] =>
      String (b64_char (Z.shiftr a 2))
        (String (b64_char (Z.lor (Z.shiftl (Z.land a 3) 4) (Z.shiftr b 4)))
          (String (b64_char (Z.shiftl (Z.land b 15) 2)) "="))
  | [a] => String (b64_char (Z.shiftr a 2)) (String (b64_char (Z.shiftl (Z.land a 3) 4)) "==")
  | [] => ""
  end.

Definition b64_value (c : Ascii.ascii) : option Z :=
  let n := Z.of_N (Ascii.N_of_ascii c) in
  if (65 <=? n) && (n <=? 90) then Some (n - 65)
  else if (97 <=? n) && (n <=? 122) then Some (n - 71)
  else if (48 <=? n) && (n <=? 57) then Some (n + 4)
  else if n =? 43 then Some 62 else if n =? 47 then Some 63 else None.

(** [binascii.a2b_base64], not strict: characters outside the alphabet are
    skipped, a complete pad ends the input. *)
Fixpoint a2b_base64 (quad_pos pads leftchar : Z) (s : string) : option bytes :=
  match s with
  | EmptyString => if quad_pos =? 0 then Some [] else None
  | String c s' =>
      if decide (c = "="%char) then
        if 2 <=? quad_pos then
          if 4 <=? quad_pos + (pads + 1) then Some [] else a2b_base64 quad_pos (pads + 1) leftchar s'
        else a2b_base64 quad_pos pads leftchar s'
      else
        match b64_value c with
        | None => a2b_base64 quad_pos pads leftchar s'
        | Some v =>
            if quad_pos =? 0 then a2b_base64 1 0 v s'
            else if quad_pos =? 1 then
              cons (Z.lor (Z.shiftl leftchar 2) (Z.shiftr v 4)) <$> a2b_base64 2 0 (Z.land v 15) s'
            else if quad_pos =? 2 then
              cons (Z.lor (Z.shiftl leftchar 4) (Z.shiftr v 2)) <$> a2b_base64 3 0 (Z.land v 3) s'
            else cons (Z.lor (Z.shiftl leftchar 6) v) <$> a2b_base64 0 0 0 s'
        end
  end.

Definition ascii_only (s : string) : bool :=
  forallb (λ c, (Ascii.N_of_ascii c <? 128)%N) (String.list_ascii_of_string s).
Definition b64decode (s : string) : result bytes :=
  if ascii_only s then result_of_option (ValueError "Incorrect padding") (a2b_base64 0 0 0 s)
  else Err (ValueError "string argument should contain only ASCII characters").

(** [s.split(sep, maxsplit)] *)
Fixpoint py_split_max (sep : Ascii.ascii) (maxsplit : nat) (s : string) : list string :=
  match maxsplit with
  | O => [s]
  | S n =>
      match s with
      | EmptyString => [""]
      | String c s' =>
          if decide (c = sep) then "" :: py_split_max sep n s'
          else match py_split_max sep maxsplit s' with
               | [] => [String c ""]
               | w :: ws => String c w :: ws
               end
      end
  end.

(** ** Passwords *)
Section passwords.
(** [hashlib.scrypt(password, salt=, n=, r=, p=, dklen=)] *)
Context (scrypt : bytes → bytes → Z → Z → Z → Z → result bytes).

Definition hash_password (salt : bytes) (password : string) : result string :=
  if decide (password = "") then Err (ValueError "password must not be empty")
  else
    derived ← scrypt (utf8_encode password) salt SCRYPT_N SCRYPT_R SCRYPT_P SCRYPT_KEYLEN;
    Ok ("scrypt$" +:+ py_str_int SCRYPT_N +:+ "$" +:+ py_str_int SCRYPT_R +:+ "$" +:+ py_str_int SCRYPT_P +:+ "$"
        +:+ b64encode salt +:+ "$" +:+ b64encode derived).

Definition verify_password (password stored : string) : result bool :=
  if decide (stored = "") then Ok false
  else if negb (String.prefix "scrypt$" stored) then Ok false
  else
    match py_split_max "$" 5 stored with
    | [_; n_str; r_str; p_str; salt_b64; derived_b64] =>
        match b64decode salt_b64, b64decode derived_b64 with
        | Ok salt, Ok expected =>
            n ← py_int (JStr n_str);
            r ← py_int (JStr r_str);
            p ← py_int (JStr p_str);
            actual ← scrypt (utf8_encode password) salt n r p (Z.of_nat (length expected));
            Ok (bool_decide (actual = expected))
        | _, _ => Ok false
        end
    | _ => Ok false
    end.
End passwords.

(** ** Sessions *)
Record SessionRecord := mkSession {
  ss_token : string;
  ss_username : string;
  ss_role : string;
  ss_created_at : pyfloat;
  ss_expires_at : pyfloat }.

Record SessionStore := mkSessionStore { st_ttl_seconds : Z; st_sessions : odict SessionRecord }.
Definition new_session_store : SessionStore := mkSessionStore SESSION_TTL_SECONDS [].

Definition session_create (username role token : string) (now : Q) (s : SessionStore)
    : SessionStore * SessionRecord :=
  let record := mkSession token username (normalize_role role) now (now + inject_Z (st_ttl_seconds s))%Q in
  (mkSessionStore (st_ttl_seconds s) (dset (st_sessions s) token record), record).

Definition session_pop (token : string) (s : SessionStore) : SessionStore :=
  mkSessionStore (st_ttl_seconds s) (dpop (st_sessions s) token).

Definition session_get (token : string) (now : Q) (s : SessionStore) : SessionStore * option SessionRecord :=
  match dget (st_sessions s) token with
  | None => (s, None)
  | Some record => if ss_expires_at record <?q now then (session_pop token s, None) else (s, Some record)
  end.

Definition session_revoke (token : string) (s : SessionStore) : SessionStore := session_pop token s.

(** [removed = [t for t, rec in items if p(rec)]; for t in removed: pop] *)
Definition session_remove_if (p : SessionRecord → bool) (s : SessionStore) : SessionStore * Z :=
  let removed := (filter (λ e, p e.2 = true) (st_sessions s)).*1 in
  (foldl (λ s t, session_pop t s) s removed, Z.of_nat (length removed)).

Definition revoke_user (username : string) (s : SessionStore) : SessionStore * Z :=
  session_remove_if (λ r, bool_decide (ss_username r = username)) s.
Definition prune_expired (now : Q) (s : SessionStore) : SessionStore * Z :=
  session_remove_if (λ r, ss_expires_at r <?q now) s.

(** ** Base64 round trip *)
Definition is_byte (b : Z) : Prop := 0 <= b < 256.

Lemma is_bytes_spec l : forallb (λ b, (0 <=? b) && (b <? 256)) l = true → Forall is_byte l.
Proof.
  rewrite forallb_forall, Forall_forall. intros H x Hx. apply list_elem_of_In, H in Hx.
  unfold is_byte. reflect_bool. lia.
Qed.

Lemma b64_value_char v : 0 <= v < 64 → b64_value (b64_char v) = Some v ∧ b64_char v ≠ "="%char.
Proof.
  intros Hv.
  assert (∀ n : nat, (n < 64)%nat → b64_value (b64_char (Z.of_nat n)) = Some (Z.of_nat n) ∧ b64_char (Z.of_nat n) ≠ "="%char) as Hall.
  { intros n Hn. do 64 (destruct n as [|n]; [split; vm_compute; congruence|]). lia. }
  rewrite <- (Z2Nat.id v) by lia. apply Hall. lia.
Qed.

Lemma a2b_step q l v s :
  0 <= v < 64 →
  a2b_base64 q 0 l (String (b64_char v) s) =
    if q =? 0 then a2b_base64 1 0 v s
    else if q =? 1 then cons (Z.lor (Z.shiftl l 2) (Z.shiftr v 4)) <$> a2b_base64 2 0 (Z.land v 15) s
    else if q =? 2 then cons (Z.lor (Z.shiftl l 4) (Z.shiftr v 2)) <$> a2b_base64 3 0 (Z.land v 3) s
    else cons (Z.lor (Z.shiftl l 6) v) <$> a2b_base64 0 0 0 s.
Proof. intros Hv. destruct (b64_value_char v Hv) as [H1 H2]. simpl. by rewrite decide_False, H1. Qed.

Lemma lor_shiftl_add x y k : 0 <= k → 0 <= y < 2 ^ k → Z.lor (Z.shiftl x k) y = x * 2 ^ k + y.
Proof.
  intros Hk Hy.
  assert (Z.land (Z.shiftl x k) y = 0) as H0.
  { apply Z.bits_inj'. intros n Hn. rewrite Z.land_spec, Z.shiftl_spec, Z.bits_0 by done.
    destruct (Z.lt_ge_cases n k); [by rewrite Z.testbit_neg_r by lia|].
    replace (Z.testbit y n) with false; [by rewrite andb_false_r|].
    symmetry. destruct (Z.eq_dec y 0) as [->|]; [by rewrite Z.bits_0|].
    apply Z.bits_above_log2; [lia|]. apply Z.log2_lt_pow2; [lia|].
    apply Z.lt_le_trans with (2 ^ k); [lia|]. by apply Z.pow_le_mono_r. }
  rewrite <- Z.shiftl_mul_pow2 by done. rewrite Z.add_nocarry_lxor by done. symmetry. by apply Z.lxor_lor.
Qed.

(** The bit operations of the encoder and decoder as arithmetic. *)
Lemma land3 a : Z.land a 3 = a mod 4.
Proof. apply (Z.land_ones a 2). lia. Qed.
Lemma land15 a : Z.land a 15 = a mod 16.
Proof. apply (Z.land_ones a 4). lia. Qed.
Lemma land63 a : Z.land a 63 = a mod 64.
Proof. apply (Z.land_ones a 6). lia. Qed.
Lemma shiftr2 a : Z.shiftr a 2 = a / 4.
Proof. apply (Z.shiftr_div_pow2 a 2). lia. Qed.
Lemma shiftr4 a : Z.shiftr a 4 = a / 16.
Proof. apply (Z.shiftr_div_pow2 a 4). lia. Qed.
Lemma shiftr6 a : Z.shiftr a 6 = a / 64.
Proof. apply (Z.shiftr_div_pow2 a 6). lia. Qed.
Lemma shiftl2 a : Z.shiftl a 2 = a * 4.
Proof. apply (Z.shiftl_mul_pow2 a 2). lia. Qed.
Lemma shiftl4 a : Z.shiftl a 4 = a * 16.
Proof. apply (Z.shiftl_mul_pow2 a 4). lia. Qed.

Ltac b64_arith :=
  unfold is_byte in *;
  rewrite ?lor_shiftl_add by (rewrite ?land3, ?land15, ?land63, ?shiftr2, ?shiftr4, ?shiftr6; Z.to_euclidean_division_equations; lia);
  rewrite ?land3, ?land15, ?land63, ?shiftr2, ?shiftr4, ?shiftr6, ?shiftl2, ?shiftl4;
  Z.to_euclidean_division_equations; lia.

Lemma sextet1 a b : is_byte a → is_byte b → 0 <= Z.lor (Z.shiftl (Z.land a 3) 4) (Z.shiftr b 4) < 64.
Proof. intros. b64_arith. Qed.
Lemma sextet2 b c : is_byte b → is_byte c → 0 <= Z.lor (Z.shiftl (Z.land b 15) 2) (Z.shiftr c 6) < 64.
Proof. intros. b64_arith. Qed.
Lemma octet0 a b : is_byte a → is_byte b →
  Z.lor (Z.shiftl (Z.shiftr a 2) 2) (Z.shiftr (Z.lor (Z.shiftl (Z.land a 3) 4) (Z.shiftr b 4)) 4) = a.
Proof.
  intros. pose proof (sextet1 a b).
  assert (Z.lor (Z.shiftl (Z.land a 3) 4) (Z.shiftr b 4) = a mod 4 * 16 + b / 16) as -> by b64_arith.
  b64_arith.
Qed.
Lemma octet1 a b c : is_byte a → is_byte b → is_byte c →
  Z.lor (Z.shiftl (Z.land (Z.lor (Z.shiftl (Z.land a 3) 4) (Z.shiftr b 4)) 15) 4)
    (Z.shiftr (Z.lor (Z.shiftl (Z.land b 15) 2) (Z.shiftr c 6)) 2) = b.
Proof.
  intros.
  assert (Z.lor (Z.shiftl (Z.land a 3) 4) (Z.shiftr b 4) = a mod 4 * 16 + b / 16) as -> by b64_arith.
  assert (Z.lor (Z.shiftl (Z.land b 15) 2) (Z.shiftr c 6) = b mod 16 * 4 + c / 64) as -> by b64_arith.
  b64_arith.
Qed.
Lemma octet2 b c : is_byte b → is_byte c →
  Z.lor (Z.shiftl (Z.land (Z.lor (Z.shiftl (Z.land b 15) 2) (Z.shiftr c 6)) 3) 6) (Z.land c 63) = c.
Proof.
  intros.
  assert (Z.lor (Z.shiftl (Z.land b 15) 2) (Z.shiftr c 6) = b mod 16 * 4 + c / 64) as -> by b64_arith.
  b64_arith.
Qed.

Lemma bytes3_ind (P : bytes → Prop) :
  P [] → (∀ a, P [a]) → (∀ a b, P [a; b]) → (∀ a b c l, P l → P (a :: b :: c :: l)) → ∀ l, P l.
Proof.
  intros H0 H1 H2 H3. fix IH 1. intros [|a [|b [|c l]]]; [done|apply H1|apply H2|]. apply H3, IH.
Qed.

(** A missing byte reads as 0. *)
Lemma sextet1_last a : Z.shiftl (Z.land a 3) 4 = Z.lor (Z.shiftl (Z.land a 3) 4) (Z.shiftr 0 4).
Proof. by rewrite Z.shiftr_0_l, Z.lor_0_r. Qed.
Lemma sextet2_last b : Z.shiftl (Z.land b 15) 2 = Z.lor (Z.shiftl (Z.land b 15) 2) (Z.shiftr 0 6).
Proof. by rewrite Z.shiftr_0_l, Z.lor_0_r. Qed.
Lemma sextet0 a : is_byte a → 0 <= Z.shiftr a 2 < 64.
Proof. intros. b64_arith. Qed.
Lemma sextet3 c : 0 <= Z.land c 63 < 64.
Proof. b64_arith. Qed.

Lemma a2b_b64encode l : Forall is_byte l → a2b_base64 0 0 0 (b64encode l) = Some l.
Proof.
  assert (is_byte 0) as H0 by (split; lia).
  pattern l. apply bytes3_ind; clear l.
  - done.
  - intros a [Ha _]%Forall_cons. cbn [b64encode]. rewrite sextet1_last.
    rewrite !a2b_step by auto using sextet0, sextet1. simpl. by rewrite octet0.
  - intros a b [Ha [Hb _]%Forall_cons]%Forall_cons. cbn [b64encode]. rewrite sextet2_last.
    rewrite !a2b_step by auto using sextet0, sextet1, sextet2. simpl. by rewrite octet0, octet1.
  - intros a b c l IH [Ha [Hb [Hc Hl]%Forall_cons]%Forall_cons]%Forall_cons. cbn [b64encode].
    rewrite !a2b_step by auto using sextet0, sextet1, sextet2, sextet3. simpl.
    rewrite IH by done. simpl. by rewrite octet0, octet1, octet2.
Qed.

(** The characters of an encoding. *)
Definition b64_safe (s : string) : bool :=
  forallb (λ c, (Ascii.N_of_ascii c <? 128)%N && negb (bool_decide (c = "$"%char))) (String.list_ascii_of_string s).

Lemma b64_safe_cons v s : 0 <= v < 64 → b64_safe (String (b64_char v) s) = b64_safe s.
Proof.
  intros Hv. unfold b64_safe. cbn [String.list_ascii_of_string forallb].
  assert (∀ n : nat, (n < 64)%nat →
    (Ascii.N_of_ascii (b64_char (Z.of_nat n)) <? 128)%N && negb (bool_decide (b64_char (Z.of_nat n) = "$"%char)) = true) as Hall.
  { intros n Hn. do 64 (destruct n as [|n]; [vm_compute; reflexivity|]). lia. }
  rewrite <- (Z2Nat.id v) by lia. by rewrite Hall by lia.
Qed.

Lemma b64encode_safe l : Forall is_byte l → b64_safe (b64encode l) = true.
Proof.
  assert (is_byte 0) as H0 by (split; lia).
  pattern l. apply bytes3_ind; clear l.
  - done.
  - intros a [Ha _]%Forall_cons. cbn [b64encode]. rewrite sextet1_last.
    by rewrite !b64_safe_cons by auto using sextet0, sextet1.
  - intros a b [Ha [Hb _]%Forall_cons]%Forall_cons. cbn [b64encode]. rewrite sextet2_last.
    by rewrite !b64_safe_cons by auto using sextet0, sextet1, sextet2.
  - intros a b c l IH [Ha [Hb [Hc Hl]%Forall_cons]%Forall_cons]%Forall_cons. cbn [b64encode].
    rewrite !b64_safe_cons by auto using sextet0, sextet1, sextet2, sextet3. by apply IH.
Qed.

Lemma b64decode_encode l : Forall is_byte l → b64decode (b64encode l) = Ok l.
Proof.
  intros Hl. unfold b64decode. pose proof (b64encode_safe l Hl) as Hs.
  assert (ascii_only (b64encode l) = true) as ->.
  { unfold ascii_only, b64_safe in *. rewrite forallb_forall in *. intros c Hc. by apply Hs, andb_true_iff in Hc as [? _]. }
  by rewrite a2b_b64encode.
Qed.

Lemma split_max_0 sep s : py_split_max sep 0 s = [s].
Proof. by destruct s. Qed.
Lemma split_max_app n (a r : string) :
  b64_safe a = true → py_split_max "$" (S n) (a +:+ String "$" r) = a :: py_split_max "$" n r.
Proof.
  induction a as [|c a IH]; [done|]. unfold b64_safe. cbn [String.list_ascii_of_string forallb].
  rewrite !andb_true_iff, negb_true_iff, bool_decide_eq_false. intros [[_ Hc] Ha].
  change (String c a +:+ String "$" r) with (String c (a +:+ String "$" r)).
  change (py_split_max "$" (S n) (String c (a +:+ String "$" r))) with
    (if decide (c = "$"%char) then "" :: py_split_max "$" n (a +:+ String "$" r)
     else match py_split_max "$" (S n) (a +:+ String "$" r) with [] => [String c ""] | w :: ws => String c w :: ws end).
  rewrite decide_False by done. by rewrite IH.
Qed.

(** The stored form of a derived key. *)
Definition stored_hash (salt derived : bytes) : string := "scrypt$16384$8$1$" +:+ (b64encode salt +:+ "$" +:+ b64encode derived).
Lemma hash_password_nonempty scrypt salt password stored : hash_password scrypt salt password = Ok stored → password ≠ "".
Proof. unfold hash_password. by case_decide. Qed.
Lemma hash_password_stored scrypt salt password derived : password ≠ "" →
  scrypt (utf8_encode password) salt SCRYPT_N SCRYPT_R SCRYPT_P SCRYPT_KEYLEN = Ok derived →
  hash_password scrypt salt password = Ok (stored_hash salt derived).
Proof. intros Hp Hs. unfold hash_password. by rewrite decide_False, Hs. Qed.
Lemma verify_stored scrypt salt derived actual candidate : Forall is_byte salt → Forall is_byte derived → length derived = 32%nat →
  scrypt (utf8_encode candidate) salt SCRYPT_N SCRYPT_R SCRYPT_P SCRYPT_KEYLEN = Ok actual →
  verify_password scrypt candidate (stored_hash salt derived) = Ok (bool_decide (actual = derived)).
Proof.
  intros Hsalt Hder Hlen Hs. unfold stored_hash. set (tail := b64encode salt +:+ "$" +:+ b64encode derived).
  unfold verify_password. rewrite decide_False by done.
  replace (String.prefix "scrypt$" ("scrypt$16384$8$1$" +:+ tail)) with true by reflexivity.
  assert (py_split_max "$" 5 ("scrypt$16384$8$1$" +:+ tail) =
    "scrypt" :: "16384" :: "8" :: "1" :: py_split_max "$" 1 tail) as -> by reflexivity.
  unfold tail. change ("$" +:+ b64encode derived) with (String "$" (b64encode derived)).
  rewrite split_max_app by by apply b64encode_safe. rewrite split_max_0. cbn [negb].
  rewrite !b64decode_encode by done. cbv beta iota. rewrite Hlen.
  change (Z.of_nat 32) with SCRYPT_KEYLEN. change (py_int (JStr "16384")) with (Ok SCRYPT_N).
  change (py_int (JStr "8")) with (Ok SCRYPT_R). change (py_int (JStr "1")) with (Ok SCRYPT_P).
  cbn [mbind result_bind]. by rewrite Hs.
Qed.

(** ** Theorems *)

(** Passwords round trip: verifying a candidate against a stored hash accepts
    exactly the candidates whose derived key (with the stored salt and parameters)
    is the derived key of the password. *)
Theorem password_roundtrip (scrypt : bytes → bytes → Z → Z → Z → Z → result bytes)
    (salt derived actual : bytes) (password candidate stored : string) :
  Forall is_byte salt → Forall is_byte derived → length derived = 32%nat →
  scrypt (utf8_encode password) salt SCRYPT_N SCRYPT_R SCRYPT_P SCRYPT_KEYLEN = Ok derived →
  scrypt (utf8_encode candidate) salt SCRYPT_N SCRYPT_R SCRYPT_P SCRYPT_KEYLEN = Ok actual →
  hash_password scrypt salt password = Ok stored →
  verify_password scrypt candidate stored = Ok (bool_decide (actual = derived)).
Proof.
  intros Hsalt Hder Hlen Hs1 Hs2 Hh. rewrite (hash_password_stored _ _ _ derived) in Hh; [|by eapply hash_password_nonempty|done].
  injection Hh as <-. by apply verify_stored.
Qed.

Lemma dpop_filter {A} (d : list (string * A)) k : @eq (list (string * A)) (dpop d k) (filter (λ e, e.1 ≠ k) d).
Proof.
  induction d as [|[k' v] d IH]; [done|]. cbn [dpop fst]. destruct (decide (k = k')) as [->|Hne].
  - rewrite filter_cons_False by (simpl; congruence). exact IH.
  - rewrite filter_cons_True by (simpl; congruence). by f_equal.
Qed.

Lemma session_pops keys s e :
  e ∈ st_sessions (foldl (λ s t, session_pop t s) s keys) ↔ e ∈ st_sessions s ∧ e.1 ∉ keys.
Proof.
  revert s. induction keys as [|k keys IH]; intros s; simpl; [set_solver|].
  rewrite IH. unfold session_pop. simpl. rewrite dpop_filter, list_elem_of_filter. set_solver.
Qed.

Lemma session_remove_if_elem p s e :
  NoDup (dkeys (st_sessions s)) →
  e ∈ st_sessions (session_remove_if p s).1 ↔ e ∈ st_sessions s ∧ p e.2 = false.
Proof.
  intros Hd. unfold session_remove_if. simpl. rewrite session_pops. split; intros [He Hp]; (split; [done|]).
  - destruct (p e.2) eqn:E; [|done]. exfalso. apply Hp. apply list_elem_of_fmap. exists e.
    by rewrite list_elem_of_filter.
  - intros Hin. apply list_elem_of_fmap in Hin as (e' & Heq & He'). apply list_elem_of_filter in He' as [Hp' He'].
    assert (e = e') as <-; [|congruence]. destruct e as [k v], e' as [k' v']. simpl in *. subst k'.
    apply dget_in in He, He'; [|done..]. congruence.
Qed.

(** A session token is accepted from its creation until the time to live has
    passed and never after, a revoked token is refused, and revoking a user ends
    exactly that user's sessions. *)
Theorem session_lifecycle (s : SessionStore) (username role token : string) (now later : Q) :
  NoDup (dkeys (st_sessions s)) →
  let '(s1, r) := session_create username role token now s in
  (session_get token later s1).2 = (if later <=?q (now + inject_Z (st_ttl_seconds s))%Q then Some r else None) ∧
  ss_username r = username ∧ ss_role r ∈ ROLES ∧
  (session_get token later (session_revoke token s1)).2 = None ∧
  NoDup (dkeys (st_sessions s1)) ∧
  (∀ u e, e ∈ st_sessions (revoke_user u s1).1 ↔ e ∈ st_sessions s1 ∧ ss_username e.2 ≠ u) ∧
  (∀ t e, e ∈ st_sessions (prune_expired t s1).1 ↔ e ∈ st_sessions s1 ∧ (t <= ss_expires_at e.2)%Q).
Proof.
  intros Hd. cbn [session_create]. set (r := mkSession _ _ _ _ _).
  set (s1 := mkSessionStore _ (dset _ token r)).
  assert (NoDup (dkeys (st_sessions s1))) as Hd1 by by apply NoDup_dset.
  split_and!; [| |  | |done| |].
  - unfold session_get, s1. simpl. rewrite dget_dset_eq. simpl. unfold Qltb. by destruct (Qle_bool _ _).
  - done.
  - unfold r, normalize_role. simpl. case_decide; [done|]. left.
  - unfold session_get. simpl. by rewrite dget_dpop_eq.
  - intros u e. unfold revoke_user. rewrite session_remove_if_elem by done. by rewrite bool_decide_eq_false.
  - intros t e. unfold prune_expired. rewrite session_remove_if_elem by done. by rewrite Qltb_false.
Qed.

(** ** Witnesses *)
Definition sample_scrypt (pw salt : bytes) (n r p dklen : Z) : result bytes :=
  Ok (take (Z.to_nat dklen) (sha256 (salt ++ pw))).

Lemma password_roundtrip_witness :
  let salt := [1; 2; 3; 200] in
  let d := sha256 (salt ++ utf8_encode "secret") in let a := sha256 (salt ++ utf8_encode "guess") in
  ∃ stored, hash_password sample_scrypt salt "secret" = Ok stored ∧
  verify_password sample_scrypt "guess" stored = Ok (bool_decide (a = d)).
Proof.
  intros salt d a.
  assert (Forall is_byte salt) as H1 by (apply is_bytes_spec; reflexivity).
  assert (Forall is_byte d) as H2 by (apply is_bytes_spec; vm_compute; reflexivity).
  destruct (hash_password sample_scrypt salt "secret") as [stored|] eqn:Hs; [|vm_compute in Hs; discriminate].
  exists stored. split; [reflexivity|].
  refine (password_roundtrip sample_scrypt salt d a "secret" "guess" stored H1 H2 _ _ _ Hs); vm_compute; reflexivity.
Defined.

Lemma session_lifecycle_witness :
  let s := (session_create "bob" "viewer" "t0" 0 new_session_store).1 in
  NoDup (dkeys (st_sessions s)) ∧
  let '(s1, r) := session_create "alice" " ADMIN " "t1" 5 s in
  (session_get "t1" 7 s1).2 = (if 7 <=?q (5 + inject_Z (st_ttl_seconds s))%Q then Some r else None) ∧
  ss_username r = "alice" ∧ ss_role r ∈ ROLES ∧
  (session_get "t1" 7 (session_revoke "t1" s1)).2 = None ∧
  NoDup (dkeys (st_sessions s1)) ∧
  (∀ u e, e ∈ st_sessions (revoke_user u s1).1 ↔ e ∈ st_sessions s1 ∧ ss_username e.2 ≠ u) ∧
  (∀ t e, e ∈ st_sessions (prune_expired t s1).1 ↔ e ∈ st_sessions s1 ∧ (t <= ss_expires_at e.2)%Q).
Proof.
  intros s. assert (NoDup (dkeys (st_sessions s))) as Hd by apply NoDup_singleton.
  split; [exact Hd|]. exact (session_lifecycle s "alice" " ADMIN " "t1" 5 7 Hd).
Defined.
