(* ===== verification/Catalog.v ===== *)
(** [mdrj/event_catalog.py]: the catalogue of event kinds and the collection
    policy.

    The two module globals are the state [Catalog]; the import-time load from
    JSON is [load_from_json] over the candidate files ([None]: no such file,
    [Err]: unreadable or not JSON).  Titles and descriptions outside Latin-1 are
    kept as the UTF-8 text of the source; nothing computes on them. *)
From S2P Require Import Prelude Sha256 Json Models Config JsonText.

Record CatalogEntry := mkEntry { ce_class : EventClass; ce_title : string; ce_payload : odict json }.

Record CatalogMetadata := mkMetadata {
  cm_class : EventClass;
  cm_title : string;
  cm_category : string;
  cm_rationale : string;
  cm_linked_threats : list json;
  cm_added_by : string;
  cm_npa : list json;
  cm_source : string;
  cm_registry_enabled : bool }.

Record Catalog := mkCatalog { cat_events : odict CatalogEntry; cat_metadata : odict CatalogMetadata }.

Section load.
Context `{FloatFormat}.

(** One descriptor of the [events] section; [None] when it is skipped. *)
Definition load_descriptor (kind : string) (descriptor : json) : result (option (CatalogEntry * CatalogMetadata)) :=
  match descriptor with
  | JObj d =>
      match EventClass_from_str (py_str (jget_or d "class" (JStr ""))) with
      | Err _ => Ok None
      | Ok cls =>
          let title := py_str (jget_or d "title" (JStr kind)) in
          let category := py_str (jget_or d "category" (JStr "other")) in
          linked ← py_list (py_or (jget_or d "linked_threats" (JArr [])) (JArr []));
          npa ← py_list (py_or (jget_or d "npa" (JArr [])) (JArr []));
          Ok (Some (mkEntry cls title [("category", JStr category)],
            {| cm_class := cls; cm_title := title; cm_category := category;
               cm_rationale := py_str (jget_or d "rationale" (JStr ""));
               cm_linked_threats := linked;
               cm_added_by := py_str (jget_or d "added_by" (JStr ""));
               cm_npa := npa;
               cm_source := py_str (jget_or d "source" (JStr ""));
               cm_registry_enabled := py_bool (jget_or d "registry_enabled" (JBool true)) |}))
      end
  | _ => Ok None
  end.

Fixpoint load_events (events : list (string * json)) (runtime : odict CatalogEntry) (meta : odict CatalogMetadata)
    : result (odict CatalogEntry * odict CatalogMetadata) :=
  match events with
  | [] => Ok (runtime, meta)
  | (kind, descriptor) :: rest =>
      loaded ← load_descriptor kind descriptor;
      match loaded with
      | None => load_events rest runtime meta
      | Some (e, m) => load_events rest (dset runtime kind e) (dset meta kind m)
      end
  end.

(** The events of the first candidate file that has some, with the metadata. *)
Fixpoint load_from_json (files : list (option (result json))) (meta : odict CatalogMetadata)
    : result (option (odict CatalogEntry) * odict CatalogMetadata) :=
  match files with
  | [] => Ok (None, meta)
  | Some (Ok (JObj data)) :: rest =>
      match jget data "events" with
      | JObj events =>
          '(runtime, meta) ← load_events events [] meta;
          if bool_decide (runtime = []) then load_from_json rest meta else Ok (Some runtime, meta)
      | _ => load_from_json rest meta
      end
  | _ :: rest => load_from_json rest meta
  end.
End load.

Definition EVENT_CATALOG : odict CatalogEntry :=
  [("virus", mkEntry A "Обнаружен вирус на узле"
    [("category", JStr "malware"); ("description", JStr "Обнаружен подозрительный исполняемый файл"); ("severity", JStr "high")]);
   ("admin_login", mkEntry B "Удалённый вход администратора"
    [("category", JStr "authentication"); ("description", JStr "Удалённый вход администратора"); ("source_ip", JStr "192.0.2.15")]);
   ("admin_ssh_login_success", mkEntry A "Успешный административный SSH-вход"
    [("category", JStr "authentication"); ("event_kind", JStr "admin_ssh_login_success"); ("target_service", JStr "sshd"); ("result", JStr "success")]);
   ("admin_login_failure", mkEntry A "Неудачная попытка входа администратора"
    [("category", JStr "authentication"); ("result", JStr "failure")]);
   ("failed_login_burst", mkEntry A "Серия неудачных попыток входа"
    [("category", JStr "authentication"); ("description", JStr "Превышен порог неудачных попыток входа за окно времени")]);
   ("remote_login_rdp", mkEntry B "Удалённый вход через RDP"
    [("category", JStr "authentication"); ("target_service", JStr "rdp")]);
   ("critical_file_modified", mkEntry A "Изменение критического системного файла"
    [("category", JStr "integrity"); ("description", JStr "Зафиксировано изменение файла из списка критических")]);
   ("windows_registry_modified", mkEntry A "Изменение критического ключа реестра Windows"
    [("category", JStr "integrity"); ("description", JStr "Зафиксировано изменение ключа реестра из списка критических")]);
   ("privileged_process_started", mkEntry B "Запуск процесса с повышенными привилегиями"
    [("category", JStr "process"); ("description", JStr "Процесс запущен с EUID=0 или административным токеном")]);
   ("known_malicious_process", mkEntry A "Запуск известного вредоносного процесса"
    [("category", JStr "malware"); ("description", JStr "Имя процесса совпало со списком известных вредоносных")]);
   ("firewall_rule_changed", mkEntry A "Изменение правил межсетевого экрана"
    [("category", JStr "network"); ("description", JStr "Обнаружено изменение конфигурации firewall")]);
   ("iptables_rule_changed", mkEntry A "Изменение правил iptables/nftables"
    [("category", JStr "network"); ("description", JStr "Обнаружено изменение правил iptables/nftables")]);
   ("critical_security_error", mkEntry A "Критическая ошибка подсистемы безопасности"
    [("category", JStr "system"); ("description", JStr "Критическая ошибка ядра/подсистемы безопасности")]);
   ("mac_spoof", mkEntry A "Попытка MAC-spoofing"
    [("category", JStr "network"); ("description", JStr "Попытка подмены MAC-адреса")]);
   ("portscan", mkEntry B "Аномальный порт-скан"
    [("category", JStr "network"); ("description", JStr "Аномальный порт-скан внешним узлом")]);
   ("heartbeat", mkEntry C "Тестовый heartbeat"
    [("category", JStr "diagnostic"); ("description", JStr "Плановый heartbeat от панели мониторинга")]);
   ("mdrj_service_start", mkEntry B "Запуск службы реестра MDRJ-DAG"
    [("category", JStr "service_lifecycle"); ("description", JStr "Узел эмитит это событие при штатном старте службы. Используется в паре с mdrj_service_stop для трассировки непрерывности работы.")]);
   ("mdrj_service_stop", mkEntry B "Корректная остановка службы реестра MDRJ-DAG"
    [("category", JStr "service_lifecycle"); ("description", JStr "Узел эмитит это событие сам перед штатной остановкой. Отсутствие пары stop/start в реестре — улика принудительного прерывания сбора (атака УБИ.124 через kill -9).")]);
   ("mdrj_service_killed", mkEntry A "Подозрительное прерывание службы реестра"
    [("category", JStr "service_lifecycle"); ("description", JStr "Эмитится при следующем старте, если в реестре найден mdrj_service_start без соответствующего mdrj_service_stop. Прямой признак того, что предыдущий процесс был убит (kill -9, OOM, аварийный crash), а не остановлен штатно.")]);
   ("host_boot", mkEntry C "Загрузка операционной системы хоста"
    [("category", JStr "system_lifecycle"); ("description", JStr "Узел фиксирует загрузку операционной системы хоста сразу после своего старта. Каждая загрузка должна оставлять запись в реестре — её отсутствие в подозрительный период есть улика подмены журнала.")]);
   ("host_reboot", mkEntry C "Перезагрузка операционной системы хоста"
    [("category", JStr "system_lifecycle"); ("description", JStr "Эмитится когда коллектор фиксирует резкое обнуление uptime — между двумя соседними poll boot_time изменился. На практике редкое событие: узел переживает перезагрузку только если процесс был перезапущен системным менеджером.")]);
   ("mdrj_tamper_detected", mkEntry A "Зафиксирована подделка реестра по checkpoint"
    [("category", JStr "integrity"); ("description", JStr "Эмитится фоновым _tamper_verify_loop когда verify_checkpoint обнаруживает расхождение local_merkle_root с подтверждённым 2/3 кворумом. Распространяется через ACK-fanout 2/3.")]);
   ("mdrj_event_replication_failed", mkEntry B "Класс A не достиг 2/3 кворума при эмиссии"
    [("category", JStr "replication"); ("description", JStr "Эмитится при неудаче ACK-fanout: класс A не подтверждён ≥ 2/3 пиров. Само событие остаётся в _pending для длинной gossip-синхронизации.")]);
   ("node_hourly_status", mkEntry B "Часовой диагностический снимок узла"
    [("category", JStr "diagnostic"); ("description", JStr "Раз в час узел эмитит событие с агрегированным состоянием за окно: uptime процесса и хоста, перечень включённых коллекторов с их emitted_count/last_poll/last_error, разбивку событий по классам A/B/C за окно, RSS, load_avg, последний confirmed checkpoint. Замена частого heartbeat: даёт оператору криминалистически ценный снимок вместо 12 пустых маячков в час. Пропуск > interval × 1.5 = улика прерывания сбора (Слой 2 защиты от УБИ.124).")]);
   ("privilege_escalation", mkEntry A "Повышение привилегий (sudo/su/pkexec)"
    [("category", JStr "authentication")]);
   ("user_account_created", mkEntry A "Создание/удаление учётной записи"
    [("category", JStr "account_management")]);
   ("privileged_group_change", mkEntry A "Изменение привилегированных групп"
    [("category", JStr "account_management")]);
   ("audit_config_changed", mkEntry A "Изменение настроек подсистемы аудита"
    [("category", JStr "integrity")]);
   ("log_cleared", mkEntry A "Очистка журналов"
    [("category", JStr "integrity")]);
   ("system_time_changed", mkEntry B "Изменение системного времени"
    [("category", JStr "integrity")]);
   ("external_media_mount", mkEntry B "Подключение внешнего носителя"
    [("category", JStr "device")]);
   ("security_service_failure", mkEntry A "Сбой/отказ службы безопасности"
    [("category", JStr "system")]);
   ("mdrj_collection_policy_changed", mkEntry A "Изменение политики сбора событий"
    [("category", JStr "integrity")])].

(** The module after its import. *)
Definition import_catalog `{FloatFormat} (files : list (option (result json))) : result Catalog :=
  '(runtime, meta) ← load_from_json files [];
  Ok (mkCatalog (default EVENT_CATALOG runtime) meta).

Definition is_known_event_kind (kind : string) (c : Catalog) : bool := bool_decide (kind ∈ dkeys (cat_events c)).

Definition event_class_for (kind : string) (c : Catalog) : result EventClass :=
  match dget (cat_events c) kind with
  | Some e => Ok (ce_class e)
  | None => Err (KeyError kind)
  end.

Definition catalog_title_for (kind : string) (c : Catalog) : result string :=
  match dget (cat_events c) kind with
  | Some e => Ok (ce_title e)
  | None => Err (KeyError kind)
  end.

Definition event_metadata (kind : string) (c : Catalog) : option CatalogMetadata := dget (cat_metadata c) kind.

Definition registry_enabled_for (kind : string) (c : Catalog) : bool :=
  match dget (cat_metadata c) kind with
  | None => true
  | Some m => cm_registry_enabled m
  end.

Definition with_registry_enabled (m : CatalogMetadata) (enabled : bool) : CatalogMetadata :=
  mkMetadata (cm_class m) (cm_title m) (cm_category m) (cm_rationale m) (cm_linked_threats m)
    (cm_added_by m) (cm_npa m) (cm_source m) enabled.

Definition set_registry_enabled (kind : string) (enabled : bool) (c : Catalog) : Catalog * bool :=
  match dget (cat_metadata c) kind with
  | None => (c, false)
  | Some m => (mkCatalog (cat_events c) (dset (cat_metadata c) kind (with_registry_enabled m enabled)), true)
  end.

Definition policy_pairs (c : Catalog) : list (string * bool) :=
  (λ p : string * CatalogMetadata, (p.1, cm_registry_enabled p.2)) <$> cat_metadata c.
(** [sorted((kind, enabled) for ...)] *)
Definition policy_items (c : Catalog) : list (string * bool) :=
  sort_on (λ p : string * bool, (p.1, Z.b2z p.2)) (cmp_pair String.compare Z.compare)
    (policy_pairs c).
Definition policy_item_text (p : string * bool) : string := p.1 +:+ "=" +:+ py_str_int (Z.b2z p.2).
Definition policy_text (c : Catalog) : string := py_join ";" (policy_item_text <$> policy_items c).
Definition policy_message (c : Catalog) : bytes := utf8_encode (policy_text c).
Definition collection_policy_hash (c : Catalog) : string := sha256_hex (policy_message c).

(** ** Theorems *)
Lemma policy_keys c1 c2 :
  dkeys (cat_metadata c1) = dkeys (cat_metadata c2) → NoDup (dkeys (cat_metadata c1)) →
  (policy_items c1).*1 = (policy_items c2).*1.
Proof.
  intros Heq Hd.
  assert (∀ c, StronglySorted (λ a b, String.compare a b ≠ Gt) (policy_items c).*1) as Hs.
  { intros c. unfold policy_items.
    pose proof (sort_on_sorted (λ p : string * bool, (p.1, Z.b2z p.2)) (cmp_pair String.compare Z.compare)
      (policy_pairs c)) as Hs.
    induction Hs as [|x l Hs IH Hx]; simpl; constructor; [done|]. apply Forall_fmap. eapply Forall_impl; [exact Hx|].
    intros y Hy. simpl in *. unfold cmp_pair, cmp_then in Hy. simpl in Hy. by destruct (String.compare x.1 y.1). }
  assert (∀ c, (policy_items c).*1 ≡ₚ dkeys (cat_metadata c)) as Hp.
  { intros c. unfold policy_items, policy_pairs. rewrite sort_on_perm. rewrite <- list_fmap_compose. done. }
  apply (StronglySorted_unique_strong (λ a b, String.compare a b ≠ Gt)); [|apply Hs..|].
  - intros a b _ _ H1 H2. apply string_leb_antisym; unfold string_leb, String.leb.
    + by destruct (String.compare a b).
    + by destruct (String.compare b a).
  - by rewrite !Hp, Heq.
Qed.

Lemma policy_item_split k b1 b2 r1 r2 :
  policy_item_text (k, b1) +:+ r1 = policy_item_text (k, b2) +:+ r2 → b1 = b2 ∧ r1 = r2.
Proof.
  unfold policy_item_text. cbn [fst snd]. rewrite <- !string_app_assoc. intros Ht. do 2 apply string_app_inj_l in Ht.
  destruct b1, b2; try discriminate; (split; [done|]).
  - exact (string_app_inj_l "1" _ _ Ht).
  - exact (string_app_inj_l "0" _ _ Ht).
Qed.

Lemma string_app_nil (a : string) : a = a +:+ "".
Proof. induction a as [|x a IH]; [done|]. exact (f_equal (String x) IH). Qed.

Lemma policy_text_inj (l1 l2 : list (string * bool)) :
  l1.*1 = l2.*1 →
  py_join ";" (policy_item_text <$> l1) = py_join ";" (policy_item_text <$> l2) → l1 = l2.
Proof.
  revert l2. induction l1 as [|[k1 b1] l1 IH]; intros [|[k2 b2] l2]; try done. intros [= -> Hk].
  destruct l1 as [|p1 l1], l2 as [|p2 l2]; try done; cbn [fmap list_fmap py_join].
  - rewrite (string_app_nil (policy_item_text (k2, b1))), (string_app_nil (policy_item_text (k2, b2))).
    intros [-> _]%policy_item_split. done.
  - intros [-> Ht]%policy_item_split. apply (string_app_inj_l ";") in Ht. f_equal. apply IH; [done|exact Ht].
Qed.

Lemma policy_items_spec c k b :
  (k, b) ∈ policy_items c ↔ ∃ m, (k, m) ∈ cat_metadata c ∧ b = cm_registry_enabled m.
Proof.
  unfold policy_items, policy_pairs. rewrite sort_on_perm, list_elem_of_fmap. split.
  - intros ([k' m] & [= -> ->] & Hm). by exists m.
  - intros (m & Hm & ->). by exists (k, m).
Qed.

(** Two catalogues over the same kinds have the same policy text exactly when they
    enable the same kinds. *)
Lemma policy_text_iff c1 c2 :
  dkeys (cat_metadata c1) = dkeys (cat_metadata c2) → NoDup (dkeys (cat_metadata c1)) →
  (policy_text c1 = policy_text c2 ↔ ∀ k, registry_enabled_for k c1 = registry_enabled_for k c2).
Proof.
  intros Hk Hd. assert (NoDup (dkeys (cat_metadata c2))) as Hd2 by by rewrite <- Hk.
  assert (∀ c k m, NoDup (dkeys (cat_metadata c)) → (k, m) ∈ cat_metadata c →
    registry_enabled_for k c = cm_registry_enabled m) as Hreg.
  { intros c k m Hnd Hin. unfold registry_enabled_for. by rewrite (dget_in _ k m). }
  split.
  - intros Ht%policy_text_inj; [|by apply policy_keys]. intros k. unfold registry_enabled_for at 1.
    destruct (dget (cat_metadata c1) k) as [m|] eqn:Hm.
    + apply dget_Some_in in Hm.
      assert ((k, cm_registry_enabled m) ∈ policy_items c1) as Hi by (apply policy_items_spec; eauto).
      rewrite Ht in Hi. apply policy_items_spec in Hi as (m' & Hm' & ->). symmetry. by apply Hreg.
    + unfold registry_enabled_for. apply dget_None in Hm. rewrite Hk in Hm. apply dget_None in Hm. by rewrite Hm.
  - intros Hall. unfold policy_text. f_equal. f_equal.
    unfold policy_items. apply sort_on_perm_eq.
    + apply _.
    + assert (∀ c, NoDup (dkeys (cat_metadata c)) →
        policy_pairs c = (λ k, (k, registry_enabled_for k c)) <$> dkeys (cat_metadata c)) as Hrw.
      { intros c Hnd. unfold dkeys, policy_pairs. rewrite <- list_fmap_compose. apply list_fmap_ext. intros i [k m] Hi. simpl.
        f_equal. symmetry. apply Hreg; [done|]. by eapply list_elem_of_lookup_2. }
      rewrite !Hrw by done. rewrite <- Hk. apply Permutation_refl', list_fmap_ext. intros i k _. by rewrite Hall.
    + intros [k b] [k' b'] _ _. unfold cmp_pair, cmp_then. simpl.
      destruct (String.compare k k') eqn:E; try done. apply String.compare_eq_iff in E as ->.
      destruct b, b'; done.
Qed.

Lemma set_policy_keys kind enabled c :
  dkeys (cat_metadata (set_registry_enabled kind enabled c).1) = dkeys (cat_metadata c).
Proof.
  unfold set_registry_enabled. destruct (dget _ kind) eqn:Hm; [|done]. simpl. rewrite dkeys_dset.
  rewrite decide_True; [done|]. apply dget_Some_in in Hm. by apply (list_elem_of_fmap_2 fst) in Hm.
Qed.

(** The collection policy is tamper evident: setting the policy of a known kind
    is visible to [registry_enabled_for] and to no other kind, an unknown kind is
    refused, and a change of any kind's policy changes the policy hash (unless
    SHA-256 collides on the two policies). *)
Theorem policy_change_visible (c : Catalog) (kind : string) (enabled : bool) :
  NoDup (dkeys (cat_metadata c)) →
  let '(c', applied) := set_registry_enabled kind enabled c in
  applied = bool_decide (kind ∈ dkeys (cat_metadata c)) ∧
  (applied = true → registry_enabled_for kind c' = enabled) ∧
  (applied = false → c' = c) ∧
  (∀ k, k ≠ kind → registry_enabled_for k c' = registry_enabled_for k c) ∧
  (collision_free [policy_message c; policy_message c'] →
   (collection_policy_hash c' = collection_policy_hash c ↔
    ∀ k, registry_enabled_for k c' = registry_enabled_for k c)).
Proof.
  intros Hd. pose proof (set_policy_keys kind enabled c) as Hk.
  destruct (set_registry_enabled kind enabled c) as [c' applied] eqn:Hset. simpl in Hk.
  assert (collision_free [policy_message c; policy_message c'] →
    (collection_policy_hash c' = collection_policy_hash c ↔ ∀ k, registry_enabled_for k c' = registry_enabled_for k c)) as Hhash.
  { intros Hcf. rewrite <- policy_text_iff by (rewrite ?Hk; done). unfold collection_policy_hash. split.
    - intros Heq. apply (inj utf8_encode). apply Hcf; [right; left|left|exact Heq].
    - intros Heq. unfold policy_message. by rewrite Heq. }
  unfold set_registry_enabled in Hset. destruct (dget (cat_metadata c) kind) as [m|] eqn:Hm; injection Hset as <- <-.
  - split_and!; [| |done| |exact Hhash].
    + rewrite bool_decide_true; [done|]. apply dget_Some_in in Hm. by apply (list_elem_of_fmap_2 fst) in Hm.
    + intros _. unfold registry_enabled_for. simpl. by rewrite dget_dset_eq.
    + intros k Hne. unfold registry_enabled_for. simpl. by rewrite dget_dset_ne.
  - split_and!; [|done|done|done|exact Hhash]. rewrite bool_decide_false; [done|]. by apply dget_None.
Qed.

Definition sample_metadata : CatalogMetadata := mkMetadata A "t" "c" "" [] "" [] "" true.
Definition sample_catalog : Catalog :=
  mkCatalog EVENT_CATALOG [("virus", sample_metadata); ("portscan", sample_metadata)].

Lemma policy_change_visible_witness :
  NoDup (dkeys (cat_metadata sample_catalog)) ∧
  let '(c', applied) := set_registry_enabled "portscan" false sample_catalog in
  applied = bool_decide ("portscan" ∈ dkeys (cat_metadata sample_catalog)) ∧
  (applied = true → registry_enabled_for "portscan" c' = false) ∧
  (applied = false → c' = sample_catalog) ∧
  (∀ k, k ≠ "portscan" → registry_enabled_for k c' = registry_enabled_for k sample_catalog) ∧
  (collision_free [policy_message sample_catalog; policy_message c'] →
   (collection_policy_hash c' = collection_policy_hash sample_catalog ↔
    ∀ k, registry_enabled_for k c' = registry_enabled_for k sample_catalog)).
Proof.
  assert (NoDup (dkeys (cat_metadata sample_catalog))) as Hd by (apply (bool_decide_unpack _); vm_compute; exact I).
  split; [exact Hd|]. exact (policy_change_visible sample_catalog "portscan" false Hd).
Defined.

(** The fallback catalogue knows each kind once. *)
Example fallback_kinds : NoDup (dkeys EVENT_CATALOG) ∧ length EVENT_CATALOG = 33%nat.
Proof. split; [apply (bool_decide_unpack _); vm_compute; exact I|reflexivity]. Qed.
