(* ===== verification/Node.v ===== *)
(** [mdrj/node.py], part 1: the state of a node, its peers, users and the
    consensus membership.

    - [Node] holds the attributes of the Python object that its operations read
      and write.  A method is a computation of the state and error monad
      [NodeM]: an exception keeps the state reached so far.
    - asyncio: the tasks a method schedules are entries of [n_tasks]; running one
      is a transition of its own.  [n_loop] says whether the event loop is
      running.  The stop events and task handles of the background loops carry no
      data and are not in the state, those of the demo generator apart.
    - [time.time()], [random.choice], [os.urandom], the process figures and the
      answers of the network are arguments. *)
From S2P Require Import Prelude Sha256 Json VectorClock Models Consensus Storage Config Metrics Gossip Auth Catalog.

Inductive NodeState := STARTED | ISOLATED | MERGING | RUN.

(** The counters of the Prometheus exporter. *)
Record Counters := mkCounters {
  k_events_by_class_kind : list ((string * string) * Z);
  k_service_started : Z;
  k_service_stopped : Z;
  k_service_killed : Z;
  k_host_boot : Z;
  k_host_reboot : Z;
  k_checkpoint_confirmed : Z;
  k_class_a_durable : Z;
  k_class_a_local_only : Z;
  k_frontier_sync_pulls : Z;
  k_tamper_alerts : Z;
  k_heartbeat_emitted : Z }.
Definition zero_counters : Counters := mkCounters [] 0 0 0 0 0 0 0 0 0 0 0.

Inductive Task :=
  | FanoutCritical (event_id : string)
  | NotifyEvent (event : Event)
  | DebouncedRecompute.

(** The demo generator: its task ([Some None] while it runs, [Some (Some r)] when it is
    done), the event that stops it and the token of the last command. *)
Record Simulation := mkSimulation { sm_task : option (option (result unit)); sm_stop : bool; sm_token : json }.
Definition new_simulation : Simulation := mkSimulation None true JNull.

Record Node := mkNode {
  n_config : NodeConfig;
  n_db : DB;
  n_vclock : VectorClock;
  n_metrics : MetricsEngine;
  n_peers : odict PeerInfo;
  n_anchors : list string;
  n_gossip : option Gossip;
  n_loop : bool;
  n_subscribers : list (list json);
  n_clear_tokens : odict pyfloat;
  n_mismatch : odict Z;
  n_genesis_counter : Z;
  n_membership : option (odict json);
  n_sessions : SessionStore;
  n_counters : Counters;
  n_recompute_dirty : bool;
  n_tamper_evidence : bool;
  n_catalog : Catalog;
  n_tasks : list Task;
  n_simulation : Simulation }.

Definition set_n_db (v : DB) (n : Node) : Node :=
  mkNode (n_config n) v (n_vclock n) (n_metrics n) (n_peers n) (n_anchors n) (n_gossip n) (n_loop n)
    (n_subscribers n) (n_clear_tokens n) (n_mismatch n) (n_genesis_counter n) (n_membership n) (n_sessions n)
    (n_counters n) (n_recompute_dirty n) (n_tamper_evidence n) (n_catalog n) (n_tasks n) (n_simulation n).
Definition set_n_vclock (v : VectorClock) (n : Node) : Node :=
  mkNode (n_config n) (n_db n) v (n_metrics n) (n_peers n) (n_anchors n) (n_gossip n) (n_loop n) (n_subscribers
    n) (n_clear_tokens n) (n_mismatch n) (n_genesis_counter n) (n_membership n) (n_sessions n) (n_counters n)
    (n_recompute_dirty n) (n_tamper_evidence n) (n_catalog n) (n_tasks n) (n_simulation n).
Definition set_n_metrics (v : MetricsEngine) (n : Node) : Node :=
  mkNode (n_config n) (n_db n) (n_vclock n) v (n_peers n) (n_anchors n) (n_gossip n) (n_loop n) (n_subscribers
    n) (n_clear_tokens n) (n_mismatch n) (n_genesis_counter n) (n_membership n) (n_sessions n) (n_counters n)
    (n_recompute_dirty n) (n_tamper_evidence n) (n_catalog n) (n_tasks n) (n_simulation n).
Definition set_n_peers (v : odict PeerInfo) (n : Node) : Node :=
  mkNode (n_config n) (n_db n) (n_vclock n) (n_metrics n) v (n_anchors n) (n_gossip n) (n_loop n) (n_subscribers
    n) (n_clear_tokens n) (n_mismatch n) (n_genesis_counter n) (n_membership n) (n_sessions n) (n_counters n)
    (n_recompute_dirty n) (n_tamper_evidence n) (n_catalog n) (n_tasks n) (n_simulation n).
Definition set_n_anchors (v : list string) (n : Node) : Node :=
  mkNode (n_config n) (n_db n) (n_vclock n) (n_metrics n) (n_peers n) v (n_gossip n) (n_loop n) (n_subscribers
    n) (n_clear_tokens n) (n_mismatch n) (n_genesis_counter n) (n_membership n) (n_sessions n) (n_counters n)
    (n_recompute_dirty n) (n_tamper_evidence n) (n_catalog n) (n_tasks n) (n_simulation n).
Definition set_n_gossip (v : option Gossip) (n : Node) : Node :=
  mkNode (n_config n) (n_db n) (n_vclock n) (n_metrics n) (n_peers n) (n_anchors n) v (n_loop n) (n_subscribers
    n) (n_clear_tokens n) (n_mismatch n) (n_genesis_counter n) (n_membership n) (n_sessions n) (n_counters n)
    (n_recompute_dirty n) (n_tamper_evidence n) (n_catalog n) (n_tasks n) (n_simulation n).
Definition set_n_loop (v : bool) (n : Node) : Node :=
  mkNode (n_config n) (n_db n) (n_vclock n) (n_metrics n) (n_peers n) (n_anchors n) (n_gossip n) v
    (n_subscribers n) (n_clear_tokens n) (n_mismatch n) (n_genesis_counter n) (n_membership n) (n_sessions n)
    (n_counters n) (n_recompute_dirty n) (n_tamper_evidence n) (n_catalog n) (n_tasks n) (n_simulation n).
Definition set_n_subscribers (v : list (list json)) (n : Node) : Node :=
  mkNode (n_config n) (n_db n) (n_vclock n) (n_metrics n) (n_peers n) (n_anchors n) (n_gossip n) (n_loop n) v
    (n_clear_tokens n) (n_mismatch n) (n_genesis_counter n) (n_membership n) (n_sessions n) (n_counters n)
    (n_recompute_dirty n) (n_tamper_evidence n) (n_catalog n) (n_tasks n) (n_simulation n).
Definition set_n_clear_tokens (v : odict pyfloat) (n : Node) : Node :=
  mkNode (n_config n) (n_db n) (n_vclock n) (n_metrics n) (n_peers n) (n_anchors n) (n_gossip n) (n_loop n)
    (n_subscribers n) v (n_mismatch n) (n_genesis_counter n) (n_membership n) (n_sessions n) (n_counters n)
    (n_recompute_dirty n) (n_tamper_evidence n) (n_catalog n) (n_tasks n) (n_simulation n).
Definition set_n_mismatch (v : odict Z) (n : Node) : Node :=
  mkNode (n_config n) (n_db n) (n_vclock n) (n_metrics n) (n_peers n) (n_anchors n) (n_gossip n) (n_loop n)
    (n_subscribers n) (n_clear_tokens n) v (n_genesis_counter n) (n_membership n) (n_sessions n) (n_counters n)
    (n_recompute_dirty n) (n_tamper_evidence n) (n_catalog n) (n_tasks n) (n_simulation n).
Definition set_n_genesis_counter (v : Z) (n : Node) : Node :=
  mkNode (n_config n) (n_db n) (n_vclock n) (n_metrics n) (n_peers n) (n_anchors n) (n_gossip n) (n_loop n)
    (n_subscribers n) (n_clear_tokens n) (n_mismatch n) v (n_membership n) (n_sessions n) (n_counters n)
    (n_recompute_dirty n) (n_tamper_evidence n) (n_catalog n) (n_tasks n) (n_simulation n).
Definition set_n_membership (v : option (odict json)) (n : Node) : Node :=
  mkNode (n_config n) (n_db n) (n_vclock n) (n_metrics n) (n_peers n) (n_anchors n) (n_gossip n) (n_loop n)
    (n_subscribers n) (n_clear_tokens n) (n_mismatch n) (n_genesis_counter n) v (n_sessions n) (n_counters n)
    (n_recompute_dirty n) (n_tamper_evidence n) (n_catalog n) (n_tasks n) (n_simulation n).
Definition set_n_sessions (v : SessionStore) (n : Node) : Node :=
  mkNode (n_config n) (n_db n) (n_vclock n) (n_metrics n) (n_peers n) (n_anchors n) (n_gossip n) (n_loop n)
    (n_subscribers n) (n_clear_tokens n) (n_mismatch n) (n_genesis_counter n) (n_membership n) v (n_counters n)
    (n_recompute_dirty n) (n_tamper_evidence n) (n_catalog n) (n_tasks n) (n_simulation n).
Definition set_n_counters (v : Counters) (n : Node) : Node :=
  mkNode (n_config n) (n_db n) (n_vclock n) (n_metrics n) (n_peers n) (n_anchors n) (n_gossip n) (n_loop n)
    (n_subscribers n) (n_clear_tokens n) (n_mismatch n) (n_genesis_counter n) (n_membership n) (n_sessions n) v
    (n_recompute_dirty n) (n_tamper_evidence n) (n_catalog n) (n_tasks n) (n_simulation n).
Definition set_n_recompute_dirty (v : bool) (n : Node) : Node :=
  mkNode (n_config n) (n_db n) (n_vclock n) (n_metrics n) (n_peers n) (n_anchors n) (n_gossip n) (n_loop n)
    (n_subscribers n) (n_clear_tokens n) (n_mismatch n) (n_genesis_counter n) (n_membership n) (n_sessions n)
    (n_counters n) v (n_tamper_evidence n) (n_catalog n) (n_tasks n) (n_simulation n).
Definition set_n_tamper_evidence (v : bool) (n : Node) : Node :=
  mkNode (n_config n) (n_db n) (n_vclock n) (n_metrics n) (n_peers n) (n_anchors n) (n_gossip n) (n_loop n)
    (n_subscribers n) (n_clear_tokens n) (n_mismatch n) (n_genesis_counter n) (n_membership n) (n_sessions n)
    (n_counters n) (n_recompute_dirty n) v (n_catalog n) (n_tasks n) (n_simulation n).
Definition set_n_catalog (v : Catalog) (n : Node) : Node :=
  mkNode (n_config n) (n_db n) (n_vclock n) (n_metrics n) (n_peers n) (n_anchors n) (n_gossip n) (n_loop n)
    (n_subscribers n) (n_clear_tokens n) (n_mismatch n) (n_genesis_counter n) (n_membership n) (n_sessions n)
    (n_counters n) (n_recompute_dirty n) (n_tamper_evidence n) v (n_tasks n) (n_simulation n).
Definition set_n_tasks (v : list Task) (n : Node) : Node :=
  mkNode (n_config n) (n_db n) (n_vclock n) (n_metrics n) (n_peers n) (n_anchors n) (n_gossip n) (n_loop n)
    (n_subscribers n) (n_clear_tokens n) (n_mismatch n) (n_genesis_counter n) (n_membership n) (n_sessions n)
    (n_counters n) (n_recompute_dirty n) (n_tamper_evidence n) (n_catalog n) v (n_simulation n).
Definition set_n_simulation (v : Simulation) (n : Node) : Node :=
  mkNode (n_config n) (n_db n) (n_vclock n) (n_metrics n) (n_peers n) (n_anchors n) (n_gossip n) (n_loop n)
    (n_subscribers n) (n_clear_tokens n) (n_mismatch n) (n_genesis_counter n) (n_membership n) (n_sessions n)
    (n_counters n) (n_recompute_dirty n) (n_tamper_evidence n) (n_catalog n) (n_tasks n) v.

(** ** The monad *)
Definition NodeM (X : Type) : Type := Node → Node * result X.
#[export] Instance nodem_ret : MRet NodeM := λ X x n, (n, Ok x).
#[export] Instance nodem_bind : MBind NodeM := λ X Y f m n,
  match m n with
  | (n, Ok x) => f x n
  | (n, Err e) => (n, Err e)
  end.
Definition get_node : NodeM Node := λ n, (n, Ok n).
Definition gets {X} (f : Node → X) : NodeM X := λ n, (n, Ok (f n)).
Definition modify (f : Node → Node) : NodeM unit := λ n, (f n, Ok tt).
Definition raise {X} (e : exn) : NodeM X := λ n, (n, Err e).
Definition lift {X} (r : result X) : NodeM X := λ n, (n, r).
(** [try: m / except Exception: h] *)
Definition try_with {X} (m : NodeM X) (h : exn → NodeM X) : NodeM X := λ n,
  match m n with
  | (n, Err e) => h e n
  | r => r
  end.
Definition update_db (f : DB → DB) : NodeM unit := modify (λ n, set_n_db (f (n_db n)) n).
Definition update_metrics (f : MetricsEngine → MetricsEngine) : NodeM unit :=
  modify (λ n, set_n_metrics (f (n_metrics n)) n).
Fixpoint forM {X} (l : list X) (f : X → NodeM unit) : NodeM unit :=
  match l with
  | [] => mret tt
  | x :: l' => f x ;; forM l' f
  end.

(** [self._gossip.add_pending(event_id)] *)
Definition gossip_add_pending (event_id : string) : NodeM unit := λ n,
  match n_gossip n with
  | Some g => (set_n_gossip (Some (add_pending event_id g)) n, Ok tt)
  | None => (n, Err (OtherError "AttributeError"))
  end.
(** [if self._gossip: self._gossip.add_pending(event_id)] *)
Definition gossip_offer (event_id : string) (n : Node) : Node :=
  match n_gossip n with
  | Some g => set_n_gossip (Some (add_pending event_id g)) n
  | None => n
  end.
Definition schedule (t : Task) (n : Node) : Node := set_n_tasks (n_tasks n ++ [t]) n.

Definition node_id (n : Node) : string := cfg_node_id (n_config n).
Definition host_id (n : Node) : string := str_or_opt (li_host_id (cfg_linux_ingest (n_config n))) (node_id n).
Definition self_registry_address (n : Node) : string := "self:" +:+ node_id n.

Section node.
Context `{FloatFormat}.

(** ** Peers *)
Definition node_list_peers (n : Node) : list PeerInfo := dvalues (n_peers n).

Definition gossip_allowed (p : PeerInfo) : bool :=
  pi_enabled p && negb (pi_is_self p) && bool_decide (pi_approval_status p = PEER_APPROVAL_APPROVED).

Definition active_peers (db : DB) : odict PeerInfo :=
  foldl (λ active p, if gossip_allowed p then dset active (pi_address p) p else active) [] (list_peers db).
Definition reload_peers_from_storage (n : Node) : Node := set_n_peers (active_peers (n_db n)) n.

Definition current_role (n : Node) : string :=
  match List.find pi_is_self (list_peers (n_db n)) with
  | Some p => normalize_node_role (JStr (pi_role p))
  | None => normalize_node_role (JStr (profile_role (cfg_profile (n_config n))))
  end.

Definition quorum (n : Node) : Z :=
  Z.max 1 ((Z.of_nat (length (n_peers n)) + 1) / 2 + 1).

(** [self.metrics.update_peer_health(self.list_peers(), self._quorum())] *)
Definition refresh_health (n : Node) : Node :=
  set_n_metrics (update_peer_health (node_list_peers n) (quorum n) (n_metrics n)) n.

(** The tail of [approve_peer], [reject_peer], [update_peer] and [remove_peer]. *)
Definition reload_and_refresh (n : Node) : Node := refresh_health (reload_peers_from_storage n).

Definition with_source (p : PeerInfo) (source : string) : PeerInfo :=
  mkPeer (pi_address p) (pi_node_id p) (pi_last_seen p) (pi_healthy p) (pi_enabled p) (pi_note p) source
    (pi_role p) (pi_is_self p) (pi_approval_status p).

Definition default_approval (source : string) (approval_status : option string) : string :=
  match approval_status with
  | Some a => a
  | None => if decide (source ∈ ["mdns"; "k8s"]) then PEER_APPROVAL_PENDING else PEER_APPROVAL_APPROVED
  end.

Definition register_peer (now : Q) (address note source role peer_node_id : string) (approval_status : option string)
    : NodeM unit :=
  let approval := default_approval source approval_status in
  n ← get_node;
  let db := (ensure_peer address peer_node_id (Some now) true true note source role approval (n_db n)).1 in
  let '(db, peer) := update_peer address (Some true) (Some note) (Some now) (Some true) (Some role)
                       (Some peer_node_id) (Some approval) db in
  modify (set_n_db db);;
  match peer with
  | None => mret tt
  | Some peer =>
      let peer := with_source peer source in
      let approved := bool_decide (pi_approval_status peer = PEER_APPROVAL_APPROVED) in
      modify (λ n, if approved then set_n_peers (dset (n_peers n) address peer) n else n);;
      modify refresh_health;;
      n ← get_node;
      if bool_decide (is_Some (n_gossip n)) && approved then
        events ← lift (list_events 256 None (n_db n));
        forM events (λ e, gossip_add_pending (ev_id e))
      else mret tt
  end.

Definition set_approval (status address : string) (n : Node) : Node * option PeerInfo :=
  let '(db, peer) := update_peer address None None None None None None (Some status) (n_db n) in
  (reload_and_refresh (set_n_db db n), peer).
Definition approve_peer : string → Node → Node * option PeerInfo := set_approval PEER_APPROVAL_APPROVED.
Definition reject_peer : string → Node → Node * option PeerInfo := set_approval PEER_APPROVAL_REJECTED.

Definition node_update_peer (now : Q) (address : string) (enabled : option bool) (note role peer_node_id approval_status : option string)
    (n : Node) : Node * option PeerInfo :=
  let '(db, peer) :=
    if decide (address = self_registry_address n) then
      update_peer address (Some true) note (Some now) (Some true) role (Some (node_id n)) approval_status (n_db n)
    else update_peer address enabled note None None role peer_node_id approval_status (n_db n) in
  (reload_and_refresh (set_n_db db n), peer).

Definition remove_peer (address : string) (n : Node) : Node :=
  if decide (address = self_registry_address n) then n
  else reload_and_refresh (set_n_db (delete_peer address (n_db n)) n).

(** The discovery callback; an exception of [register_peer] is logged. *)
Definition on_discovered_peer (now : Q) (address peer_node_id source : string) : NodeM unit :=
  n ← get_node;
  if bool_decide (address ∈ pi_address <$> list_peers (n_db n)) then mret tt
  else
    let status := if dc_auto_approve_discovered (cfg_discovery (n_config n))
                  then PEER_APPROVAL_APPROVED else PEER_APPROVAL_PENDING in
    try_with (register_peer now address "" source NODE_ROLE_NODE peer_node_id (Some status)) (λ _, mret tt).

(** ** Users *)
Section users.
Context (scrypt : bytes → bytes → Z → Z → Z → Z → result bytes).

Definition add_user (now : Q) (salt : bytes) (username password role : string) : NodeM (string * string) :=
  let normalized := py_lower (py_strip username) in
  if decide (normalized = "") then raise (ValueError "username required")
  else
    let normalized_role := normalize_role role in
    password_hash ← lift (hash_password scrypt salt password);
    update_db (upsert_user now normalized password_hash normalized_role);;
    mret (normalized, normalized_role).

Definition remove_user (username : string) (n : Node) : Node * bool :=
  let normalized := py_lower (py_strip username) in
  let '(db, removed) := delete_user normalized (n_db n) in
  let n := set_n_db db n in
  (if removed then set_n_sessions (revoke_user normalized (n_sessions n)).1 n else n, removed).

Definition authenticate (username password : string) (n : Node) : result (option UserRow) :=
  match get_user (py_lower (py_strip username)) (n_db n) with
  | None => Ok None
  | Some record =>
      ok ← verify_password scrypt password (us_password_hash record);
      Ok (if (ok : bool) then Some record else None)
  end.
End users.

(** ** Consensus membership *)
Definition registry_entry (acc : list MembershipEntry) (p : PeerInfo) : list MembershipEntry :=
  let peer_id := py_strip (pi_node_id p) in
  if negb (pi_enabled p) && negb (pi_is_self p) then acc
  else if decide (peer_id = "" ∨ peer_id ∈ me_node_id <$> acc) then acc
  else acc ++ [mkMember peer_id (pi_address p) (pi_role p) (pi_is_self p)].

Definition membership_entries_from_registry (n : Node) : list MembershipEntry :=
  let entries := foldl registry_entry [] (list_peers (n_db n)) in
  let entries := if decide (node_id n ∈ me_node_id <$> entries) then entries
                 else entries ++ [mkMember (node_id n) (self_registry_address n) (current_role n) true] in
  sort_on me_node_id String.compare entries.

Definition snapshot_to_dict (s : MembershipSnapshot) : odict json :=
  [("epoch", JInt (ms_epoch s)); ("members", JArr (membership_entry_json <$> ms_members s));
   ("membership_snapshot_hash", JStr (ms_hash s)); ("membership_size", JInt (ms_size s))].

(** [status_of address]: the JSON body of a 2xx answer to GET /status. *)
Definition hydrate_one (now : Q) (status_of : string → option json) (p : PeerInfo) : NodeM unit :=
  if decide (pi_node_id p ≠ "") then mret tt
  else match status_of (pi_address p) with
       | None => mret tt
       | Some payload =>
           d ← lift (as_obj payload);
           let remote := py_strip (py_str (py_or (jget d "node_id") (JStr ""))) in
           if decide (remote = "") then mret tt
           else update_db (λ db, (update_peer (pi_address p) None None (Some now) (Some true) None
                                    (Some remote) None db).1)
       end.

Definition hydrate_peer_node_ids (now : Q) (status_of : string → option json) : NodeM unit :=
  n ← get_node;
  forM (filter (λ p, negb (pi_is_self p) && pi_enabled p = true) (list_peers (n_db n))) (hydrate_one now status_of);;
  modify reload_peers_from_storage.

(** [snapshot or None]: an empty dict counts as missing. *)
Definition stored_snapshot (db : DB) : option (odict json) :=
  match get_consensus_membership_snapshot db with
  | Some (p :: d) => Some (p :: d)
  | _ => None
  end.
Definition cached_snapshot (n : Node) : option (odict json) :=
  match n_membership n with
  | Some (p :: d) => Some (p :: d)
  | _ => stored_snapshot (n_db n)
  end.

Definition save_snapshot (epoch : Z) (n : Node) : Node * odict json :=
  let snapshot := snapshot_to_dict (membership_snapshot epoch (membership_entries_from_registry n)) in
  (set_n_membership (Some snapshot) (set_n_db (save_consensus_membership_snapshot snapshot (n_db n)) n), snapshot).

Definition active_consensus_membership (n : Node) : Node * odict json :=
  match cached_snapshot n with
  | Some snapshot => (set_n_membership (Some snapshot) n, snapshot)
  | None => save_snapshot 1 n
  end.

Definition member_of_dict (item : json) : result (option MembershipEntry) :=
  d ← as_obj item;
  let member_id := py_strip (py_str (py_or (jget d "node_id") (JStr ""))) in
  if decide (member_id = "") then Ok None
  else Ok (Some (mkMember member_id (py_str (py_or (jget d "address") (JStr "")))
                   (py_str (py_or (jget d "role") (JStr NODE_ROLE_NODE)))
                   (py_bool (jget_or d "is_self" (JBool false))))).
Definition snapshot_members (snapshot : odict json) : result (list MembershipEntry) :=
  members ← (items ← as_arr (jget_or snapshot "members" (JArr [])); mapR member_of_dict items) : result (list (option MembershipEntry));
  Ok (omap id (members : list (option MembershipEntry))).

(** ** Recomputing the consensus *)
Definition envelope_path (db : DB) (event_id : string) : list Hop :=
  match get_envelope event_id db with
  | Ok (Some envelope) => env_path_meta envelope
  | _ => []
  end.

Definition ordered_events (events : list Event) (order_ids : list string) : list Event :=
  omap (λ i, events_by_id events !! i) order_ids.

Definition recompute_consensus : NodeM unit :=
  n ← get_node;
  events ← lift (all_events (n_db n));
  if bool_decide (events = []) then mret tt
  else
    let path_meta := foldl (λ m e, <[ev_id e := envelope_path (n_db n) (ev_id e)]> m) ∅ events in
    snapshot ← (λ n, let '(n, s) := active_consensus_membership n in (n, Ok s) : Node * result (odict json));
    membership ← lift (snapshot_members snapshot);
    n ← get_node;
    match toposort (n_db n) with
    | Err (KeyError _) => mret tt
    | Err e => raise e
    | Ok order_ids =>
        let states := recompute (node_id n) (ordered_events events order_ids) membership path_meta in
        update_db (replace_consensus_state states)
    end.

Definition reconfigure_consensus_membership (now : Q) (status_of : string → option json) : NodeM (odict json) :=
  hydrate_peer_node_ids now status_of;;
  n ← get_node;
  let previous := default [] (get_consensus_membership_snapshot (n_db n)) in
  epoch ← lift (py_int (py_or (jget previous "epoch") (JInt 0)));
  snapshot ← (λ n, let '(n, s) := save_snapshot (epoch + 1) n in (n, Ok s) : Node * result (odict json));
  recompute_consensus;;
  mret snapshot.

Definition ensure_consensus_membership_snapshot (now : Q) (status_of : string → option json) : NodeM unit :=
  n ← get_node;
  match stored_snapshot (n_db n) with
  | Some snapshot => modify (set_n_membership (Some snapshot))
  | None => reconfigure_consensus_membership now status_of;; mret tt
  end.

(** ** Debouncing *)
Definition request_recompute : NodeM unit :=
  n ← get_node;
  if rt_recompute_debounce_sec (cfg_runtime (n_config n)) <=?q 0 then recompute_consensus
  else
    modify (set_n_recompute_dirty true);;
    if n_loop n then
      modify (λ n, if existsb (λ t, match t with DebouncedRecompute => true | _ => false end) (n_tasks n)
                   then n else schedule DebouncedRecompute n)
    else recompute_consensus;; modify (set_n_recompute_dirty false).

(** What the task does once the window has passed. *)
Definition debounced_recompute : NodeM unit :=
  n ← get_node;
  if n_recompute_dirty n then
    modify (set_n_recompute_dirty false);;
    try_with recompute_consensus (λ _, mret tt)
  else mret tt.

(** ** [Node.__init__]

    The note on the node's own row is outside Latin-1 and kept as its UTF-8
    text. *)
Definition new_node (now : Q) (config : NodeConfig) (catalog : Catalog) (db : DB) : Node :=
  let self := "self:" +:+ cfg_node_id config in
  let db := (ensure_peer self (cfg_node_id config) (Some now) true true "Текущий узел" "self"
               (normalize_node_role (JStr (profile_role (cfg_profile config)))) PEER_APPROVAL_APPROVED db).1 in
  let db := foldl (λ db address,
    (ensure_peer address "" (Some now) true true "" "config" NODE_ROLE_NODE PEER_APPROVAL_APPROVED db).1)
    db (cfg_peers config) in
  {| n_config := config; n_db := db; n_vclock := ∅;
     n_metrics := new_metrics (cfg_gossip config) (memory_mb (cfg_profile config)) (bw_kbps (cfg_profile config));
     n_peers := active_peers db; n_anchors := []; n_gossip := None; n_loop := false; n_subscribers := [];
     n_clear_tokens := []; n_mismatch := []; n_genesis_counter := 0; n_membership := None;
     n_sessions := new_session_store; n_counters := zero_counters; n_recompute_dirty := false;
     n_tamper_evidence := false; n_catalog := catalog; n_tasks := [];
     n_simulation := new_simulation |}.
End node.

(** A configuration with one peer, for the witnesses. *)
Definition sample_config : NodeConfig :=
  {| cfg_node_id := "n1"; cfg_listen := "10.0.0.1:9000"; cfg_peers := ["10.0.0.2:9000"];
     cfg_profile := Build_NodeProfile 64 64 1 "node" "LOW";
     cfg_gossip := mkGossipConfig 1 2; cfg_prioritization := mkPrioritizationConfig "ELEV" 32768;
     cfg_hmac_key := Some "k"; cfg_sqlite_path := "x.db";
     cfg_linux_ingest := mkLinuxIngestConfig false "auth_log_file" None 2 None [] [] None;
     cfg_collectors := mkCollectorsConfig (mkJournaldConfig false [] 60 10 5) (mkAuditConfig false [] 5 1048576)
       (mkFirewallConfig false "iptables-save" 10) (mkProcConfig false [] [0] 3 "/proc")
       (mkHostConfig false 60 "/proc/uptime" 30);
     cfg_retention := mkRetentionConfig false 104857600 30 true None 300;
     cfg_discovery := mkDiscoveryConfig "disabled" 10 false None None 9001;
     cfg_notifier := mkNotifierConfig false ["A"] (mkEmailConfig false "" 587 None None true "" [])
       (mkTelegramConfig false "" [] 10);
     cfg_agent_relay := mkAgentRelayConfig false "" 5 3 1;
     cfg_heartbeat := mkHeartbeatConfig false 300;
     cfg_runtime := mkRuntimeConfig 0 0 5 (2 # 3) 10 3 0 0 0;
     cfg_ui_enabled := true |}.
Definition sample_node : Node := @new_node frac_format 1 sample_config (mkCatalog EVENT_CATALOG []) empty_db.
