(* ===== verification/NodeLogic.v ===== *)
(** Reasoning about the node monad of Node.v: inverting a sequence that
    succeeded, and framing: what a computation preserves whether it succeeds or
    raises. *)
From S2P Require Import Prelude Sha256 Json VectorClock Models Consensus Storage Config Metrics Gossip Auth Catalog Node.

(** ** Runs that succeed *)
Lemma bind_Ok {X Y} (m : NodeM X) (f : X → NodeM Y) n n' y :
  (x ← m; f x) n = (n', Ok y) ↔ ∃ n1 x, m n = (n1, Ok x) ∧ f x n1 = (n', Ok y).
Proof.
  unfold mbind, nodem_bind. destruct (m n) as [n1 [x|e]]; split.
  - intros Hf. by exists n1, x.
  - by intros (n2 & x' & [= <- <-] & Hf).
  - done.
  - by intros (n2 & x' & [=] & _).
Qed.

Lemma bind_run {X Y} (m : NodeM X) (f : X → NodeM Y) n n1 x : m n = (n1, Ok x) → (x ← m; f x) n = f x n1.
Proof. intros Hm. unfold mbind, nodem_bind. by rewrite Hm. Qed.

(** ** Framing

    [framed R m]: every run of [m], also one that raises, leads to a state that
    is related to the first one.  For a preorder [R] the rules follow the
    structure of the computation. *)
Definition framed (R : relation Node) {X} (m : NodeM X) : Prop := ∀ n, R n (m n).1.

Section framed.
Context (R : relation Node) `{!PreOrder R}.

Lemma framed_ret {X} (x : X) : framed R (mret x : NodeM X).
Proof. intros n. reflexivity. Qed.
Lemma framed_raise {X} e : framed R (raise e : NodeM X).
Proof. intros n. reflexivity. Qed.
Lemma framed_get : framed R get_node.
Proof. intros n. reflexivity. Qed.
Lemma framed_lift {X} (r : result X) : framed R (lift r).
Proof. intros n. reflexivity. Qed.
Lemma framed_modify f : (∀ n, R n (f n)) → framed R (modify f).
Proof. intros Hf n. apply Hf. Qed.
Lemma framed_bind {X Y} (m : NodeM X) (f : X → NodeM Y) :
  framed R m → (∀ x, framed R (f x)) → framed R (x ← m; f x).
Proof.
  intros Hm Hf n. unfold mbind, nodem_bind. specialize (Hm n). destruct (m n) as [n1 [x|e]]; [|done].
  etrans; [exact Hm|apply Hf].
Qed.
Lemma framed_try {X} (m : NodeM X) h : framed R m → (∀ e, framed R (h e)) → framed R (try_with m h).
Proof.
  intros Hm Hh n. unfold try_with. specialize (Hm n). destruct (m n) as [n1 [x|e]]; [done|].
  etrans; [exact Hm|apply Hh].
Qed.
Lemma framed_forM {X} (l : list X) (f : X → NodeM unit) : (∀ x, framed R (f x)) → framed R (forM l f).
Proof. intros Hf. induction l as [|x l IH]; simpl; [apply framed_ret|]. by apply framed_bind. Qed.
End framed.

Lemma framed_weaken (R S : relation Node) {X} (m : NodeM X) :
  (∀ n n', R n n' → S n n') → framed R m → framed S m.
Proof. intros HRS Hm n. apply HRS, Hm. Qed.

Create HintDb framed.
#[export] Hint Resolve framed_ret framed_raise framed_get framed_lift framed_modify framed_bind framed_try framed_forM : framed.

(** One rule, chosen by the head of the computation. *)
Ltac frame_step :=
  first [ apply framed_bind; [apply _| |intros ?] | apply framed_ret; apply _ | apply framed_get; apply _
        | apply framed_lift; apply _ | apply framed_raise; apply _ | apply framed_forM; [apply _|intros ?]
        | apply framed_try; [apply _| |intros ?] ].

(** ** Results

    [yields P m]: whatever a run of [m] returns satisfies [P]. *)
Definition yields {X} (P : X → Prop) (m : NodeM X) : Prop := ∀ n n' x, m n = (n', Ok x) → P x.
Lemma yields_bind {X Y} (P : Y → Prop) (m : NodeM X) (f : X → NodeM Y) : (∀ x, yields P (f x)) → yields P (x ← m; f x).
Proof. intros Hf n n' y (n1 & x & _ & Hx)%bind_Ok. by apply (Hf x n1 n'). Qed.
Lemma yields_ret {X} (P : X → Prop) (x : X) : P x → yields P (mret x : NodeM X).
Proof. by intros Hx n n' y [= _ <-]. Qed.
Lemma yields_raise {X} (P : X → Prop) e : yields P (raise e : NodeM X).
Proof. by intros n n' y [=]. Qed.
