(* ===== verification/NodePeers.v ===== *)
(** The peer registry of a node refines an abstract registry: which addresses are
    known, with which decision, and which of them receive gossip.  The concrete
    state is the [peers] table and the attribute [_peers] of Node.v. *)
From S2P Require Import Prelude Sha256 Json VectorClock Models Consensus Storage StorageFacts Config Metrics Gossip Auth Catalog Node NodeLogic.

(** ** The abstract registry *)
Record AbsPeer := mkAbsPeer { ab_self : bool; ab_enabled : bool; ab_approval : string }.
Definition ab_allowed (p : AbsPeer) : bool :=
  ab_enabled p && negb (ab_self p) && bool_decide (ab_approval p = PEER_APPROVAL_APPROVED).

Record Registry := mkRegistry { rg_known : gmap string AbsPeer; rg_live : gset string }.
#[export] Instance AbsPeer_eq_dec : EqDecision AbsPeer.
Proof. solve_decision. Defined.

Definition allowed_of (known : gmap string AbsPeer) : gset string :=
  dom (filter (λ kv, ab_allowed kv.2 = true) known).
Definition refreshed (known : gmap string AbsPeer) : Registry := mkRegistry known (allowed_of known).

(** The operations of the registry. *)
Inductive PeerOp :=
  | Register (address note source role peer_node_id : string) (approval : option string)
  | Discover (address peer_node_id source : string)
  | Approve (address : string)
  | Reject (address : string)
  | Update (address : string) (enabled : option bool) (note role peer_node_id approval : option string)
  | Remove (address : string).

Section spec.
Context `{FloatFormat} (self : string) (auto_approve : bool).

(** A registration decides at once; it only ever adds to the live addresses. *)
Definition spec_register (address source status : string) (g : Registry) : Registry :=
  let approval := normalize_approval_status (JStr status) in
  let is_self := match rg_known g !! address with Some p => ab_self p | None => bool_decide (source = "self") end in
  mkRegistry (<[address := mkAbsPeer is_self true approval]> (rg_known g))
    (if bool_decide (approval = PEER_APPROVAL_APPROVED) then {[address]} ∪ rg_live g else rg_live g).

Definition spec_decide (address : string) (enabled : option bool) (approval : option string) (g : Registry) : Registry :=
  refreshed (alter (λ p, mkAbsPeer (ab_self p) (default (ab_enabled p) enabled)
    (match approval with Some a => normalize_approval_status (JStr a) | None => ab_approval p end)) address (rg_known g)).

Definition spec_op (op : PeerOp) (g : Registry) : Registry :=
  match op with
  | Register a _ source _ _ approval => spec_register a source (default_approval source approval) g
  | Discover a _ source =>
      if bool_decide (a ∈ dom (rg_known g)) then g
      else spec_register a source (if auto_approve then PEER_APPROVAL_APPROVED else PEER_APPROVAL_PENDING) g
  | Approve a => spec_decide a None (Some PEER_APPROVAL_APPROVED) g
  | Reject a => spec_decide a None (Some PEER_APPROVAL_REJECTED) g
  | Update a enabled _ _ _ approval =>
      spec_decide a (if decide (a = self) then Some true else enabled) approval g
  | Remove a => if decide (a = self) then g else refreshed (delete a (rg_known g))
  end.
End spec.

Section refinement.
Context `{FloatFormat}.

(** ** The operations of the node *)
Definition run_op (now : Q) (op : PeerOp) (n : Node) : Node :=
  match op with
  | Register a note source role i approval => (register_peer now a note source role i approval n).1
  | Discover a i source => (on_discovered_peer now a i source n).1
  | Approve a => (approve_peer a n).1
  | Reject a => (reject_peer a n).1
  | Update a enabled note role i approval => (node_update_peer now a enabled note role i approval n).1
  | Remove a => remove_peer a n
  end.
(** A history: what was done and when. *)
Definition run_ops (ops : list (Q * PeerOp)) (n : Node) : Node := foldl (λ n '(now, op), run_op now op n) n ops.

(** ** The abstraction function *)
Definition row_addr (r : sqlrow) : string := sql_string (sql_get r "address").
Definition abs_peer (p : PeerInfo) : AbsPeer := mkAbsPeer (pi_is_self p) (pi_enabled p) (pi_approval_status p).
Definition abs_row (r : sqlrow) : string * AbsPeer := (row_addr r, abs_peer (peer_of_row r)).
Definition abs_known (db : DB) : gmap string AbsPeer := list_to_map (abs_row <$> db_peers db).
Definition abs_registry (n : Node) : Registry := mkRegistry (abs_known (n_db n)) (list_to_set (dkeys (n_peers n))).

(** ** Well-formed peer tables

    Addresses are the primary key, the columns the migrations add are present,
    and the source is not empty, except perhaps for the address just
    inserted. *)
Definition row_ok (r : sqlrow) : Prop :=
  sql_get r "address" = SText (row_addr r) ∧ dget r "enabled" ≠ None ∧ dget r "approval_status" ≠ None.
Definition row_sourced (r : sqlrow) : Prop := sql_string (sql_get r "source") ≠ "".
Definition peers_ok_but (a : string) (db : DB) : Prop :=
  NoDup (row_addr <$> db_peers db) ∧ ∀ r, r ∈ db_peers db → row_ok r ∧ (row_addr r ≠ a → row_sourced r).
Definition peers_ok (db : DB) : Prop :=
  NoDup (row_addr <$> db_peers db) ∧ ∀ r, r ∈ db_peers db → row_ok r ∧ row_sourced r.

Lemma peers_ok_weaken a db : peers_ok db → peers_ok_but a db.
Proof. intros [H1 H2]. split; [done|]. intros r Hr. split; [by apply H2|]. intros _. by apply H2. Qed.

Lemma has_address_spec a r : row_ok r → has_address a r = bool_decide (row_addr r = a).
Proof. intros (Ha & _). unfold has_address, has_text. rewrite Ha. done. Qed.

Lemma lookup_abs_known a db :
  (∀ r, r ∈ db_peers db → row_ok r) → abs_known db !! a = abs_peer ∘ peer_of_row <$> find_peer a db.
Proof.
  unfold abs_known, find_peer. induction (db_peers db) as [|r rows IH]; intros Hok; [done|].
  rewrite fmap_cons. cbn [list_to_map foldr abs_row List.find fst snd].
  rewrite has_address_spec by (apply Hok; by left). case_bool_decide as Ha.
  - rewrite Ha, lookup_insert_eq. done.
  - rewrite lookup_insert_ne by done. apply IH. intros r' Hr'. apply Hok. by right.
Qed.

Lemma find_peer_Some a db r :
  (∀ r, r ∈ db_peers db → row_ok r) → find_peer a db = Some r → r ∈ db_peers db ∧ row_addr r = a.
Proof.
  intros Hok Hf. apply List.find_some in Hf as [Hin Ha]. apply list_elem_of_In in Hin. split; [done|].
  rewrite has_address_spec in Ha by by apply Hok. by apply bool_decide_eq_true in Ha.
Qed.
Lemma find_peer_None a db :
  (∀ r, r ∈ db_peers db → row_ok r) → find_peer a db = None → a ∉ row_addr <$> db_peers db.
Proof.
  intros Hok Hf (r & -> & Hr)%list_elem_of_fmap.
  assert (has_address (row_addr r) r = false) as Hn by (apply (List.find_none _ _ Hf); by apply list_elem_of_In).
  rewrite has_address_spec, bool_decide_true in Hn by (done || by apply Hok). done.
Qed.

Lemma sources_agree r : str_or (sql_string (sql_get_or r "source" (SText "runtime"))) "runtime"
                        = str_or (sql_string (sql_get r "source")) "runtime".
Proof. unfold sql_get_or, sql_get. by destruct (dget r "source"). Qed.

Lemma sql_get_or_present r c d : dget r c ≠ None → sql_get_or r c d = sql_get r c.
Proof. unfold sql_get_or, sql_get. by destruct (dget r c). Qed.

(** A peer that was written reads back with its decisions. *)
Definition consistent (p : PeerInfo) : Prop :=
  pi_is_self p = bool_decide (pi_source p = "self") ∧ pi_approval_status p ∈ PEER_APPROVAL_STATUSES.

Lemma abs_peer_written p r : consistent p → abs_peer (peer_of_row (peer_row_written p r)) = abs_peer p.
Proof.
  intros [Hs Ha]. unfold abs_peer, peer_of_row, approval_text. cbn [pi_is_self pi_enabled pi_approval_status].
  rewrite (sql_get_or_written p r "source" _ _ eq_refl), (sql_get_or_written p r "enabled" _ _ eq_refl),
    (sql_get_or_written p r "approval_status" _ _ eq_refl).
  cbn [sql_string]. rewrite normalize_approval_status_fixed by done. rewrite Hs. f_equal.
  - apply bool_decide_ext. unfold str_or. destruct (decide (pi_source p = "")) as [->|]; [by split|done].
  - by destruct (pi_enabled p).
Qed.

Lemma row_addr_written p r : row_addr (peer_row_written p r) = row_addr r.
Proof.
  unfold row_addr, peer_row_written. by rewrite dupdate_get by apply peer_columns_NoDup.
Qed.
Lemma row_ok_written p r : row_ok r → row_ok (peer_row_written p r).
Proof.
  intros (Ha & _). unfold row_ok. rewrite row_addr_written. unfold peer_row_written.
  rewrite dupdate_get by apply peer_columns_NoDup. split; [done|].
  split; (erewrite dupdate_dget; [done|apply peer_columns_NoDup|reflexivity]).
Qed.
Lemma row_sourced_written p r : pi_source p ≠ "" → row_sourced (peer_row_written p r).
Proof. intros Hs. unfold row_sourced. by rewrite (sql_get_written p r "source" _ eq_refl). Qed.

(** ** Writing a row *)
Lemma write_peer_rows p db r :
  (∀ r, r ∈ db_peers db → row_ok r) →
  r ∈ db_peers (write_peer p db) ↔
  (∃ r0, r0 ∈ db_peers db ∧ row_addr r0 = pi_address p ∧ r = peer_row_written p r0) ∨
  (r ∈ db_peers db ∧ row_addr r ≠ pi_address p).
Proof.
  intros Hok. unfold write_peer, sql_update. cbn [db_peers set_peers]. rewrite list_elem_of_fmap. split.
  - intros (r0 & -> & Hr). rewrite has_address_spec by by apply Hok. case_bool_decide; [left; eauto|by right].
  - intros [(r0 & Hr & Ha & ->)|[Hr Ha]].
    + exists r0. by rewrite has_address_spec, bool_decide_true by (done || by apply Hok).
    + exists r. by rewrite has_address_spec, bool_decide_false by (done || by apply Hok).
Qed.

Lemma write_peer_addrs p db : row_addr <$> db_peers (write_peer p db) = row_addr <$> db_peers db.
Proof.
  unfold write_peer, sql_update. cbn [db_peers set_peers]. rewrite <- list_fmap_compose.
  apply list_fmap_ext. intros _ r _. simpl. destruct (has_address _ r); [|done].
  change (dupdate r (peer_columns p)) with (peer_row_written p r). apply row_addr_written.
Qed.

Lemma write_peer_find p db a :
  (∀ r, r ∈ db_peers db → row_ok r) →
  find_peer a (write_peer p db) =
    (if bool_decide (a = pi_address p) then peer_row_written p <$> find_peer a db else find_peer a db).
Proof.
  unfold find_peer, write_peer, sql_update. cbn [db_peers set_peers].
  induction (db_peers db) as [|r rows IH]; intros Hok; [by case_bool_decide|].
  assert (row_ok r) as Hr by (apply Hok; by left). rewrite fmap_cons. cbn [List.find].
  rewrite (has_address_spec (pi_address p)) by done.
  assert (∀ r', r' ∈ rows → row_ok r') as Hok' by (intros r' Hr'; apply Hok; by right).
  destruct (bool_decide (row_addr r = pi_address p)) eqn:Hp.
  - apply bool_decide_eq_true in Hp. change (dupdate r (peer_columns p)) with (peer_row_written p r).
    rewrite !has_address_spec by (done || by apply row_ok_written). rewrite row_addr_written.
    rewrite IH by done. repeat case_bool_decide; simpl; congruence.
  - apply bool_decide_eq_false in Hp. rewrite has_address_spec by done. rewrite IH by done.
    repeat case_bool_decide; congruence.
Qed.

Lemma write_peer_abs p db :
  (∀ r, r ∈ db_peers db → row_ok r) → consistent p →
  abs_known (write_peer p db) = alter (λ _, abs_peer p) (pi_address p) (abs_known db).
Proof.
  intros Hok Hc. apply map_eq. intros a.
  rewrite lookup_abs_known.
  2: { intros r [(r0 & Hr & _ & ->)|[Hr _]]%write_peer_rows; [by apply row_ok_written, Hok|by apply Hok|done]. }
  rewrite write_peer_find by done. case_bool_decide as Ha.
  - subst a. rewrite lookup_alter_eq, lookup_abs_known by done. destruct (find_peer _ db); [|done]. simpl.
    by rewrite abs_peer_written.
  - rewrite lookup_alter_ne by done. by rewrite lookup_abs_known.
Qed.

Lemma write_peer_ok p db :
  peers_ok_but (pi_address p) db → pi_source p ≠ "" → peers_ok (write_peer p db).
Proof.
  intros [Hd Hok] Hs. split; [by rewrite write_peer_addrs|].
  assert (∀ r, r ∈ db_peers db → row_ok r) as Hok' by (intros r Hr; by apply Hok).
  intros r [(r0 & Hr & _ & ->)|[Hr Ha]]%write_peer_rows; [|split; [by apply Hok|by apply Hok]|done].
  split; [by apply row_ok_written, Hok|by apply row_sourced_written].
Qed.
(** ** The operations of the table *)
Lemma update_peer_spec a enabled note ls healthy role nid approval db :
  peers_ok_but a db →
  let '(db', peer) := update_peer a enabled note ls healthy role nid approval db in
  peers_ok db' ∧
  abs_known db' = alter (λ p, mkAbsPeer (ab_self p) (default (ab_enabled p) enabled)
    (match approval with Some s => normalize_approval_status (JStr s) | None => ab_approval p end)) a (abs_known db) ∧
  abs_peer <$> peer = abs_known db' !! a.
Proof.
  intros Hokb. assert (∀ r, r ∈ db_peers db → row_ok r) as Hok by (intros r Hr; by apply (proj2 Hokb)).
  unfold update_peer. destruct (find_peer a db) as [r|] eqn:Hf.
  - cbv zeta. set (p := mkPeer _ _ _ _ _ _ _ _ _ _).
    assert (consistent p) as Hc by (split; [done|apply normalize_approval_status_in]).
    assert (pi_source p ≠ "") as Hs by (simpl; unfold str_or; by case_decide).
    split; [by apply write_peer_ok|]. rewrite write_peer_abs by done. change (pi_address p) with a.
    assert (abs_known db !! a = Some (abs_peer (peer_of_row r))) as Hr by by rewrite lookup_abs_known, Hf.
    split; [|by rewrite lookup_alter_eq, Hr]. apply map_eq. intros b.
    destruct (decide (b = a)) as [->|]; [|by rewrite !lookup_alter_ne]. rewrite !lookup_alter_eq, Hr. simpl. f_equal.
    destruct (find_peer_Some _ _ _ Hok Hf) as [(_ & He & Ha)%Hok _].
    unfold abs_peer. cbn [pi_is_self pi_enabled pi_approval_status ab_self ab_enabled ab_approval peer_of_row].
    unfold approval_text. rewrite sources_agree, !sql_get_or_present by done. simpl. f_equal.
    destruct approval; [done|]. unfold str_or.
    by destruct (decide (sql_string (sql_get r "approval_status") = "")) as [->|].
  - assert (a ∉ row_addr <$> db_peers db) as Hn by by apply find_peer_None.
    split; [|split].
    + split; [apply Hokb|]. intros r Hr. destruct (proj2 Hokb r Hr) as [H1 H2]. split; [done|]. apply H2.
      intros <-. by apply Hn, list_elem_of_fmap_2.
    + symmetry. apply alter_id. intros p Hp. rewrite lookup_abs_known, Hf in Hp by done. done.
    + by rewrite lookup_abs_known, Hf.
Qed.

(** The effect of [ensure_peer] that matters here: the address is known
    afterwards, and whether it is the node itself is decided the first time. *)
Lemma ensure_peer_spec a nid ls healthy enabled note source role approval db :
  peers_ok db →
  let db' := (ensure_peer a nid ls healthy enabled note source role approval db).1 in
  peers_ok_but a db' ∧ (source ≠ "" → peers_ok db') ∧
  ∃ p, abs_known db' = <[a := p]> (abs_known db) ∧
    ab_self p = match abs_known db !! a with Some q => ab_self q | None => bool_decide (source = "self") end.
Proof.
  intros Hokb. assert (∀ r, r ∈ db_peers db → row_ok r) as Hok by (intros r Hr; by apply (proj2 Hokb)).
  unfold ensure_peer. rewrite lookup_abs_known by done. destruct (find_peer a db) as [r|] eqn:Hf; cbv zeta.
  - set (p := mkPeer _ _ _ _ _ _ _ _ _ _). cbn [fst].
    destruct (find_peer_Some _ _ _ Hok Hf) as [Hr Ha].
    destruct (proj2 Hokb r Hr) as [_ Hsrc]. unfold row_sourced in Hsrc.
    assert (consistent p) as Hc by (split; [done|apply normalize_approval_status_in]).
    assert (peers_ok (write_peer p db)) as Hw.
    { apply write_peer_ok; [by apply peers_ok_weaken|]. simpl. by rewrite str_or_nonempty. }
    split; [by apply peers_ok_weaken|]. split; [done|]. exists (abs_peer p). rewrite write_peer_abs by done. change (pi_address p) with a. split.
    + apply map_eq. intros b. destruct (decide (b = a)) as [->|Hb].
      * by rewrite lookup_insert_eq, lookup_alter_eq, lookup_abs_known, Hf by done.
      * by rewrite lookup_insert_ne, lookup_alter_ne by done.
    + simpl. rewrite sources_agree, !str_or_nonempty by done. done.
  - set (p := mkPeer _ _ _ _ _ _ _ _ _ _). cbn [fst].
    pose proof (find_peer_None _ _ Hok Hf) as Hn.
    change (("address", SText a) :: peer_columns p) with (peer_row_written p [("address", SText a)]).
    set (r := peer_row_written p [("address", SText a)]).
    assert (row_addr r = a) as Ha by (unfold r; by rewrite row_addr_written).
    assert (row_ok r) as Hr by by split_and!.
    assert (abs_peer (peer_of_row r) = abs_peer p) as Hp.
    { apply abs_peer_written. split; [done|apply normalize_approval_status_in]. }
    assert (peers_ok_but a (set_peers db (db_peers db ++ [r]))) as Hb.
    { split; cbn [db_peers set_peers].
      - rewrite fmap_app. simpl. rewrite Ha. apply NoDup_app. split_and!; [apply Hokb| |apply NoDup_singleton].
        intros x Hx Hx'%list_elem_of_singleton. by subst x.
      - intros r' Hr'. apply elem_of_app in Hr' as [Hr'|Hr'%list_elem_of_singleton].
        + split; [by apply Hok|]. intros _. by apply Hokb.
        + by subst r'. }
    split; [exact Hb|]. split.
    { intros Hs. destruct Hb as [H1 H2]. split; [done|].
      intros r' Hr'. split; [by apply H2|]. cbn [db_peers set_peers] in Hr'.
      apply elem_of_app in Hr' as [Hr'|Hr'%list_elem_of_singleton]; [by apply Hokb|].
      subst r'. by apply row_sourced_written. }
    exists (abs_peer p). split; [|done]. unfold abs_known. cbn [db_peers set_peers].
    rewrite fmap_app, list_to_map_app. simpl. unfold abs_row at 2. rewrite Ha, Hp.
    rewrite insert_empty, <- insert_union_singleton_r; [done|].
    change (abs_known db !! a = None). by rewrite lookup_abs_known, Hf.
Qed.
Lemma delete_peer_spec a db :
  peers_ok db → peers_ok (delete_peer a db) ∧ abs_known (delete_peer a db) = delete a (abs_known db).
Proof.
  intros [Hd Hok]. assert (∀ r, r ∈ db_peers db → row_ok r) as Hok' by (intros r Hr; by apply Hok).
  unfold delete_peer, sql_delete. split.
  - split; cbn [db_peers set_peers].
    + eapply sublist_NoDup; [exact Hd|]. apply fmap_sublist, sublist_filter.
    + intros r Hr%list_elem_of_filter. apply Hok, Hr.
  - unfold abs_known. cbn [db_peers set_peers]. clear Hd Hok. revert Hok'.
    induction (db_peers db) as [|r rows IH]; intros Hok'; [simpl; by rewrite delete_empty|].
    assert (row_ok r) as Hr by (apply Hok'; by left). rewrite fmap_cons. cbn [list_to_map foldr abs_row fst snd].
    rewrite filter_cons, has_address_spec by done.
    assert (∀ r', r' ∈ rows → row_ok r') as Hrows by (intros r' Hr'; apply Hok'; by right).
    case_decide as Ha.
    + apply bool_decide_eq_false in Ha. rewrite fmap_cons. cbn [list_to_map foldr abs_row fst snd].
      rewrite delete_insert_ne by done. by rewrite <- IH.
    + apply not_false_is_true, bool_decide_eq_true in Ha. rewrite Ha, delete_insert_eq. by apply IH.
Qed.

(** ** The peers that receive gossip *)
Lemma active_fold_keys l acc a :
  a ∈ dkeys (foldl (λ active p, if gossip_allowed p then dset active (pi_address p) p else active) acc l) ↔
  a ∈ dkeys acc ∨ ∃ p, p ∈ l ∧ gossip_allowed p = true ∧ pi_address p = a.
Proof.
  revert acc. induction l as [|p l IH]; intros acc; cbn [foldl].
  - split; [by left|]. by intros [?|(p & Hp%elem_of_nil & _)].
  - rewrite IH. assert (∀ Q : PeerInfo → Prop, (∃ q, q ∈ p :: l ∧ Q q) ↔ Q p ∨ ∃ q, q ∈ l ∧ Q q) as Hex.
    { intros Q. split.
      - intros (q & [->|Hq]%elem_of_cons & HQ); [by left|right; by exists q].
      - intros [HQ|(q & Hq & HQ)]; [exists p|exists q]; (split; [set_solver|done]). }
    rewrite Hex. destruct (gossip_allowed p) eqn:Hp; [rewrite dkeys_dset_elem|]; intuition congruence.
Qed.

Lemma active_peers_keys a db :
  a ∈ dkeys (active_peers db) ↔ ∃ p, p ∈ list_peers db ∧ gossip_allowed p = true ∧ pi_address p = a.
Proof. unfold active_peers. rewrite active_fold_keys, elem_of_nil. naive_solver. Qed.

Lemma active_abs db : peers_ok db → list_to_set (dkeys (active_peers db)) = allowed_of (abs_known db).
Proof.
  intros [Hd Hok]. apply set_eq. intros a. rewrite elem_of_list_to_set, active_peers_keys.
  unfold allowed_of. rewrite elem_of_dom. unfold list_peers. split.
  - intros (p & Hp & Hg & <-). rewrite sort_on_perm in Hp. apply list_elem_of_fmap in Hp as (r & -> & Hr).
    exists (abs_peer (peer_of_row r)). apply map_lookup_filter_Some. split; [|exact Hg].
    unfold abs_known. apply elem_of_list_to_map_1.
    + rewrite <- list_fmap_compose. exact Hd.
    + change (pi_address (peer_of_row r)) with (row_addr r). by apply (list_elem_of_fmap_2 abs_row).
  - intros [q [Hq Hal]%map_lookup_filter_Some]. unfold abs_known in Hq.
    apply elem_of_list_to_map_2, list_elem_of_fmap in Hq as (r & [= -> ->] & Hr).
    exists (peer_of_row r). split_and!; [|done|done]. rewrite sort_on_perm. by apply list_elem_of_fmap_2.
Qed.

Lemma reload_abs n : peers_ok (n_db n) → abs_registry (reload_and_refresh n) = refreshed (abs_known (n_db n)).
Proof. intros Hok. unfold abs_registry, refreshed. simpl. f_equal. by apply active_abs. Qed.

(** ** Each operation *)
Definition same_registry (n n' : Node) : Prop :=
  n_db n' = n_db n ∧ n_peers n' = n_peers n ∧ n_config n' = n_config n.
#[local] Instance same_registry_preorder : PreOrder same_registry.
Proof. split; [by split|]. intros x y z (? & ? & ?) (? & ? & ?). split_and!; congruence. Qed.

(** The tail of [register_peer] queues events for the new peer. *)
Definition register_tail (approved : bool) : NodeM unit :=
  modify refresh_health;;
  n ← get_node;
  if bool_decide (is_Some (n_gossip n)) && approved then
    events ← lift (list_events 256 None (n_db n));
    forM events (λ e, gossip_add_pending (ev_id e))
  else mret tt.

Lemma register_tail_frame approved : framed same_registry (register_tail approved).
Proof.
  unfold register_tail. frame_step; [by apply framed_modify|]. frame_step; [frame_step|].
  destruct (_ && _); [|frame_step]. frame_step; [frame_step|]. frame_step.
  intros m. unfold gossip_add_pending. by destruct (n_gossip m).
Qed.

Lemma register_run now a note source role nid approval n :
  register_peer now a note source role nid approval n =
  let status := default_approval source approval in
  let db := (ensure_peer a nid (Some now) true true note source role status (n_db n)).1 in
  let '(db, peer) := update_peer a (Some true) (Some note) (Some now) (Some true) (Some role) (Some nid) (Some status) db in
  match peer with
  | None => (set_n_db db n, Ok tt)
  | Some p =>
      let approved := bool_decide (pi_approval_status p = PEER_APPROVAL_APPROVED) in
      register_tail approved
        (if approved then set_n_peers (dset (n_peers n) a (with_source p source)) (set_n_db db n) else set_n_db db n)
  end.
Proof.
  unfold register_peer. cbv zeta. unfold mbind at 1, nodem_bind at 1, get_node at 1.
  by destruct (update_peer _ _ _ _ _ _ _ _ _) as [db [p|]].
Qed.

Lemma register_abs now a note source role nid approval n :
  peers_ok (n_db n) →
  let n' := (register_peer now a note source role nid approval n).1 in
  peers_ok (n_db n') ∧ abs_registry n' = spec_register a source (default_approval source approval) (abs_registry n).
Proof.
  intros Hok. rewrite register_run. unfold spec_register. set (status := default_approval source approval). cbv zeta.
  destruct (ensure_peer_spec a nid (Some now) true true note source role status (n_db n) Hok) as (Hb & _ & p0 & Hk & Hself).
  set (db1 := (ensure_peer _ _ _ _ _ _ _ _ _ _).1) in *.
  pose proof (update_peer_spec a (Some true) (Some note) (Some now) (Some true) (Some role) (Some nid) (Some status) db1 Hb) as Hu.
  destruct (update_peer _ _ _ _ _ _ _ _ _) as [db2 peer]. destruct Hu as (Hok2 & Hk2 & Hp).
  rewrite Hk, alter_insert_eq in Hk2. rewrite Hk2, lookup_insert_eq in Hp. simpl in Hk2, Hp.
  destruct peer as [p|]; [|done]. injection Hp as Hps Hpe Hpa.
  set (approved := bool_decide (pi_approval_status p = PEER_APPROVAL_APPROVED)).
  set (n1 := if approved then set_n_peers _ _ else _).
  destruct (register_tail_frame approved n1) as (Hd & Hl & _).
  assert (n_db n1 = db2) as Hdb by (unfold n1; by destruct approved).
  assert (list_to_set (dkeys (n_peers n1)) =@{gset string}
    if approved then {[a]} ∪ list_to_set (dkeys (n_peers n)) else list_to_set (dkeys (n_peers n))) as Hlive.
  { unfold n1. destruct approved; [|done]. simpl. apply set_eq. intros b.
    rewrite elem_of_list_to_set, dkeys_dset_elem. set_solver. }
  unfold abs_registry. rewrite Hd, Hl, Hdb, Hk2, Hlive. split; [done|].
  cbn [rg_known rg_live]. rewrite Hself. unfold approved. by rewrite Hpa.
Qed.

Lemma decide_abs a enabled note ls healthy role nid approval n :
  peers_ok (n_db n) →
  let '(db, _) := update_peer a enabled note ls healthy role nid approval (n_db n) in
  peers_ok db ∧
  abs_registry (reload_and_refresh (set_n_db db n)) = spec_decide a enabled approval (abs_registry n).
Proof.
  intros Hok. pose proof (update_peer_spec a enabled note ls healthy role nid approval (n_db n) (peers_ok_weaken a _ Hok)) as Hu.
  destruct (update_peer _ _ _ _ _ _ _ _ _) as [db peer]. destruct Hu as (Hok2 & Hk2 & _).
  split; [done|]. rewrite reload_abs by done. unfold spec_decide. simpl. by rewrite Hk2.
Qed.

Lemma known_addresses n a :
  peers_ok (n_db n) → a ∈ pi_address <$> list_peers (n_db n) ↔ a ∈ dom (rg_known (abs_registry n)).
Proof.
  intros [_ Hok]. simpl. rewrite elem_of_dom, lookup_abs_known by (intros r Hr; by apply Hok).
  unfold list_peers. rewrite sort_on_perm, fmap_is_Some, <- list_fmap_compose.
  destruct (find_peer a (n_db n)) as [r|] eqn:Hf.
  - apply find_peer_Some in Hf as [Hr Ha]; [|intros; by apply Hok]. split; [done|]. intros _.
    apply list_elem_of_fmap. by exists r.
  - apply find_peer_None in Hf; [|intros; by apply Hok]. split; [|by intros []]. intros Hin. by destruct Hf.
Qed.

Lemma run_op_spec now op n :
  peers_ok (n_db n) →
  peers_ok (n_db (run_op now op n)) ∧
  abs_registry (run_op now op n) =
    spec_op (self_registry_address n) (dc_auto_approve_discovered (cfg_discovery (n_config n))) op (abs_registry n).
Proof.
  intros Hok. destruct op as [a note source role i approval|a i source|a|a|a enabled note role i approval|a]; cbn [run_op spec_op].
  - by apply register_abs.
  - unfold on_discovered_peer. unfold mbind at 1 2, nodem_bind at 1 2, get_node at 1 2. cbv beta iota.
    rewrite (bool_decide_ext _ _ (known_addresses n a Hok)). case_bool_decide; [done|].
    unfold try_with. destruct (dc_auto_approve_discovered _).
    + pose proof (register_abs now a "" source NODE_ROLE_NODE i (Some PEER_APPROVAL_APPROVED) n Hok) as Hr.
      by destruct (register_peer _ _ _ _ _ _ _ n) as [n' [x|e]].
    + pose proof (register_abs now a "" source NODE_ROLE_NODE i (Some PEER_APPROVAL_PENDING) n Hok) as Hr.
      by destruct (register_peer _ _ _ _ _ _ _ n) as [n' [x|e]].
  - unfold approve_peer, set_approval. pose proof (decide_abs a None None None None None None (Some PEER_APPROVAL_APPROVED) n Hok) as Hd.
    by destruct (update_peer _ _ _ _ _ _ _ _ _) as [db peer].
  - unfold reject_peer, set_approval. pose proof (decide_abs a None None None None None None (Some PEER_APPROVAL_REJECTED) n Hok) as Hd.
    by destruct (update_peer _ _ _ _ _ _ _ _ _) as [db peer].
  - unfold node_update_peer. case_decide.
    + pose proof (decide_abs a (Some true) note (Some now) (Some true) role (Some (node_id n)) approval n Hok) as Hd.
      by destruct (update_peer _ _ _ _ _ _ _ _ _) as [db peer].
    + pose proof (decide_abs a enabled note None None role i approval n Hok) as Hd.
      by destruct (update_peer _ _ _ _ _ _ _ _ _) as [db peer].
  - unfold remove_peer. case_decide; [done|]. destruct (delete_peer_spec a (n_db n) Hok) as [Hok' Hk].
    split; [exact Hok'|]. rewrite reload_abs by exact Hok'. simpl. by rewrite Hk.
Qed.
Lemma run_op_config now op n : n_config (run_op now op n) = n_config n.
Proof.
  assert (∀ a note source role i approval, n_config (register_peer now a note source role i approval n).1 = n_config n) as Hreg.
  { intros. rewrite register_run. cbv zeta. destruct (update_peer _ _ _ _ _ _ _ _ _) as [db [p|]]; [|done].
    etrans; [apply register_tail_frame|]. by destruct (bool_decide _). }
  destruct op; cbn [run_op]; [apply Hreg| | | | |].
  - unfold on_discovered_peer. unfold mbind at 1, nodem_bind at 1, get_node at 1. cbv beta iota.
    destruct (bool_decide _); [done|]. unfold try_with.
    match goal with |- context [register_peer now address "" source NODE_ROLE_NODE peer_node_id ?s n] =>
      specialize (Hreg address "" source NODE_ROLE_NODE peer_node_id s);
      by destruct (register_peer now address "" source NODE_ROLE_NODE peer_node_id s n) as [n' [x|e]] end.
  - unfold approve_peer, set_approval. by destruct (update_peer _ _ _ _ _ _ _ _ _).
  - unfold reject_peer, set_approval. by destruct (update_peer _ _ _ _ _ _ _ _ _).
  - unfold node_update_peer. case_decide; by destruct (update_peer _ _ _ _ _ _ _ _ _).
  - unfold remove_peer. by case_decide.
Qed.

Lemma run_ops_config ops n : n_config (run_ops ops n) = n_config n.
Proof.
  revert n. induction ops as [|[now op] ops IH]; intros n; [done|].
  etrans; [apply (IH (run_op now op n))|apply run_op_config].
Qed.

Lemma peer_registry_spec ops n :
  peers_ok (n_db n) →
  peers_ok (n_db (run_ops ops n)) ∧
  abs_registry (run_ops ops n) =
    foldl (λ g op, spec_op (self_registry_address n) (dc_auto_approve_discovered (cfg_discovery (n_config n))) op g)
      (abs_registry n) ops.*2.
Proof.
  revert n. induction ops as [|[now op] ops IH]; intros n Hok; [done|].
  destruct (run_op_spec now op n Hok) as [Hok' Habs].
  destruct (IH (run_op now op n) Hok') as [IH1 IH2]. split; [exact IH1|].
  change (run_ops ((now, op) :: ops) n) with (run_ops ops (run_op now op n)). rewrite IH2. simpl.
  unfold self_registry_address, node_id. by rewrite run_op_config, Habs.
Qed.

(** ** The approval gate *)
Section gate.
Context (self : string) (auto_approve : bool).

(** Registrations as the HTTP interface makes them: approved, and not of the node
    itself. *)
Definition regular_op (op : PeerOp) : Prop :=
  match op with
  | Register a _ source _ _ approval =>
      a ≠ self ∧ source ≠ "self" ∧
      normalize_approval_status (JStr (default_approval source approval)) = PEER_APPROVAL_APPROVED
  | Discover a _ source => a ≠ self ∧ source ≠ "self"
  | _ => True
  end.

Definition gated (g : Registry) : Prop :=
  rg_live g = allowed_of (rg_known g) ∧ ∀ a p, rg_known g !! a = Some p → ab_self p = true → a = self.

Lemma elem_of_allowed a known : a ∈ allowed_of known ↔ ∃ p, known !! a = Some p ∧ ab_allowed p = true.
Proof.
  unfold allowed_of. rewrite elem_of_dom. unfold is_Some. setoid_rewrite map_lookup_filter_Some. done.
Qed.

Lemma allowed_of_insert known a p :
  allowed_of (<[a := p]> known) =
    if ab_allowed p then {[a]} ∪ allowed_of known else allowed_of known ∖ {[a]}.
Proof.
  apply set_eq. intros b. rewrite elem_of_allowed. destruct (decide (b = a)) as [->|Hb].
  - rewrite lookup_insert_eq. destruct (ab_allowed p) eqn:Hp.
    + split; [set_solver|]. intros _. by exists p.
    + split; [intros (q & [= <-] & Hq); congruence|set_solver].
  - rewrite lookup_insert_ne, <- elem_of_allowed by congruence. destruct (ab_allowed p); set_solver.
Qed.

Lemma register_gated a source status g :
  a ≠ self → source ≠ "self" → gated g →
  normalize_approval_status (JStr status) = PEER_APPROVAL_APPROVED ∨ a ∉ dom (rg_known g) →
  gated (spec_register a source status g).
Proof.
  intros Ha Hs [Hl Hself] Hreg. unfold spec_register.
  set (is_self := match rg_known g !! a with Some p => ab_self p | None => _ end).
  assert (is_self = false) as Hfalse.
  { unfold is_self. destruct (rg_known g !! a) as [p|] eqn:Hp; [|by apply bool_decide_eq_false].
    apply not_true_is_false. intros Ht. by apply Ha, (Hself a p). }
  rewrite Hfalse. split; cbn [rg_live rg_known].
  - rewrite allowed_of_insert, Hl. unfold ab_allowed. cbn [ab_self ab_enabled ab_approval andb negb].
    case_bool_decide; [done|]. destruct Hreg as [?|Hn]; [done|].
    assert (a ∉ allowed_of (rg_known g)); [|set_solver].
    intros (p & Hp & _)%elem_of_allowed. apply Hn, elem_of_dom. by exists p.
  - intros b p Hb Hp. destruct (decide (b = a)) as [->|].
    + rewrite lookup_insert_eq in Hb. injection Hb as <-. done.
    + rewrite lookup_insert_ne in Hb by done. by apply (Hself b p).
Qed.

Lemma decide_gated a enabled approval g : gated g → gated (spec_decide a enabled approval g).
Proof.
  intros [_ Hself]. split; [done|]. cbn [rg_known spec_decide refreshed]. intros b p Hb Hp.
  destruct (decide (b = a)) as [->|].
  - rewrite lookup_alter_eq in Hb. apply fmap_Some in Hb as (q & Hq & ->). by apply (Hself a q).
  - rewrite lookup_alter_ne in Hb by done. by apply (Hself b p).
Qed.

Lemma spec_op_gated op g : regular_op op → gated g → gated (spec_op self auto_approve op g).
Proof.
  intros Hreg Hg. destruct op; cbn [spec_op regular_op] in *; try by apply decide_gated.
  - destruct Hreg as (? & ? & ?). apply register_gated; auto.
  - destruct Hreg. case_bool_decide; [done|]. apply register_gated; auto.
  - case_decide; [done|]. split; [done|]. cbn [rg_known refreshed]. intros b p Hb.
    apply lookup_delete_Some in Hb as [_ Hb]. by apply (proj2 Hg b p).
Qed.
End gate.

Lemma new_node_gated now config catalog :
  peers_ok (n_db (new_node now config catalog empty_db)) ∧
  gated ("self:" +:+ cfg_node_id config) (abs_registry (new_node now config catalog empty_db)).
Proof.
  set (self := "self:" +:+ cfg_node_id config).
  pose (good := λ db, peers_ok db ∧ ∀ a p, abs_known db !! a = Some p → ab_self p = true → a = self).
  assert (∀ a nid ls h en note source role st db, source ≠ "" → (source = "self" → a = self) → good db →
    good (ensure_peer a nid ls h en note source role st db).1) as Hensure.
  { intros a nid ls h en note source role st db Hs Hself [Hok Hg].
    destruct (ensure_peer_spec a nid ls h en note source role st db Hok) as (_ & Hok' & p & Hk & Hp).
    split; [by apply Hok'|]. intros b q. rewrite Hk. destruct (decide (b = a)) as [->|].
    - rewrite lookup_insert_eq. intros [= <-] Ht. rewrite Hp in Ht.
      destruct (abs_known db !! a) as [p0|] eqn:Ha; [by apply (Hg a p0)|]. apply bool_decide_eq_true in Ht. auto.
    - rewrite lookup_insert_ne by done. apply Hg. }
  assert (good (n_db (new_node now config catalog empty_db))) as [Hok Hg].
  { cbn [n_db new_node].
    assert (∀ l db, good db → good (foldl (λ db address,
      (ensure_peer address "" (Some now) true true "" "config" NODE_ROLE_NODE PEER_APPROVAL_APPROVED db).1) db l)) as Hfold.
    { intros l. induction l as [|a l IH]; intros db Hdb; [done|]. apply IH. by apply Hensure. }
    apply Hfold, Hensure; [done..|]. split; [|done]. split; [constructor|]. by intros r Hr%elem_of_nil. }
  split; [done|]. split; [|exact Hg]. by apply active_abs.
Qed.

(** C2: the peer management of a node implements the abstract registry: from the
    start of the node, whatever sequence of registrations, discoveries, approvals,
    rejections, updates and removals it goes through, also when an operation raises
    half way, the peer table stays well formed and the known addresses, their
    decisions and the set of peers that receive gossip are those the abstract
    operations give. *)
Theorem peer_registry_refines (now : Q) (config : NodeConfig) (catalog : Catalog) (ops : list (Q * PeerOp)) :
  let n0 := new_node now config catalog empty_db in
  let n := run_ops ops n0 in
  peers_ok (n_db n) ∧
  abs_registry n =
    foldl (λ g op, spec_op (self_registry_address n0) (dc_auto_approve_discovered (cfg_discovery config)) op g)
      (abs_registry n0) ops.*2.
Proof. intros n0 n. apply peer_registry_spec. apply new_node_gated. Qed.

(** Gossip is gated by approval: in every state a node reaches from its start by
    managing peers, the addresses it gossips with are exactly those of the enabled,
    approved rows of the registry that are not its own; a discovered peer waits for
    an operator unless the configuration approves discovered peers by itself. *)
Theorem gossip_gate (now : Q) (config : NodeConfig) (catalog : Catalog) (ops : list (Q * PeerOp)) :
  let n0 := new_node now config catalog empty_db in
  let n := run_ops ops n0 in
  Forall (regular_op (self_registry_address n0)) ops.*2 →
  (∀ a, a ∈ dkeys (n_peers n) ↔
    ∃ p, p ∈ list_peers (n_db n) ∧ pi_address p = a ∧ pi_enabled p = true ∧ pi_is_self p = false ∧
         pi_approval_status p = PEER_APPROVAL_APPROVED) ∧
  (∀ t a i source, dc_auto_approve_discovered (cfg_discovery config) = false →
    a ∉ pi_address <$> list_peers (n_db n) →
    ∀ b, b ∈ dkeys (n_peers (on_discovered_peer t a i source n).1) ↔ b ∈ dkeys (n_peers n)).
Proof.
  intros n0 n Hreg. destruct (new_node_gated now config catalog) as [Hok0 Hg0]. fold n0 in Hok0, Hg0.
  destruct (peer_registry_spec ops n0 Hok0) as [Hok Habs]. fold n in Hok, Habs.
  assert (gated (self_registry_address n0) (abs_registry n)) as [Hl _].
  { rewrite Habs. clear -Hreg Hg0. revert Hg0. generalize (abs_registry n0) as g.
    induction Hreg as [|op l Hop Hl IH]; intros g Hg; [done|]. simpl. by apply IH, spec_op_gated. }
  assert (∀ m a, a ∈ rg_live (abs_registry m) ↔ a ∈ dkeys (n_peers m)) as Hlive.
  { intros m a. simpl. by rewrite elem_of_list_to_set. }
  split.
  - intros a. rewrite <- Hlive, Hl. cbn [rg_known abs_registry]. rewrite <- active_abs, elem_of_list_to_set, active_peers_keys by done.
    unfold gossip_allowed. split.
    + intros (p & Hp & [[He Hs%negb_true_iff]%andb_true_iff Ha%bool_decide_eq_true]%andb_true_iff & <-). by exists p.
    + intros (p & Hp & <- & He & Hs & Ha). exists p. rewrite He, Hs, bool_decide_true; done.
  - intros t a i source Hauto Ha b. rewrite <- !Hlive.
    destruct (run_op_spec t (Discover a i source) n Hok) as [_ Hd]. cbn [run_op spec_op] in Hd. rewrite Hd.
    rewrite known_addresses in Ha by done. rewrite bool_decide_false by done.
    replace (n_config n) with config by (unfold n; by rewrite run_ops_config). by rewrite Hauto.
Qed.
End refinement.

Definition sample_history : list (Q * PeerOp) :=
  [(2%Q, Discover "10.0.0.3:9000" "n3" "mdns"); (3%Q, Approve "10.0.0.3:9000");
   (4%Q, Register "10.0.0.4:9000" "" "ui" "node" "n4" None); (5%Q, Reject "10.0.0.2:9000");
   (6%Q, Discover "10.0.0.5:9000" "n5" "k8s")].

Lemma gossip_gate_witness :
  let catalog := mkCatalog EVENT_CATALOG [] in
  let n0 := @new_node frac_format 1 sample_config catalog empty_db in
  let n := @run_ops frac_format sample_history n0 in
  Forall (@regular_op frac_format (self_registry_address n0)) sample_history.*2 ∧
  dkeys (n_peers n) = ["10.0.0.3:9000"; "10.0.0.4:9000"] ∧
  ((∀ a, a ∈ dkeys (n_peers n) ↔
    ∃ p, p ∈ @list_peers frac_format (n_db n) ∧ pi_address p = a ∧ pi_enabled p = true ∧ pi_is_self p = false ∧
         pi_approval_status p = PEER_APPROVAL_APPROVED) ∧
   (∀ t a i source, dc_auto_approve_discovered (cfg_discovery sample_config) = false →
    a ∉ pi_address <$> @list_peers frac_format (n_db n) →
    ∀ b, b ∈ dkeys (n_peers (@on_discovered_peer frac_format t a i source n).1) ↔ b ∈ dkeys (n_peers n))).
Proof.
  intros catalog n0 n.
  assert (Forall (@regular_op frac_format (self_registry_address n0)) sample_history.*2) as Hreg.
  { cbn [sample_history fmap list_fmap snd]. repeat constructor; try discriminate; vm_compute; discriminate. }
  split; [exact Hreg|]. split; [vm_compute; reflexivity|].
  exact (@gossip_gate frac_format 1 sample_config catalog sample_history Hreg).
Defined.
