(* ===== verification/NodeEvents.v ===== *)
(** [mdrj/node.py], part 2: creating, storing, clearing and spreading events. *)
From S2P Require Import Prelude Sha256 Json VectorClock Models Consensus Storage Config Metrics Prioritization Gossip Auth Catalog Node.

(** What a transition reads from the outside: the clock, the process figures
    (rss, cpu, database size), [random.choice], the answers of the network for
    each attempt and address, whether an attempt ran into its time limit and
    which of its requests were done by then, whether the node is being stopped
    during the pause after an attempt, [socket.gethostname()]. *)
Record World := mkWorld {
  w_now : pyfloat;
  w_elapsed : pyfloat;
  w_rss : Z;
  w_cpu : pyfloat;
  w_db_size : Z;
  w_choice : list string → string;
  w_net : nat → string → post_outcome;
  w_timeout : nat → bool;
  w_done : nat → string → bool;
  w_stopping : nat → bool;
  w_hostname : string;
  w_token : string }.

(** ** Viewers

    Each subscriber is a queue of at most 256 messages; a full queue drops its
    oldest message. *)
Definition VIZ_QUEUE_MAX : nat := 256.
Definition enqueue_viz (payload : json) (queue : list json) : list json :=
  if bool_decide (length queue < VIZ_QUEUE_MAX)%nat then queue ++ [payload] else drop 1 queue ++ [payload].
Definition broadcast_viz (payload : json) (n : Node) : Node :=
  set_n_subscribers (enqueue_viz payload <$> n_subscribers n) n.

Section events.
Context `{FloatFormat}.

Definition node_metrics_snapshot (w : World) (n : Node) : json :=
  let snap := snapshot (w_rss w) (w_cpu w) (w_db_size w) (n_db n) (n_metrics n) in
  JObj [("A_est", JFloat (ms_a_est snap)); ("T_gossip", JFloat (ms_t_gossip snap));
        ("K_r", JFloat (ms_k_r snap)); ("C_mem", JFloat (ms_c_mem snap)); ("C_net", JFloat (ms_c_net snap));
        ("event_count", JInt (ms_event_count snap)); ("rss_bytes", JInt (ms_rss_bytes snap));
        ("cpu_percent", JFloat (ms_cpu_percent snap)); ("db_size_bytes", JInt (ms_db_size_bytes snap));
        ("gossip_bytes_in_total", JInt (ms_gossip_bytes_in_total snap));
        ("gossip_bytes_out_total", JInt (ms_gossip_bytes_out_total snap));
        ("bytes_per_event", JFloat (ms_bytes_per_event snap));
        ("emit_to_consensus_latency_p50_ms", JFloat (ms_latency_p50_ms snap));
        ("emit_to_consensus_latency_p95_ms", JFloat (ms_latency_p95_ms snap))].

Definition notify_viz (event : Event) (stored : bool) (metrics : json) (n : Node) : Node :=
  broadcast_viz (JObj [("type", JStr "event"); ("stored", JBool stored); ("event", Event_to_dict event);
                       ("metrics", metrics)]) n.
Definition notify_viz_reset (metrics : json) (n : Node) : Node :=
  broadcast_viz (JObj [("type", JStr "reset"); ("metrics", metrics)]) n.

(** ** Reconstruction ratio *)

(** One parent: its presence is looked up once ([cache]); a row that cannot be
    read counts as missing. *)
Definition ratio_step (db : DB) (st : (gmap string bool * (Z * Z))) (parent : string) : gmap string bool * (Z * Z) :=
  let '(cache, (total, missing)) := st in
  let exists_ := match cache !! parent with
                 | Some b => b
                 | None => match get_event parent db with Ok (Some _) => true | _ => false end
                 end in
  (<[parent := exists_]> cache, (total + 1, if exists_ then missing else missing + 1)).

Definition reconstruction_ratio (n : Node) : result Q :=
  events ← list_events 1000 None (n_db n);
  let '(_, (total, missing)) := foldl (ratio_step (n_db n)) (∅, (0, 0)) (mbind ev_parents (events : list Event)) in
  Ok (if total =? 0 then 1%Q else Qmax 0 (1 - inject_Z missing / inject_Z total)).

(** ** Storing *)
Definition schedule_fast_fanout (event_id : string) (n : Node) : Node :=
  if n_loop n then schedule (FanoutCritical event_id) n else n.

Definition persist_envelope (w : World) (envelope : Envelope) (do_recompute notify : bool) : NodeM bool :=
  n ← get_node;
  let event := env_event envelope in
  let '(db, stored) := store_envelope (w_now w) envelope (ev_consensus_ts event) (n_db n) in
  modify (set_n_db db);;
  (if do_recompute then request_recompute else mret tt);;
  modify (λ n, set_n_vclock (vc_merge (n_vclock n) (ev_vclock event)) n);;
  (if (stored : bool) then
     modify (gossip_offer (ev_id event));;
     if notify then
       n ← get_node;
       ratio ← lift (reconstruction_ratio n);
       update_metrics (record_merge_quality ratio);;
       modify (schedule_fast_fanout (ev_id event));;
       modify (λ n, notify_viz event true (node_metrics_snapshot w n) n)
     else mret tt
   else mret tt);;
  mret stored.

(** The loop of [ingest_envelopes]: the new ids and the last new event. *)
Fixpoint ingest_loop (w : World) (envelopes : list Envelope) (new_ids : list string) (latest : option Event)
    : NodeM (list string * option Event) :=
  match envelopes with
  | [] => mret (new_ids, latest)
  | envelope :: rest =>
      stored ← persist_envelope w envelope false false;
      if (stored : bool) then ingest_loop w rest (new_ids ++ [ev_id (env_event envelope)]) (Some (env_event envelope))
      else ingest_loop w rest new_ids latest
  end.

Definition ingest_envelopes (w : World) (envelopes : list Envelope) : NodeM (list string) :=
  '(new_ids, latest) ← ingest_loop w envelopes [] None;
  (if bool_decide (new_ids = []) then mret tt
   else
     request_recompute;;
     n ← get_node;
     ratio ← lift (reconstruction_ratio n);
     update_metrics (record_merge_quality ratio);;
     match latest with
     | Some event => modify (λ n, notify_viz event true (node_metrics_snapshot w n) n)
     | None => mret tt
     end);;
  modify refresh_health;;
  mret new_ids.

(** ** Anchors and genesis *)
Definition anchor_step (anchors : list string) (event : Event) : list string :=
  if py_bool (jget (ev_payload event) "genesis") && bool_decide (ev_id event ∉ anchors)
  then anchors ++ [ev_id event] else anchors.

Definition anchor_ids : NodeM (list string) :=
  n ← get_node;
  if bool_decide (n_anchors n ≠ []) then mret (n_anchors n)
  else
    events ← lift (list_events 20 None (n_db n));
    let anchors := foldl anchor_step [] (events : list Event) in
    let anchors := if bool_decide (anchors = []) then option_list (ev_id <$> head events) else anchors in
    modify (set_n_anchors anchors);;
    mret anchors.

Definition all_known_nodes (n : Node) : list string :=
  let names : gset string := {[node_id n]} ∪
    list_to_set (filter (λ host, host ≠ "") ((λ peer, default "" (py_split ":" peer !! 0%nat)) <$> cfg_peers (n_config n))) in
  sort_on id String.compare (elements names).

(** [ordered.index(x)] *)
Fixpoint index_of (x : string) (l : list string) : option nat :=
  match l with
  | [] => None
  | y :: l' => if decide (x = y) then Some O else S <$> index_of x l'
  end.

Definition deterministic_genesis_ts (n : Node) : Node * Q :=
  let index := default O (index_of (node_id n) (all_known_nodes n)) in
  let ts := (1700000000 + inject_Z (Z.of_nat index) * (1 # 1000) + inject_Z (n_genesis_counter n) * (1 # 10000))%Q in
  (set_n_genesis_counter (n_genesis_counter n + 1) n, ts).

(** The entry of [_known_node_identities] whose scope is [self]; the listen
    address must have exactly one colon. *)
Definition self_identity (w : World) (n : Node) : result (odict json) :=
  match py_split ":" (cfg_listen (n_config n)) with
  | [listen_host; listen_port] =>
      port ← py_int (JStr listen_port);
      Ok [("subject_node_id", JStr (node_id n)); ("host_id", JStr (host_id n));
          ("runtime_hostname", JStr (w_hostname w)); ("listen", JStr (cfg_listen (n_config n)));
          ("listen_host", JStr listen_host); ("listen_port", JInt port); ("identity_scope", JStr "self")]
  | _ => Err (ValueError "not enough values to unpack")
  end.

(** The entry of a configured peer: [peer.partition(":")]. *)
Definition is_ascii_digits (s : string) : bool :=
  negb (bool_decide (s = "")) && forallb (λ c, (48 <=? Z.of_nat (Ascii.nat_of_ascii c)) && (Z.of_nat (Ascii.nat_of_ascii c) <=? 57)) (String.list_ascii_of_string s).
Definition peer_identity (peer : string) : odict json :=
  let '(peer_host, peer_port) := match py_split_max ":" 1 peer with [h; p] => (h, p) | _ => (peer, "") end in
  [("subject_node_id", JStr (str_or peer_host peer)); ("configured_peer_address", JStr peer);
   ("configured_peer_host", JStr (str_or peer_host peer));
   ("configured_peer_port", if is_ascii_digits peer_port then JInt (default 0 (int_of_str peer_port)) else JStr peer_port);
   ("identity_scope", JStr "known_peer")].
Definition known_node_identities (w : World) (n : Node) : result (list (odict json)) :=
  self ← self_identity w n; Ok (self :: (peer_identity <$> cfg_peers (n_config n))).
(** The entries of scope [self]: always the first one alone, so [bootstrap_genesis]
    takes [self_identity] (lemma [self_identities]). *)
Definition of_scope_self (identity : odict json) : bool := bool_decide (jget identity "identity_scope" = JStr "self").

Definition set_consensus_ts (e : Event) (ts : option Q) : Event :=
  {| ev_id := ev_id e; ev_cls := ev_cls e; ev_source := ev_source e; ev_creator := ev_creator e;
     ev_ts_local := ev_ts_local e; ev_vclock := ev_vclock e; ev_parents := ev_parents e;
     ev_self_parent_id := ev_self_parent_id e; ev_other_parent_id := ev_other_parent_id e;
     ev_payload := ev_payload e; ev_sig := ev_sig e; ev_consensus_ts := ts;
     ev_lamport_ts := ev_lamport_ts e; ev_round := ev_round e;
     ev_round_received := ev_round_received e; ev_is_witness := ev_is_witness e;
     ev_is_famous_witness := ev_is_famous_witness e; ev_fame_decided := ev_fame_decided e;
     ev_fame_decision_round := ev_fame_decision_round e; ev_fame_decision_kind := ev_fame_decision_kind e;
     ev_fame_needs_coin := ev_fame_needs_coin e; ev_fame_coin_used := ev_fame_coin_used e;
     ev_fame_coin_round := ev_fame_coin_round e; ev_fame_vote_round := ev_fame_vote_round e;
     ev_fame_vote_yes := ev_fame_vote_yes e; ev_fame_vote_no := ev_fame_vote_no e |}.

Definition bootstrap_genesis (w : World) (force : bool) : NodeM unit :=
  n ← get_node;
  if negb force && (0 <? Z.of_nat (event_count (n_db n))) then anchor_ids;; mret tt
  else
    identity ← lift (self_identity w n);
    let payload := dupdate [("anchor", JInt 0); ("node", JStr (node_id n)); ("genesis", JBool true);
                            ("genesis_kind", JStr "node_identity")] identity in
    ts ← (λ n, let '(n, ts) := deterministic_genesis_ts n in (n, Ok ts) : Node * result Q);
    n ← get_node;
    let event := Event_create C (node_id n) ts ∅ [] payload None (Some (node_id n)) None None in
    let event := set_consensus_ts event (Some ts) in
    let envelope := mkEnvelope event [mkHop (Some (node_id n)) (Some ts)] in
    update_db (λ db, (store_envelope (w_now w) envelope (Some ts) db).1);;
    modify (gossip_offer (ev_id event));;
    modify (λ n, notify_viz event true (node_metrics_snapshot w n) n);;
    modify (set_n_anchors [ev_id event]).

(** ** Spreading *)

(** [self._gossip._send_to_peer(address, envelopes)] at the given attempt. *)
Definition node_gossip_env (w : World) (attempt : nat) (n : Node) : GossipEnv :=
  {| ge_node_id := node_id n;
     ge_prioritizer := new_prioritizer (cfg_profile (n_config n)) (cfg_gossip (n_config n)) (cfg_prioritization (n_config n));
     ge_fan_out := gc_fan_out (cfg_gossip (n_config n));
     ge_hmac_key := cfg_hmac_key (n_config n);
     ge_peers := node_list_peers n;
     ge_sample := λ peers k, take k peers;
     ge_net := w_net w attempt; ge_now := w_now w; ge_latency := w_elapsed w |}.

Definition node_send (w : World) (attempt : nat) (address : string) (envelopes : list Envelope) (n : Node) : Node * bool :=
  let '(db, m, ok) := send_to_peer (node_gossip_env w attempt n) address envelopes (n_db n, n_metrics n) in
  (set_n_metrics m (set_n_db db n), ok).

Definition send_all_peers (w : World) (attempt : nat) (peers : list PeerInfo) (envelope : Envelope) (n : Node)
    : Node * list bool :=
  foldl (λ '(n, results) p, let '(n, ok) := node_send w attempt (pi_address p) [envelope] n in (n, results ++ [ok]))
    (n, []) peers.

(** The task [FanoutCritical]. *)
Definition fanout_critical (w : World) (event_id : string) : NodeM unit :=
  n ← get_node;
  if bool_decide (n_gossip n = None) then mret tt
  else
    envelope ← lift (get_envelope event_id (n_db n));
    match envelope with
    | None => mret tt
    | Some envelope =>
        if bool_decide (n_peers n = []) then mret tt
        else
          let '(n, results) := send_all_peers w 0 (node_list_peers n) envelope n in
          modify (λ _, n);;
          if forallb id results then mret tt else gossip_add_pending event_id
    end.

(** Without a gossip engine both the call and the handler of
    [_broadcast_event] fail. *)
Definition broadcast_event (w : World) (event_id : string) : NodeM unit :=
  n ← get_node;
  if bool_decide (n_peers n = []) then mret tt
  else
    envelope ← lift (get_envelope event_id (n_db n));
    match envelope with
    | None => mret tt
    | Some envelope =>
        forM (node_list_peers n) (λ p, n ← get_node;
          if bool_decide (n_gossip n = None) then raise (OtherError "AttributeError")
          else
            let '(n, ok) := node_send w 0 (pi_address p) [envelope] n in
            modify (λ _, n);;
            if (ok : bool) then mret tt else gossip_add_pending event_id)
    end.

(** One parallel round; a round that runs into the time limit counts nothing,
    but the requests that were done have had their effect. *)
Definition fanout_count_ack (w : World) (attempt : nat) (envelope : Envelope) (n : Node) : Node * Z :=
  if bool_decide (n_gossip n = None) || bool_decide (n_peers n = []) then (n, 0)
  else
    let peers := node_list_peers n in
    if w_timeout w attempt then
      ((send_all_peers w attempt (filter (λ p, w_done w attempt (pi_address p) = true) peers) envelope n).1, 0)
    else
      let '(n, results) := send_all_peers w attempt peers envelope n in
      (n, Z.of_nat (count_if id results)).

Inductive Durability := Durable | LocalOnly | BestEffort.

(** The retry loop: [true] when an attempt reached [required]. *)
Fixpoint ack_loop (w : World) (fuel attempt : nat) (envelope : Envelope) (required : Z) (n : Node) : Node * bool :=
  match fuel with
  | O => (n, false)
  | S f =>
      let '(n, ok_count) := fanout_count_ack w attempt envelope n in
      if required <=? ok_count then (n, true)
      else if w_stopping w attempt then (n, false)
      else ack_loop w f (S attempt) envelope required n
  end.

Definition add_durable (n : Node) : Node :=
  let k := n_counters n in
  set_n_counters (mkCounters (k_events_by_class_kind k) (k_service_started k) (k_service_stopped k) (k_service_killed k)
    (k_host_boot k) (k_host_reboot k) (k_checkpoint_confirmed k) (k_class_a_durable k + 1) (k_class_a_local_only k)
    (k_frontier_sync_pulls k) (k_tamper_alerts k) (k_heartbeat_emitted k)) n.
Definition add_local_only (n : Node) : Node :=
  let k := n_counters n in
  set_n_counters (mkCounters (k_events_by_class_kind k) (k_service_started k) (k_service_stopped k) (k_service_killed k)
    (k_host_boot k) (k_host_reboot k) (k_checkpoint_confirmed k) (k_class_a_durable k) (k_class_a_local_only k + 1)
    (k_frontier_sync_pulls k) (k_tamper_alerts k) (k_heartbeat_emitted k)) n.

(** [math.ceil(x)] *)
Definition required_acks (ratio : Q) (peers : nat) : Z := Z.max 1 (Qceiling (ratio * inject_Z (Z.of_nat peers))).

(** ** Emitting *)
Definition bump_kind (key : string * string) (l : list ((string * string) * Z)) : list ((string * string) * Z) :=
  if decide (key ∈ l.*1) then (λ p, if decide (p.1 = key) then (p.1, p.2 + 1) else p) <$> l else l ++ [(key, 1)].

Definition increment_event_counters (cls kind : string) (n : Node) : Node :=
  let kind := str_or kind "_unspecified" in
  let k := n_counters n in
  set_n_counters (mkCounters (bump_kind (cls, kind) (k_events_by_class_kind k)) (k_service_started k)
    (k_service_stopped k) (k_service_killed k)
    (if decide (kind = "host_boot") then k_host_boot k + 1 else k_host_boot k)
    (if decide (kind = "host_reboot") then k_host_reboot k + 1 else k_host_reboot k)
    (k_checkpoint_confirmed k) (k_class_a_durable k) (k_class_a_local_only k)
    (k_frontier_sync_pulls k) (k_tamper_alerts k) (k_heartbeat_emitted k)) n.

Definition sign_payload (payload : odict json) (n : Node) : option string :=
  match cfg_hmac_key (n_config n) with
  | Some key => if decide (key = "") then None else Some (hmac_signature key (JObj payload))
  | None => None
  end.

(** [for anchor in anchors: if len(parents) >= 2: break; ...] *)
Definition add_anchor (parents : list string) (anchor : string) : list string :=
  if bool_decide (2 ≤ length parents)%nat then parents
  else if decide (anchor ∈ parents) then parents else parents ++ [anchor].

Definition choose_parents (w : World) : NodeM (list string) :=
  n ← get_node;
  self_parent ← lift (latest_event_by_source (node_id n) (n_db n));
  let parents := option_list (ev_id <$> (self_parent : option Event)) in
  recent ← lift (list_recent_events 256 (n_db n));
  let candidates := ev_id <$> filter (λ e, ev_source e ≠ node_id n ∧ ev_id e ∉ parents) (recent : list Event) in
  let parents := if bool_decide (candidates = []) then parents else parents ++ [w_choice w candidates] in
  anchors ← anchor_ids;
  mret (take 2 (foldl add_anchor parents anchors)).

(** The clocks of the parents that are stored, merged into the node's. *)
Fixpoint merge_parent_clocks (db : DB) (parents : list string) (clock : VectorClock) : result VectorClock :=
  match parents with
  | [] => Ok clock
  | p :: rest =>
      e ← get_event p db;
      merge_parent_clocks db rest (match e with Some e => vc_merge clock (ev_vclock e) | None => clock end)
  end.

Record EventEmission := mkEmission { em_event : Event; em_stored : bool; em_durability : option Durability }.

Definition create_event (w : World) (cls : EventClass) (payload : odict json) : NodeM (Event * VectorClock) :=
  parents ← choose_parents w;
  n ← get_node;
  merged ← lift (merge_parent_clocks (n_db n) parents (n_vclock n));
  let local_clock := vc_increment merged (node_id n) in
  mret (Event_create cls (node_id n) (w_now w) local_clock parents payload (sign_payload payload n)
          (Some (node_id n)) (parents !! 0%nat) (parents !! 1%nat), local_clock).

(** [emit_event]; [broadcast_a] is what happens to a stored event of class A. *)
Definition emit_with (broadcast_a : string → NodeM Durability) (w : World) (cls : EventClass) (payload : odict json)
    : NodeM EventEmission :=
  '(event, local_clock) ← create_event w cls payload;
  n ← get_node;
  stored ← persist_envelope w (mkEnvelope event [mkHop (Some (node_id n)) (Some (w_now w))]) true true;
  update_metrics (record_emit_to_consensus_latency (w_elapsed w));;
  modify (set_n_vclock (vc_merge local_clock (ev_vclock event)));;
  modify refresh_health;;
  (if (stored : bool)
   then modify (increment_event_counters (EventClass_value cls) (py_str (jget_or payload "event_kind" (JStr ""))))
   else mret tt);;
  durability ← (if (stored : bool) then
                  match cls with
                  | A => d ← broadcast_a (ev_id event); mret (Some d)
                  | B => broadcast_event w (ev_id event);; mret None
                  | C => mret None
                  end
                else mret None : NodeM (option Durability));
  n ← get_node;
  (if (stored : bool) && nc_enabled (cfg_notifier (n_config n)) &&
      bool_decide (EventClass_value cls ∈ nc_trigger_classes (cfg_notifier (n_config n)))
   then modify (schedule (NotifyEvent event)) else mret tt);;
  mret (mkEmission event stored durability).

(** Events of class B and C never reach [broadcast_a]. *)
Definition emit_low (w : World) : EventClass → odict json → NodeM EventEmission :=
  emit_with (λ _, mret BestEffort) w.

Definition broadcast_with_quorum_ack (w : World) (event_id : string) : NodeM Durability :=
  n ← get_node;
  let rt := cfg_runtime (n_config n) in
  let ratio := rt_class_a_fanout_quorum_ratio rt in
  if ratio <=?q 0 then broadcast_event w event_id;; mret BestEffort
  else if bool_decide (n_peers n = []) then mret LocalOnly
  else
    envelope ← lift (get_envelope event_id (n_db n));
    match envelope with
    | None => mret LocalOnly
    | Some envelope =>
        let peers_total := length (n_peers n) in
        let required := required_acks ratio peers_total in
        let max_retries := Z.to_nat (Z.max 1 (rt_class_a_fanout_max_retries rt)) in
        let '(n, durable) := ack_loop w max_retries 0 envelope required n in
        modify (λ _, n);;
        if (durable : bool) then modify add_durable;; mret Durable
        else
          modify (gossip_offer event_id);;
          modify add_local_only;;
          try_with
            (emit_low w B
               [("event_kind", JStr "mdrj_event_replication_failed"); ("node_id", JStr (node_id n));
                ("host_id", JStr (host_id n)); ("original_event_id", JStr event_id);
                ("required_quorum", JInt required); ("peers_total", JInt (Z.of_nat peers_total));
                ("detected_at", JFloat (w_now w))];; mret tt)
            (λ _, mret tt);;
          mret LocalOnly
    end.

Definition emit_event (w : World) : EventClass → odict json → NodeM EventEmission :=
  emit_with (broadcast_with_quorum_ack w) w.

(** ** Clearing *)
Definition clear_events_local (w : World) : NodeM json :=
  update_db clear_events;;
  modify (set_n_vclock ∅);;
  modify (set_n_anchors []);;
  update_metrics reset_metrics;;
  n ← get_node;
  let reset := node_metrics_snapshot w n in
  modify (notify_viz_reset reset);;
  bootstrap_genesis w true;;
  recompute_consensus;;
  update_db (λ db, set_incidents db []);;
  modify refresh_health;;
  mret reset.

(** [min(items, key=lambda item: item[1])]: the first of the smallest. *)
Fixpoint min_item (best : string * Q) (items : list (string * Q)) : string * Q :=
  match items with
  | [] => best
  | item :: rest => min_item (if item.2 <?q best.2 then item else best) rest
  end.

Definition mark_clear_token (now : Q) (token : string) (tokens : odict Q) : odict Q * bool :=
  let expiry := (now - 300)%Q in
  let to_remove := (filter (λ p, p.2 <?q expiry = true) (tokens : list (string * Q))).*1 in
  let tokens := foldl dpop tokens to_remove in
  if decide (token ∈ dkeys tokens) then (tokens, false)
  else
    let tokens := dset tokens token now in
    if bool_decide (128 < length tokens)%nat then
      match (tokens : list (string * Q)) with
      | item :: rest => (dpop tokens (min_item item rest).1, true)
      | [] => (tokens, true)
      end
    else (tokens, true).

(** The requests that pass a clear on, one to each peer: the address, the body and
    the headers of the POST to [/viz/clear]. *)
Record ClearRequest := mkClear { cr_address : string; cr_body : bytes; cr_headers : odict string }.
Definition send_clear_request (key : option string) (address : string) (payload : json) : ClearRequest :=
  let '(body, headers) := signed_request_body payload key in mkClear address body headers.
Definition propagate_clear (token : string) (n : Node) : list ClearRequest :=
  if bool_decide (n_gossip n = None) then []
  else
    let payload := JObj [("token", JStr token); ("propagate", JBool true)] in
    (λ peer, send_clear_request (cfg_hmac_key (n_config n)) (pi_address peer) payload) <$> node_list_peers n.

(** [clear_events]: the metrics, and the requests that pass the clear on; how they
    are answered has no influence. *)
Definition node_clear_events (w : World) (token : string) (propagate : bool) : NodeM (json * list ClearRequest) :=
  if decide (token = "") then raise (ValueError "clear token required")
  else
    n ← get_node;
    let '(tokens, fresh) := mark_clear_token (w_now w) token (n_clear_tokens n) in
    modify (set_n_clear_tokens tokens);;
    if (fresh : bool) then
      reset ← clear_events_local w;
      n ← get_node;
      mret (reset, if propagate then propagate_clear token n else [])
    else n ← get_node; mret (node_metrics_snapshot w n, []).

(** ** The collection policy *)
Definition POLICY_PROTECTED_KINDS : list string :=
  ["node_identity"; "heartbeat"; "node_hourly_status"; "mdrj_service_start"; "mdrj_service_stop";
   "mdrj_service_killed"; "host_boot"; "host_reboot"; "mdrj_tamper_detected";
   "mdrj_event_replication_failed"; "mdrj_collection_policy_changed"].

Record PolicyChange := mkPolicyChange {
  po_kind : string; po_previous_enabled : bool; po_new_enabled : bool; po_policy_hash : string }.

Definition set_collection_policy (w : World) (kind : string) (enabled : bool) : NodeM PolicyChange :=
  n ← get_node;
  if negb (is_known_event_kind kind (n_catalog n)) then raise (KeyError kind)
  else if decide (kind ∈ POLICY_PROTECTED_KINDS) then raise (ValueError kind)
  else
    let previous := registry_enabled_for kind (n_catalog n) in
    let '(catalog, applied) := set_registry_enabled kind enabled (n_catalog n) in
    modify (set_n_catalog catalog);;
    if (applied : bool) then
      emit_event w A
        [("event_kind", JStr "mdrj_collection_policy_changed"); ("node_id", JStr (node_id n));
         ("host_id", JStr (host_id n)); ("changed_kind", JStr kind); ("previous_enabled", JBool previous);
         ("new_enabled", JBool enabled); ("policy_hash", JStr (collection_policy_hash catalog));
         ("changed_at", JFloat (w_now w))];;
      n ← get_node;
      mret (mkPolicyChange kind previous enabled (collection_policy_hash (n_catalog n)))
    else raise (KeyError kind).
End events.
