(* ===== verification/NodeEventsFacts.v ===== *)
(** Theorems about NodeEvents.v: what an ingested batch adds, the clock and the
    parents of an emitted event, the acknowledgement quorum of class A events,
    and the tokens of the clear command. *)
From S2P Require Import Prelude Sha256 Json VectorClock Models Consensus Storage StorageFacts Config Metrics Prioritization Gossip Auth Catalog Node NodeLogic NodeEvents.

Definition event_ids (db : DB) : list string := row_id <$> db_events db.

(** Transitions that neither add events nor touch the gossip queue. *)
Definition same_queue (n n' : Node) : Prop :=
  event_ids (n_db n') = event_ids (n_db n) ∧ n_gossip n' = n_gossip n.
#[export] Instance same_queue_preorder : PreOrder same_queue.
Proof.
  split; [by split|]. intros a b c [H1 H2] [H3 H4]. split; congruence.
Qed.

Notation quiet := (framed same_queue).

(** ** Columns that are not the id *)
Lemma row_id_dset r c v : c ≠ "id" → row_id (dset r c v) = row_id r.
Proof. intros Hc. unfold row_id. by rewrite sql_get_dset, decide_False. Qed.
Lemma row_id_dupdate (vals : list (string * sqlval)) r : "id" ∉ vals.*1 → row_id (dupdate r vals) = row_id r.
Proof.
  unfold dupdate. revert r. induction vals as [|[c v] vals IH]; intros r; simpl; [done|].
  rewrite not_elem_of_cons. intros [Hc Hv]. rewrite IH by done. apply row_id_dset. congruence.
Qed.
Lemma row_id_coalesce (vals : list (string * sqlval)) r : "id" ∉ vals.*1 → row_id (coalesce_columns vals r) = row_id r.
Proof.
  unfold coalesce_columns. revert r. induction vals as [|[c v] vals IH]; intros r; simpl; [done|].
  rewrite not_elem_of_cons. intros [Hc Hv]. rewrite IH by done. apply row_id_dset. congruence.
Qed.
Lemma ids_update p f rows : (∀ r, row_id (f r) = row_id r) → row_id <$> sql_update p f rows = row_id <$> rows.
Proof.
  intros Hf. unfold sql_update. rewrite <- list_fmap_compose. apply list_fmap_ext. intros _ r _. simpl.
  by destruct (p r).
Qed.

Lemma replace_state_ids states db : event_ids (replace_consensus_state states db) = event_ids db.
Proof.
  unfold event_ids, replace_consensus_state. simpl. generalize (db_events db) as rows.
  induction states as [|s states IH]; intros rows; simpl; [done|]. rewrite IH. apply ids_update.
  intros r. unfold apply_state. rewrite row_id_coalesce, row_id_dupdate; [done|..];
    apply (bool_decide_unpack _); vm_compute; exact I.
Qed.

Lemma store_envelope_ids now env ts db :
  event_ids (store_envelope now env ts db).1 =
    (if decide (env_id env ∈ event_ids db) then event_ids db else event_ids db ++ [env_id env]) ∧
  (store_envelope now env ts db).2 = bool_decide (env_id env ∉ event_ids db).
Proof.
  unfold store_envelope, event_ids, env_id. destruct (find_event db _) as [r|] eqn:Hf.
  - apply find_has_id in Hf as [Hr Hid].
    assert (ev_id (env_event env) ∈ row_id <$> db_events db) as Hin by (rewrite <- Hid; by apply list_elem_of_fmap_2).
    rewrite decide_True, bool_decide_false by (done || by intros Hn). split; [|done].
    destruct ts as [ts|]; [|done]. simpl. apply ids_update. intros r'. apply row_id_coalesce.
    apply (bool_decide_unpack _); vm_compute; exact I.
  - apply find_has_id_None in Hf. rewrite decide_False, bool_decide_true by done.
    split; [|done]. simpl. by rewrite fmap_app.
Qed.

Section facts.
Context `{FloatFormat}.

Lemma quiet_membership :
  quiet (λ n, let '(n, s) := active_consensus_membership n in (n, Ok s) : Node * result (odict json)).
Proof.
  intros n. unfold active_consensus_membership, save_snapshot. by destruct (cached_snapshot n).
Qed.
Lemma quiet_recompute : quiet recompute_consensus.
Proof.
  unfold recompute_consensus. frame_step; [frame_step|]. frame_step; [frame_step|].
  case_bool_decide; [frame_step|]. frame_step; [apply quiet_membership|]. frame_step; [frame_step|].
  frame_step; [frame_step|]. destruct (toposort _) as [ids|[]]; try frame_step.
  apply framed_modify. intros n2. split; [apply replace_state_ids|done].
Qed.
Lemma quiet_request : quiet request_recompute.
Proof.
  unfold request_recompute. frame_step; [frame_step|]. destruct (_ <=?q _); [apply quiet_recompute|].
  frame_step; [apply framed_modify; by split|]. destruct (n_loop _).
  - apply framed_modify. intros n1. by destruct (existsb _ _).
  - frame_step; [apply quiet_recompute|]. apply framed_modify. by split.
Qed.

(** ** Ingesting a batch *)

(** One quiet step of the loop. *)
Lemma persist_quiet w env n :
  persist_envelope w env false false n =
  (let '(db, stored) := store_envelope (w_now w) env (ev_consensus_ts (env_event env)) (n_db n) in
   let n := set_n_vclock (vc_merge (n_vclock (set_n_db db n)) (ev_vclock (env_event env))) (set_n_db db n) in
   (if (stored : bool) then gossip_offer (env_id env) n else n, Ok stored)).
Proof.
  unfold persist_envelope, mbind, nodem_bind, get_node. cbn [mbind].
  by destruct (store_envelope _ _ _ _) as [db [|]].
Qed.

(** The ids of a batch that are not known yet, each once. *)
Definition fresh_step (known acc : list string) (i : string) : list string :=
  if decide (i ∈ known ++ acc) then acc else acc ++ [i].

(** The queue after the new ids were offered. *)
Definition offer_all (ids : list string) (g : option Gossip) : option Gossip :=
  (λ g, foldl (λ g i, add_pending i g) g ids) <$> g.

Lemma ingest_loop_spec w envs known new latest n n' ids l :
  ingest_loop w envs new latest n = (n', Ok (ids, l)) →
  event_ids (n_db n) = known ++ new →
  ids = foldl (fresh_step known) new (env_id <$> envs) ∧
  event_ids (n_db n') = known ++ ids ∧
  ∃ added, ids = new ++ added ∧ n_gossip n' = offer_all added (n_gossip n).
Proof.
  revert new latest n. induction envs as [|env envs IH]; intros new latest n.
  { intros [= <- <- <-] Hk. split_and!; [done..|]. exists []. rewrite app_nil_r. split; [done|]. by destruct (n_gossip n). }
  cbn [ingest_loop]. rewrite bind_Ok. intros (n1 & stored & Hp & Hloop) Hk. rewrite persist_quiet in Hp.
  destruct (store_envelope_ids (w_now w) env (ev_consensus_ts (env_event env)) (n_db n)) as [Hids Hst].
  destruct (store_envelope _ _ _ _) as [db st]. simpl in Hids, Hst. injection Hp as <- <-.
  rewrite Hk in Hids, Hst. cbn [fmap list_fmap foldl]. unfold fresh_step at 2.
  case_bool_decide as Hin; subst st.
  - rewrite decide_False in Hids |- * by done. apply IH in Hloop as (Hl & He & added & Ha & Hg).
    + split_and!; [done..|]. exists (env_id env :: added). split; [rewrite Ha, <- app_assoc; reflexivity|].
      rewrite Hg. unfold gossip_offer. simpl. destruct (n_gossip n) eqn:Eg; simpl; [done|by rewrite Eg].
    + unfold gossip_offer. simpl. destruct (n_gossip n); simpl; by rewrite Hids, app_assoc.
  - rewrite decide_True in Hids |- * by done.
    apply IH in Hloop as (Hl & He & added & Ha & Hg); [|done]. split_and!; [done..|]. by exists added.
Qed.

Lemma fresh_ids_spec known ids acc :
  NoDup acc → (∀ i, i ∈ acc → i ∉ known) →
  NoDup (foldl (fresh_step known) acc ids) ∧
  ∀ i, i ∈ foldl (fresh_step known) acc ids ↔ i ∈ acc ∨ i ∈ ids ∧ i ∉ known.
Proof.
  revert acc. induction ids as [|j ids IH]; intros acc Hd Hk; simpl; [set_solver|].
  unfold fresh_step at 2 4. case_decide as Hj.
  - destruct (IH acc Hd Hk) as [H1 H2]. split; [done|]. intros i. rewrite H2. set_solver.
  - apply not_elem_of_app in Hj as [Hj1 Hj2].
    destruct (IH (acc ++ [j])) as [H1 H2]; [apply NoDup_app; split_and!; [done|set_solver|apply NoDup_singleton]|set_solver|].
    split; [done|]. intros i. rewrite H2. set_solver.
Qed.

Lemma offer_all_pending ids g i : queue_ok g → i ∈ ids → i ∈ g_pending (foldl (λ g i, add_pending i g) g ids).
Proof.
  revert g. induction ids as [|j ids IH]; intros g Hg; [set_solver|]. simpl.
  intros [->|Hi]%elem_of_cons; [|apply IH; [by apply add_pending_ok|done]].
  assert (∀ l g, j ∈ g_pending g → j ∈ g_pending (foldl (λ g i, add_pending i g) g l)) as Hkeep.
  { intros l. induction l as [|k l IHl]; intros g' Hg'; [done|]. by apply IHl, add_pending_keeps. }
  by apply Hkeep, add_pending_in.
Qed.

(** Ingesting a batch stores each unknown event once, at the end of the store
    and in the order of the batch, reports exactly those events as new, and queues
    each of them for gossip. *)
Theorem ingest_new_ids (w : World) (envs : list Envelope) (n n' : Node) (ids : list string) :
  ingest_envelopes w envs n = (n', Ok ids) →
  event_ids (n_db n') = event_ids (n_db n) ++ ids ∧
  NoDup ids ∧
  (∀ i, i ∈ ids ↔ i ∈ env_id <$> envs ∧ i ∉ event_ids (n_db n)) ∧
  (∀ g, n_gossip n = Some g → queue_ok g → ∃ g', n_gossip n' = Some g' ∧ ∀ i, i ∈ ids → i ∈ g_pending g').
Proof.
  unfold ingest_envelopes. rewrite bind_Ok. intros (n1 & [new latest] & Hloop & Hrest).
  destruct (ingest_loop_spec w envs (event_ids (n_db n)) [] None n n1 new latest Hloop) as (Hnew & Hids & added & Ha & Hg);
    [by rewrite app_nil_r|]. simpl in Ha. subst added.
  match type of Hrest with (_ ← ?m; _) _ = _ => assert (quiet m) as Hq end.
  { case_bool_decide; [frame_step|]. frame_step; [apply quiet_request|].
    frame_step; [frame_step|]. frame_step; [frame_step|]. frame_step; [apply framed_modify; by split|].
    destruct latest; [apply framed_modify; by split|frame_step]. }
  apply bind_Ok in Hrest as (n2 & u & Hm & Hrest). specialize (Hq n1). rewrite Hm in Hq. destruct Hq as [Hq1 Hq2].
  simpl in Hq1, Hq2. injection Hrest as <- <-.
  destruct (fresh_ids_spec (event_ids (n_db n)) (env_id <$> envs) []) as [Hd Hin]; [apply NoDup_nil_2|set_solver|].
  rewrite <- Hnew in Hd, Hin. split_and!.
  - simpl. by rewrite Hq1.
  - done.
  - intros i. rewrite Hin. set_solver.
  - intros g Hgn Hok. simpl. rewrite Hq2, Hg, Hgn. simpl. eexists. split; [done|].
    intros i Hi. by apply offer_all_pending.
Qed.

(** ** Identities

    The identities [_bootstrap_genesis] selects are the node's own one. *)
Lemma self_identities w n ids identity : known_node_identities w n = Ok ids → self_identity w n = Ok identity →
  List.filter of_scope_self ids = [identity].
Proof.
  unfold known_node_identities. intros Hids Hid. rewrite Hid in Hids. injection Hids as <-. cbn [List.filter].
  assert (of_scope_self identity = true) as ->.
  { unfold self_identity in Hid. destruct (py_split ":" _) as [|h [|p [|]]]; try done. destruct (py_int (JStr p)); [|done]. by injection Hid as <-. }
  f_equal. induction (cfg_peers (n_config n)) as [|peer peers IH]; [done|]. cbn [fmap list_fmap List.filter].
  assert (of_scope_self (peer_identity peer) = false) as ->; [|exact IH].
  unfold peer_identity. by destruct (py_split_max ":" 1 peer) as [|h [|p [|]]].
Qed.

(** ** Clear tokens *)
Lemma dpops_spec (keys : list string) (d : list (string * Q)) :
  @eq (list (string * Q)) (foldl dpop d keys) (filter (λ e, e.1 ∉ keys) d).
Proof.
  revert d. induction keys as [|k keys IH]; intros d; cbn [foldl].
  - rewrite filter_all; [done|]. intros e _. apply not_elem_of_nil.
  - rewrite IH, dpop_filter, list_filter_filter. apply list_filter_iff. intros [k' v]. simpl.
    rewrite not_elem_of_cons. naive_solver.
Qed.

Lemma expired_spec (expiry : Q) (d : list (string * Q)) e :
  NoDup (dkeys d) →
  e ∈ foldl dpop d (filter (λ p, p.2 <?q expiry = true) d).*1 ↔ e ∈ d ∧ (expiry <= e.2)%Q.
Proof.
  intros Hd. rewrite dpops_spec, list_elem_of_filter. split.
  - intros [Hn He]. split; [done|]. apply Qltb_false. destruct (e.2 <?q expiry) eqn:E; [|done].
    destruct Hn. apply list_elem_of_fmap. exists e. by rewrite list_elem_of_filter.
  - intros [He Hx]. split; [|done]. intros (e' & Heq & He')%list_elem_of_fmap.
    apply list_elem_of_filter in He' as [Hx' He']. destruct e as [k v], e' as [k' v']. simpl in *. subst k'.
    apply dget_in in He, He'; [|done..]. assert (v = v') as <- by congruence. apply Qltb_true in Hx'. lra.
Qed.

Lemma min_item_in best l : min_item best l ∈ best :: l.
Proof.
  revert best. induction l as [|x l IH]; intros best; simpl; [left|].
  specialize (IH (if x.2 <?q best.2 then x else best)). destruct (_ <?q _); set_solver.
Qed.
Lemma min_item_snoc best l x : (best.2 <= x.2)%Q → min_item best (l ++ [x]) ∈ best :: l.
Proof.
  revert best. induction l as [|y l IH]; intros best Hx; simpl.
  - destruct (x.2 <?q best.2) eqn:E; [apply Qltb_true in E; lra|left].
  - destruct (y.2 <?q best.2) eqn:E.
    + apply Qltb_true in E. assert (y.2 <= x.2)%Q as Hy by lra. specialize (IH y Hy). set_solver.
    + specialize (IH best Hx). set_solver.
Qed.


Lemma mark_again now token tokens ts :
  (token, ts) ∈ tokens → NoDup (dkeys tokens) → (now - 300 <= ts)%Q → (mark_clear_token now token tokens).2 = false.
Proof.
  intros Hin Hd Hts. unfold mark_clear_token. rewrite decide_True; [done|].
  apply (list_elem_of_fmap_2 fst (_ : list (string * Q)) (token, ts)). by apply expired_spec.
Qed.

(** A clear command is carried out once: a token seen in the last five minutes
    is refused, a fresh token is accepted and refused from then on for five
    minutes, and at most 128 tokens are remembered. *)
Theorem clear_token_once (now : Q) (token : string) (tokens : odict Q) :
  NoDup (dkeys tokens) → (length tokens ≤ 128)%nat → (∀ e, e ∈ tokens → (e.2 <= now)%Q) →
  let '(tokens', fresh) := mark_clear_token now token tokens in
  NoDup (dkeys tokens') ∧ (length tokens' ≤ 128)%nat ∧ (∀ e, e ∈ tokens' → (e.2 <= now)%Q) ∧
  (fresh = false ↔ ∃ ts, (token, ts) ∈ tokens ∧ (now - 300 <= ts)%Q) ∧
  (fresh = true → (token, now) ∈ tokens') ∧
  (fresh = false → ∀ ts, (token, ts) ∈ tokens → (now - 300 <= ts)%Q → (token, ts) ∈ tokens') ∧
  (fresh = true → ∀ later, (later <= now + 300)%Q → (mark_clear_token later token tokens').2 = false).
Proof.
  intros Hd Hlen Hnow.
  assert (∀ d : list (string * Q), (token, now) ∈ d → NoDup (dkeys d) → ∀ later, (later <= now + 300)%Q →
    (mark_clear_token later token d).2 = false) as Hagain by (intros d Hin Hnd later Hl; eapply mark_again; [done..|lra]).
  unfold mark_clear_token at 1. set (live := foldl dpop tokens _).
  assert (∀ e, e ∈ live ↔ e ∈ tokens ∧ (now - 300 <= e.2)%Q) as Hlive by (intros e; by apply expired_spec).
  assert (live `sublist_of` tokens) as Hsub by (unfold live; rewrite dpops_spec; apply sublist_filter).
  assert (NoDup (dkeys live)) as Hdl by (eapply sublist_NoDup; [exact Hd|by apply fmap_sublist]).
  apply sublist_length in Hsub. clearbody live.
  assert (token ∈ dkeys live ↔ ∃ ts, (token, ts) ∈ tokens ∧ (now - 300 <= ts)%Q) as Hrec.
  { unfold dkeys. rewrite list_elem_of_fmap. split.
    - intros ([k ts] & -> & He). apply Hlive in He. by exists ts.
    - intros (ts & He). exists (token, ts). split; [done|]. by apply Hlive. }
  destruct (decide (token ∈ dkeys live)) as [Ht|Ht].
  { split_and!; [done|lia|intros e [He _]%Hlive; by apply Hnow|tauto|done|intros _ ts Hin Hts; by apply Hlive|done]. }
  rewrite dset_fresh by done.
  assert (NoDup (dkeys (live ++ [(token, now)]))) as Hd1.
  { unfold dkeys. rewrite fmap_app. apply NoDup_app. split_and!; [done| |apply NoDup_singleton].
    intros x Hx ->%list_elem_of_singleton. by apply Ht. }
  assert (∀ e, e ∈ live ++ [(token, now)] → (e.2 <= now)%Q) as Hle.
  { intros e [He|He%list_elem_of_singleton]%elem_of_app; [apply Hlive in He as [He _]; by apply Hnow|subst; simpl; lra]. }
  case_bool_decide as Hbig.
  2: { split_and!; [done|lia|done|split; [done|tauto]|set_solver|done|]. intros _. apply Hagain; [set_solver|done]. }
  destruct live as [|item rest]; [simpl in Hbig; lia|]. cbn [app].
  assert (min_item item (rest ++ [(token, now)]) ∈ item :: rest) as Hmin.
  { apply min_item_snoc. apply Hle. left. }
  set (m := min_item item (rest ++ [(token, now)])) in *.
  assert (m.1 ≠ token) as Hm by (intros Heq; apply Ht; rewrite <- Heq; by apply list_elem_of_fmap_2).
  assert (dkeys (dpop (item :: rest ++ [(token, now)]) m.1) `sublist_of` dkeys (item :: rest ++ [(token, now)])) as Hs by apply dkeys_dpop_sublist.
  rewrite dpop_filter in *.
  assert ((token, now) ∈ filter (λ e : string * Q, e.1 ≠ m.1) (item :: rest ++ [(token, now)])) as Htok.
  { apply list_elem_of_filter. split; [simpl; congruence|]. set_solver. }
  split_and!.
  - eapply sublist_NoDup; [exact Hd1|exact Hs].
  - assert (length (filter (λ e : string * Q, e.1 ≠ m.1) (item :: rest ++ [(token, now)])) < length (item :: rest ++ [(token, now)]))%nat as Hlt.
    { apply (length_filter_lt _ _ m); [|by intros Hn; apply Hn]. set_solver. }
    cbn [length] in Hlt. rewrite length_app in Hlt. simpl in *. lia.
  - intros e [_ He]%list_elem_of_filter. by apply Hle.
  - split; [done|]. intros Hex. destruct Ht. by apply Hrec.
  - done.
  - done.
  - intros _. apply Hagain; [done|]. eapply sublist_NoDup; [exact Hd1|exact Hs].
Qed.

(** ** Acknowledgement of class A events *)

(** The peers that acknowledge attempt [k]. *)
Definition acks (w : World) (k : nat) (n : Node) : Z :=
  Z.of_nat (count_if (λ p, acked (w_net w k (pi_address p))) (node_list_peers n)).

Definition same_peers (n n' : Node) : Prop :=
  n_peers n' = n_peers n ∧ n_gossip n' = n_gossip n ∧ n_config n' = n_config n.

Lemma node_send_spec w k a envs n :
  (node_send w k a envs n).2 = acked (w_net w k a) ∧ same_peers n (node_send w k a envs n).1.
Proof. unfold node_send, send_to_peer. simpl. by destruct (acked _). Qed.

Lemma send_all_peers_spec w k peers env n :
  (send_all_peers w k peers env n).2 = (λ p, acked (w_net w k (pi_address p))) <$> peers ∧
  same_peers n (send_all_peers w k peers env n).1.
Proof.
  unfold send_all_peers. induction peers as [|p peers [IH1 IH2]] using rev_ind; [done|].
  rewrite foldl_app. cbn [foldl]. destruct (foldl _ _ peers) as [n1 results]. simpl in IH1, IH2.
  destruct (node_send_spec w k (pi_address p) [env] n1) as [H1 H2].
  destruct (node_send _ _ _ _ n1) as [n2 ok]. simpl in *. subst. rewrite fmap_app. split; [done|].
  destruct IH2 as (? & ? & ?), H2 as (? & ? & ?). split_and!; congruence.
Qed.

Lemma fanout_count_ack_spec w k env n :
  n_gossip n ≠ None → n_peers n ≠ [] →
  (fanout_count_ack w k env n).2 = (if w_timeout w k then 0 else acks w k n) ∧
  same_peers n (fanout_count_ack w k env n).1.
Proof.
  intros Hg Hp. unfold fanout_count_ack. rewrite !bool_decide_false by done. simpl.
  destruct (w_timeout w k); [split; [done|apply send_all_peers_spec]|].
  destruct (send_all_peers_spec w k (node_list_peers n) env n) as [H1 H2].
  destruct (send_all_peers _ _ _ _ _) as [n1 results]. simpl in *. subst. split; [|done].
  unfold acks. f_equal. induction (node_list_peers n) as [|p ps IH]; [done|]. by rewrite fmap_cons, !count_if_cons, IH.
Qed.

Lemma ack_loop_spec w fuel k env required n :
  n_gossip n ≠ None → n_peers n ≠ [] → 1 <= required →
  ((ack_loop w fuel k env required n).2 = true ↔
   ∃ j, (k ≤ j < k + fuel)%nat ∧ (∀ i, (k ≤ i < j)%nat → w_stopping w i = false) ∧
        w_timeout w j = false ∧ required <= acks w j n) ∧
  same_peers n (ack_loop w fuel k env required n).1.
Proof.
  revert k n. induction fuel as [|f IH]; intros k n Hg Hp Hr; cbn [ack_loop].
  { split; [|done]. split; [done|]. intros (j & Hj & _). lia. }
  destruct (fanout_count_ack_spec w k env n Hg Hp) as [Hc Hs].
  destruct (fanout_count_ack w k env n) as [n1 ok]. simpl in Hc, Hs.
  assert (acks w k n = acks w k n1 ∧ ∀ j, acks w j n1 = acks w j n) as [_ Hacks]
    by (unfold acks, node_list_peers; destruct Hs as (-> & _); done).
  destruct (required <=? ok) eqn:Hok; [|destruct (w_stopping w k) eqn:Hst].
  - split; [|done]. split; [|done]. intros _. exists k. apply Z.leb_le in Hok.
    destruct (w_timeout w k) eqn:Ht; [lia|]. split_and!; [lia|lia|intros; lia|done|lia].
  - split; [|done]. split; [done|]. intros (j & Hj & Hall & Ht & Ha). apply Z.leb_gt in Hok.
    destruct (decide (j = k)) as [->|]; [rewrite Ht in Hc; lia|].
    rewrite Hall in Hst by lia. done.
  - destruct Hs as (Hs1 & Hs2 & Hs3).
    destruct (IH (S k) n1) as [IH1 IH2]; [by rewrite Hs2|by rewrite Hs1|done|].
    split; [|destruct IH2 as (? & ? & ?); split_and!; congruence]. rewrite IH1. split.
    + intros (j & Hj & Hall & Ht & Ha). rewrite Hacks in Ha. exists j. split_and!; [lia|lia| |done|done].
      intros i Hi. destruct (decide (i = k)) as [->|]; [done|]. apply Hall. lia.
    + intros (j & Hj & Hall & Ht & Ha). apply Z.leb_gt in Hok.
      destruct (decide (j = k)) as [->|]; [rewrite Ht in Hc; lia|].
      exists j. rewrite Hacks. split_and!; [lia|lia| |done|done]. intros i Hi. apply Hall. lia.
Qed.

Lemma required_acks_spec ratio peers a :
  (0 < ratio)%Q → (0 < peers)%nat →
  1 <= required_acks ratio peers ∧
  (required_acks ratio peers <= a ↔ (ratio * inject_Z (Z.of_nat peers) <= inject_Z a)%Q).
Proof.
  intros Hr Hp. unfold required_acks. split; [lia|]. set (x := (ratio * inject_Z (Z.of_nat peers))%Q).
  assert (0 < x)%Q as Hx.
  { unfold x. apply Qmult_lt_0_compat; [done|]. change 0%Q with (inject_Z 0). rewrite <- Zlt_Qlt. lia. }
  assert (Qceiling x <= a ↔ (x <= inject_Z a)%Q) as Hc.
  { split.
    - intros Hle. eapply Qle_trans; [apply Qle_ceiling|]. by rewrite <- Zle_Qle.
    - intros Hle. rewrite <- (Qceiling_Z a). by apply Qceiling_resp_le. }
  rewrite <- Hc. split; [lia|]. intros Hle. apply Hc in Hle as Hle'.
  assert (0 < a); [|lia]. rewrite Zlt_Qlt. eapply Qlt_le_trans; [exact Hx|done].
Qed.

(** *** An id stays queued *)
Definition pending_in (i : string) (n : Node) : Prop := ∃ g, n_gossip n = Some g ∧ i ∈ g_pending g.
Definition stays (i : string) (n n' : Node) : Prop := pending_in i n → pending_in i n'.
#[export] Instance stays_preorder i : PreOrder (stays i).
Proof. split; [by intros n Hn|]. intros a b c H1 H2 Hn. by apply H2, H1. Qed.
Notation keeps i := (framed (stays i)).

Lemma keeps_quiet {X} i (m : NodeM X) : quiet m → keeps i m.
Proof. intros Hq n (g & Hg & Hi). destruct (Hq n) as [_ Hg']. exists g. by rewrite Hg'. Qed.
Lemma keeps_same i f : (∀ n, n_gossip (f n) = n_gossip n) → keeps i (modify f).
Proof. intros Hf n (g & Hg & Hi). exists g. simpl. by rewrite Hf. Qed.
Lemma gossip_offer_keeps i j n : pending_in i n → pending_in i (gossip_offer j n).
Proof.
  intros (g & Hg & Hi). unfold gossip_offer. rewrite Hg. eexists. split; [done|]. by apply add_pending_keeps.
Qed.
Lemma keeps_add i j : keeps i (gossip_add_pending j).
Proof.
  intros n (g & Hg & Hi). unfold gossip_add_pending. rewrite Hg. eexists. split; [done|]. by apply add_pending_keeps.
Qed.
Ltac keeps_step := first [ frame_step | apply keeps_add | apply keeps_same; reflexivity ].

Lemma keeps_persist i w env r b : keeps i (persist_envelope w env r b).
Proof.
  unfold persist_envelope. keeps_step; [keeps_step|]. destruct (store_envelope _ _ _ _) as [db stored].
  keeps_step; [keeps_step|]. keeps_step; [destruct r; [apply keeps_quiet, quiet_request|keeps_step]|].
  keeps_step; [keeps_step|]. keeps_step; [|keeps_step]. destruct stored; [|keeps_step].
  keeps_step; [apply framed_modify; intros ? ?; by apply gossip_offer_keeps|]. destruct b; [|keeps_step].
  repeat keeps_step. unfold schedule_fast_fanout. apply framed_modify. intros n' Hn. by destruct (n_loop n').
Qed.

Lemma keeps_anchor_ids i : keeps i anchor_ids.
Proof. unfold anchor_ids. keeps_step; [keeps_step|]. case_bool_decide; repeat keeps_step. Qed.

Lemma keeps_create i w cls payload : keeps i (create_event w cls payload).
Proof.
  unfold create_event, choose_parents. repeat (first [apply keeps_anchor_ids | keeps_step]).
Qed.

Lemma keeps_broadcast i w j : keeps i (broadcast_event w j).
Proof.
  unfold broadcast_event. keeps_step; [keeps_step|]. case_bool_decide; [keeps_step|].
  keeps_step; [keeps_step|]. case_match; [|keeps_step]. keeps_step. intros n (g & Hg & Hi).
  unfold mbind, nodem_bind, get_node. rewrite bool_decide_false by (rewrite Hg; done).
  destruct (node_send_spec w 0 (pi_address x1) [e] n) as [_ (_ & Hs & _)].
  destruct (node_send _ _ _ _ n) as [n1 ok]. simpl in Hs. unfold modify. cbn [mbind].
  assert (pending_in i n1) as Hp by (exists g; by rewrite Hs).
  destruct ok; [done|]. by apply keeps_add.
Qed.

Lemma keeps_emit_low i w cls payload : cls ≠ A → keeps i (emit_low w cls payload).
Proof.
  intros Hcls. unfold emit_low, emit_with. keeps_step; [apply keeps_create|]. destruct x as [event clock].
  keeps_step; [keeps_step|]. keeps_step; [apply keeps_persist|]. do 3 (keeps_step; [keeps_step|]).
  keeps_step; [case_match; keeps_step|].
  keeps_step; [|keeps_step; [keeps_step|]; keeps_step; [case_match; keeps_step|keeps_step]].
  case_match; [|keeps_step]. destruct cls; [done| |keeps_step]. keeps_step; [apply keeps_broadcast|keeps_step].
Qed.

(** The attempt to report a failed replication neither raises nor loses the id. *)
Lemma report_attempt i w payload n :
  pending_in i n →
  let r := try_with (emit_low w B payload;; mret tt) (λ _, mret tt) n in pending_in i r.1 ∧ r.2 = Ok tt.
Proof.
  intros Hn. pose proof (keeps_emit_low i w B payload ltac:(done) n Hn) as Hlow. unfold try_with, mbind, nodem_bind.
  by destruct (emit_low w B payload n) as [n1 [x|e]].
Qed.

(** C39: a class A event is reported durable exactly when, in one of the allowed
    attempts, the configured share of the peers acknowledged it in time; otherwise
    it is reported as local only and stays queued for gossip.  Nothing else can
    happen once the event is stored. *)
Theorem quorum_ack_contract (w : World) (i : string) (env : Envelope) (g : Gossip) (n : Node) :
  let rt := cfg_runtime (n_config n) in
  let ratio := rt_class_a_fanout_quorum_ratio rt in
  (0 < ratio)%Q → n_peers n ≠ [] → n_gossip n = Some g → queue_ok g →
  get_envelope i (n_db n) = Ok (Some env) →
  let r := broadcast_with_quorum_ack w i n in
  (r.2 = Ok Durable ∨ r.2 = Ok LocalOnly) ∧
  (r.2 = Ok Durable ↔
   ∃ j, (j < Z.to_nat (Z.max 1 (rt_class_a_fanout_max_retries rt)))%nat ∧
        (∀ k, (k < j)%nat → w_stopping w k = false) ∧ w_timeout w j = false ∧
        (ratio * inject_Z (Z.of_nat (length (n_peers n))) <= inject_Z (acks w j n))%Q) ∧
  (r.2 = Ok LocalOnly → pending_in i r.1).
Proof.
  intros rt ratio Hr Hp Hg Hok Henv. unfold broadcast_with_quorum_ack, mbind, nodem_bind, get_node.
  cbv beta iota zeta. fold rt. fold ratio.
  replace (ratio <=?q 0) with false by (symmetry; rewrite <- not_true_iff_false, Qle_bool_iff; lra).
  rewrite bool_decide_false by done. unfold lift. rewrite Henv. cbv beta iota zeta.
  assert (0 < length (n_peers n))%nat as Hlen by (destruct (n_peers n); simpl; [done|lia]).
  set (retries := Z.to_nat _). set (required := required_acks ratio (length (n_peers n))).
  destruct (required_acks_spec ratio (length (n_peers n)) 0 Hr Hlen) as [Hreq _]. fold required in Hreq.
  destruct (ack_loop_spec w retries 0 env required n) as [Hloop Hs]; [by rewrite Hg|done|done|].
  destruct (ack_loop w retries 0 env required n) as [n1 durable]. simpl in Hloop, Hs.
  assert (durable = true ↔ ∃ j, (j < retries)%nat ∧ (∀ k, (k < j)%nat → w_stopping w k = false) ∧
    w_timeout w j = false ∧ (ratio * inject_Z (Z.of_nat (length (n_peers n))) <= inject_Z (acks w j n))%Q) as Hd.
  { rewrite Hloop. split; intros (j & Hj & Hall & Ht & Ha); exists j; (split; [lia|]);
      (split; [intros; apply Hall; lia|]); (split; [done|]); by apply (required_acks_spec ratio (length (n_peers n))). }
  clear Hloop. unfold modify. cbv beta iota. destruct durable.
  - split_and!; [by left| |done]. rewrite <- Hd. split; done.
  - set (n2 := add_local_only (gossip_offer i n1)).
    assert (pending_in i n2) as Hn2.
    { destruct Hs as (_ & Hs & _). unfold pending_in, n2, add_local_only, gossip_offer. simpl. rewrite Hs, Hg.
      eexists. split; [done|]. by apply add_pending_in. }
    match goal with |- context [emit_low w B ?p] => destruct (report_attempt i w p n2 Hn2) as [Hk Ht] end.
    destruct (try_with _ _ n2) as [n3 r3]. simpl in Hk, Ht. subst r3.
    split_and!; [by right|split; [done|by intros H1%Hd]|done].
Qed.

(** ** Parents and clocks *)
Lemma anchor_ids_frame n n' anchors :
  anchor_ids n = (n', Ok anchors) → n_db n' = n_db n ∧ n_vclock n' = n_vclock n ∧ n_config n' = n_config n.
Proof.
  unfold anchor_ids, mbind, nodem_bind, get_node. cbv beta iota. case_bool_decide; [by intros [= <- _]|].
  unfold lift. destruct (list_events _ _ _); [|done]. unfold modify. by intros [= <- _].
Qed.

Lemma add_anchors_NoDup anchors parents : NoDup parents → NoDup (foldl add_anchor parents anchors).
Proof.
  revert parents. induction anchors as [|a anchors IH]; intros parents Hd; simpl; [done|]. apply IH.
  unfold add_anchor. case_bool_decide; [done|]. case_decide; [done|].
  apply NoDup_app. split_and!; [done|set_solver|apply NoDup_singleton].
Qed.

Lemma choose_parents_spec w n n' parents :
  (∀ l, l ≠ [] → w_choice w l ∈ l) →
  choose_parents w n = (n', Ok parents) →
  (length parents ≤ 2)%nat ∧ NoDup parents ∧
  n_db n' = n_db n ∧ n_vclock n' = n_vclock n ∧ n_config n' = n_config n.
Proof.
  intros Hch. unfold choose_parents. rewrite bind_Ok. intros (n1 & ? & [= <- <-] & Hc).
  apply bind_Ok in Hc as (n1 & sp & [= <- Hsp] & Hc). apply bind_Ok in Hc as (n1 & recent & [= <- Hrec] & Hc).
  apply bind_Ok in Hc as (n1 & anchors & Ha & [= <- <-]). apply anchor_ids_frame in Ha.
  split_and!; [rewrite length_take; lia| |apply Ha..].
  eapply sublist_NoDup; [|apply sublist_take]. apply add_anchors_NoDup.
  assert (NoDup (option_list (ev_id <$> (sp : option Event)))) as Hd by (destruct sp; [apply NoDup_singleton|apply NoDup_nil_2]).
  case_bool_decide as Hcand; [done|]. apply NoDup_app. split_and!; [done| |apply NoDup_singleton].
  intros x Hx Heq%list_elem_of_singleton. apply Hch in Hcand. rewrite <- Heq in Hcand.
  apply list_elem_of_fmap in Hcand as (ev & -> & Hev). apply list_elem_of_filter in Hev as [[_ Hn] _]. by apply Hn.
Qed.

Lemma merge_parent_clocks_spec db parents clock c :
  (∀ i e, get_event i db = Ok (Some e) → vc_wf (ev_vclock e)) →
  merge_parent_clocks db parents clock = Ok c → vc_wf clock →
  vc_wf c ∧ vc_le clock c ∧ ∀ p e, p ∈ parents → get_event p db = Ok (Some e) → vc_le (ev_vclock e) c.
Proof.
  intros Hdb. revert clock. induction parents as [|p parents IH]; intros clock; simpl.
  { intros [= <-] Hw. split_and!; [done|done|]. intros p e []%not_elem_of_nil. }
  destruct (get_event p db) as [o|] eqn:Hp; [|done]. simpl. intros Hm Hw.
  assert (vc_wf (match o with Some e => vc_merge clock (ev_vclock e) | None => clock end)) as Hw1
    by (destruct o; [apply vc_wf_merge; [done|by eapply Hdb]|done]).
  destruct (IH _ Hm Hw1) as (H1 & H2 & H3). split_and!; [done| |].
  - etrans; [|exact H2]. destruct o; [|done]. apply vc_le_merge_l; [done|by eapply Hdb].
  - intros q e [->|Hq]%elem_of_cons He; [|by eapply H3]. rewrite Hp in He. injection He as ->.
    etrans; [|exact H2]. apply vc_le_merge_r; [done|by eapply Hdb].
Qed.

(** C40: an emitted event carries the causal past it was built on: it has at most two
    different parents, its creator is the node, and its vector clock is strictly
    above the node's previous clock and above the clock of each stored parent. *)
Theorem emitted_event_causal (w : World) (cls : EventClass) (payload : odict json) (n n' : Node) (e : Event) (clock : VectorClock) :
  create_event w cls payload n = (n', Ok (e, clock)) →
  (∀ l, l ≠ [] → w_choice w l ∈ l) →
  vc_wf (n_vclock n) → (∀ i pe, get_event i (n_db n) = Ok (Some pe) → vc_wf (ev_vclock pe)) →
  (length (ev_parents e) ≤ 2)%nat ∧ NoDup (ev_parents e) ∧
  ev_creator e = node_id n ∧ ev_vclock e = clock ∧ vc_wf clock ∧
  vc_lt (n_vclock n) clock ∧
  ∀ p pe, p ∈ ev_parents e → get_event p (n_db n) = Ok (Some pe) → vc_lt (ev_vclock pe) clock.
Proof.
  unfold create_event. rewrite bind_Ok. intros (n1 & parents & Hp & Hc) Hch Hw Hdb.
  apply choose_parents_spec in Hp as (Hlen & Hd & H1 & H2 & H3); [|done].
  apply bind_Ok in Hc as (n2 & ? & [= <- <-] & Hc). apply bind_Ok in Hc as (n3 & merged & [= <- Hm] & [= _ <- <-]).
  rewrite H1, H2 in Hm. destruct (merge_parent_clocks_spec _ _ _ _ Hdb Hm Hw) as (Hw' & Hle & Hpar).
  cbn [ev_parents ev_creator ev_vclock Event_create].
  split_and!; [done|done| |done|by apply vc_wf_increment| |].
  - unfold str_or_opt, str_or, node_id. simpl. rewrite H3. by case_decide.
  - eapply vc_lt_le_trans; [exact Hle|apply vc_lt_increment].
  - intros p pe Hp He. eapply vc_lt_le_trans; [by eapply Hpar|apply vc_lt_increment].
Qed.
End facts.

(** ** Witnesses *)
Definition sample_world : World :=
  {| w_now := 100; w_elapsed := 1; w_rss := 0; w_cpu := 0; w_db_size := 0; w_choice := λ l, default "" (head l);
     w_net := λ k _, if (k =? 1)%nat then Response 200 true else NoResponse;
     w_timeout := λ _, false; w_done := λ _ _, false; w_stopping := λ _, false; w_hostname := "h"; w_token := "tok" |}.
Definition gossip_node : Node := set_n_gossip (Some empty_gossip) sample_node.
(** The node after it ingested one event. *)
Definition busy_node : Node := (@ingest_envelopes frac_format sample_world [example_envelope] gossip_node).1.

Lemma empty_queue_ok : queue_ok empty_gossip.
Proof. split; [apply NoDup_nil_2|done]. Defined.

Lemma run_ok {X Y} (r : X * result Y) y : r.2 = Ok y → r = (r.1, Ok y).
Proof. destruct r. by intros <-. Qed.

Lemma run_is_ok {X Y} (r : X * result Y) : is_ok r.2 = true → ∃ y, r = (r.1, Ok y).
Proof. destruct r as [x [y|]]; [intros _; by exists y|done]. Qed.
Lemma result_is_ok {Y} (r : result Y) : is_ok r = true → ∃ y, r = Ok y.
Proof. destruct r as [y|]; [intros _; by exists y|done]. Qed.

Lemma result_is_some {Y} (r : result (option Y)) : match r with Ok (Some _) => true | _ => false end = true → ∃ y, r = Ok (Some y).
Proof. destruct r as [[y|]|]; [intros _; by exists y|done..]. Qed.

Lemma ingest_new_ids_witness :
  let r := @ingest_envelopes frac_format sample_world [example_envelope; example_envelope] gossip_node in
  ∃ n' ids, r = (n', Ok ids) ∧ ids = [env_id example_envelope] ∧
  event_ids (n_db n') = event_ids (n_db gossip_node) ++ ids ∧ NoDup ids ∧
  (∀ i, i ∈ ids ↔ i ∈ env_id <$> [example_envelope; example_envelope] ∧ i ∉ event_ids (n_db gossip_node)) ∧
  (∀ g, n_gossip gossip_node = Some g → queue_ok g → ∃ g', n_gossip n' = Some g' ∧ ∀ i, i ∈ ids → i ∈ g_pending g').
Proof.
  intros r. assert (r = (r.1, Ok [env_id example_envelope])) as Hr by (apply run_ok; vm_compute; reflexivity).
  exists r.1, [env_id example_envelope]. split; [exact Hr|]. split; [reflexivity|].
  exact (@ingest_new_ids frac_format sample_world _ gossip_node r.1 _ Hr).
Defined.

Lemma clear_token_once_witness :
  let tokens := [("a", 1%Q); ("b", 90%Q)] in
  NoDup (dkeys tokens) ∧ (length tokens ≤ 128)%nat ∧ (∀ e, e ∈ tokens → (e.2 <= 400)%Q) ∧
  let '(tokens', fresh) := mark_clear_token 400 "a" tokens in
  NoDup (dkeys tokens') ∧ (length tokens' ≤ 128)%nat ∧ (∀ e, e ∈ tokens' → (e.2 <= 400)%Q) ∧
  (fresh = false ↔ ∃ ts, ("a", ts) ∈ tokens ∧ (400 - 300 <= ts)%Q) ∧
  (fresh = true → ("a", 400%Q) ∈ tokens') ∧
  (fresh = false → ∀ ts, ("a", ts) ∈ tokens → (400 - 300 <= ts)%Q → ("a", ts) ∈ tokens') ∧
  (fresh = true → ∀ later, (later <= 400 + 300)%Q → (mark_clear_token later "a" tokens').2 = false).
Proof.
  intros tokens.
  assert (NoDup (dkeys tokens)) as Hd by (apply (bool_decide_unpack _); vm_compute; exact I).
  assert (length tokens ≤ 128)%nat as Hl by (simpl; lia).
  assert (∀ e, e ∈ tokens → (e.2 <= 400)%Q) as Hn by (intros e He; unfold tokens in He; elim_in He; simpl; lra).
  split; [exact Hd|]. split; [exact Hl|]. split; [exact Hn|].
  exact (clear_token_once 400 "a" tokens Hd Hl Hn).
Defined.

Lemma quorum_ack_contract_witness :
  let i := env_id example_envelope in
  let n := busy_node in
  let rt := cfg_runtime (n_config n) in
  let ratio := rt_class_a_fanout_quorum_ratio rt in
  ∃ env g, n_gossip n = Some g ∧ queue_ok g ∧ get_envelope i (n_db n) = Ok (Some env) ∧
  let r := @broadcast_with_quorum_ack frac_format sample_world i n in
  (r.2 = Ok Durable ∨ r.2 = Ok LocalOnly) ∧
  (r.2 = Ok Durable ↔
   ∃ j, (j < Z.to_nat (Z.max 1 (rt_class_a_fanout_max_retries rt)))%nat ∧ (∀ k, (k < j)%nat → w_stopping sample_world k = false) ∧ w_timeout sample_world j = false ∧
        (ratio * inject_Z (Z.of_nat (length (n_peers n))) <= inject_Z (acks sample_world j n))%Q) ∧
  (r.2 = Ok LocalOnly → pending_in i r.1).
Proof.
  intros i n rt ratio.
  destruct (result_is_some (get_envelope i (n_db n))) as [env He]; [vm_compute; reflexivity|].
  assert (n_gossip n = Some (add_pending i empty_gossip)) as Hg by (vm_compute; reflexivity).
  assert (queue_ok (add_pending i empty_gossip)) as Hok by (apply add_pending_ok, empty_queue_ok).
  exists env, (add_pending i empty_gossip). split; [exact Hg|]. split; [exact Hok|]. split; [exact He|].
  assert (0 < ratio)%Q as Hr by (vm_compute; reflexivity).
  assert (n_peers n ≠ []) as Hp by (vm_compute; discriminate).
  exact (@quorum_ack_contract frac_format sample_world i env (add_pending i empty_gossip) n Hr Hp Hg Hok He).
Defined.

Lemma rows_wf (db : DB) :
  forallb (λ r, match Event_from_record r with Ok e => bool_decide (vc_wf (ev_vclock e)) | Err _ => true end) (db_events db) = true →
  ∀ i pe, get_event i db = Ok (Some pe) → vc_wf (ev_vclock pe).
Proof.
  rewrite forallb_forall. intros Hall i pe. unfold get_event, opt_event.
  destruct (find_event db i) as [r|] eqn:Hf; [|done]. apply find_has_id in Hf as [Hr _].
  apply list_elem_of_In, Hall in Hr. destruct (Event_from_record r); [|done]. intros [= <-].
  by apply bool_decide_eq_true in Hr.
Qed.

Lemma emitted_event_causal_witness :
  let payload := [("event_kind", JStr "x")] in
  let r := @create_event frac_format sample_world B payload busy_node in
  ∃ n' e clock, r = (n', Ok (e, clock)) ∧ vc_wf (n_vclock busy_node) ∧
  (length (ev_parents e) ≤ 2)%nat ∧ NoDup (ev_parents e) ∧
  ev_creator e = node_id busy_node ∧ ev_vclock e = clock ∧ vc_wf clock ∧
  vc_lt (n_vclock busy_node) clock ∧
  ∀ p pe, p ∈ ev_parents e → get_event p (n_db busy_node) = Ok (Some pe) → vc_lt (ev_vclock pe) clock.
Proof.
  intros payload r. destruct (run_is_ok r) as [[e clock] Hr]; [vm_compute; reflexivity|].
  assert (vc_wf (n_vclock busy_node)) as Hw by (apply (bool_decide_unpack _); vm_compute; exact I).
  exists r.1, e, clock. split; [exact Hr|]. split; [exact Hw|].
  refine (@emitted_event_causal frac_format sample_world B payload busy_node r.1 e clock Hr _ Hw _).
  - intros [|x l] Hl; [destruct (Hl eq_refl)|left].
  - apply rows_wf. vm_compute. reflexivity.
Defined.
