(* ===== verification/NodeSimulation.v ===== *)
(** [mdrj/simulation.py] and the demo generator of [mdrj/node.py].

    An iteration of the task's loop is [simulation_step] for each event of a burst;
    between two steps anything else may run.  Waiting is not modelled, the lengths of
    the waits are ([simulation_delay]).  What is drawn at random is an argument.  As in
    NodeSync, the HTTP session is open while there is a gossip engine. *)
From S2P Require Import Prelude Sha256 Json VectorClock Models Consensus Storage Config Metrics Gossip Auth Catalog Node NodeLogic NodeEvents.

(** ** Scenarios *)
Definition DEMO_SCENARIOS : list string := ["virus"; "admin_login"; "mac_spoof"; "portscan"; "heartbeat"].
Definition SCENARIOS (c : Catalog) : odict CatalogEntry := filter (λ p, p.1 ∈ DEMO_SCENARIOS) (cat_events c : list (string * CatalogEntry)).

(** [datetime.utcnow().isoformat(...)], [secrets.token_hex(6)], [random.uniform(0.6, 0.99)]
    rounded. *)
Record ScenarioDraw := mkDraw { sd_generated_at : string; sd_simulation_id : string; sd_confidence : pyfloat }.
Definition scenario_payload (x : ScenarioDraw) (key : string) (entry : CatalogEntry) : odict json :=
  dupdate (ce_payload entry)
    [("scenario", JStr key); ("generated_at", JStr (sd_generated_at x)); ("simulation_id", JStr (sd_simulation_id x));
     ("confidence", JFloat (sd_confidence x))].

Section simulation.
Context `{FloatFormat}.

(** ** The task *)
Definition simulation_running (n : Node) : bool := bool_decide (sm_task (n_simulation n) = Some None).
Definition simulation_done (r : result unit) (n : Node) : Node :=
  set_n_simulation (mkSimulation (Some (Some r)) true (sm_token (n_simulation n))) n.

(** One event of a burst: [choice] is the index [random.choice] draws.  The loop ends
    when the stop event is set, and with the first exception; both set the event. *)
Definition simulation_step (w : World) (choice : nat) (x : ScenarioDraw) (n : Node) : Node :=
  if simulation_running n then
    if sm_stop (n_simulation n) then simulation_done (Ok tt) n
    else
      match (SCENARIOS (n_catalog n) : list (string * CatalogEntry)) !! choice with
      | None => simulation_done (Err (IndexError "Cannot choose from an empty sequence")) n
      | Some (key, entry) =>
          match emit_event w (ce_class entry) (scenario_payload x key entry) n with
          | (n, Ok _) => n
          | (n, Err e) => simulation_done (Err e) n
          end
      end
  else n.
(** The wait after a burst: [expo] is [random.expovariate], [noise] [random.uniform]. *)
Definition simulation_delay (interval expo noise : Q) : Q :=
  Qmax (1 # 4) (Qmin (interval * 3) (expo + noise)).
Definition simulation_rate (interval : Q) : Q := (1 / Qmax interval (1 # 2))%Q.

(** ** Commands *)

(** The requests that pass a command on to the peers: address and body. *)
Definition simulation_requests (action : string) (token : json) (timing : odict json) (n : Node) : list (string * json) :=
  if bool_decide (n_gossip n = None) then []
  else
    let payload := [("action", JStr action); ("token", token); ("propagate", JBool false)] ++ timing in
    (λ p, (pi_address p, JObj payload)) <$> node_list_peers n.
(** [secrets.token_hex(12)] when there is no token. *)
Definition token_or (drawn : string) (token : json) : json := match token with JNull => JStr drawn | t => t end.

Definition start_simulation (w : World) (interval jitter : Q) (token : json) (propagate : bool) : NodeM (bool * list (string * json)) :=
  n ← get_node;
  if simulation_running n then mret (false, [])
  else
    let token := token_or (w_token w) token in
    modify (set_n_simulation (mkSimulation (Some None) false token));;
    n ← get_node;
    mret (true, if propagate then simulation_requests "start" token [("interval", JFloat interval); ("jitter", JFloat jitter)] n else []).

(** The command waits for the task: a task that runs sees the stop event and ends, the
    exception of a task that has failed is raised. *)
Definition stop_simulation (w : World) (token : json) (propagate : bool) : NodeM (bool * list (string * json)) :=
  n ← get_node;
  match sm_task (n_simulation n) with
  | None => mret (false, [])
  | Some task =>
      let token := token_or (w_token w) token in
      modify (set_n_simulation (mkSimulation None true token));;
      match task with
      | Some (Err e) => raise e
      | _ => n ← get_node; mret (true, if propagate then simulation_requests "stop" token [] n else [])
      end
  end.

(** ** What the commands promise

    Seen from outside the generator is off, on, or ended by itself: by an exception,
    which the next [stop] raises. *)
Inductive sim_status := Off | On | Ended (r : result unit).
Definition sim_abs (n : Node) : sim_status :=
  match sm_task (n_simulation n) with None => Off | Some None => On | Some (Some r) => Ended r end.
(** Only a running task leaves the stop event clear. *)
Definition sim_ok (n : Node) : Prop := sm_stop (n_simulation n) = negb (simulation_running n).

Lemma simulation_running_on n : simulation_running n = true ↔ sim_abs n = On.
Proof.
  unfold simulation_running, sim_abs. rewrite bool_decide_eq_true. destruct (sm_task _) as [[r|]|]; split; congruence.
Qed.

#[export] Instance sim_status_eq_dec : EqDecision sim_status.
Proof. solve_decision. Defined.
Definition abs_start (s : sim_status) : sim_status * result bool := (On, Ok (bool_decide (s ≠ On))).
Definition abs_stop (s : sim_status) : sim_status * result bool :=
  (Off, match s with Off => Ok false | Ended (Err e) => Err e | _ => Ok true end).

(** A command is passed on to the peers the node gossips with, which do not pass it on
    themselves. *)
Definition passed_on (n : Node) (requests : list (string * json)) : Prop :=
  ∀ a body, (a, body) ∈ requests → a ∈ pi_address <$> node_list_peers n ∧ ∃ d, body = JObj d ∧ dget d "propagate" = Some (JBool false).
Lemma requests_passed_on action token timing n : passed_on n (simulation_requests action token timing n).
Proof.
  intros a body Hin. unfold simulation_requests in Hin. case_bool_decide; [by apply elem_of_nil in Hin|].
  apply list_elem_of_fmap in Hin as (p & [= -> ->] & Hp). split; [by apply list_elem_of_fmap_2|]. by eexists.
Qed.
Lemma nothing_passed_on n : passed_on n [].
Proof. by intros a body ?%elem_of_nil. Qed.

(** What a command does to the state: the generator's part follows [spec], the events
    and the other users of the node see nothing of it. *)
Definition command_refines (spec : sim_status → sim_status * result bool) (m : NodeM (bool * list (string * json))) (n : Node) : Prop :=
  let '(n', r) := m n in
  sim_abs n' = (spec (sim_abs n)).1 ∧ fst <$> r = (spec (sim_abs n)).2 ∧
  (sim_ok n → sim_ok n') ∧ n' = set_n_simulation (n_simulation n') n ∧
  match r with Ok (_, requests) => passed_on n requests | Err _ => True end.

Lemma same_simulation n : n = set_n_simulation (n_simulation n) n.
Proof. by destruct n. Qed.

(** The commands of the demo generator refine the three-state machine: starting is
    without effect while it runs and (re)starts it otherwise; stopping always leaves it
    off, tells whether there was a task, and raises what ended a task that failed.
    Neither touches anything else of the node. *)
Theorem simulation_commands_refine w interval jitter token propagate n :
  command_refines abs_start (start_simulation w interval jitter token propagate) n ∧
  command_refines abs_stop (stop_simulation w token propagate) n.
Proof.
  split; unfold command_refines.
  - unfold start_simulation. rewrite (bind_run _ _ n n n eq_refl). destruct (simulation_running n) eqn:Hr.
    + apply simulation_running_on in Hr. cbn [abs_start fst snd fmap result_fmap]. rewrite Hr.
      split; [exact Hr|]. split; [done|]. split; [done|]. split; [apply same_simulation|apply nothing_passed_on].
    + assert (sim_abs n ≠ On) as Hn by (rewrite <- simulation_running_on; congruence). cbn. rewrite (bool_decide_true _ Hn).
      split; [done|]. split; [done|]. split; [done|]. split; [done|].
      destruct propagate; [apply (requests_passed_on _ _ _ (set_n_simulation _ n))|apply nothing_passed_on].
  - unfold stop_simulation. rewrite (bind_run _ _ n n n eq_refl).
    assert (match sm_task (n_simulation n) with None => Off | Some None => On | Some (Some r) => Ended r end = sim_abs n) as Ha by done.
    destruct (sm_task (n_simulation n)) as [[[[]|e]|]|] eqn:Ht; rewrite <- Ha; cbn; (split; [done || by symmetry|]); (split; [done|]);
      (split; [done|]); (split; [done || apply same_simulation|]);
      try (destruct propagate; [apply (requests_passed_on _ _ _ (set_n_simulation _ n))|]); try apply nothing_passed_on; done.
Qed.

(** A step emits only while the generator is on, and at most one event, whose payload
    says that it is a demonstration; an exception ends the generator. *)
Theorem simulation_step_spec w choice x n :
  (sim_abs n ≠ On → simulation_step w choice x n = n) ∧
  (sim_abs n = On → sm_stop (n_simulation n) = false →
     let n' := simulation_step w choice x n in
     (∃ e, n' = simulation_done (Err e) n ∧ (SCENARIOS (n_catalog n) : list (string * CatalogEntry)) !! choice = None) ∨
     ∃ key entry, key ∈ DEMO_SCENARIOS ∧ (key, entry) ∈ (cat_events (n_catalog n) : list (string * CatalogEntry)) ∧
       dget (scenario_payload x key entry) "scenario" = Some (JStr key) ∧
       let r := emit_event w (ce_class entry) (scenario_payload x key entry) n in
       n' = match r.2 with Ok _ => r.1 | Err e => simulation_done (Err e) r.1 end).
Proof.
  unfold simulation_step. split.
  - intros Hn. destruct (simulation_running n) eqn:Hr; [|done]. by apply simulation_running_on in Hr.
  - intros Hn%simulation_running_on Hs. rewrite Hn, Hs. cbv zeta.
    destruct ((SCENARIOS (n_catalog n) : list (string * CatalogEntry)) !! choice) as [[key entry]|] eqn:Hc; [right|left; by eexists].
    apply list_elem_of_lookup_2 in Hc. unfold SCENARIOS in Hc. apply list_elem_of_filter in Hc as [Hk Hin].
    exists key, entry. split; [done|]. split; [done|]. split.
    + unfold scenario_payload, dupdate. cbn [foldl fst snd]. rewrite !dget_dset_ne by done. apply dget_dset_eq.
    + by destruct (emit_event w (ce_class entry) (scenario_payload x key entry) n) as [n' [em|e]].
Qed.

(** The waits are at least a quarter of a second, and at most three intervals when an
    interval is not shorter than a twelfth. *)
Lemma simulation_delay_bounds interval expo noise :
  (1 # 4 <= simulation_delay interval expo noise)%Q ∧
  ((1 # 12 <= interval)%Q → (simulation_delay interval expo noise <= interval * 3)%Q).
Proof.
  unfold simulation_delay. split; [apply Q.le_max_l|]. intros Hi. apply Q.max_lub; [lra|apply Q.le_min_l].
Qed.
End simulation.
