(* ===== verification/NodeCheckpoints.v ===== *)
(** [mdrj/node.py], part 3: checkpoints, retention, tamper evidence and the
    service life cycle. *)
From S2P Require Import Prelude Sha256 Json VectorClock Models Consensus Storage Config Metrics Prioritization Gossip JsonText Checkpoint Auth Catalog Node NodeEvents.

Section checkpoints.
Context `{FloatFormat}.

Definition membership_m : NodeM (odict json) := λ n,
  let '(n, s) := active_consensus_membership n in (n, Ok s).

(** [[e for e in events if e.round_received is not None and ... <= target]] *)
Definition covered (target_round : Z) (e : Event) : bool :=
  match ev_round_received e with Some r => r <=? target_round | None => false end.
Definition events_up_to_round_received (target_round : Z) (db : DB) : result (list Event) :=
  events ← all_events db; Ok (filter (λ e, covered target_round e = true) (events : list Event)).

Definition member_node_id (m : json) : result (option string) :=
  d ← as_obj m;
  Ok (if py_bool (jget d "node_id") then Some (py_strip (py_str (py_or (jget d "node_id") (JStr "")))) else None).
Definition membership_node_ids : NodeM (list string) :=
  snapshot ← membership_m;
  ids ← lift (items ← as_arr (jget_or snapshot "members" (JArr [])); mapR member_node_id items);
  mret (omap id (ids : list (option string))).

Definition membership_snapshot_hash : NodeM string :=
  snapshot ← membership_m;
  mret (py_str (py_or (jget snapshot "membership_snapshot_hash") (JStr ""))).

Definition add_confirmed (n : Node) : Node :=
  let k := n_counters n in
  set_n_counters (mkCounters (k_events_by_class_kind k) (k_service_started k) (k_service_stopped k) (k_service_killed k)
    (k_host_boot k) (k_host_reboot k) (k_checkpoint_confirmed k + 1) (k_class_a_durable k) (k_class_a_local_only k)
    (k_frontier_sync_pulls k) (k_tamper_alerts k) (k_heartbeat_emitted k)) n.

Definition is_confirmed (c : CheckpointRow) : bool := bool_decide (cp_status c = "confirmed").

(** The proposal agrees with what is recorded: add the signature and settle the
    status. *)
Definition add_signature (now : Q) (p : CheckpointProposal) (existing : option CheckpointRow)
    : NodeM (option CheckpointRow) :=
  let signatures := match existing with Some c => cp_signatures c | None => [] end in
  let signatures := dset signatures (pp_proposer_node_id p) (pp_signature p) in
  members ← membership_node_ids;
  let was_confirmed := match existing with Some c => is_confirmed c | None => false end in
  let quorum := is_quorum_reached signatures members in
  let status := if quorum then "confirmed" else if was_confirmed then "confirmed" else "pending" in
  let confirmed_at := if quorum then Some now else
    match existing with
    | Some c => match cp_confirmed_at c with Some t => if t =?q 0 then None else Some t | None => None end
    | None => None
    end in
  modify (λ n, if quorum && negb was_confirmed then add_confirmed n else n);;
  update_db (upsert_checkpoint now (pp_round_received p) (pp_merkle_root p) (pp_members_snapshot_hash p)
               signatures status confirmed_at);;
  gets (λ n, get_checkpoint (pp_round_received p) (n_db n)).

(** The row as it stands afterwards. *)
Definition record_proposal_signature (now : Q) (p : CheckpointProposal) : NodeM (option CheckpointRow) :=
  n ← get_node;
  let existing := get_checkpoint (pp_round_received p) (n_db n) in
  match existing with
  | Some c => if decide (cp_merkle_root c = pp_merkle_root p) then add_signature now p existing else mret (Some c)
  | None => add_signature now p existing
  end.

Definition propose_local_checkpoint (now : Q) (target_round : Z) : NodeM CheckpointProposal :=
  if target_round <? 0 then raise (ValueError "target_round must be non-negative")
  else
    n ← get_node;
    match str_or_opt (cfg_hmac_key (n_config n)) "" with
    | "" => raise (ValueError "security.hmac_key must be set to propose checkpoints")
    | hmac_key =>
        events ← lift (events_up_to_round_received target_round (n_db n));
        if bool_decide (events = []) then raise (ValueError "no events with round_received <= target_round")
        else
          let merkle := compute_merkle_root events in
          members_hash ← membership_snapshot_hash;
          let p := mkProposal target_round merkle members_hash (node_id n) "" in
          let p := mkProposal target_round merkle members_hash (node_id n) (sign_proposal p hmac_key) in
          record_proposal_signature now p;;
          mret p
    end.

Definition ingest_checkpoint_proposal (now : Q) (payload : odict json) : NodeM (option CheckpointRow) :=
  p ← lift (proposal_from_dict payload);
  n ← get_node;
  let hmac_key := str_or_opt (cfg_hmac_key (n_config n)) "" in
  if bool_decide (hmac_key ≠ "") && bool_decide (pp_signature p ≠ "") then
    ok ← lift (verify_proposal_signature p (pp_signature p) hmac_key);
    if (ok : bool) then record_proposal_signature now p else raise (ValueError "invalid checkpoint signature")
  else record_proposal_signature now p.

(** One step of the propose loop; [None] when there is nothing to propose or the
    proposal fails. *)
Definition propose_one_checkpoint (now : Q) (margin : Z) : NodeM (option CheckpointProposal) :=
  n ← get_node;
  if decide (str_or_opt (cfg_hmac_key (n_config n)) "" = "") then mret None
  else
    events ← lift (all_events (n_db n));
    match omap ev_round_received (events : list Event) with
    | [] => mret None
    | r :: rounds =>
        let target_round := foldl Z.max r rounds - margin in
        if target_round <? 0 then mret None
        else try_with (p ← propose_local_checkpoint now target_round; mret (Some p)) (λ _, mret None)
    end.

(** What a proposal is sent to the peers as: address and body.  As in the other parts,
    the HTTP session is open while there is a gossip engine. *)
Definition proposal_body (p : CheckpointProposal) : bytes := utf8_encode (json_dumps (proposal_to_dict p)).
Definition broadcast_checkpoint_proposal (p : CheckpointProposal) (n : Node) : list (string * bytes) :=
  if bool_decide (n_gossip n = None) then [] else (λ peer, (pi_address peer, proposal_body p)) <$> node_list_peers n.

(** ** Retention *)
Inductive RetentionReport :=
  | RetentionDisabled
  | NoConfirmedCheckpoint
  | RetentionDone (pruned : nat) (checkpoint_round : Z).

(** The pruned rows are what [_write_archive_chunk] appends to the archive file. *)
Definition run_retention_once (now : Q) (n : Node) : Node * (RetentionReport * list PrunedEvent) :=
  let cfg := cfg_retention (n_config n) in
  if negb (rc_enabled cfg) then (n, (RetentionDisabled, []))
  else match latest_confirmed_checkpoint (n_db n) with
       | None => (n, (NoConfirmedCheckpoint, []))
       | Some checkpoint =>
           let max_age_sec := Qmax 0 (inject_Z (rc_max_age_days cfg) * 86400) in
           let '(db, pruned) := prune_under_checkpoint (cp_round_received checkpoint) max_age_sec
                                  (rc_keep_class_a cfg) now (n_db n) in
           (set_n_db db n, (RetentionDone (length pruned) (cp_round_received checkpoint),
                            if bool_decide (str_or_opt (rc_archive_path cfg) "" = "") then [] else pruned))
       end.

(** ** Verification *)
Definition verify_checkpoint (round_received : Z) : NodeM CheckpointVerificationReport :=
  n ← get_node;
  match get_checkpoint round_received (n_db n) with
  | None => raise (KeyError "no checkpoint")
  | Some checkpoint =>
      events ← lift (events_up_to_round_received round_received (n_db n));
      let local_merkle := if bool_decide (events = []) then "" else compute_merkle_root events in
      let matches := bool_decide (local_merkle ≠ "") && bool_decide (local_merkle = cp_merkle_root checkpoint) in
      let tampered := negb matches && is_confirmed checkpoint in
      modify (set_n_tamper_evidence tampered);;
      mret {| vr_matches_merkle := matches; vr_local_merkle_root := local_merkle;
              vr_confirmed_merkle_root := cp_merkle_root checkpoint; vr_checkpoint_round := round_received;
              vr_has_tamper_evidence := tampered;
              vr_notes := (if is_confirmed checkpoint then [] else ["checkpoint is not yet confirmed"]) ++
                          (if bool_decide (events = []) then ["no local events at or before target round"] else []) |}
  end.

(** [float(e.ts_local or 0.0) >= cutoff] for an earlier alert of the round; a
    recorded round that is no number raises. *)
Fixpoint alert_recently (cutoff : Q) (round_received : Z) (events : list Event) : result bool :=
  match events with
  | [] => Ok false
  | e :: rest =>
      if bool_decide (jget (ev_payload e) "event_kind" ≠ JStr "mdrj_tamper_detected") then alert_recently cutoff round_received rest
      else
        r ← py_int (jget_or (ev_payload e) "round_received" (JInt (-1)));
        if bool_decide (r = round_received) && (cutoff <=?q ev_ts_local e) then Ok true
        else alert_recently cutoff round_received rest
  end.
Definition tamper_alert_recently_emitted (now : Q) (round_received : Z) (db : DB) : result bool :=
  events ← all_events db; alert_recently (now - 3600)%Q round_received events.

Definition add_tamper_alert (n : Node) : Node :=
  let k := n_counters n in
  set_n_counters (mkCounters (k_events_by_class_kind k) (k_service_started k) (k_service_stopped k) (k_service_killed k)
    (k_host_boot k) (k_host_reboot k) (k_checkpoint_confirmed k) (k_class_a_durable k) (k_class_a_local_only k)
    (k_frontier_sync_pulls k) (k_tamper_alerts k + 1) (k_heartbeat_emitted k)) n.

Definition verify_once_and_alert (w : World) : NodeM (option CheckpointVerificationReport) :=
  n ← get_node;
  match latest_confirmed_checkpoint (n_db n) with
  | None => mret None
  | Some latest =>
      let round_received := cp_round_received latest in
      n ← get_node;
      match verify_checkpoint round_received n with
      | (n, Err (KeyError _)) => modify (λ _, n);; mret None
      | (n, Err e) => modify (λ _, n);; raise e
      | (n, Ok report) =>
          modify (λ _, n);;
          if negb (vr_has_tamper_evidence report) then mret (Some report)
          else
            recent ← lift (tamper_alert_recently_emitted (w_now w) round_received (n_db n));
            if (recent : bool) then mret (Some report)
            else
              emit_event w A
                [("event_kind", JStr "mdrj_tamper_detected"); ("node_id", JStr (node_id n));
                 ("host_id", JStr (host_id n)); ("round_received", JInt round_received);
                 ("local_merkle_root", JStr (vr_local_merkle_root report));
                 ("confirmed_merkle_root", JStr (vr_confirmed_merkle_root report));
                 ("detected_at", JFloat (w_now w))];;
              modify add_tamper_alert;;
              mret (Some report)
      end
  end.

(** ** Service life cycle *)
Definition SERVICE_LIFECYCLE_KINDS : list string := ["mdrj_service_start"; "mdrj_service_stop"; "mdrj_service_killed"].

Definition is_lifecycle (self : string) (e : Event) : bool :=
  bool_decide (ev_creator e = self) &&
  match jget (ev_payload e) "event_kind" with JStr k => bool_decide (k ∈ SERVICE_LIFECYCLE_KINDS) | _ => false end.

Definition last_own_service_event (n : Node) : result (option Event) :=
  events ← all_events (n_db n);
  Ok (last (sort_on ev_ts_local Qcompare (filter (λ e, is_lifecycle (node_id n) e = true) (events : list Event)))).

Definition count_service (started stopped killed : Z) (n : Node) : Node :=
  let k := n_counters n in
  set_n_counters (mkCounters (k_events_by_class_kind k) (k_service_started k + started) (k_service_stopped k + stopped)
    (k_service_killed k + killed) (k_host_boot k) (k_host_reboot k) (k_checkpoint_confirmed k) (k_class_a_durable k)
    (k_class_a_local_only k) (k_frontier_sync_pulls k) (k_tamper_alerts k) (k_heartbeat_emitted k)) n.

Definition killed_payload (w : World) (n : Node) (start : Event) : odict json :=
  [("event_kind", JStr "mdrj_service_killed"); ("node_id", JStr (node_id n)); ("host_id", JStr (host_id n));
   ("previous_start_id", JStr (ev_id start)); ("previous_start_ts", JFloat (ev_ts_local start));
   ("detected_at", JFloat (w_now w))].

Definition maybe_emit_service_killed (w : World) : NodeM unit :=
  n ← get_node;
  last_event ← lift (last_own_service_event n);
  match (last_event : option Event) with
  | None => mret tt
  | Some start =>
      if bool_decide (jget (ev_payload start) "event_kind" = JStr "mdrj_service_start") then
        try_with (emit_event w A (killed_payload w n start);; modify (count_service 0 0 1)) (λ _, mret tt)
      else mret tt
  end.

Definition service_payload (w : World) (kind : string) (n : Node) : odict json :=
  [("event_kind", JStr kind); ("node_id", JStr (node_id n)); ("host_id", JStr (host_id n)); ("ts", JFloat (w_now w))].

Definition emit_service_start (w : World) : NodeM unit :=
  n ← get_node;
  try_with (emit_event w B (service_payload w "mdrj_service_start" n);; modify (count_service 1 0 0)) (λ _, mret tt).
Definition emit_service_stop (w : World) : NodeM unit :=
  n ← get_node;
  emit_event w B (service_payload w "mdrj_service_stop" n);;
  modify (count_service 0 1 0).

(** One iteration of the heartbeat loop. *)
Definition heartbeat_tick (w : World) : NodeM unit :=
  n ← get_node;
  try_with
    (emit_event w C
       [("event_kind", JStr "heartbeat"); ("host_id", JStr (host_id n)); ("node_id", JStr (node_id n));
        ("interval_sec", JFloat (Qmax (5 # 100) (hb_interval_sec (cfg_heartbeat (n_config n)))));
        ("purpose", JStr "liveness")];;
     modify (λ n, let k := n_counters n in
       set_n_counters (mkCounters (k_events_by_class_kind k) (k_service_started k) (k_service_stopped k)
         (k_service_killed k) (k_host_boot k) (k_host_reboot k) (k_checkpoint_confirmed k) (k_class_a_durable k)
         (k_class_a_local_only k) (k_frontier_sync_pulls k) (k_tamper_alerts k) (k_heartbeat_emitted k + 1)) n))
    (λ _, mret tt).
End checkpoints.
