(* ===== verification/NodeEvidence.v ===== *)
(** The registry of a node as evidence: what its operations may do to the stored
    events.  [evolves_by] frames the operations of NodeEvents.v and NodeCheckpoints.v
    under a rule of what may be stored, [evolves] without one; the theorems state that an emitted event is recorded and
    that a change of the collection policy leaves its trace.  NodeRuns.v draws the
    conclusion for a whole node. *)
From S2P Require Import Prelude Sha256 Json VectorClock Models Consensus Storage StorageFacts Config Metrics Prioritization Gossip JsonText Checkpoint Auth Catalog Node NodeLogic NodePeers NodeEvents NodeEventsFacts NodeCheckpoints.

(** ** The evidence of a stored event

    The columns the consensus never writes. *)
Definition evidence_columns : list string :=
  ["id"; "cls"; "source"; "ts_local"; "vclock"; "parents"; "payload"; "sig"].
Definition evidence (r : sqlrow) : list sqlval := sql_get r <$> evidence_columns.
Definition evidence_log (db : DB) : list (list sqlval) := evidence <$> db_events db.

Lemma evidence_dset r c v : c ∉ evidence_columns → evidence (dset r c v) = evidence r.
Proof.
  intros Hc. apply list_fmap_ext. intros i x Hx. rewrite sql_get_dset, decide_False; [done|].
  intros ->. by apply Hc, list_elem_of_lookup_2 with i.
Qed.
Lemma evidence_dupdate (vals : list (string * sqlval)) r :
  Forall (λ c, c ∉ evidence_columns) vals.*1 → evidence (dupdate r vals) = evidence r.
Proof.
  unfold dupdate. revert r. induction vals as [|[c v] vals IH]; intros r Hv; [done|].
  simpl in *. apply Forall_cons in Hv as [Hc Hv]. rewrite IH by done. by apply evidence_dset.
Qed.
Lemma evidence_coalesce (vals : list (string * sqlval)) r :
  Forall (λ c, c ∉ evidence_columns) vals.*1 → evidence (coalesce_columns vals r) = evidence r.
Proof.
  unfold coalesce_columns. revert r. induction vals as [|[c v] vals IH]; intros r Hv; [done|].
  simpl in *. apply Forall_cons in Hv as [Hc Hv]. rewrite IH by done. by apply evidence_dset.
Qed.
Ltac columns := apply (bool_decide_unpack _); vm_compute; exact I.

Lemma evidence_update p f rows : (∀ r, evidence (f r) = evidence r) → evidence <$> sql_update p f rows = evidence <$> rows.
Proof.
  intros Hf. unfold sql_update. rewrite <- list_fmap_compose. apply list_fmap_ext. intros _ r _. simpl.
  by destruct (p r).
Qed.

Lemma log_replace_state states db : evidence_log (replace_consensus_state states db) = evidence_log db.
Proof.
  unfold evidence_log, replace_consensus_state. simpl. generalize (db_events db) as rows.
  induction states as [|s states IH]; intros rows; simpl; [done|]. rewrite IH. apply evidence_update.
  intros r. unfold apply_state. rewrite evidence_coalesce, evidence_dupdate; [done|columns..].
Qed.

Lemma log_store_envelope now env ts db :
  evidence_log (store_envelope now env ts db).1 =
    evidence_log db ++
    (if decide (env_id env ∈ event_ids db) then [] else [evidence (new_event_row now (env_event env) ts)]).
Proof.
  unfold store_envelope, evidence_log, event_ids, env_id. destruct (find_event db _) as [r|] eqn:Hf.
  - apply find_has_id in Hf as [Hr Hid].
    assert (ev_id (env_event env) ∈ row_id <$> db_events db) as Hin by (rewrite <- Hid; by apply list_elem_of_fmap_2).
    rewrite decide_True, app_nil_r by done. destruct ts as [ts|]; [|done]. simpl. apply evidence_update.
    intros r'. apply evidence_coalesce. columns.
  - apply find_has_id_None in Hf. rewrite decide_False by done. simpl. by rewrite fmap_app.
Qed.

(** The two ways in which the operations of a node write the events table; [P] says
    which event may be stored when, next to which rows. *)
Abbreviation store_rule := (Q → Event → list sqlrow → Prop).
Definition anything : store_rule := λ _ _ _, True.
Inductive rows_step (P : store_rule) : list sqlrow → list sqlrow → Prop :=
  | rows_store now env ts db : P now (env_event env) (db_events db) →
      rows_step P (db_events db) (db_events (store_envelope now env ts db).1)
  | rows_states states db : rows_step P (db_events db) (db_events (replace_consensus_state states db)).
Lemma rows_step_prefix P rows rows' : rtc (rows_step P) rows rows' → (evidence <$> rows) `prefix_of` (evidence <$> rows').
Proof.
  induction 1 as [|a b c Hab _ IH]; [done|]. etrans; [|exact IH]. destruct Hab as [now env ts db _|states db].
  - pose proof (log_store_envelope now env ts db) as Hl. unfold evidence_log in Hl. rewrite Hl. by apply prefix_app_r.
  - pose proof (log_replace_state states db) as Hl. unfold evidence_log in Hl. by rewrite Hl.
Qed.

Definition evolves_by (P : store_rule) (n n' : Node) : Prop :=
  n_config n' = n_config n ∧ n_catalog n' = n_catalog n ∧ rtc (rows_step P) (db_events (n_db n)) (db_events (n_db n')).
#[export] Instance evolves_preorder P : PreOrder (evolves_by P).
Proof. split; [by split|]. intros a b c (? & ? & ?) (? & ? & ?). split_and!; [congruence..|by etrans]. Qed.
Abbreviation evolves := (evolves_by anything).

Section frames.
Context `{FloatFormat} {P : store_rule}.

(** ** Framing the operations on events *)
Lemma evolves_same f : (∀ n, n_config (f n) = n_config n ∧ n_catalog (f n) = n_catalog n ∧ db_events (n_db (f n)) = db_events (n_db n)) →
  framed (evolves_by P) (modify f).
Proof. intros Hf n. destruct (Hf n) as (H1 & H2 & H3). split_and!; [done..|]. unfold modify; cbn [fst]. by rewrite H3. Qed.
Ltac evolves_step := first [ frame_step | apply evolves_same; intros ?; by split_and! ].

Lemma evolves_membership :
  framed (evolves_by P) (λ n, let '(n, s) := active_consensus_membership n in (n, Ok s) : Node * result (odict json)).
Proof. intros n. unfold active_consensus_membership, save_snapshot. by destruct (cached_snapshot n). Qed.

Lemma evolves_recompute : framed (evolves_by P) recompute_consensus.
Proof.
  unfold recompute_consensus. frame_step; [frame_step|]. frame_step; [frame_step|].
  case_bool_decide; [frame_step|]. frame_step; [apply evolves_membership|]. frame_step; [frame_step|].
  frame_step; [frame_step|]. destruct (toposort _) as [ids|[]]; try frame_step.
  intros n. split_and!; [done..|]. simpl. apply rtc_once, rows_states.
Qed.

Lemma evolves_request : framed (evolves_by P) request_recompute.
Proof.
  unfold request_recompute. frame_step; [frame_step|]. destruct (_ <=?q _); [apply evolves_recompute|].
  frame_step; [evolves_step|]. destruct (n_loop _).
  - apply evolves_same. intros n. by destruct (existsb _ _).
  - frame_step; [apply evolves_recompute|]. evolves_step.
Qed.

Lemma evolves_offer i n : evolves_by P n (gossip_offer i n).
Proof. unfold gossip_offer. by destruct (n_gossip n). Qed.
Lemma evolves_add i : framed (evolves_by P) (gossip_add_pending i).
Proof. intros n. unfold gossip_add_pending. by destruct (n_gossip n). Qed.

Lemma persist_by w env r b n : P (w_now w) (env_event env) (db_events (n_db n)) →
  evolves_by P n (persist_envelope w env r b n).1.
Proof.
  intros Hrule. unfold persist_envelope. unfold mbind at 1, nodem_bind at 1, get_node at 1. cbv beta iota.
  destruct (store_envelope _ _ _ _) as [db stored] eqn:Hst.
  assert (evolves_by P n (set_n_db db n)) as Hdb.
  { split_and!; [done..|]. simpl. replace db with (store_envelope (w_now w) env (ev_consensus_ts (env_event env)) (n_db n)).1 by by rewrite Hst.
    by apply rtc_once, rows_store. }
  etrans; [exact Hdb|].
  match goal with |- evolves_by P _ ((modify _;; ?m) n).1 => change (evolves_by P (set_n_db db n) (m (set_n_db db n)).1); generalize (set_n_db db n);
    change (framed (evolves_by P) m) end.
  frame_step; [destruct r; [apply evolves_request|frame_step]|].
  frame_step; [evolves_step|]. frame_step; [|frame_step]. destruct stored; [|frame_step].
  frame_step; [intros m; apply evolves_offer|]. destruct b; [|frame_step]. frame_step; [frame_step|].
  frame_step; [frame_step|]. frame_step; [evolves_step|].
  frame_step; [apply evolves_same; intros m; unfold schedule_fast_fanout; by destruct (n_loop m)|]. evolves_step.
Qed.

Lemma evolves_send w k a envs n : evolves_by P n (node_send w k a envs n).1.
Proof.
  unfold node_send, send_to_peer, evolves_by. simpl.
  destruct (acked _); split_and!; try done; simpl; unfold upsert_peer; by destruct (find_peer a (n_db n)).
Qed.
Lemma evolves_send_all w k peers env n : evolves_by P n (send_all_peers w k peers env n).1.
Proof.
  unfold send_all_peers. induction peers as [|p peers IH] using rev_ind; [reflexivity|].
  rewrite foldl_app. cbn [foldl]. destruct (foldl _ _ peers) as [n1 results]. simpl in IH.
  pose proof (evolves_send w k (pi_address p) [env] n1) as Hs.
  destruct (node_send _ _ _ _ n1) as [n2 ok]. simpl in *. by etrans.
Qed.
Lemma evolves_count_ack w k env n : evolves_by P n (fanout_count_ack w k env n).1.
Proof.
  unfold fanout_count_ack. destruct (_ || _); [reflexivity|]. destruct (w_timeout w k); [apply evolves_send_all|].
  pose proof (evolves_send_all w k (node_list_peers n) env n) as Hs. by destruct (send_all_peers _ _ _ _ _).
Qed.
Lemma evolves_ack_loop w fuel k env required n : evolves_by P n (ack_loop w fuel k env required n).1.
Proof.
  revert k n. induction fuel as [|f IH]; intros k n; cbn [ack_loop]; [reflexivity|].
  pose proof (evolves_count_ack w k env n) as Hs. destruct (fanout_count_ack w k env n) as [n1 ok]. simpl in Hs.
  destruct (_ <=? _); [done|]. destruct (w_stopping w k); [done|]. etrans; [exact Hs|apply IH].
Qed.
Lemma evolves_fanout w i : framed (evolves_by P) (fanout_critical w i).
Proof.
  intros n. unfold fanout_critical. unfold mbind at 1, nodem_bind at 1, get_node at 1. cbv beta iota.
  destruct (bool_decide _); [reflexivity|]. unfold mbind at 1, nodem_bind at 1, lift at 1.
  destruct (get_envelope i (n_db n)) as [[env|]|]; try reflexivity. destruct (bool_decide _); [reflexivity|].
  pose proof (evolves_send_all w 0 (node_list_peers n) env n) as Hs.
  destruct (send_all_peers _ _ _ _ _) as [n1 results]. etrans; [exact Hs|].
  match goal with |- evolves_by P _ ((modify _;; ?m) n).1 => change (evolves_by P n1 (m n1).1) end.
  destruct (forallb _ _); [reflexivity|apply evolves_add].
Qed.
Lemma evolves_broadcast w i : framed (evolves_by P) (broadcast_event w i).
Proof.
  unfold broadcast_event. frame_step; [frame_step|]. case_bool_decide; [frame_step|].
  frame_step; [frame_step|]. case_match; [|frame_step]. frame_step.
  intros n. unfold mbind at 1, nodem_bind at 1, get_node at 1. cbv beta iota.
  destruct (bool_decide _); [reflexivity|].
  match goal with |- context [node_send w 0 ?a ?es n] => pose proof (evolves_send w 0 a es n) as Hs;
    destruct (node_send w 0 a es n) as [n1 ok] end.
  etrans; [exact Hs|].
  match goal with |- evolves_by P _ ((modify _;; ?m) n).1 => change (evolves_by P n1 (m n1).1) end.
  destruct ok; [reflexivity|apply evolves_add].
Qed.

Lemma evolves_anchor_ids : framed (evolves_by P) anchor_ids.
Proof. unfold anchor_ids. frame_step; [frame_step|]. case_bool_decide; repeat evolves_step. Qed.
Lemma evolves_create w cls payload : framed (evolves_by P) (create_event w cls payload).
Proof. unfold create_event, choose_parents. repeat (first [apply evolves_anchor_ids | frame_step]). Qed.

Lemma evolves_increment cls kind n : evolves_by P n (increment_event_counters cls kind n).
Proof. by split_and!. Qed.

(** What follows the storing of an emitted event. *)
Definition emit_rest (broadcast_a : string → NodeM Durability) (w : World) (cls : EventClass) (payload : odict json)
    (event : Event) (local_clock : VectorClock) (stored : bool) : NodeM EventEmission :=
  update_metrics (record_emit_to_consensus_latency (w_elapsed w));;
  modify (set_n_vclock (vc_merge local_clock (ev_vclock event)));;
  modify refresh_health;;
  (if (stored : bool)
   then modify (increment_event_counters (EventClass_value cls) (py_str (jget_or payload "event_kind" (JStr ""))))
   else mret tt);;
  durability ← (if (stored : bool) then
                  match cls with
                  | A => d ← broadcast_a (ev_id event); mret (Some d)
                  | B => broadcast_event w (ev_id event);; mret None
                  | C => mret None
                  end
                else mret None : NodeM (option Durability));
  n ← get_node;
  (if (stored : bool) && nc_enabled (cfg_notifier (n_config n)) &&
      bool_decide (EventClass_value cls ∈ nc_trigger_classes (cfg_notifier (n_config n)))
   then modify (schedule (NotifyEvent event)) else mret tt);;
  mret (mkEmission event stored durability).

Lemma emit_with_eq broadcast_a w cls payload :
  emit_with broadcast_a w cls payload =
    ('(event, local_clock) ← create_event w cls payload;
     n ← get_node;
     stored ← persist_envelope w (mkEnvelope event [mkHop (Some (node_id n)) (Some (w_now w))]) true true;
     emit_rest broadcast_a w cls payload event local_clock stored).
Proof. done. Qed.

Lemma evolves_emit_rest ba w cls payload event clock stored :
  (∀ i, framed (evolves_by P) (ba i)) → framed (evolves_by P) (emit_rest ba w cls payload event clock stored).
Proof.
  intros Hba. unfold emit_rest. frame_step; [evolves_step|]. frame_step; [evolves_step|]. frame_step; [evolves_step|].
  frame_step; [destruct stored; evolves_step|].
  frame_step.
  { destruct stored; [|frame_step]. destruct cls; [| |frame_step]; (frame_step; [|frame_step]); [apply Hba|apply evolves_broadcast]. }
  frame_step; [frame_step|]. frame_step; [case_match; evolves_step|frame_step].
Qed.
(** The events the node makes itself may be stored where it makes them. *)
Definition rule_admits (w : World) : Prop := ∀ cls payload n n' e clock,
  create_event w cls payload n = (n', Ok (e, clock)) → P (w_now w) e (db_events (n_db n')).

Lemma emit_with_by ba w cls payload : rule_admits w → (∀ i, framed (evolves_by P) (ba i)) →
  framed (evolves_by P) (emit_with ba w cls payload).
Proof.
  intros Hw Hba n. rewrite emit_with_eq. pose proof (evolves_create w cls payload n) as Hc.
  unfold mbind at 1, nodem_bind at 1. destruct (create_event w cls payload n) as [n1 [[e clock]|err]] eqn:He; [|done].
  etrans; [exact Hc|]. unfold mbind at 1, nodem_bind at 1, get_node at 1. cbv beta iota.
  pose proof (persist_by w (mkEnvelope e [mkHop (Some (node_id n1)) (Some (w_now w))]) true true n1 (Hw _ _ _ _ _ _ He)) as Hp.
  unfold mbind at 1, nodem_bind at 1. destruct (persist_envelope _ _ _ _ n1) as [n2 [stored|err]]; [|done].
  etrans; [exact Hp|]. by apply evolves_emit_rest.
Qed.

Lemma quorum_by w i : rule_admits w → framed (evolves_by P) (broadcast_with_quorum_ack w i).
Proof.
  intros Hw n. unfold broadcast_with_quorum_ack. unfold mbind at 1, nodem_bind at 1, get_node at 1. cbv beta iota.
  destruct (_ <=?q _).
  { assert (framed (evolves_by P) (broadcast_event w i;; mret BestEffort)) as Hb
      by (frame_step; [apply evolves_broadcast|frame_step]). apply Hb. }
  destruct (bool_decide _); [reflexivity|]. unfold mbind at 1, nodem_bind at 1, lift at 1.
  destruct (get_envelope i (n_db n)) as [[env|]|]; try reflexivity. cbv zeta.
  match goal with |- context [ack_loop w ?f ?k env ?r n] => pose proof (evolves_ack_loop w f k env r n) as Hs;
    destruct (ack_loop w f k env r n) as [n1 durable] end.
  etrans; [exact Hs|].
  match goal with |- evolves_by P _ ((modify _;; ?m) n).1 => change (evolves_by P n1 (m n1).1); cut (framed (evolves_by P) m); [by intros Hm; apply Hm|] end.
  destruct durable; [frame_step; [evolves_step|frame_step]|].
  frame_step; [intros m; apply evolves_offer|]. frame_step; [evolves_step|]. frame_step; [|frame_step].
  frame_step; [|frame_step]. frame_step; [|frame_step]. by apply emit_with_by; [|intros j; frame_step].
Qed.

Lemma emit_by w cls payload : rule_admits w → framed (evolves_by P) (emit_event w cls payload).
Proof. intros Hw. apply emit_with_by; [done|]. intros i. by apply quorum_by. Qed.

Lemma ingest_loop_by w envs new latest n :
  (∀ env n', env ∈ envs → evolves_by P n n' → P (w_now w) (env_event env) (db_events (n_db n'))) →
  evolves_by P n (ingest_loop w envs new latest n).1.
Proof.
  revert new latest n. induction envs as [|env envs IH]; intros new latest n Hall; cbn [ingest_loop]; [reflexivity|].
  assert (evolves_by P n (persist_envelope w env false false n).1) as Hp by (apply persist_by, Hall; [by left|reflexivity]).
  unfold mbind at 1, nodem_bind at 1. destruct (persist_envelope w env false false n) as [n1 [stored|err]]; [|done].
  etrans; [exact Hp|]. destruct stored; apply IH; intros env' n' Hin Hev; (apply Hall; [by right|by etrans]).
Qed.
Lemma ingest_by w envs n :
  (∀ env n', env ∈ envs → evolves_by P n n' → P (w_now w) (env_event env) (db_events (n_db n'))) →
  evolves_by P n (ingest_envelopes w envs n).1.
Proof.
  intros Hall. unfold ingest_envelopes. pose proof (ingest_loop_by w envs [] None n Hall) as Hl.
  unfold mbind at 1, nodem_bind at 1. destruct (ingest_loop w envs [] None n) as [n1 [[new latest]|err]]; [|done].
  etrans; [exact Hl|]. match goal with |- evolves_by P _ (?m n1).1 => cut (framed (evolves_by P) m); [by intros Hm; apply Hm|] end.
  frame_step; [|frame_step; [evolves_step|frame_step]]. case_bool_decide; [frame_step|].
  frame_step; [apply evolves_request|]. frame_step; [frame_step|]. frame_step; [frame_step|].
  frame_step; [evolves_step|]. case_match; evolves_step.
Qed.
Lemma evolves_debounced : framed (evolves_by P) debounced_recompute.
Proof.
  unfold debounced_recompute. frame_step; [frame_step|]. destruct (n_recompute_dirty _); [|frame_step].
  frame_step; [evolves_step|]. frame_step; [apply evolves_recompute|frame_step].
Qed.

End frames.

Section evidence.
Context `{FloatFormat}.
Ltac evolves_step := first [ frame_step | apply evolves_same; intros ?; by split_and! ].

(** Without a rule every store is admitted. *)
Lemma evolves_persist w env r b : framed evolves (persist_envelope w env r b).
Proof. intros n. by apply persist_by. Qed.
Lemma evolves_quorum w i : framed evolves (broadcast_with_quorum_ack w i).
Proof. by apply quorum_by. Qed.
Lemma evolves_emit w cls payload : framed evolves (emit_event w cls payload).
Proof. by apply emit_by. Qed.
Lemma evolves_ingest w envs : framed evolves (ingest_envelopes w envs).
Proof. intros n. by apply ingest_by. Qed.

(** ** Checkpoints, life cycle, heartbeat *)
Lemma evolves_membership_ids : framed evolves membership_node_ids.
Proof. unfold membership_node_ids, membership_m. frame_step; [apply evolves_membership|]. repeat frame_step. Qed.
Lemma evolves_add_signature now p existing : framed evolves (add_signature now p existing).
Proof.
  unfold add_signature. frame_step; [apply evolves_membership_ids|].
  frame_step; [apply evolves_same; intros n; by destruct (_ && _)|]. frame_step; [evolves_step|]. intros n. reflexivity.
Qed.
Lemma evolves_record now p : framed evolves (record_proposal_signature now p).
Proof.
  unfold record_proposal_signature. frame_step; [frame_step|]. case_match; [case_decide|];
    [apply evolves_add_signature|frame_step|apply evolves_add_signature].
Qed.
Lemma evolves_membership_hash : framed evolves membership_snapshot_hash.
Proof. unfold membership_snapshot_hash, membership_m. frame_step; [apply evolves_membership|frame_step]. Qed.
Lemma evolves_propose now target : framed evolves (propose_local_checkpoint now target).
Proof.
  unfold propose_local_checkpoint. destruct (_ <? _); [frame_step|]. frame_step; [frame_step|].
  destruct (str_or_opt _ _); [frame_step|]. frame_step; [frame_step|]. destruct (bool_decide _); [frame_step|].
  frame_step; [apply evolves_membership_hash|]. frame_step; [apply evolves_record|frame_step].
Qed.
Lemma evolves_ingest_proposal now payload : framed evolves (ingest_checkpoint_proposal now payload).
Proof.
  unfold ingest_checkpoint_proposal. frame_step; [frame_step|]. frame_step; [frame_step|].
  destruct (_ && _); [|apply evolves_record]. frame_step; [frame_step|]. case_match; [apply evolves_record|frame_step].
Qed.
Lemma evolves_propose_one now margin : framed evolves (propose_one_checkpoint now margin).
Proof.
  unfold propose_one_checkpoint. frame_step; [frame_step|]. case_decide; [frame_step|]. frame_step; [frame_step|].
  destruct (omap _ _); [frame_step|]. destruct (_ <? _); [frame_step|].
  frame_step; [frame_step; [apply evolves_propose|frame_step]|frame_step].
Qed.
Lemma evolves_verify r : framed evolves (verify_checkpoint r).
Proof.
  unfold verify_checkpoint. frame_step; [frame_step|]. case_match; [|frame_step]. frame_step; [frame_step|].
  frame_step; [evolves_step|frame_step].
Qed.
Lemma evolves_verify_alert w : framed evolves (verify_once_and_alert w).
Proof.
  intros n. unfold verify_once_and_alert. unfold mbind at 1, nodem_bind at 1, get_node at 1. cbv beta iota.
  destruct (latest_confirmed_checkpoint _) as [c|]; [|reflexivity]. cbv zeta.
  unfold mbind at 1, nodem_bind at 1, get_node at 1. cbv beta iota.
  pose proof (evolves_verify (cp_round_received c) n) as Hv.
  destruct (verify_checkpoint _ n) as [n1 [report|e]]; etrans; try exact Hv.
  - match goal with |- evolves _ ((modify _;; ?m) n).1 => change (evolves n1 (m n1).1); cut (framed evolves m); [by intros Hm; apply Hm|] end.
    case_match; [frame_step|]. frame_step; [frame_step|]. case_match; [frame_step|].
    frame_step; [apply evolves_emit|]. frame_step; [evolves_step|frame_step].
  - destruct e; reflexivity.
Qed.
Lemma evolves_killed w : framed evolves (maybe_emit_service_killed w).
Proof.
  unfold maybe_emit_service_killed. frame_step; [frame_step|]. frame_step; [frame_step|]. case_match; [|frame_step].
  case_match; [|frame_step]. frame_step; [|frame_step]. frame_step; [apply evolves_emit|evolves_step].
Qed.
Lemma evolves_start w : framed evolves (emit_service_start w).
Proof. unfold emit_service_start. frame_step; [frame_step|]. frame_step; [|frame_step]. frame_step; [apply evolves_emit|evolves_step]. Qed.
Lemma evolves_stop w : framed evolves (emit_service_stop w).
Proof. unfold emit_service_stop. frame_step; [frame_step|]. frame_step; [apply evolves_emit|evolves_step]. Qed.
Lemma evolves_heartbeat w : framed evolves (heartbeat_tick w).
Proof. unfold heartbeat_tick. frame_step; [frame_step|]. frame_step; [|frame_step]. frame_step; [apply evolves_emit|evolves_step]. Qed.

(** ** The node as a transition system

    One constructor per operation that other parts of the program call: the HTTP
    handlers, the background loops, the tasks of the event loop.  Clearing and
    retention are not among them, they remove events on purpose. *)
Inductive node_step : Node → Node → Prop :=
  | step_emit w cls payload n : node_step n (emit_event w cls payload n).1
  | step_ingest w envs n : node_step n (ingest_envelopes w envs n).1
  | step_fanout w i n : node_step n (fanout_critical w i n).1
  | step_debounced n : node_step n (debounced_recompute n).1
  | step_peer now op n : node_step n (run_op now op n)
  | step_policy w kind enabled n : node_step n (set_collection_policy w kind enabled n).1
  | step_propose now margin n : node_step n (propose_one_checkpoint now margin n).1
  | step_proposal now payload n : node_step n (ingest_checkpoint_proposal now payload n).1
  | step_verify r n : node_step n (verify_checkpoint r n).1
  | step_alert w n : node_step n (verify_once_and_alert w n).1
  | step_killed w n : node_step n (maybe_emit_service_killed w n).1
  | step_start w n : node_step n (emit_service_start w n).1
  | step_stop w n : node_step n (emit_service_stop w n).1
  | step_heartbeat w n : node_step n (heartbeat_tick w n).1
  | step_membership now status_of n : node_step n (reconfigure_consensus_membership now status_of n).1.

Definition log_grows (n n' : Node) : Prop := rtc (rows_step anything) (db_events (n_db n)) (db_events (n_db n')).
Lemma log_grows_prefix n n' : log_grows n n' → evidence_log (n_db n) `prefix_of` evidence_log (n_db n').
Proof. apply rows_step_prefix. Qed.
#[export] Instance log_grows_preorder : PreOrder log_grows.
Proof. split; [intros n; red; reflexivity|]. intros a b c H1 H2. red in H1, H2 |- *. by etrans. Qed.
Lemma evolves_log {X} (m : NodeM X) : framed evolves m → framed log_grows m.
Proof. apply framed_weaken. by intros n n' (_ & _ & Hl). Qed.

Lemma same_events_log n n' : db_events (n_db n') = db_events (n_db n) → log_grows n n'.
Proof. intros He. red. by rewrite He. Qed.

Lemma update_peer_events a enabled note ls h role i ap db : db_events (update_peer a enabled note ls h role i ap db).1 = db_events db.
Proof. unfold update_peer. by destruct (find_peer a db). Qed.
Lemma ensure_peer_events a i ls h en note source role ap db : db_events (ensure_peer a i ls h en note source role ap db).1 = db_events db.
Proof. unfold ensure_peer. by destruct (find_peer a db). Qed.

Lemma register_events now a note source role i ap n :
  db_events (n_db (register_peer now a note source role i ap n).1) = db_events (n_db n).
Proof.
  rewrite register_run. cbv zeta.
  match goal with |- context [update_peer a ?e ?nt ?l ?h ?r ?ni ?s ?db] =>
    pose proof (update_peer_events a e nt l h r ni s db) as Hu; destruct (update_peer a e nt l h r ni s db) as [db2 [p|]] end;
    rewrite ensure_peer_events in Hu; simpl in Hu; [|exact Hu].
  match goal with |- context [register_tail ?b ?m] => destruct (register_tail_frame b m) as (-> & _) end.
  by destruct (bool_decide _).
Qed.

Lemma run_op_events now op n : db_events (n_db (run_op now op n)) = db_events (n_db n).
Proof.
  destruct op as [a note source role i ap|a i source|a|a|a enabled note role i ap|a]; cbn [run_op].
  - apply register_events.
  - unfold on_discovered_peer. unfold mbind at 1, nodem_bind at 1, get_node at 1. cbv beta iota.
    destruct (bool_decide _); [done|]. unfold try_with.
    match goal with |- context [register_peer ?t a ?nt ?s ?r i ?ap n] => pose proof (register_events t a nt s r i ap n) as Hr;
      by destruct (register_peer t a nt s r i ap n) as [n' [x|e]] end.
  - unfold approve_peer, set_approval. pose proof (update_peer_events a None None None None None None (Some PEER_APPROVAL_APPROVED) (n_db n)) as Hu.
    by destruct (update_peer _ _ _ _ _ _ _ _ _).
  - unfold reject_peer, set_approval. pose proof (update_peer_events a None None None None None None (Some PEER_APPROVAL_REJECTED) (n_db n)) as Hu.
    by destruct (update_peer _ _ _ _ _ _ _ _ _).
  - unfold node_update_peer. case_decide;
      match goal with |- context [update_peer a ?e ?nt ?l ?h ?r ?ni ?s ?db] =>
        pose proof (update_peer_events a e nt l h r ni s db) as Hu; by destruct (update_peer a e nt l h r ni s db) end.
  - unfold remove_peer. by case_decide.
Qed.

Lemma grows_policy w kind enabled : framed log_grows (set_collection_policy w kind enabled).
Proof.
  unfold set_collection_policy. frame_step; [frame_step|]. destruct (negb _); [frame_step|]. case_decide; [frame_step|].
  destruct (set_registry_enabled _ _ _) as [c applied]. frame_step; [intros n; by apply same_events_log|].
  destruct applied; [|frame_step]. frame_step; [apply evolves_log, evolves_emit|]. frame_step; frame_step.
Qed.

Lemma grows_reconfigure now status_of : framed log_grows (reconfigure_consensus_membership now status_of).
Proof.
  unfold reconfigure_consensus_membership, hydrate_peer_node_ids. frame_step.
  { frame_step; [frame_step|]. frame_step; [|intros n; by apply same_events_log]. frame_step. unfold hydrate_one.
    case_decide; [frame_step|]. case_match; [|frame_step]. frame_step; [frame_step|]. case_decide; [frame_step|].
    intros n. apply same_events_log. apply update_peer_events. }
  frame_step; [frame_step|]. frame_step; [frame_step|].
  frame_step; [intros n; by apply same_events_log|]. frame_step; [apply evolves_log, evolves_recompute|frame_step].
Qed.

Lemma node_step_grows n n' : node_step n n' → log_grows n n'.
Proof.
  intros Hs. destruct Hs; try by apply evolves_log;
    auto using evolves_emit, evolves_ingest, evolves_fanout, evolves_debounced, evolves_propose_one,
      evolves_ingest_proposal, evolves_verify, evolves_verify_alert, evolves_killed, evolves_start, evolves_stop, evolves_heartbeat.
  - apply same_events_log, run_op_events.
  - apply grows_policy.
  - apply grows_reconfigure.
Qed.

(** ** What an emission leaves behind *)
Lemma log_ids db : event_ids db = (λ l, match l with SText i :: _ => i | _ => "" end) <$> evidence_log db.
Proof. unfold event_ids, evidence_log. rewrite <- list_fmap_compose. by apply list_fmap_ext. Qed.
Lemma grows_ids n n' i : log_grows n n' → i ∈ event_ids (n_db n) → i ∈ event_ids (n_db n').
Proof. intros [extra Hl]%log_grows_prefix Hi. rewrite log_ids in Hi |- *. rewrite Hl, fmap_app. apply elem_of_app. by left. Qed.
Lemma grows_elem n n' x : log_grows n n' → x ∈ evidence_log (n_db n) → x ∈ evidence_log (n_db n').
Proof. intros [extra ->]%log_grows_prefix Hx. apply elem_of_app. by left. Qed.

Lemma persist_run w env r b n n' stored :
  persist_envelope w env r b n = (n', Ok stored) →
  let '(db, fresh) := store_envelope (w_now w) env (ev_consensus_ts (env_event env)) (n_db n) in
  stored = fresh ∧ log_grows (set_n_db db n) n'.
Proof.
  unfold persist_envelope. rewrite bind_Ok. intros (n1 & ? & [= <- <-] & Hrest). cbv zeta in Hrest.
  destruct (store_envelope _ _ _ _) as [db fresh]. apply bind_Ok in Hrest as (n2 & ? & [= <- <-] & Hrest).
  match type of Hrest with ?m _ = _ => assert (yields (λ x, x = fresh) m) as Hy; [|assert (framed (evolves_by anything) m) as Hm] end.
  - do 3 (apply yields_bind; intros ?). by apply yields_ret.
  - frame_step; [destruct r; [apply evolves_request|frame_step]|].
    frame_step; [evolves_step|]. frame_step; [|frame_step]. destruct fresh; [|frame_step].
    frame_step; [intros m; apply evolves_offer|]. destruct b; [|frame_step]. frame_step; [frame_step|].
    frame_step; [frame_step|]. frame_step; [evolves_step|].
    frame_step; [apply evolves_same; intros m; unfold schedule_fast_fanout; by destruct (n_loop m)|]. evolves_step.
  - split; [by eapply Hy|]. specialize (Hm (set_n_db db n)). rewrite Hrest in Hm. apply Hm.
Qed.

Lemma emit_rest_result ba w cls payload event clock stored :
  yields (λ em, em_event em = event ∧ em_stored em = stored) (emit_rest ba w cls payload event clock stored).
Proof. unfold emit_rest. repeat (apply yields_bind; intros ?). by apply yields_ret. Qed.

Lemma quiet_anchor_ids : quiet anchor_ids.
Proof.
  unfold anchor_ids. frame_step; [frame_step|]. case_bool_decide; [frame_step|]. frame_step; [frame_step|].
  frame_step; [by apply framed_modify|frame_step].
Qed.
Lemma create_event_run w cls payload n n' e clock :
  create_event w cls payload n = (n', Ok (e, clock)) →
  ev_cls e = cls ∧ ev_payload e = payload ∧ ev_source e = node_id n ∧ ev_consensus_ts e = None ∧
  event_ids (n_db n') = event_ids (n_db n) ∧ evolves n n'.
Proof.
  intros Hc. pose proof (evolves_create (P:=anything) w cls payload n) as Hev. rewrite Hc in Hev. simpl in Hev.
  assert (quiet (choose_parents w)) as Hq.
  { unfold choose_parents. repeat (first [apply quiet_anchor_ids | frame_step]). }
  revert Hc. unfold create_event. rewrite bind_Ok. intros (n1 & parents & Hp & Hc).
  specialize (Hq n). rewrite Hp in Hq. destruct Hq as [Hids _].
  apply bind_Ok in Hc as (n2 & ? & [= <- <-] & Hc). apply bind_Ok in Hc as (n3 & merged & [= <- Hm] & [= <- <- <-]).
  assert (n_config n1 = n_config n) as Hcfg by apply Hev. split_and!; try done. unfold node_id. simpl. by rewrite Hcfg.
Qed.

Lemma emit_event_run w cls payload n n' em :
  emit_event w cls payload n = (n', Ok em) →
  let e := em_event em in
  ev_cls e = cls ∧ ev_payload e = payload ∧ ev_source e = node_id n ∧
  em_stored em = bool_decide (ev_id e ∉ event_ids (n_db n)) ∧
  ev_id e ∈ event_ids (n_db n') ∧
  (em_stored em = true → evidence (new_event_row (w_now w) e None) ∈ evidence_log (n_db n')).
Proof.
  unfold emit_event. rewrite emit_with_eq, bind_Ok. intros (n1 & [event clock] & Hc & Hrest).
  apply create_event_run in Hc as (H1 & H2 & H3 & H4 & Hids & _).
  apply bind_Ok in Hrest as (n2 & ? & [= <- <-] & Hrest). apply bind_Ok in Hrest as (n3 & stored & Hp & Hrest).
  apply persist_run in Hp.
  destruct (emit_rest_result _ _ _ _ _ _ _ _ _ _ Hrest) as [He Hs].
  assert (log_grows n3 n') as Hg.
  { pose proof (evolves_emit_rest (P:=anything) (broadcast_with_quorum_ack w) w cls payload event clock stored (evolves_quorum w) n3) as Hev.
    rewrite Hrest in Hev. apply Hev. }
  match type of Hp with let '(_, _) := store_envelope ?now ?env ?ts ?db in _ =>
    pose proof (store_envelope_ids now env ts db) as [Hi Hf]; pose proof (log_store_envelope now env ts db) as Hl;
    destruct (store_envelope now env ts db) as [db2 fresh] end.
  destruct Hp as [-> Hgrow]. simpl in Hi, Hf, Hl. unfold env_id in Hi, Hf, Hl. cbn [env_event] in Hi, Hf, Hl.
  rewrite Hids in Hi, Hf, Hl. rewrite H4 in Hl.
  assert (log_grows (set_n_db db2 n1) n') as Hall by by etrans.
  cbv zeta. rewrite He, Hs. split_and!; try done.
  - apply (grows_ids _ _ _ Hall). simpl. rewrite Hi. case_decide; [done|]. rewrite elem_of_app. right. by apply list_elem_of_singleton.
  - intros ->. symmetry in Hf. apply bool_decide_eq_true in Hf. apply (grows_elem _ _ _ Hall). simpl. rewrite Hl, decide_False by done.
    rewrite elem_of_app. right. by apply list_elem_of_singleton.
Qed.

(** C22: an emitted event is recorded: when [emit_event] returns, the event it made
    has the requested class and payload and this node as its source, its id is in
    the registry, and if it was not there before, its row with exactly this evidence
    has been appended; it is never reported as stored when it was known. *)
Theorem emitted_event_recorded (w : World) (cls : EventClass) (payload : odict json) (n n' : Node) (em : EventEmission) :
  emit_event w cls payload n = (n', Ok em) →
  let e := em_event em in
  ev_cls e = cls ∧ ev_payload e = payload ∧ ev_source e = node_id n ∧
  em_stored em = bool_decide (ev_id e ∉ event_ids (n_db n)) ∧
  ev_id e ∈ event_ids (n_db n') ∧
  (em_stored em = true → evidence (new_event_row (w_now w) e None) ∈ evidence_log (n_db n')) ∧
  evidence_log (n_db n) `prefix_of` evidence_log (n_db n').
Proof.
  intros Hr. destruct (emit_event_run w cls payload n n' em Hr) as (H1 & H2 & H3 & H4 & H5 & H6).
  pose proof (evolves_emit w cls payload n) as Hev. rewrite Hr in Hev. split_and!; try done. apply log_grows_prefix, Hev.
Qed.

(** ** The collection policy *)
Lemma set_registry_enabled_cases kind enabled c :
  (kind ∉ dkeys (cat_metadata c) ∧ set_registry_enabled kind enabled c = (c, false)) ∨
  (kind ∈ dkeys (cat_metadata c) ∧ ∃ c', set_registry_enabled kind enabled c = (c', true) ∧
     registry_enabled_for kind c' = enabled).
Proof.
  unfold set_registry_enabled. destruct (dget (cat_metadata c) kind) as [meta|] eqn:Hm.
  - right. split.
    + destruct (decide (kind ∈ dkeys (cat_metadata c))) as [|Hn%dget_None]; [done|congruence].
    + eexists. split; [done|]. unfold registry_enabled_for. simpl. by rewrite dget_dset_eq.
  - left. by apply dget_None in Hm.
Qed.

(** The record of an accepted change. *)
Definition policy_evidence (w : World) (kind : string) (enabled : bool) (catalog : Catalog) (n : Node) : odict json :=
  [("event_kind", JStr "mdrj_collection_policy_changed"); ("node_id", JStr (node_id n));
   ("host_id", JStr (host_id n)); ("changed_kind", JStr kind);
   ("previous_enabled", JBool (registry_enabled_for kind (n_catalog n)));
   ("new_enabled", JBool enabled); ("policy_hash", JStr (collection_policy_hash catalog));
   ("changed_at", JFloat (w_now w))].
Definition policy_answer (kind : string) (previous enabled : bool) : NodeM PolicyChange :=
  n ← get_node; mret (mkPolicyChange kind previous enabled (collection_policy_hash (n_catalog n))).

Lemma set_collection_policy_run w kind enabled n :
  set_collection_policy w kind enabled n =
    if negb (is_known_event_kind kind (n_catalog n)) then (n, Err (KeyError kind))
    else if decide (kind ∈ POLICY_PROTECTED_KINDS) then (n, Err (ValueError kind))
    else
      let '(catalog, applied) := set_registry_enabled kind enabled (n_catalog n) in
      if (applied : bool) then
        (emit_event w A (policy_evidence w kind enabled catalog n);;
         policy_answer kind (registry_enabled_for kind (n_catalog n)) enabled) (set_n_catalog catalog n)
      else (set_n_catalog catalog n, Err (KeyError kind)).
Proof.
  unfold set_collection_policy. unfold mbind at 1, nodem_bind at 1, get_node at 1. cbv beta iota.
  destruct (negb _); [done|]. case_decide; [done|]. cbv zeta.
  by destruct (set_registry_enabled _ _ _) as [catalog []].
Qed.

(** C23: a request to change the collection policy is refused without any effect for an
    unknown kind, for a protected kind and for a kind without metadata; when it
    succeeds the policy is in force and the registry holds a class A event that
    records the change; when the emission raises after the request was accepted the
    new policy is in force all the same. *)
Theorem collection_policy_contract (w : World) (kind : string) (enabled : bool) (n : Node) :
  let c := n_catalog n in
  let refused e := set_collection_policy w kind enabled n = (n, Err e) in
  (is_known_event_kind kind c = false → refused (KeyError kind)) ∧
  (is_known_event_kind kind c = true → kind ∈ POLICY_PROTECTED_KINDS → refused (ValueError kind)) ∧
  (is_known_event_kind kind c = true → kind ∉ POLICY_PROTECTED_KINDS → kind ∉ dkeys (cat_metadata c) → refused (KeyError kind)) ∧
  (is_known_event_kind kind c = true → kind ∉ POLICY_PROTECTED_KINDS → kind ∈ dkeys (cat_metadata c) →
   let r := set_collection_policy w kind enabled n in
   registry_enabled_for kind (n_catalog r.1) = enabled ∧
   ∀ change, r.2 = Ok change →
     change = mkPolicyChange kind (registry_enabled_for kind c) enabled (collection_policy_hash (n_catalog r.1)) ∧
     ∃ e, ev_id e ∈ event_ids (n_db r.1) ∧ ev_cls e = A ∧
       jget (ev_payload e) "event_kind" = JStr "mdrj_collection_policy_changed" ∧
       jget (ev_payload e) "changed_kind" = JStr kind ∧ jget (ev_payload e) "new_enabled" = JBool enabled ∧
       jget (ev_payload e) "policy_hash" = JStr (po_policy_hash change)).
Proof.
  intros c refused. unfold refused. cbv zeta. rewrite set_collection_policy_run. fold c. split_and!.
  - by intros ->.
  - intros -> Hp. by rewrite decide_True.
  - intros -> Hp Hm. rewrite decide_False by done.
    destruct (set_registry_enabled_cases kind enabled c) as [[_ ->]|[Hin _]]; [|done]. by destruct n.
  - intros -> Hp Hm. rewrite decide_False by done.
    destruct (set_registry_enabled_cases kind enabled c) as [[Hn _]|(_ & c' & -> & Hen)]; [done|]. cbn [negb].
    set (payload := policy_evidence _ _ _ _ _).
    pose proof (evolves_emit w A payload (set_n_catalog c' n)) as (_ & Hcat & _).
    unfold mbind, nodem_bind. destruct (emit_event w A payload (set_n_catalog c' n)) as [n1 [em|e]] eqn:He; simpl in Hcat.
    + unfold policy_answer, mbind, nodem_bind, get_node, mret, nodem_ret. cbn [fst snd]. rewrite Hcat. split; [done|]. intros change [= <-]. split; [done|].
      apply emit_event_run in He as (H1 & H2 & _ & _ & H5 & _). exists (em_event em).
      rewrite H2. by split_and!.
    + cbn [fst snd]. rewrite Hcat. by split.
Qed.
End evidence.

(** ** Witnesses *)
Lemma emitted_event_recorded_witness :
  let payload := [("event_kind", JStr "x")] in
  let r := @emit_event frac_format sample_world C payload busy_node in
  ∃ em, r = (r.1, Ok em) ∧
  let e := em_event em in
  ev_cls e = C ∧ ev_payload e = payload ∧ ev_source e = node_id busy_node ∧
  em_stored em = bool_decide (ev_id e ∉ event_ids (n_db busy_node)) ∧
  ev_id e ∈ event_ids (n_db r.1) ∧
  (em_stored em = true → evidence (new_event_row (w_now sample_world) e None) ∈ evidence_log (n_db r.1)) ∧
  evidence_log (n_db busy_node) `prefix_of` evidence_log (n_db r.1).
Proof.
  intros payload r. destruct (run_is_ok r) as [em Hr]; [vm_compute; reflexivity|].
  exists em. split; [exact Hr|]. exact (@emitted_event_recorded frac_format sample_world C payload busy_node r.1 em Hr).
Defined.

Lemma collection_policy_contract_witness :
  let n := set_n_catalog sample_catalog busy_node in
  is_known_event_kind "portscan" (n_catalog n) = true ∧
  let r := @set_collection_policy frac_format sample_world "portscan" false n in
  registry_enabled_for "portscan" (n_catalog r.1) = false ∧
  ∀ change, r.2 = Ok change →
    change = mkPolicyChange "portscan" (registry_enabled_for "portscan" (n_catalog n)) false (collection_policy_hash (n_catalog r.1)) ∧
    ∃ e, ev_id e ∈ event_ids (n_db r.1) ∧ ev_cls e = A ∧
      jget (ev_payload e) "event_kind" = JStr "mdrj_collection_policy_changed" ∧
      jget (ev_payload e) "changed_kind" = JStr "portscan" ∧ jget (ev_payload e) "new_enabled" = JBool false ∧
      jget (ev_payload e) "policy_hash" = JStr (po_policy_hash change).
Proof.
  intros n.
  assert (is_known_event_kind "portscan" (n_catalog n) = true) as Hk by (vm_compute; reflexivity).
  assert ("portscan" ∉ POLICY_PROTECTED_KINDS) as Hp by (apply (bool_decide_unpack _); vm_compute; exact I).
  assert ("portscan" ∈ dkeys (cat_metadata (n_catalog n))) as Hm by (apply (bool_decide_unpack _); vm_compute; exact I).
  split; [exact Hk|].
  exact (proj2 (proj2 (proj2 (@collection_policy_contract frac_format sample_world "portscan" false n))) Hk Hp Hm).
Defined.
