(* ===== verification/OwnChain.v ===== *)
(** A node does not fork itself.

    ConsensusAgreement.v needs DAGs without forks.  This file shows that the
    program keeps its own events fork-free: as long as the clock that stamps the rows
    does not go back, and nobody else issues events in the node's name, every event a
    node emits descends from all of its earlier ones, whatever arrives in between.
    [clock_set_back_forks] shows that the condition on the clock is needed. *)
From S2P Require Import Prelude Sha256 Json VectorClock Models Consensus ConsensusFacts Storage StorageFacts Config Metrics Prioritization Gossip Node NodeLogic NodePeers NodeEvents NodeEventsFacts NodeEvidence Catalog JsonText Checkpoint Auth.

(** ** What a row says about descent *)
Definition lineage_columns : list string := ["id"; "source"; "parents"; "created_at"].
Definition lineage (r : sqlrow) : list sqlval := sql_get r <$> lineage_columns.
Definition own_rows (self : string) (rows : list sqlrow) : list sqlrow := sql_select (has_text "source" self) rows.
Definition row_parents (r : sqlrow) : list string :=
  match load_json_field r "parents" (JArr []) ≫= as_parents with Ok ps => ps | Err _ => [] end.

(** The rows of the node are stamped in order, none after [t], and each names the one
    before it as a parent. *)
Record own_chain (self : string) (t : Q) (rows : list sqlrow) : Prop := {
  oc_ids : NoDup (row_id <$> rows);
  oc_past : ∀ r, r ∈ own_rows self rows → (row_created_at r <= t)%Q;
  oc_link : ∀ i r r', own_rows self rows !! i = Some r → own_rows self rows !! S i = Some r' →
    (row_created_at r <= row_created_at r')%Q ∧ row_id r ∈ row_parents r' }.

Lemma lineage_inv r r' : lineage r = lineage r' →
  row_id r = row_id r' ∧
  (∀ s, has_text "source" s r = has_text "source" s r') ∧
  row_parents r = row_parents r' ∧ row_created_at r = row_created_at r'.
Proof.
  intros Hl. unfold lineage, lineage_columns in Hl. cbn [fmap list_fmap] in Hl. injection Hl as H1 H2 H3 H4.
  unfold row_id, has_text, row_parents, load_json_field, row_created_at. by rewrite H1, H2, H3, H4.
Qed.
Lemma lineage_dset r c v : c ∉ lineage_columns → lineage (dset r c v) = lineage r.
Proof.
  intros Hc. apply list_fmap_ext. intros i x Hx. rewrite sql_get_dset, decide_False; [done|].
  intros ->. by apply Hc, list_elem_of_lookup_2 with i.
Qed.
Lemma lineage_dupdate (vals : list (string * sqlval)) r :
  Forall (λ c, c ∉ lineage_columns) vals.*1 → lineage (dupdate r vals) = lineage r.
Proof.
  unfold dupdate. revert r. induction vals as [|[c v] vals IH]; intros r Hv; [done|].
  simpl in *. apply Forall_cons in Hv as [Hc Hv]. rewrite IH by done. by apply lineage_dset.
Qed.
Lemma lineage_coalesce (vals : list (string * sqlval)) r :
  Forall (λ c, c ∉ lineage_columns) vals.*1 → lineage (coalesce_columns vals r) = lineage r.
Proof.
  unfold coalesce_columns. revert r. induction vals as [|[c v] vals IH]; intros r Hv; [done|].
  simpl in *. apply Forall_cons in Hv as [Hc Hv]. rewrite IH by done. by apply lineage_dset.
Qed.
Lemma lineage_update p f rows : (∀ r, lineage (f r) = lineage r) → lineage <$> sql_update p f rows = lineage <$> rows.
Proof.
  intros Hf. unfold sql_update. rewrite <- list_fmap_compose. apply list_fmap_ext. intros _ r _. simpl.
  by destruct (p r).
Qed.
Lemma lineage_states states db : lineage <$> db_events (replace_consensus_state states db) = lineage <$> db_events db.
Proof.
  unfold replace_consensus_state. simpl. generalize (db_events db) as rows.
  induction states as [|s states IH]; intros rows; simpl; [done|]. rewrite IH. apply lineage_update.
  intros r. unfold apply_state. rewrite lineage_coalesce, lineage_dupdate; [done|columns..].
Qed.
Lemma lineage_store now env ts db :
  lineage <$> db_events (store_envelope now env ts db).1 =
    (lineage <$> db_events db) ++
    (if decide (ev_id (env_event env) ∈ row_id <$> db_events db) then [] else [lineage (new_event_row now (env_event env) ts)]).
Proof.
  unfold store_envelope. destruct (find_event db _) as [r|] eqn:Hf.
  - apply find_has_id in Hf as [Hr Hid].
    rewrite decide_True, app_nil_r by (rewrite <- Hid; by apply list_elem_of_fmap_2).
    destruct ts as [ts|]; [|done]. simpl. apply lineage_update. intros r'. apply lineage_coalesce. columns.
  - apply find_has_id_None in Hf. rewrite decide_False by done. simpl. by rewrite fmap_app.
Qed.

Lemma own_rows_lineage self rows rows' : lineage <$> rows = lineage <$> rows' →
  lineage <$> own_rows self rows = lineage <$> own_rows self rows'.
Proof.
  revert rows'. induction rows as [|r rows IH]; intros [|r' rows'] Hl; try done.
  assert (lineage r = lineage r') as Hr by exact (f_equal (λ l, default [] (head l)) Hl).
  specialize (IH rows' (f_equal tail Hl)). unfold own_rows, sql_select. rewrite !filter_cons.
  destruct (lineage_inv _ _ Hr) as (_ & Hs & _). rewrite (Hs self).
  destruct (decide (has_text "source" self r' = true)); [|exact IH]. rewrite !fmap_cons, Hr. f_equal. exact IH.
Qed.
Lemma own_chain_lineage self t rows rows' : lineage <$> rows = lineage <$> rows' →
  own_chain self t rows → own_chain self t rows'.
Proof.
  intros Hl [Hd Hpast Hlink].
  assert (∀ i r', own_rows self rows' !! i = Some r' → ∃ r, own_rows self rows !! i = Some r ∧ lineage r = lineage r') as Hback.
  { intros i r' Hi. pose proof (own_rows_lineage self _ _ Hl) as Ho.
    apply (f_equal (λ l, l !! i)) in Ho. rewrite !list_lookup_fmap, Hi in Ho.
    destruct (own_rows self rows !! i) as [r|]; [|done]. apply (inj Some) in Ho. eauto. }
  split.
  - assert (row_id <$> rows' = row_id <$> rows) as ->; [|done].
    assert (∀ k : list sqlrow, row_id <$> k = (λ c, match head c with Some (SText s) => s | _ => "" end) <$> (lineage <$> k)) as E.
    { intros k. rewrite <- list_fmap_compose. by apply list_fmap_ext. }
    by rewrite !E, Hl.
  - intros r' (i & Hi)%list_elem_of_lookup. destruct (Hback _ _ Hi) as (r & Hr & (_ & _ & _ & <-)%lineage_inv).
    apply Hpast. by eapply list_elem_of_lookup_2.
  - intros i r1 r2 H1 H2. destruct (Hback _ _ H1) as (s1 & Hs1 & L1), (Hback _ _ H2) as (s2 & Hs2 & L2).
    apply lineage_inv in L1 as (<- & _ & _ & <-), L2 as (_ & _ & <- & <-). by eapply Hlink.
Qed.
Lemma own_chain_later self t t' rows : (t <= t')%Q → own_chain self t rows → own_chain self t' rows.
Proof. intros Ht [Hd Hpast Hlink]. split; [done| |done]. intros r Hr. eapply Qle_trans; [by apply Hpast|done]. Qed.

(** ** Storing keeps the chain *)
(** What may be stored at time [t]: events of others, events that are stored already,
    and events of the node that name its latest one as a parent. *)
Definition extends (self : string) (t : Q) : store_rule := λ now e rows,
  now = t ∧ (ev_source e = self → ev_id e ∈ row_id <$> rows ∨
    ∀ r, head (order_by_created_desc (own_rows self rows)) = Some r → row_id r ∈ ev_parents e).

Lemma own_sorted self t rows : own_chain self t rows → order_by_created_desc (own_rows self rows) = reverse (own_rows self rows).
Proof.
  intros [_ _ Hlink]. unfold order_by_created_desc, order_by_created, sort_on. f_equal. apply sort_by_id.
  apply Sorted_StronglySorted; [intros a b c; apply cmp_leb_trans, _|].
  revert Hlink. generalize (own_rows self rows) as l. induction l as [|r l IH]; intros Hlink; constructor.
  - apply IH. intros i. apply (Hlink (S i)).
  - destruct l as [|r' l]; constructor. apply (cmp_leb_le (cmp_on row_created_at Qcompare)).
    unfold cmp_on. apply Qle_alt. by apply (Hlink 0%nat).
Qed.

Lemma new_row_source now e ts s : has_text "source" s (new_event_row now e ts) = bool_decide (ev_source e = s).
Proof. reflexivity. Qed.
Lemma new_row_parents now e ts : row_parents (new_event_row now e ts) = ev_parents e.
Proof.
  unfold row_parents, load_json_field. change (sql_get (new_event_row now e ts) "parents") with (sjson (strs_json (ev_parents e))).
  unfold sjson. rewrite sort_keys_strs_json. cbn [mbind result_bind]. by rewrite as_parents_strs_json.
Qed.
Lemma new_row_created now e ts : row_created_at (new_event_row now e ts) = now.
Proof. reflexivity. Qed.

Lemma own_chain_snoc self t rows e ts : own_chain self t rows → ev_id e ∉ row_id <$> rows →
  extends self t t e rows → own_chain self t (rows ++ [new_event_row t e ts]).
Proof.
  intros Hc Hnew [_ Hext]. set (new := new_event_row t e ts).
  assert (own_rows self (rows ++ [new]) = own_rows self rows ++ (if bool_decide (ev_source e = self) then [new] else [])) as Ho.
  { unfold own_rows, sql_select. rewrite filter_app. f_equal. unfold new. rewrite filter_cons, new_row_source.
    by case_bool_decide. }
  pose proof (own_sorted _ _ _ Hc) as Hsort. destruct Hc as [Hd Hpast Hlink].
  assert (NoDup (row_id <$> rows ++ [new])) as Hd'.
  { rewrite fmap_app. apply NoDup_app. split_and!; [done| |apply NoDup_singleton].
    intros y Hy ->%list_elem_of_singleton. done. }
  split; [done|..]; rewrite Ho; case_bool_decide as Hs; rewrite ?app_nil_r; try done.
  - intros r [Hr|Hr]%elem_of_app; [by apply Hpast|]. apply list_elem_of_singleton in Hr as ->. apply Qle_refl.
  - intros i r r' Hi Hi'. apply lookup_app_Some in Hi' as [Hi'|[Hge Hi']].
    { rewrite lookup_app_l in Hi by (apply lookup_lt_Some in Hi'; lia). by eapply Hlink. }
    assert (S i = length (own_rows self rows) ∧ r' = new) as [Hlen ->].
    { apply list_lookup_singleton_Some in Hi' as [? ->]. split; [lia|done]. }
    rewrite lookup_app_l in Hi by lia. split; [unfold new; rewrite new_row_created; apply Hpast; by eapply list_elem_of_lookup_2|].
    unfold new. rewrite new_row_parents. destruct (Hext Hs) as [Hin|Hlast]; [done|]. apply Hlast.
    rewrite Hsort, head_reverse, last_lookup, <- Hi. f_equal. lia.
Qed.

Lemma rows_step_chain self t rows rows' : rtc (rows_step (extends self t)) rows rows' →
  own_chain self t rows → own_chain self t rows'.
Proof.
  induction 1 as [|a b c Hab _ IH]; [done|]. intros Hc. apply IH. destruct Hab as [now env ts db Hrule|states db].
  - pose proof (lineage_store now env ts db) as Hl. destruct (proj1 Hrule). case_decide as Hin.
    + rewrite app_nil_r in Hl. by eapply own_chain_lineage.
    + eapply own_chain_lineage; [|by apply (own_chain_snoc self now (db_events db) (env_event env) ts)].
      by rewrite Hl, fmap_app.
  - eapply own_chain_lineage; [|done]. symmetry. apply lineage_states.
Qed.

(** ** The events the node makes *)
Section runs.
Context `{FloatFormat}.

Lemma add_anchors_keep anchors p ps : ∃ ps', foldl add_anchor (p :: ps) anchors = p :: ps'.
Proof.
  revert ps. induction anchors as [|a anchors IH]; intros ps; [by exists ps|]. cbn [foldl]. unfold add_anchor at 2.
  case_bool_decide; [apply IH|]. case_decide; [apply IH|]. apply (IH (ps ++ [a])).
Qed.
Lemma choose_parents_latest w n n' parents r : choose_parents w n = (n', Ok parents) →
  head (order_by_created_desc (own_rows (node_id n) (db_events (n_db n)))) = Some r →
  row_id r ∈ parents.
Proof.
  unfold choose_parents. rewrite bind_Ok. intros (n1 & ? & [= <- <-] & Hc) Hr.
  apply bind_Ok in Hc as (n1 & sp & [= <- Hsp] & Hc). apply bind_Ok in Hc as (n1 & recent & [= <- Hrec] & Hc).
  apply bind_Ok in Hc as (n1 & anchors & Ha & [= <- <-]).
  unfold latest_event_by_source in Hsp. fold (own_rows (node_id n) (db_events (n_db n))) in Hsp. rewrite Hr in Hsp.
  cbn [opt_event] in Hsp. destruct (Event_from_record r) as [e|] eqn:He; [|done]. injection Hsp as <-.
  apply Event_from_record_id in He. rewrite <- He. cbn [fmap option_fmap option_map option_list].
  match goal with |- context [foldl add_anchor ?start anchors] =>
    assert (∃ ps, start = ev_id e :: ps) as [ps ->] by (case_bool_decide; eauto) end.
  destruct (add_anchors_keep anchors (ev_id e) ps) as [ps' ->]. left.
Qed.

Lemma create_extends w cls payload n n' e clock : create_event w cls payload n = (n', Ok (e, clock)) →
  n_db n' = n_db n ∧ ev_source e = node_id n ∧
  ∀ r, head (order_by_created_desc (own_rows (node_id n) (db_events (n_db n)))) = Some r → row_id r ∈ ev_parents e.
Proof.
  unfold create_event. rewrite bind_Ok. intros (n1 & parents & Hp & Hc).
  pose proof (λ r, choose_parents_latest _ _ _ _ r Hp) as Hlast.
  assert (n_db n1 = n_db n ∧ n_config n1 = n_config n) as [Hdb Hcfg].
  { unfold choose_parents in Hp. rewrite bind_Ok in Hp. destruct Hp as (m1 & ? & [= <- <-] & Hp).
    apply bind_Ok in Hp as (m1 & sp & [= <- Hsp] & Hp). apply bind_Ok in Hp as (m1 & recent & [= <- Hrec] & Hp).
    apply bind_Ok in Hp as (m1 & anchors & Ha & [= <- <-]). apply anchor_ids_frame in Ha. by destruct Ha as (? & _ & ?). }
  apply bind_Ok in Hc as (n2 & ? & [= <- <-] & Hc). apply bind_Ok in Hc as (n3 & merged & [= <- Hm] & [= <- <- <-]).
  split; [done|]. split; [unfold node_id; cbn; by rewrite Hcfg|exact Hlast].
Qed.

Lemma own_events_admitted self w : rule_admits (P := extends self (w_now w)) w.
Proof.
  intros cls payload n n' e clock Hc. apply create_extends in Hc as (Hdb & Hs & Hlast). split; [done|].
  intros Hself. right. rewrite Hdb. by rewrite <- Hself, Hs.
Qed.

(** ** Histories *)
(** What happens to a node between two clears: it bootstraps its genesis event, emits
    events (an emission may emit a second one, when the quorum of a class A event is not
    reached), takes in envelopes and recomputes.  Each operation comes with the world
    it runs in. *)
Inductive own_op := OwnGenesis | OwnEmit (cls : EventClass) (payload : odict json) | OwnIngest (envelopes : list Envelope) | OwnRecompute.
Definition own_step (op : World * own_op) (n : Node) : Node :=
  match op.2 with
  | OwnGenesis => (bootstrap_genesis op.1 false n).1
  | OwnEmit cls payload => (emit_event op.1 cls payload n).1
  | OwnIngest envelopes => (ingest_envelopes op.1 envelopes n).1
  | OwnRecompute => (recompute_consensus n).1
  end.
Definition own_run (ops : list (World * own_op)) (n : Node) : Node := foldl (λ n op, own_step op n) n ops.

(** The clock does not go back, and envelopes that carry the node's name are its own,
    coming back to it. *)
Fixpoint honest_history (t : Q) (ops : list (World * own_op)) (n : Node) : Prop :=
  match ops with
  | [] => True
  | op :: rest =>
      (t <= w_now op.1)%Q ∧
      match op.2 with
      | OwnIngest envelopes => ∀ env, env ∈ envelopes → ev_source (env_event env) = node_id n → ev_id (env_event env) ∈ event_ids (n_db n)
      | _ => True
      end ∧ honest_history (w_now op.1) rest (own_step op n)
  end.

Lemma ingest_admitted w envs n :
  (∀ env, env ∈ envs → ev_source (env_event env) = node_id n → ev_id (env_event env) ∈ event_ids (n_db n)) →
  evolves_by (extends (node_id n) (w_now w)) n (ingest_envelopes w envs n).1.
Proof.
  intros Hknown. apply ingest_by. intros env n' Hin (_ & _ & Hrows). split; [done|]. intros Hs. left.
  specialize (Hknown env Hin Hs). unfold event_ids in Hknown. apply rows_step_prefix in Hrows as [extra Hl].
  pose proof (log_ids (n_db n')) as Hi. pose proof (log_ids (n_db n)) as Hi0. unfold event_ids, evidence_log in Hi, Hi0.
  rewrite Hi, Hl, fmap_app. rewrite Hi0 in Hknown. apply elem_of_app. by left.
Qed.

(** The genesis event is stored in an empty registry only. *)
Lemma genesis_admitted self w n : evolves_by (extends self (w_now w)) n (bootstrap_genesis w false n).1.
Proof.
  unfold bootstrap_genesis. rewrite (bind_run get_node _ n n n eq_refl). cbn [negb andb].
  destruct (Z.ltb_spec 0 (Z.of_nat (event_count (n_db n)))) as [|Hempty].
  { pose proof (evolves_anchor_ids (P := extends self (w_now w)) n) as Ha. unfold mbind, nodem_bind. by destruct (anchor_ids n) as [n' [a|e]]. }
  assert (db_events (n_db n) = []) as Hrows by (unfold event_count in Hempty; destruct (db_events (n_db n)); [done|cbn in Hempty; lia]).
  destruct (self_identity w n) as [identity|e] eqn:Hid; [|reflexivity].
  rewrite (bind_run (lift (Ok identity)) _ n n identity eq_refl). cbv zeta.
  set (n1 := set_n_genesis_counter (n_genesis_counter n + 1) n).
  rewrite (bind_run _ _ n n1 (deterministic_genesis_ts n).2 eq_refl). rewrite (bind_run get_node _ n1 n1 n1 eq_refl). cbv zeta.
  match goal with |- context [update_db ?f] => set (store := f) end.
  rewrite (bind_run (update_db store) _ n1 (set_n_db (store (n_db n1)) n1) tt eq_refl).
  transitivity (set_n_db (store (n_db n1)) n1).
  - split_and!; [done..|]. cbn [set_n_db n_db]. apply rtc_once, rows_store. split; [done|]. intros _. right.
    intros r. cbn [n1 set_n_genesis_counter n_db]. rewrite Hrows. by intros [= ].
  - match goal with |- evolves_by ?P ?m (?f ?m).1 => cut (framed (evolves_by P) f); [by intros Hf; apply Hf|] end.
    frame_step; [intros m; apply evolves_offer|]. frame_step; apply evolves_same; intros m; by split_and!.
Qed.

Lemma own_step_chain t op n : own_chain (node_id n) t (db_events (n_db n)) → honest_history t [op] n →
  own_chain (node_id n) (w_now op.1) (db_events (n_db (own_step op n))) ∧ node_id (own_step op n) = node_id n.
Proof.
  intros Hc (Ht & Hop & _). apply (own_chain_later _ _ _ _ Ht) in Hc. destruct op as [w op].
  assert (evolves_by (extends (node_id n) (w_now w)) n (own_step (w, op) n)) as (Hcfg & _ & Hrows).
  { destruct op as [|cls payload|envs|]; cbn [own_step snd fst].
    - apply genesis_admitted.
    - apply emit_by, own_events_admitted.
    - by apply ingest_admitted.
    - apply evolves_recompute. }
  split; [by eapply rows_step_chain|]. unfold node_id. by rewrite Hcfg.
Qed.
Lemma own_run_chain t ops n : own_chain (node_id n) t (db_events (n_db n)) → honest_history t ops n →
  (∃ t', own_chain (node_id n) t' (db_events (n_db (own_run ops n)))) ∧ node_id (own_run ops n) = node_id n.
Proof.
  unfold own_run. revert t n. induction ops as [|op ops IH]; intros t n Hc Hh; [split; [by exists t|done]|].
  cbn [honest_history foldl] in Hh |- *. destruct Hh as (Ht & Hop & Hh).
  destruct (own_step_chain t op n Hc) as [Hc' Hid]; [by split_and!|].
  rewrite <- Hid in Hc'. destruct (IH _ _ Hc' Hh) as [IH1 IH2]. by rewrite <- Hid.
Qed.

(** *** The chain, read back as events *)
Lemma Event_from_record_lineage row e : Event_from_record row = Ok e →
  ev_parents e = row_parents row ∧
  (ev_source e ≠ "unknown" → has_text "source" (ev_source e) row = true).
Proof.
  unfold Event_from_record, row_parents, has_text. intros Hr.
  repeat (match type of Hr with
          | (_ ← ?m; _) = Ok _ => let E := fresh "E" in destruct m as [?|?] eqn:E; cbn [mbind result_bind] in Hr; [|done]
          end).
  injection Hr as <-. cbn [ev_parents ev_source]. split.
  - cbn [mbind result_bind]. match goal with E : as_parents _ = Ok _ |- _ => by rewrite E end.
  - unfold sql_req, sql_get in *.
    repeat match goal with
    | E : result_of_option _ (dget row "source") = Ok _ |- _ =>
        destruct (dget row "source") as [v|]; [injection E as ->|discriminate E]
    end.
    match goal with E : sql_str_or ?v "unknown" = Ok ?s |- _ => destruct v; try discriminate E; revert E end.
    + by intros [= <-].
    + intros [= <-] Hu. destruct (decide (s = "")) as [->|Hs]; [done|]. apply bool_decide_true. unfold str_or_opt. by rewrite str_or_nonempty.
Qed.

Lemma all_events_decoded db l : all_events db = Ok l →
  (∀ e, e ∈ l ↔ ∃ r, r ∈ db_events db ∧ Event_from_record r = Ok e) ∧ (∀ r, r ∈ db_events db → ∃ e, e ∈ l ∧ Event_from_record r = Ok e) ∧
  ev_id <$> l ≡ₚ row_id <$> db_events db.
Proof.
  unfold all_events. rewrite mapR_Ok. intros Hl. assert (order_by_created (db_events db) ≡ₚ db_events db) as Hp by apply sort_on_perm.
  split_and!.
  - intros e. split.
    + intros (i & Hi)%list_elem_of_lookup. destruct (Forall2_lookup_r _ _ _ _ _ Hl Hi) as (r & Hr & He).
      exists r. split; [|done]. rewrite <- Hp. by eapply list_elem_of_lookup_2.
    + intros (r & Hr & He). rewrite <- Hp in Hr. apply list_elem_of_lookup in Hr as [i Hi].
      destruct (Forall2_lookup_l _ _ _ _ _ Hl Hi) as (e' & He' & Hd). assert (e' = e) as -> by congruence. by eapply list_elem_of_lookup_2.
  - intros r Hr. rewrite <- Hp in Hr. apply list_elem_of_lookup in Hr as [i Hi].
    destruct (Forall2_lookup_l _ _ _ _ _ Hl Hi) as (e' & He' & Hd). exists e'. split; [by eapply list_elem_of_lookup_2|done].
  - rewrite <- Hp. clear Hp. induction Hl as [|r e rs es He _ IH]; [done|]. rewrite !fmap_cons, IH.
    by rewrite (Event_from_record_id _ _ He).
Qed.

Lemma chain_descends self t db l i j ri rj : own_chain self t (db_events db) → all_events db = Ok l →
  own_rows self (db_events db) !! i = Some ri → own_rows self (db_events db) !! j = Some rj → (i < j)%nat →
  anc (events_by_id l) (row_id ri) (row_id rj).
Proof.
  intros [Hd _ Hlink] Hall Hi. destruct (all_events_decoded _ _ Hall) as (_ & Hdec & Hids). revert j rj.
  induction j as [|j IH]; intros rj Hj Hlt; [lia|].
  assert (is_Some (own_rows self (db_events db) !! j)) as [rp Hrp] by (apply lookup_lt_is_Some; apply lookup_lt_Some in Hj; lia).
  assert (parent_of (events_by_id l) (row_id rp) (row_id rj)) as Hpar.
  { destruct (Hlink _ _ _ Hrp Hj) as [_ Hin].
    assert (rj ∈ db_events db) as Hrow by (apply list_elem_of_lookup_2, list_elem_of_filter in Hj; tauto).
    destruct (Hdec rj Hrow) as (e & He & Hread). exists e. rewrite <- (Event_from_record_id _ _ Hread).
    split; [apply events_by_id_in; [by rewrite Hids|done]|]. by destruct (Event_from_record_lineage _ _ Hread) as [-> _]. }
  destruct (decide (i = j)) as [->|Hne].
  - rewrite Hi in Hrp. injection Hrp as <-. by apply tc_once.
  - eapply tc_r; [|exact Hpar]. apply IH; [done|lia].
Qed.

(** C13: a node never forks itself. From an empty registry on, through any history of
    bootstrap, emissions, ingested envelopes and recomputations in which the clock does not
    go back and envelopes in the node's name are its own ones coming back, every two
    events of the node are related: one descends from the other. *)
Theorem never_forks_itself (t : Q) (ops : list (World * own_op)) (n : Node) (l : list Event) :
  db_events (n_db n) = [] → node_id n ≠ "unknown" → honest_history t ops n →
  all_events (n_db (own_run ops n)) = Ok l →
  ∀ e1 e2, e1 ∈ l → e2 ∈ l → ev_source e1 = node_id n → ev_source e2 = node_id n →
    e1 = e2 ∨ anc (events_by_id l) (ev_id e1) (ev_id e2) ∨ anc (events_by_id l) (ev_id e2) (ev_id e1).
Proof.
  intros Hempty Hname Hh Hall e1 e2 H1 H2 S1 S2.
  assert (own_chain (node_id n) t (db_events (n_db n))) as Hc.
  { rewrite Hempty. split; [apply NoDup_nil_2|by intros r ?%not_elem_of_nil|done]. }
  destruct (own_run_chain t ops n Hc Hh) as [[t' Hc'] _]. destruct (all_events_decoded _ _ Hall) as (Hread & _ & Hids).
  assert (∀ e, e ∈ l → ev_source e = node_id n → ∃ i r, own_rows (node_id n) (db_events (n_db (own_run ops n))) !! i = Some r ∧ row_id r = ev_id e) as Hown.
  { intros e He Hs. apply Hread in He as (r & Hr & Hd). destruct (Event_from_record_lineage _ _ Hd) as [_ Hsrc].
    rewrite Hs in Hsrc. specialize (Hsrc Hname). assert (r ∈ own_rows (node_id n) (db_events (n_db (own_run ops n)))) as Hin by (by apply list_elem_of_filter).
    apply list_elem_of_lookup in Hin as [i Hi]. exists i, r. split; [done|]. symmetry. by apply Event_from_record_id. }
  destruct (Hown e1 H1 S1) as (i & r1 & Hi & I1), (Hown e2 H2 S2) as (j & r2 & Hj & I2).
  destruct (lt_eq_lt_dec i j) as [[Hlt|Heq]|Hgt].
  - right. left. rewrite <- I1, <- I2. by eapply chain_descends.
  - left. subst j. rewrite Hi in Hj. injection Hj as <-. apply (NoDup_id_inj l); [rewrite Hids; apply Hc'|done|done|congruence].
  - right. right. rewrite <- I1, <- I2. by eapply chain_descends.
Qed.
End runs.

(** ** A concrete history *)
#[local] Instance chain_floats : FloatFormat := frac_format.
Definition fresh_node : Node :=
  set_n_loop true (set_n_gossip (Some empty_gossip) (new_node 1 sample_config (mkCatalog EVENT_CATALOG []) empty_db)).
Definition world_at (t : Q) : World :=
  {| w_now := t; w_elapsed := 1; w_rss := 0; w_cpu := 0; w_db_size := 0; w_choice := λ l, default "" (head l);
     w_net := λ k _, Response 200 true; w_timeout := λ _, false; w_done := λ _ _, false; w_stopping := λ _, false;
     w_hostname := "h"; w_token := "tok" |}.
Definition foreign_envelope : Envelope :=
  mkEnvelope (Event_create B "elsewhere" (5 # 1) {["elsewhere" := 1]} [] [("k", JInt 1)] None None None None) [].
Definition chain_history : list (World * own_op) :=
  [(world_at 100, OwnGenesis); (world_at 101, OwnEmit A [("event_kind", JStr "x")]);
   (world_at 101, OwnIngest [foreign_envelope]); (world_at 102, OwnRecompute); (world_at 103, OwnEmit C [("event_kind", JStr "y")])].

Lemma never_forks_itself_witness :
  ∃ l, all_events (n_db (own_run chain_history fresh_node)) = Ok l ∧
  map ev_source l = [node_id fresh_node; node_id fresh_node; "elsewhere"; node_id fresh_node] ∧
  ∀ e1 e2, e1 ∈ l → e2 ∈ l → ev_source e1 = node_id fresh_node → ev_source e2 = node_id fresh_node →
    e1 = e2 ∨ anc (events_by_id l) (ev_id e1) (ev_id e2) ∨ anc (events_by_id l) (ev_id e2) (ev_id e1).
Proof.
  destruct (result_is_ok (all_events (n_db (own_run chain_history fresh_node)))) as [l Hl]; [vm_compute; reflexivity|].
  exists l. split; [exact Hl|]. split.
  - assert (match all_events (n_db (own_run chain_history fresh_node)) with Ok k => map ev_source k | Err _ => [] end =
      [node_id fresh_node; node_id fresh_node; "elsewhere"; node_id fresh_node]) as Hs by (vm_compute; reflexivity).
    by rewrite Hl in Hs.
  - assert (honest_history 0 chain_history fresh_node) as Hh.
    { split; [by vm_compute|]. split; [exact I|]. split; [by vm_compute|]. split; [exact I|]. split; [by vm_compute|].
      split; [intros env Hin Hs; exfalso; apply list_elem_of_singleton in Hin; rewrite Hin in Hs; vm_compute in Hs; discriminate Hs|]. split; [by vm_compute|]. split; [exact I|].
      split; [by vm_compute|]. by split. }
    assert (db_events (n_db fresh_node) = []) as He by reflexivity.
    assert (node_id fresh_node ≠ "unknown") as Hn by (vm_compute; discriminate).
    exact (never_forks_itself 0 chain_history fresh_node l He Hn Hh Hl).
Defined.

(** A clock that is set back forks the node: the third event does not descend from the
    second one, because the first one has the later stamp. *)
Example clock_set_back_forks :
  let ops := [(world_at 100, OwnGenesis); (world_at 50, OwnEmit C [("event_kind", JStr "x")]);
              (world_at 120, OwnEmit C [("event_kind", JStr "y")])] in
  match all_events (n_db (own_run ops fresh_node)) with
  | Ok [second; first; third] =>
      bool_decide (ev_id second ∈ ancestors (events_by_id [second; first; third]) (ev_id third)) = false ∧
      bool_decide (ev_id third ∈ ancestors (events_by_id [second; first; third]) (ev_id second)) = false ∧
      bool_decide (ev_id first ∈ ancestors (events_by_id [second; first; third]) (ev_id third)) = true
  | _ => False
  end.
Proof. vm_compute. by split_and!. Qed.
