(* ===== verification/NodeCheckpointsFacts.v ===== *)
(** Theorems about NodeCheckpoints.v: recording signatures, the agreement of
    proposing and verifying, the detection of an unclean shutdown, and the false
    alarm that retention causes. *)
From S2P Require Import Prelude Sha256 Json VectorClock Models Consensus Storage StorageFacts Config Metrics Prioritization Gossip JsonText Checkpoint Auth Catalog Node NodeLogic NodeEvents NodeEventsFacts NodeCheckpoints.

Section facts.
Context `{FloatFormat}.

Lemma dkeys_sort_dict {X} (d : odict X) k : k ∈ dkeys (sort_dict d) ↔ k ∈ dkeys d.
Proof. unfold dkeys, sort_dict. by rewrite (sort_by_perm key_leb d). Qed.

Lemma quorum_ext (s1 s2 : odict string) members :
  (∀ k, k ∈ dkeys s1 ↔ k ∈ dkeys s2) → is_quorum_reached s1 members = is_quorum_reached s2 members.
Proof.
  intros Hk. unfold is_quorum_reached. case_bool_decide; [done|].
  assert (∀ M : gset string, filter (λ m, m ∈ dkeys s1) M = filter (λ m, m ∈ dkeys s2) M) as ->; [|done].
  intros M. apply set_eq. intros x. rewrite !elem_of_filter. by rewrite Hk.
Qed.

Lemma membership_frame n n' ids :
  membership_node_ids n = (n', Ok ids) →
  db_checkpoints (n_db n') = db_checkpoints (n_db n) ∧ db_events (n_db n') = db_events (n_db n) ∧
  n_config n' = n_config n.
Proof.
  unfold membership_node_ids. rewrite bind_Ok. intros (n1 & snap & Hm & Hl).
  apply bind_Ok in Hl as (n2 & x & [= <- Hx] & [= <- <-]). unfold membership_m, active_consensus_membership in Hm.
  destruct (cached_snapshot n); injection Hm as <- _; done.
Qed.

(** What a recorded proposal leaves at its round. *)
Record signature_recorded (p : CheckpointProposal) (members : list string) (old : option CheckpointRow)
    (row : CheckpointRow) : Prop := {
  sr_root : cp_merkle_root row = pp_merkle_root p;
  sr_keys : ∀ k, k ∈ dkeys (cp_signatures row) ↔
    k = pp_proposer_node_id p ∨ ∃ c, old = Some c ∧ k ∈ dkeys (cp_signatures c);
  sr_signed : (pp_proposer_node_id p, pp_signature p) ∈ cp_signatures row;
  sr_sticky : ∀ c, old = Some c → is_confirmed c = true → is_confirmed row = true;
  sr_quorum : is_confirmed row = true →
    is_quorum_reached (cp_signatures row) members = true ∨ ∃ c, old = Some c ∧ is_confirmed c = true;
  sr_confirms : is_quorum_reached (cp_signatures row) members = true → is_confirmed row = true }.

Lemma add_signature_spec now p existing n n' row :
  add_signature now p existing n = (n', Ok row) →
  ∃ n1 members r, membership_node_ids n = (n1, Ok members) ∧ row = Some r ∧
    get_checkpoint (pp_round_received p) (n_db n') = Some r ∧ signature_recorded p members existing r ∧
    (∀ k, k ≠ pp_round_received p → get_checkpoint k (n_db n') = get_checkpoint k (n_db n)) ∧
    db_events (n_db n') = db_events (n_db n).
Proof.
  unfold add_signature. rewrite bind_Ok. intros (n1 & members & Hm & Hrest).
  destruct (membership_frame _ _ _ Hm) as (Hc & He & _).
  set (signatures := dset _ _ _) in *. set (q := is_quorum_reached signatures members) in *.
  apply bind_Ok in Hrest as (n2 & [] & Hn2 & Hrest). injection Hn2 as Hn2.
  apply bind_Ok in Hrest as (n3 & [] & Hn3 & Hrest). injection Hn3 as Hn3. injection Hrest as <- Hrow.
  assert (db_checkpoints (n_db n2) = db_checkpoints (n_db n) ∧ db_events (n_db n2) = db_events (n_db n)) as [Hc2 He2]
    by (rewrite <- Hn2; by destruct (_ && _)).
  clear Hn2. subst n3. simpl in Hrow. unfold get_checkpoint, upsert_checkpoint in *. simpl in Hrow |- *.
  rewrite lookup_insert_eq in Hrow. subst row. eexists n1, members, _. split; [done|]. split; [done|].
  split; [apply lookup_insert_eq|]. split; [|split; [|done]].
  2: { intros k Hk. rewrite lookup_insert_ne by done. by rewrite Hc2. }
  assert (∀ k, k ∈ dkeys (sort_dict signatures) ↔
    k = pp_proposer_node_id p ∨ ∃ c, existing = Some c ∧ k ∈ dkeys (cp_signatures c)) as Hkeys.
  { intros k. rewrite dkeys_sort_dict. unfold signatures. rewrite dkeys_dset_elem.
    destruct existing as [c|]; [naive_solver|]. split; [intros [|[]%not_elem_of_nil]; by left|naive_solver]. }
  assert (is_quorum_reached (sort_dict signatures) members = q) as Hq by (apply quorum_ext, dkeys_sort_dict).
  split; cbn [cp_merkle_root cp_signatures cp_status].
  - done.
  - exact Hkeys.
  - unfold sort_dict. rewrite sort_by_perm. apply dget_Some_in, dget_dset_eq.
  - intros c -> Hcon. unfold is_confirmed at 1. cbn [cp_status]. rewrite Hcon. by destruct q.
  - rewrite Hq. unfold is_confirmed at 1. cbn [cp_status]. destruct q; [by left|].
    destruct existing as [c|]; [|done]. destruct (is_confirmed c) eqn:Ec; [|done]. intros _. right. by exists c.
  - rewrite Hq. unfold is_confirmed at 1. cbn [cp_status]. by intros ->.
Qed.

(** Recording a proposal is safe: a proposal with another Merkle root than the
    recorded one changes nothing; otherwise the signature is added and none is lost,
    the checkpoint becomes confirmed exactly when the signers reach the quorum of
    the active membership or it was confirmed before, and no other round and no
    event is touched. *)
Theorem record_proposal_safe (now : Q) (p : CheckpointProposal) (n n' : Node) (row : option CheckpointRow) :
  record_proposal_signature now p n = (n', Ok row) →
  let old := get_checkpoint (pp_round_received p) (n_db n) in
  (∀ c, old = Some c → cp_merkle_root c ≠ pp_merkle_root p → n' = n ∧ row = Some c) ∧
  ((∀ c, old = Some c → cp_merkle_root c = pp_merkle_root p) →
   ∃ n1 members r, membership_node_ids n = (n1, Ok members) ∧ row = Some r ∧
     get_checkpoint (pp_round_received p) (n_db n') = Some r ∧ signature_recorded p members old r) ∧
  (∀ k, k ≠ pp_round_received p → get_checkpoint k (n_db n') = get_checkpoint k (n_db n)) ∧
  db_events (n_db n') = db_events (n_db n).
Proof.
  unfold record_proposal_signature. rewrite bind_Ok. intros (n0 & ? & [= <- <-] & Hrec).
  set (old := get_checkpoint (pp_round_received p) (n_db n)) in *. cbv zeta in Hrec |- *.
  assert (∀ ex, old = ex → add_signature now p ex n = (n', Ok row) →
    (∃ n1 members r, membership_node_ids n = (n1, Ok members) ∧ row = Some r ∧
      get_checkpoint (pp_round_received p) (n_db n') = Some r ∧ signature_recorded p members old r) ∧
    (∀ k, k ≠ pp_round_received p → get_checkpoint k (n_db n') = get_checkpoint k (n_db n)) ∧
    db_events (n_db n') = db_events (n_db n)) as Hadd.
  { intros ex <- Ha. apply add_signature_spec in Ha as (n1 & ms & r & H1 & H2 & H3 & H4 & H5 & H6). naive_solver. }
  destruct old as [c|] eqn:Hold; [destruct (decide (cp_merkle_root c = pp_merkle_root p)) as [Heq|Hne]|].
  - apply Hadd in Hrec as (H1 & H2 & H3); [|done]. split_and!; [intros c' [= <-] Hne; by destruct Hne|done..].
  - injection Hrec as <- <-. split_and!; [by intros c' [= <-]|intros Hall; by destruct (Hne (Hall c eq_refl))|done..].
  - apply Hadd in Hrec as (H1 & H2 & H3); [|done]. split_and!; done.
Qed.

(** ** Proposing and verifying agree *)
Lemma all_events_rows db1 db2 : db_events db1 = db_events db2 → all_events db1 = all_events db2.
Proof. unfold all_events. by intros ->. Qed.

(** A node that proposes a checkpoint for a new round and then verifies it finds
    its own root confirmed or pending, but never evidence of tampering. *)
Theorem propose_then_verify (now : Q) (target : Z) (n n' : Node) (p : CheckpointProposal) :
  propose_local_checkpoint now target n = (n', Ok p) →
  get_checkpoint target (n_db n) = None →
  ∃ n2 report, verify_checkpoint target n' = (n2, Ok report) ∧
    vr_matches_merkle report = true ∧ vr_has_tamper_evidence report = false ∧
    vr_local_merkle_root report = pp_merkle_root p ∧ n_tamper_evidence n2 = false.
Proof.
  unfold propose_local_checkpoint. destruct (target <? 0); [done|]. rewrite bind_Ok.
  intros (n0 & ? & [= <- <-] & Hp) Hnone. destruct (str_or_opt _ _) as [|c0 key]; [done|].
  apply bind_Ok in Hp as (n0 & events & [= <- Hev] & Hp). case_bool_decide as Hne; [done|].
  apply bind_Ok in Hp as (n1 & hash & Hhash & Hp).
  apply bind_Ok in Hp as (n2 & row & Hrec & [= <- Hpp]).
  assert (db_checkpoints (n_db n1) = db_checkpoints (n_db n) ∧ db_events (n_db n1) = db_events (n_db n)) as [Hc1 He1].
  { unfold membership_snapshot_hash in Hhash. apply bind_Ok in Hhash as (n3 & snap & Hm & [= <- _]).
    unfold membership_m, active_consensus_membership in Hm. destruct (cached_snapshot n); injection Hm as <- _; done. }
  unfold record_proposal_signature in Hrec. apply bind_Ok in Hrec as (n3 & ? & [= <- <-] & Hrec). simpl in Hrec.
  unfold get_checkpoint in Hrec at 1. rewrite Hc1 in Hrec. unfold get_checkpoint in Hnone. rewrite Hnone in Hrec.
  apply add_signature_spec in Hrec as (n4 & members & r & _ & _ & Hr & Hsr & _ & He2).
  destruct Hsr as [Hroot _ _ _ _ _]. simpl in Hr, Hroot. subst p. cbn [pp_merkle_root].
  unfold verify_checkpoint, mbind, nodem_bind, get_node, lift, modify. cbv beta iota. rewrite Hr.
  assert (events_up_to_round_received target (n_db n2) = Ok events) as ->.
  { unfold events_up_to_round_received. rewrite (all_events_rows (n_db n2) (n_db n)); [exact Hev|congruence]. }
  cbv beta iota zeta. rewrite !(bool_decide_false (events = [])) by done.
  pose proof (root_nonempty events) as Hnz.
  rewrite (bool_decide_true _ Hnz), Hroot. rewrite bool_decide_true by done. cbn [andb negb].
  eexists _, _. split; [reflexivity|]. done.
Qed.

(** ** Unclean shutdowns *)
Lemma last_snoc_elem {X} (l : list X) x : last l = Some x → x ∈ l.
Proof. intros Hl. rewrite last_lookup in Hl. by eapply list_elem_of_lookup_2. Qed.

Lemma last_sorted_max {X} (f : X → Q) (l : list X) (s : X) :
  s ∈ l → (∀ e, e ∈ l → e ≠ s → (f e < f s)%Q) → (∀ e, e ∈ l → e = s ∨ e ≠ s) →
  last (sort_on f Qcompare l) = Some s.
Proof.
  intros Hs Hmax Hdec. destruct (last (sort_on f Qcompare l)) as [x|] eqn:Hl.
  - assert (x ∈ l) as Hx by (apply last_snoc_elem in Hl; by rewrite sort_on_perm in Hl).
    destruct (Hdec x Hx) as [->|Hne]; [done|]. exfalso.
    pose proof (sort_on_sorted f Qcompare l) as Hsort. apply last_Some in Hl as [l' Hl]. rewrite Hl in Hsort.
    assert (s ∈ l') as Hs'.
    { assert (s ∈ sort_on f Qcompare l) as Hin by by rewrite sort_on_perm.
      rewrite Hl in Hin. apply elem_of_app in Hin as [|Hin%list_elem_of_singleton]; [done|]. by destruct Hne. }
    apply StronglySorted_app in Hsort as (Hsort & _ & _). specialize (Hsort s x Hs' ltac:(left)). apply Hmax in Hne; [|done].
    apply Hsort. by apply Qgt_alt.
  - apply last_None in Hl. assert (s ∈ sort_on f Qcompare l) as Hin by by rewrite sort_on_perm.
    rewrite Hl in Hin. by apply not_elem_of_nil in Hin.
Qed.

Lemma event_id_inj (events : list Event) e1 e2 :
  NoDup (ev_id <$> events) → e1 ∈ events → e2 ∈ events → ev_id e1 = ev_id e2 → e1 = e2.
Proof.
  intros Hd [i Hi]%list_elem_of_lookup [j Hj]%list_elem_of_lookup Hid.
  assert (i = j) as ->; [|congruence].
  eapply (NoDup_lookup _ _ _ (ev_id e1) Hd); rewrite list_lookup_fmap; [by rewrite Hi|by rewrite Hj, Hid].
Qed.

(** The kill is counted when its event was emitted. *)
Definition kill_counted (r : Node * result EventEmission) : Node * result unit :=
  match r with
  | (n', Ok _) => (count_service 0 0 1 n', Ok tt)
  | (n', Err _) => (n', Ok tt)
  end.

(** An unclean shutdown is detected: when the node's latest life cycle event is
    a start, the next start emits [mdrj_service_killed] naming it and counts it
    exactly when the emission succeeds; after a stop, a recorded kill, or on an
    empty registry nothing happens. *)
Theorem unclean_shutdown_detected (w : World) (events : list Event) (n : Node) :
  all_events (n_db n) = Ok events →
  NoDup (ev_id <$> events) →
  let own := filter (λ e, is_lifecycle (node_id n) e = true) events in
  (own = [] → maybe_emit_service_killed w n = (n, Ok tt)) ∧
  ∀ s, s ∈ own → (∀ e, e ∈ own → ev_id e ≠ ev_id s → (ev_ts_local e < ev_ts_local s)%Q) →
    let r := emit_event w A (killed_payload w n s) n in
    maybe_emit_service_killed w n =
      if bool_decide (jget (ev_payload s) "event_kind" = JStr "mdrj_service_start") then
        kill_counted r
      else (n, Ok tt).
Proof.
  intros Hev Hd own.
  assert (last_own_service_event n = Ok (last (sort_on ev_ts_local Qcompare own))) as Hlast
    by (unfold last_own_service_event; rewrite Hev; reflexivity).
  unfold maybe_emit_service_killed, mbind, nodem_bind, get_node, lift. cbv beta iota. rewrite Hlast. split.
  - intros ->. reflexivity.
  - intros s Hs Hmax. assert (∀ e, e ∈ own → ev_id e = ev_id s → e = s) as Heq.
    { intros e He. apply list_elem_of_filter in He as [_ He], Hs as [_ Hs]. by apply (event_id_inj events). }
    rewrite (last_sorted_max ev_ts_local own s Hs).
    + cbv beta iota. case_bool_decide; [|reflexivity]. unfold try_with.
      by destruct (emit_event w A (killed_payload w n s) n) as [n' [x|e]].
    + intros e He Hne. apply Hmax; [done|]. intros Hid. by apply Hne, Heq.
    + intros e He. destruct (decide (ev_id e = ev_id s)) as [Hid|Hid]; [left; by apply Heq|right; congruence].
Qed.
End facts.

(** ** Witnesses *)

(** A node that stores one event, received in round 1, and whose retention keeps
    nothing. *)
Definition retention_config : NodeConfig :=
  let c := sample_config in
  mkNodeConfig (cfg_node_id c) (cfg_listen c) [] (cfg_profile c) (cfg_gossip c) (cfg_prioritization c)
    (cfg_hmac_key c) (cfg_sqlite_path c) (cfg_linux_ingest c) (cfg_collectors c)
    (mkRetentionConfig true 104857600 0 true None 300) (cfg_discovery c) (cfg_notifier c) (cfg_agent_relay c)
    (cfg_heartbeat c) (cfg_runtime c) (cfg_ui_enabled c).
Definition received_state (event_id : string) : ConsensusState :=
  mkState event_id "n1" (Some "p") (Some "q") 0 (Some 1) true true true (Some 1) "vote" false false None (Some 1) 1 0
    (Some 5%Q).
Definition registry_node : Node :=
  let n := @new_node frac_format 1 retention_config (mkCatalog EVENT_CATALOG []) empty_db in
  set_n_db (replace_consensus_state [received_state (env_id example_envelope)]
              (store_envelope 100 example_envelope None (n_db n)).1) n.
#[local] Opaque registry_node.

Lemma propose_then_verify_witness :
  let r := @propose_local_checkpoint frac_format 200 1 registry_node in
  ∃ p, r = (r.1, Ok p) ∧ get_checkpoint 1 (n_db registry_node) = None ∧
  ∃ n2 report, @verify_checkpoint frac_format 1 r.1 = (n2, Ok report) ∧
    vr_matches_merkle report = true ∧ vr_has_tamper_evidence report = false ∧
    vr_local_merkle_root report = pp_merkle_root p ∧ n_tamper_evidence n2 = false.
Proof.
  intros r. destruct (run_is_ok r) as [p Hr]; [vm_compute; reflexivity|].
  assert (get_checkpoint 1 (n_db registry_node) = None) as Hn by (vm_compute; reflexivity).
  exists p. split; [exact Hr|]. split; [exact Hn|].
  exact (@propose_then_verify frac_format 200 1 registry_node r.1 p Hr Hn).
Defined.

(** The registry node after it proposed, and confirmed, a checkpoint. *)
Definition proposed_node : Node := (@propose_local_checkpoint frac_format 200 1 registry_node).1.
#[local] Opaque proposed_node.
Definition foreign_proposal : CheckpointProposal := mkProposal 1 "00" "h" "n2" "s2".
Lemma record_proposal_safe_witness :
  let r := @record_proposal_signature frac_format 300 foreign_proposal proposed_node in
  ∃ row, r = (r.1, Ok row) ∧
  let old := get_checkpoint 1 (n_db proposed_node) in
  (∀ c, old = Some c → cp_merkle_root c ≠ "00" → r.1 = proposed_node ∧ row = Some c) ∧
  ((∀ c, old = Some c → cp_merkle_root c = "00") →
   ∃ n1 members x, @membership_node_ids frac_format proposed_node = (n1, Ok members) ∧ row = Some x ∧
     get_checkpoint 1 (n_db r.1) = Some x ∧ signature_recorded foreign_proposal members old x) ∧
  (∀ k, k ≠ 1 → get_checkpoint k (n_db r.1) = get_checkpoint k (n_db proposed_node)) ∧
  db_events (n_db r.1) = db_events (n_db proposed_node).
Proof.
  intros r. destruct (run_is_ok r) as [row Hr]; [vm_compute; reflexivity|]. exists row. split; [exact Hr|].
  exact (@record_proposal_safe frac_format 300 foreign_proposal proposed_node r.1 row Hr).
Defined.

(** A registry whose last life cycle event is a start. *)
Definition start_event : Event :=
  @Event_create frac_format B "n1" (9 # 1) {["n1" := 4]} [] [("event_kind", JStr "mdrj_service_start")] None None None None.
Definition killed_node : Node :=
  set_n_db (store_envelope 100 (mkEnvelope start_event []) None (n_db registry_node)).1 registry_node.
Definition events_read (r : result (list Event)) : list Event := match r with Ok l => l | Err _ => [] end.
#[local] Opaque killed_node.

Lemma unclean_shutdown_detected_witness :
  ∃ events : list Event, all_events (n_db killed_node) = Ok events ∧ NoDup (ev_id <$> events) ∧
  let own := filter (λ e, is_lifecycle (node_id killed_node) e = true) events in
  (own = [] → @maybe_emit_service_killed frac_format sample_world killed_node = (killed_node, Ok tt)) ∧
  ∀ s, s ∈ own → (∀ e, e ∈ own → ev_id e ≠ ev_id s → (ev_ts_local e < ev_ts_local s)%Q) →
    let r := @emit_event frac_format sample_world A (killed_payload sample_world killed_node s) killed_node in
    @maybe_emit_service_killed frac_format sample_world killed_node =
      if bool_decide (jget (ev_payload s) "event_kind" = JStr "mdrj_service_start") then
        kill_counted r
      else (killed_node, Ok tt).
Proof.
  destruct (result_is_ok (all_events (n_db killed_node))) as [events E]; [vm_compute; reflexivity|].
  assert (bool_decide (NoDup (ev_id <$> events_read (all_events (n_db killed_node)))) = true) as Hd
    by (vm_compute; reflexivity).
  rewrite E in Hd. apply bool_decide_eq_true in Hd.
  exists events. split; [exact E|]. split; [exact Hd|].
  exact (@unclean_shutdown_detected frac_format sample_world events killed_node E Hd).
Defined.

(** The false alarm: an honest node proposes and confirms a checkpoint and verifies
    it, then its own retention prunes the covered events, and the same
    verification now reports evidence of tampering. *)
Theorem retention_false_alarm :
  let evidence n := match (@verify_checkpoint frac_format 1 n).2 with
                    | Ok r => Some (vr_has_tamper_evidence r) | Err _ => None end in
  let n1 := proposed_node in
  let n2 := (@run_retention_once frac_format 1000 n1).1 in
  (is_confirmed <$> get_checkpoint 1 (n_db n1)) = Some true ∧
  evidence n1 = Some false ∧ evidence n2 = Some true.
Proof. vm_compute. split; [reflexivity|]. split; reflexivity. Qed.
