(* ===== verification/NodeSync.v ===== *)
(** [mdrj/node.py], part 4: anti-entropy between nodes (frontier handshake,
    ancestry pull), the start of a node, the comparison of consensus digests and
    the status report.

    The HTTP session and the gossip engine are created by [start] and dropped by
    [stop] together, so [n_gossip n = None] also stands for [self._session is
    None]. *)
From S2P Require Import Prelude Sha256 Json VectorClock Models Consensus Storage Config Metrics Prioritization Gossip JsonText Checkpoint Auth Catalog Node NodeEvents NodeSimulation NodeCheckpoints.

Section sync.
Context `{FloatFormat}.

(** ** Frontier *)
Definition frontier_step (latest : odict (Q * string)) (event : Event) : odict (Q * string) :=
  let creator := event_creator event in
  if decide (creator = "") then latest
  else match dget latest creator with
       | Some (ts, _) => if ts <?q ev_ts_local event then dset latest creator (ev_ts_local event, ev_id event) else latest
       | None => dset latest creator (ev_ts_local event, ev_id event)
       end.
Definition local_frontier (db : DB) : result (odict string) :=
  events ← all_events db;
  Ok ((λ p : string * (Q * string), (p.1, p.2.2)) <$> foldl frontier_step [] (events : list Event)).

(** ** Ancestry

    The loop of [handle_event_ancestry]: breadth first from the queue, at most
    [budget] events.  A skipped id shortens the queue, a found event uses up the
    budget, so the loop ends. *)
Fixpoint ancestry_loop (db : DB) (budget : nat) : list string → gset string → result (list Envelope) :=
  match budget with
  | O => λ _ _, Ok []
  | S b => fix scan (queue : list string) (visited : gset string) {struct queue} :=
      match queue with
      | [] => Ok []
      | eid :: rest =>
          if decide (eid ∈ visited) then scan rest visited
          else
            let visited := {[eid]} ∪ visited in
            envelope ← get_envelope eid db;
            match envelope with
            | None => scan rest visited
            | Some env =>
                out ← ancestry_loop db b (rest ++ filter (λ p, p ≠ "" ∧ p ∉ visited) (env_parents env)) visited;
                Ok (env :: out)
            end
      end
  end.
(** [max(1, min(depth, 1024))] *)
Definition clamp_depth (depth : Z) : nat := Z.to_nat (Z.max 1 (Z.min depth 1024)).
Definition ancestry (depth : Z) (event_id : string) (db : DB) : result (list Envelope) :=
  ancestry_loop db (clamp_depth depth) [event_id] ∅.

(** [answer]: the JSON body of a 200 response; an item that cannot be decoded is
    logged and skipped. *)
Definition pulled_item (item : json) : result (option Envelope) :=
  match Envelope_from_dict item with
  | Ok e => Ok (Some e)
  | Err e => if leaves_model e then Err e else Ok None
  end.
Definition pull_ancestry (answer : option json) : result (list Envelope) :=
  match answer with
  | None => Ok []
  | Some payload =>
      d ← as_obj payload;
      items ← py_list (jget_or d "events" (JArr []));
      envelopes ← mapR pulled_item items;
      Ok (omap id (envelopes : list (option Envelope)))
  end.

Definition add_pulls (pulled : nat) (n : Node) : Node :=
  let k := n_counters n in
  set_n_counters (mkCounters (k_events_by_class_kind k) (k_service_started k) (k_service_stopped k) (k_service_killed k)
    (k_host_boot k) (k_host_reboot k) (k_checkpoint_confirmed k) (k_class_a_durable k) (k_class_a_local_only k)
    (k_frontier_sync_pulls k + Z.of_nat pulled) (k_tamper_alerts k) (k_heartbeat_emitted k)) n.

(** What the peers answer: the body of GET /gossip/frontier of an address, and of
    GET /events/{id}/ancestry?depth=64. *)
Record SyncNet := mkSyncNet {
  sn_frontier : string → option json;
  sn_ancestry : string → string → option json }.

Definition missing_id (db : DB) (peer_event_id : string) : result (option string) :=
  if decide (peer_event_id = "") then Ok None
  else e ← get_event peer_event_id db;
       Ok (match e with None => Some peer_event_id | Some _ => None end).

(** The ids this node has and the peer does not list as the latest. *)
Definition to_push (local peer : odict string) : list string :=
  omap (λ p : string * string, if decide (p.2 = "" ∨ dget peer p.1 = Some p.2) then None else Some p.2) local.

Fixpoint pull_missing (w : World) (net : SyncNet) (address : string) (missing : list string) (pulled : nat) : NodeM nat :=
  match missing with
  | [] => mret pulled
  | event_id :: rest =>
      envs ← lift (pull_ancestry (sn_ancestry net address event_id));
      if bool_decide ((envs : list Envelope) = []) then pull_missing w net address rest pulled
      else ingest_envelopes w envs;; pull_missing w net address rest (pulled + length envs)
  end.

(** An id of the peer's frontier; [""] stands for every value that counts as false. *)
Definition frontier_id (v : json) : result string :=
  match v with
  | JStr s => Ok s
  | v => if py_bool v then Err (Untyped "frontier id") else Ok ""
  end.

Record SyncReport := mkSyncReport { sr_peer : string; sr_pulled : nat; sr_missing_ids : list string }.

(** [choose]: [random.choice]. *)
Definition frontier_sync_once (w : World) (choose : list PeerInfo → PeerInfo) (net : SyncNet) : NodeM (option SyncReport) :=
  n ← get_node;
  if bool_decide (n_peers n = []) || bool_decide (n_gossip n = None) then mret None
  else
    let peer := choose (node_list_peers n) in
    match sn_frontier net (pi_address peer) with
    | None => mret None
    | Some payload =>
        d ← lift (as_obj payload);
        frontier ← lift (as_obj (py_or (jget d "frontier") (JObj [])));
        peer_frontier ← lift (mapR (λ p : string * json, i ← frontier_id p.2; Ok (p.1, i)) frontier);
        local ← lift (local_frontier (n_db n));
        missing ← lift (mapR (λ p : string * string, missing_id (n_db n) p.2) peer_frontier);
        let missing_ids := omap id (missing : list (option string)) in
        forM (to_push local peer_frontier) (λ i, modify (gossip_offer i));;
        pulled ← pull_missing w net (pi_address peer) missing_ids 0;
        modify (add_pulls pulled);;
        mret (Some (mkSyncReport (pi_address peer) pulled missing_ids))
    end.

(** ** Start and stop *)
Definition prime_gossip : NodeM unit :=
  n ← get_node;
  if bool_decide (n_gossip n = None) then mret tt
  else
    events ← lift (list_events 1000 None (n_db n));
    forM events (λ e, modify (gossip_offer (ev_id e))).

Fixpoint anchor_envelopes (anchors : list string) (db : DB) : result (list Envelope) :=
  match anchors with
  | [] => Ok []
  | a :: rest => env ← get_envelope a db; envs ← anchor_envelopes rest db; Ok (option_list env ++ envs)
  end.
Definition push_initial_events (w : World) : NodeM unit :=
  n ← get_node;
  if bool_decide (n_gossip n = None) || bool_decide (n_peers n = []) then mret tt
  else
    anchors ← anchor_ids;
    n ← get_node;
    envelopes ← lift (anchor_envelopes anchors (n_db n));
    if bool_decide ((envelopes : list Envelope) = []) then mret tt
    else modify (λ n, foldl (λ n p, (node_send w 0 (pi_address p) envelopes n).1) n (node_list_peers n)).

(** [start], without the HTTP server and the background loops: the loop runs, the
    log has its genesis event, the membership is fixed, the gossip queue holds
    what is stored, and the previous shutdown is judged before this start is
    recorded. *)
Definition node_start (w : World) (status_of : string → option json) : NodeM unit :=
  modify (set_n_loop true);;
  bootstrap_genesis w false;;
  hydrate_peer_node_ids (w_now w) status_of;;
  ensure_consensus_membership_snapshot (w_now w) status_of;;
  modify (set_n_gossip (Some (mkGossip [] ∅)));;
  prime_gossip;;
  push_initial_events w;;
  modify refresh_health;;
  maybe_emit_service_killed w;;
  emit_service_start w.

(** [stop]: the stop event is recorded first, a failure is logged; the demo generator
    ends, on the peers too; a recomputation that waits is cancelled. *)
Definition cancel_recompute (n : Node) : Node :=
  set_n_tasks (filter (λ t, match t with DebouncedRecompute => false | _ => true end = true) (n_tasks n)) n.
Definition node_stop (w : World) : NodeM unit :=
  try_with (emit_service_stop w) (λ _, mret tt);;
  n ← get_node;
  (if simulation_running n then stop_simulation w JNull true;; mret tt else mret tt);;
  modify cancel_recompute;;
  modify (set_n_gossip None);;
  modify (set_n_loop false).

(** ** The gossip task

    An iteration of [GossipEngine._loop]; [sample] is [random.sample].  Its
    exceptions are not caught there: they end the task. *)
Definition gossip_iteration (w : World) (sample : list PeerInfo → nat → list PeerInfo) : NodeM unit := λ n,
  match n_gossip n with
  | None => (n, Ok tt)
  | Some g =>
      let e := node_gossip_env w 0 n in
      let env := mkGossipEnv (ge_node_id e) (ge_prioritizer e) (ge_fan_out e) (ge_hmac_key e) (ge_peers e) sample (ge_net e)
                   (ge_now e) (ge_latency e) in
      let '(s, r) := tick env (mkTick g (n_db n) (n_metrics n)) in
      (set_n_metrics (ts_metrics s) (set_n_db (ts_db s) (set_n_gossip (Some (ts_gossip s)) n)),
       match r with Ok _ => Ok tt | Err e => Err e end)
  end.

(** ** Consensus digests *)
Definition CONSENSUS_FINALITY_MARGIN : Z := 2.

Definition is_final (cutoff : Z) (e : Event) : bool :=
  match ev_round_received e with Some r => r <=? cutoff | None => false end.
Definition finalized_events (ordered : list Event) : list Event :=
  match omap ev_round_received ordered with
  | [] => []
  | r :: rounds =>
      let cutoff := foldl Z.max r rounds - CONSENSUS_FINALITY_MARGIN in
      filter (λ e, is_final cutoff e = true) ordered
  end.
Definition finalized_digest (ids : list string) : string := sha256_hex (utf8_encode (py_join "::" ids)).

Definition consensus_snapshot (now : Q) : NodeM (odict json) :=
  n ← get_node;
  events ← lift (all_events (n_db n));
  let ordered := total_order events ∅ in
  let ids := ev_id <$> finalized_events ordered in
  membership ← membership_m;
  mret [("node_id", JStr (node_id n)); ("hash", JStr (finalized_digest ids));
        ("event_count", JInt (Z.of_nat (length ids))); ("total_event_count", JInt (Z.of_nat (length ordered)));
        ("latest_event", jopt JStr (last ids)); ("latest_total_event", jopt JStr (ev_id <$> last ordered));
        ("finality_margin", JInt CONSENSUS_FINALITY_MARGIN);
        ("consensus_epoch", jget membership "epoch");
        ("consensus_membership_size", jget membership "membership_size");
        ("membership_snapshot_hash", jget membership "membership_snapshot_hash");
        ("generated_at", JFloat now)].

(** [peer.get(k) != local.get(k)] *)
Definition differs (local peer : odict json) (k : string) : bool := bool_decide (jget peer k ≠ jget local k).

Definition consensus_mismatch_reasons (local peer : odict json) : list string :=
  (if differs local peer "event_count" then ["event_count"] else []) ++
  (if differs local peer "hash" then ["hash"] else []) ++
  (if differs local peer "membership_snapshot_hash" then ["membership"] else []) ++
  (if differs local peer "consensus_epoch" && differs local peer "membership_snapshot_hash" then ["epoch"] else []).

Definition consensus_match (local peer : odict json) : bool :=
  negb (differs local peer "hash") && negb (differs local peer "event_count") &&
  negb (differs local peer "membership_snapshot_hash").

(** The body of a 2xx answer to GET /consensus/digest; the reply also tells the
    peer's node id. *)
Definition fetch_peer_consensus (now : Q) (answer : option json) (address : string) : NodeM (option json) :=
  match answer with
  | None => mret None
  | Some payload =>
      match as_obj payload with
      | Err _ => mret None
      | Ok d =>
          let peer_node_id := py_strip (py_str (py_or (jget d "node_id") (JStr ""))) in
          (if decide (peer_node_id = "") then mret tt
           else update_db (λ db, (update_peer address None None (Some now) (Some true) None (Some peer_node_id) None db).1));;
          mret (Some payload)
      end
  end.

Definition mismatch_count (mismatch : bool) (count : Z) : Z := if mismatch then count + 1 else 0.

Definition snapshot_view (with_node : bool) (s : odict json) : json :=
  JObj ([("hash", jget s "hash"); ("event_count", jget s "event_count"); ("latest_event", jget s "latest_event")] ++
        (if with_node then [("node_id", jget s "node_id")] else []) ++
        [("consensus_epoch", jget s "consensus_epoch"); ("membership_snapshot_hash", jget s "membership_snapshot_hash")]).

(** The peer's address is never empty here, so it is the key. *)
Definition notify_consensus_status (now : Q) (peer_address : string) (matches : bool) (local : odict json)
    (peer : option (odict json)) (error : option string) (reasons : list string) (n : Node) : Node :=
  let mismatch := bool_decide (error ≠ None) || negb matches in
  let count := mismatch_count mismatch (default 0 (dget (n_mismatch n) peer_address)) in
  let n := set_n_mismatch (dset (n_mismatch n) peer_address count) n in
  let payload :=
    [("type", JStr "consensus_status"); ("peer", JStr peer_address);
     ("peer_node", match peer with Some p => jget p "node_id" | None => JNull end);
     ("match", JBool (matches && negb (bool_decide (error ≠ None)))); ("local", snapshot_view false local);
     ("timestamp", JFloat now); ("pending", JBool (mismatch && (count <? 3))); ("mismatch_reasons", strs_json reasons)] ++
    match peer with Some p => [("peer_state", snapshot_view true p)] | None => [] end ++
    match error with Some e => [("error", JStr e)] | None => [] end in
  broadcast_viz (JObj payload) n.

(** One peer of a monitoring round. *)
Definition monitor_peer (now : Q) (digest_of : string → option json) (local : odict json) (peer : PeerInfo) : NodeM unit :=
  answer ← fetch_peer_consensus now (digest_of (pi_address peer)) (pi_address peer);
  if negb (py_bool (default JNull answer)) then
    modify (notify_consensus_status now (pi_address peer) false local None (Some "unreachable") ["unreachable"])
  else
    peer_snapshot ← lift (as_obj (default JNull answer));
    modify (notify_consensus_status now (pi_address peer) (consensus_match local peer_snapshot) local (Some peer_snapshot)
              None (consensus_mismatch_reasons local peer_snapshot)).
(** One round of [_consensus_monitor_loop]; an exception is logged. *)
Definition monitor_round (now : Q) (digest_of : string → option json) : NodeM unit :=
  try_with
    (local ← consensus_snapshot now;
     n ← get_node;
     forM (node_list_peers n) (monitor_peer now digest_of local))
    (λ _, mret tt).

(** ** Status *)
Definition mismatch_peers (n : Node) : list string :=
  sort_on id String.compare ((filter (λ p : string * Z, 3 <=? p.2 = true) (n_mismatch n : list (string * Z))).*1).
Definition pending_peers (n : Node) : list string :=
  sort_on id String.compare ((filter (λ p : string * Z, (0 <? p.2) && (p.2 <? 3) = true) (n_mismatch n : list (string * Z))).*1).
Definition consensus_health (n : Node) : string :=
  if bool_decide (mismatch_peers n ≠ []) then "mismatch"
  else if bool_decide (pending_peers n ≠ []) then "pending" else "ok".

Definition NodeState_value (s : NodeState) : string :=
  match s with STARTED => "STARTED" | ISOLATED => "ISOLATED" | MERGING => "MERGING" | RUN => "RUN" end.

(** [linux_ingest]: the status record of the log reader. *)
Definition node_status (state : NodeState) (linux_ingest : json) : NodeM json :=
  membership ← membership_m;
  n ← get_node;
  let profile := cfg_profile (n_config n) in
  mret (JObj
    [("node_id", JStr (node_id n)); ("state", JStr (NodeState_value state));
     ("peers", JArr (PeerInfo_to_dict <$> node_list_peers n));
     ("profile", JObj [("role", JStr (current_role n)); ("memory_mb", JInt (memory_mb profile));
                       ("bw_kbps", JInt (bw_kbps profile)); ("threat_level", JStr (threat_level profile))]);
     ("consensus_epoch", jget membership "epoch"); ("consensus_membership_size", jget membership "membership_size");
     ("membership_snapshot_hash", jget membership "membership_snapshot_hash");
     ("consensus_health", JStr (consensus_health n)); ("consensus_mismatch_peers", strs_json (mismatch_peers n));
     ("consensus_pending_peers", strs_json (pending_peers n)); ("linux_ingest", linux_ingest);
     ("demo_controls_enabled", JBool (negb (li_enabled (cfg_linux_ingest (n_config n)))));
     ("ui_enabled", JBool (cfg_ui_enabled (n_config n)))]).
End sync.
