(* ===== verification/NodeSyncFacts.v ===== *)
(** Theorems about NodeSync.v: an ancestry answer is the stored ancestry, and a
    frontier round brings over what the peer has. *)
From S2P Require Import Prelude Sha256 Json VectorClock Models Consensus ConsensusFacts Storage StorageFacts StorageTypes Config Metrics Prioritization Gossip JsonText Checkpoint Auth Catalog Node NodeLogic NodeEvents NodeEventsFacts NodeCheckpoints NodeSync.

(** ** Stored events *)

Section facts.
Context `{FloatFormat}.


Lemma get_event_stored i db e : get_event i db = Ok (Some e) → ev_id e = i ∧ i ∈ event_ids db.
Proof.
  unfold get_event. destruct (find_event db i) as [r|] eqn:Hf; [|done]. simpl. intros He.
  apply result_bind_Ok in He as (e' & He & [= ->]). apply find_has_id in Hf as [Hin Hid].
  split; [|rewrite <- Hid; by apply list_elem_of_fmap_2]. rewrite <- Hid. by apply Event_from_record_id.
Qed.
Lemma get_event_None i db : get_event i db = Ok None ↔ i ∉ event_ids db.
Proof.
  unfold get_event. destruct (find_event db i) as [r|] eqn:Hf; simpl.
  - split; [by destruct (Event_from_record r)|]. intros Hn. destruct Hn. apply find_has_id in Hf as [Hin <-].
    by apply list_elem_of_fmap_2.
  - split; [|done]. intros _. by apply find_has_id_None in Hf.
Qed.
Lemma get_envelope_stored i db env : get_envelope i db = Ok (Some env) → env_id env = i ∧ i ∈ event_ids db.
Proof.
  unfold get_envelope. intros He. apply result_bind_Ok in He as ([e|] & He & [= <-]). by apply get_event_stored in He.
Qed.

(** ** Ancestry *)
Definition stored (db : DB) (i : string) : Prop := ∃ env, get_envelope i db = Ok (Some env).
Definition parent_of (db : DB) (i j : string) : Prop :=
  ∃ env, get_envelope i db = Ok (Some env) ∧ j ∈ env_parents env ∧ j ≠ "".

(** Ids whose parents have all been looked at or wait in the queue. *)
Definition closed (db : DB) (visited : gset string) (queue : list string) : Prop :=
  ∀ i j, i ∈ visited → parent_of db i j → j ∈ visited ∨ j ∈ queue.

Lemma ancestry_loop_unfold db b eid rest visited :
  ancestry_loop db (S b) (eid :: rest) visited =
    if decide (eid ∈ visited) then ancestry_loop db (S b) rest visited
    else
      let visited := {[eid]} ∪ visited in
      envelope ← get_envelope eid db;
      match envelope with
      | None => ancestry_loop db (S b) rest visited
      | Some env =>
          out ← ancestry_loop db b (rest ++ filter (λ p, p ≠ "" ∧ p ∉ visited) (env_parents env)) visited;
          Ok (env :: out)
      end.
Proof. reflexivity. Qed.

Lemma ancestry_loop_total db b q visited : events_typed db → is_ok (ancestry_loop db b q visited) = true.
Proof.
  intros Ht. revert q visited. induction b as [|b IHb]; intros q visited; [done|].
  revert visited. induction q as [|eid rest IHq]; intros visited; [done|]. rewrite ancestry_loop_unfold.
  case_decide; [apply IHq|]. cbv zeta. apply bind_is_ok; [by apply typed_get_envelope|]. intros [env|] _; [|apply IHq].
  apply bind_is_ok; [apply IHb|done].
Qed.

(** Each listed envelope is stored and listed once. *)
Lemma ancestry_loop_sound db b q visited out :
  ancestry_loop db b q visited = Ok out →
  (length out ≤ b)%nat ∧ NoDup (env_id <$> out) ∧
  ∀ env, env ∈ out → env_id env ∉ visited ∧ get_envelope (env_id env) db = Ok (Some env).
Proof.
  revert q visited out. induction b as [|b IHb]; intros q visited out.
  { intros [= <-]. split_and!; [done|apply NoDup_nil_2|]. intros env Hin. by apply elem_of_nil in Hin. }
  revert visited. induction q as [|eid rest IHq]; intros visited.
  { intros [= <-]. split_and!; [simpl; lia|apply NoDup_nil_2|]. intros env Hin. by apply elem_of_nil in Hin. }
  rewrite ancestry_loop_unfold. case_decide as Hv; [apply IHq|]. cbv zeta. intros Hl.
  apply result_bind_Ok in Hl as ([env|] & Hg & Hl).
  - apply result_bind_Ok in Hl as (out' & Hl & [= <-]). destruct (get_envelope_stored _ _ _ Hg) as [Hid _].
    destruct (IHb _ _ _ Hl) as (Hlen & Hd & Ho). split_and!; [simpl; lia| |].
    + cbn [fmap list_fmap]. apply NoDup_cons. split; [|done]. intros (env' & Heq & Hin)%list_elem_of_fmap.
      destruct (Ho env' Hin) as [Hn _]. apply Hn. rewrite <- Heq, Hid. set_solver.
    + intros env' [->|Hin]%elem_of_cons; [by rewrite Hid|]. destruct (Ho env' Hin) as [Hn Hg']. split; [|done]. set_solver.
  - destruct (IHq _ Hl) as (Hlen & Hd & Ho). split_and!; [done..|]. intros env' Hin. destruct (Ho env' Hin) as [Hn Hg'].
    split; [|done]. set_solver.
Qed.

(** When the budget is not used up, what was visited is closed under parents and
    every stored id of it is listed. *)
Lemma ancestry_loop_complete db b q visited out :
  ancestry_loop db b q visited = Ok out → (length out < b)%nat → closed db visited q →
  ∃ seen, visited ⊆ seen ∧ (∀ i, i ∈ q → i ∈ seen) ∧ closed db seen [] ∧
    ∀ i, i ∈ seen → i ∉ visited → stored db i → i ∈ env_id <$> out.
Proof.
  revert q visited out. induction b as [|b IHb]; intros q visited out Hl Hb Hc; [lia|].
  revert visited Hl Hc. induction q as [|eid rest IHq]; intros visited Hl Hc.
  { injection Hl as <-. exists visited. split_and!; [done|by intros i Hi%elem_of_nil|done|done]. }
  rewrite ancestry_loop_unfold in Hl. case_decide as Hv.
  { destruct (IHq visited Hl) as (seen & H1 & H2 & H3 & H4).
    { intros i j Hi Hp. destruct (Hc i j Hi Hp) as [?|[->|?]%elem_of_cons]; auto. }
    exists seen. split_and!; [done| |done|done]. intros i [->|Hi]%elem_of_cons; [by apply H1|by apply H2]. }
  cbv zeta in Hl. apply result_bind_Ok in Hl as ([env|] & Hg & Hl).
  - apply result_bind_Ok in Hl as (out' & Hl & [= <-]). simpl in Hb.
    destruct (get_envelope_stored _ _ _ Hg) as [Hid _].
    destruct (IHb _ _ _ Hl ltac:(lia)) as (seen & H1 & H2 & H3 & H4).
    { intros i j Hi Hp. apply elem_of_union in Hi as [->%elem_of_singleton|Hi].
      - destruct Hp as (env' & Hg' & Hj & Hne). assert (env' = env) as -> by congruence.
        destruct (decide (j ∈ ({[eid]} ∪ visited : gset string))); [by left|right].
        apply elem_of_app. right. by apply list_elem_of_filter.
      - destruct (Hc i j Hi Hp) as [?|[->|?]%elem_of_cons]; [left; set_solver|left; set_solver|right].
        apply elem_of_app. by left. }
    exists seen. split_and!; [set_solver| |done|].
    + intros i [->|Hi]%elem_of_cons; [apply H1; set_solver|]. apply H2, elem_of_app. by left.
    + intros i Hi Hn Hs. cbn [fmap list_fmap]. destruct (decide (i = eid)) as [->|Hne]; [rewrite Hid; left|].
      right. apply H4; [done|set_solver|done].
  - destruct (IHq ({[eid]} ∪ visited) Hl) as (seen & H1 & H2 & H3 & H4).
    { intros i j Hi Hp. apply elem_of_union in Hi as [->%elem_of_singleton|Hi].
      - destruct Hp as (env' & Hg' & _). congruence.
      - destruct (Hc i j Hi Hp) as [?|[->|?]%elem_of_cons]; [left; set_solver|left; set_solver|by right]. }
    exists seen. split_and!; [set_solver| |done|].
    + intros i [->|Hi]%elem_of_cons; [apply H1; set_solver|by apply H2].
    + intros i Hi Hn Hs. apply H4; [done| |done]. intros [->%elem_of_singleton|?]%elem_of_union; [|done].
      destruct Hs as [env Hs]. congruence.
Qed.

(** Nothing is listed that is not reached from the queue. *)
Lemma ancestry_loop_reach db b q visited out :
  ancestry_loop db b q visited = Ok out → ∀ env, env ∈ out → ∃ i, i ∈ q ∧ rtc (parent_of db) i (env_id env).
Proof.
  revert q visited out. induction b as [|b IHb]; intros q visited out.
  { intros [= <-] env Hin. by apply elem_of_nil in Hin. }
  revert visited. induction q as [|eid rest IHq]; intros visited.
  { intros [= <-] env Hin. by apply elem_of_nil in Hin. }
  rewrite ancestry_loop_unfold. case_decide.
  { intros Hl env Hin. destruct (IHq _ Hl env Hin) as (i & Hi & Hr). exists i. split; [by right|done]. }
  cbv zeta. intros Hl. apply result_bind_Ok in Hl as ([e|] & Hg & Hl).
  - apply result_bind_Ok in Hl as (out' & Hl & [= <-]). destruct (get_envelope_stored _ _ _ Hg) as [Hid _].
    intros env [->|Hin]%elem_of_cons; [exists eid; split; [left|rewrite Hid; by apply rtc_refl]|].
    destruct (IHb _ _ _ Hl env Hin) as (i & [Hi|Hi]%elem_of_app & Hr); [exists i; split; [by right|done]|].
    apply list_elem_of_filter in Hi as [[Hne _] Hi]. exists eid. split; [left|].
    apply (rtc_l _ eid i); [by exists e|done].
  - intros env Hin. destruct (IHq _ Hl env Hin) as (i & Hi & Hr). exists i. split; [by right|done].
Qed.

Lemma stored_typed db i : events_typed db → stored db i ↔ i ∈ event_ids db.
Proof.
  intros Ht. split; [intros [env He]; by apply get_envelope_stored in He as [_ ?]|]. intros Hi.
  unfold stored, get_envelope. destruct (is_ok_inv _ (typed_get_event db i Ht)) as [[e|] He]; rewrite He; [by eexists|].
  by apply get_event_None in He.
Qed.

Lemma reach_closed db seen i j : closed db seen [] → i ∈ seen → rtc (parent_of db) i j → j ∈ seen.
Proof.
  intros Hc Hi Hr. induction Hr as [|i k j Hik _ IH]; [done|]. apply IH.
  destruct (Hc i k Hi Hik) as [?|Hn%elem_of_nil]; done.
Qed.

Lemma ancestry_listed db depth i out :
  ancestry depth i db = Ok out → (length out < clamp_depth depth)%nat →
  ∀ j, rtc (parent_of db) i j → stored db j → j ∈ env_id <$> out.
Proof.
  intros Ha Hl j Hr Hs. destruct (ancestry_loop_complete db _ [i] ∅ out Ha Hl) as (seen & _ & Hq & Hc & Hin).
  { intros x y Hx. by apply elem_of_empty in Hx. }
  apply Hin; [|set_solver|done]. apply (reach_closed db seen i j Hc); [apply Hq; left|done].
Qed.

Lemma ancestry_self db depth i out : ancestry depth i db = Ok out → stored db i → i ∈ env_id <$> out.
Proof.
  unfold ancestry, clamp_depth. intros Ha [env He]. destruct (Z.to_nat _) as [|b] eqn:Hb; [lia|].
  rewrite ancestry_loop_unfold, decide_False in Ha by set_solver. rewrite He in Ha. cbn [mbind result_bind] in Ha.
  apply result_bind_Ok in Ha as (out' & _ & [= <-]). apply list_elem_of_fmap. exists env.
  split; [by apply get_envelope_stored in He as [-> _]|left].
Qed.

(** An ancestry answer is exact: on a well typed log it never fails, it lists at
    most the requested number of events, each stored, each once, each an ancestor
    of the requested event; and unless the limit was reached it lists every stored
    ancestor (the requested event included). *)
Theorem ancestry_contract (db : DB) (depth : Z) (i : string) :
  events_typed db →
  ∃ out, ancestry depth i db = Ok out ∧
    (length out ≤ clamp_depth depth)%nat ∧ NoDup (env_id <$> out) ∧
    (∀ env, env ∈ out → get_envelope (env_id env) db = Ok (Some env) ∧ rtc (parent_of db) i (env_id env)) ∧
    ((length out < clamp_depth depth)%nat → ∀ j, rtc (parent_of db) i j ∧ j ∈ event_ids db ↔ j ∈ env_id <$> out).
Proof.
  intros Ht. destruct (is_ok_inv _ (ancestry_loop_total db (clamp_depth depth) [i] ∅ Ht)) as [out Ha].
  exists out. split; [done|]. destruct (ancestry_loop_sound _ _ _ _ _ Ha) as (Hl & Hd & Hs). split_and!; [done..| |].
  - intros env Hin. split; [by apply Hs|]. by destruct (ancestry_loop_reach _ _ _ _ _ Ha env Hin) as (? & ->%list_elem_of_singleton & ?).
  - intros Hlt j. split.
    + intros [Hr Hj]. apply (ancestry_listed db depth i out Ha Hlt j Hr). by apply stored_typed.
    + intros (env & -> & Hin)%list_elem_of_fmap. destruct (Hs env Hin) as [_ Hg]. split; [|by apply get_envelope_stored in Hg as [_ ?]].
      by destruct (ancestry_loop_reach _ _ _ _ _ Ha env Hin) as (? & ->%list_elem_of_singleton & ?).
Qed.

(** ** Ingesting on a typed log

    The recomputation of the consensus is put off when the loop runs and the
    configuration gives it a delay; by default it gives none. *)
Definition debounced (n : Node) : Prop :=
  n_loop n = true ∧ (0 < rt_recompute_debounce_sec (cfg_runtime (n_config n)))%Q.
(** The consensus cannot be recomputed, for the reason [e]: the stored events are on
    a cycle, or the members of the stored snapshot cannot be read. *)
Definition consensus_stuck (e : exn) (n : Node) : Prop :=
  (e = ValueError "cycle detected in DAG" ∧ toposort (n_db n) = Err e) ∨
  snapshot_members (active_consensus_membership n).2 = Err e.
Lemma mapR_Err {X Y} (f : X → result Y) l e : mapR f l = Err e → ∃ x, f x = Err e.
Proof.
  induction l as [|x l IH]; [done|]. cbn [mapR]. destruct (f x) as [y|e'] eqn:Hx; cbn [mbind result_bind]; [|intros [= <-]; eauto].
  destruct (mapR f l); cbn [mbind result_bind]; [done|]. intros [= <-]. eauto.
Qed.
Lemma stuck_in_model e n : consensus_stuck e n → leaves_model e = false.
Proof.
  intros [[-> _]|Hs]; [done|]. unfold snapshot_members in Hs. destruct (as_arr _) as [items|e'] eqn:Ha; cbn [mbind result_bind] in Hs.
  - destruct (mapR member_of_dict items) as [ms|e'] eqn:Hm; cbn [mbind result_bind] in Hs; [done|]. injection Hs as ->.
    apply mapR_Err in Hm as [x Hx]. unfold member_of_dict in Hx. destruct x; cbn in Hx; try (by injection Hx as <-). by case_decide.
  - injection Hs as ->. destruct (jget_or _ "members" _); cbn in Ha; by try injection Ha as <-.
Qed.

(** Transitions that leave the ids of the log, the queue, the loop and the
    configuration alone. *)
Definition calm (n n' : Node) : Prop :=
  (events_typed (n_db n) → events_typed (n_db n')) ∧ event_ids (n_db n') = event_ids (n_db n) ∧
  n_gossip n' = n_gossip n ∧ n_loop n' = n_loop n ∧ n_config n' = n_config n.
#[local] Instance calm_preorder : PreOrder calm.
Proof. split; [intros n; unfold calm; by split_and!|]. intros a b c (T1 & ? & ? & ? & ?) (T2 & ? & ? & ? & ?). split_and!; [auto|congruence..]. Qed.

(** The snapshot in use stays in use. *)
Lemma cached_nonempty n snap : cached_snapshot n = Some snap → ∃ p d, snap = p :: d.
Proof.
  unfold cached_snapshot, stored_snapshot. intros Hc. repeat case_match; simplify_eq; by eexists _, _.
Qed.
Lemma active_membership_twice n n1 snap : active_consensus_membership n = (n1, snap) →
  (active_consensus_membership n1).2 = snap ∧ calm n n1.
Proof.
  unfold active_consensus_membership at 1. destruct (cached_snapshot n) as [snap0|] eqn:Hc.
  - destruct (cached_nonempty n snap0 Hc) as (p & d & ->). intros [= <- <-]. split; [done|]. unfold calm. by split_and!.
  - intros [= <- <-]. split; [done|]. unfold calm. by split_and!.
Qed.

Lemma toposort_error ids edges e : toposort_rows ids edges = Err e → e = ValueError "cycle detected in DAG".
Proof. unfold toposort_rows. destruct (add_edge_rows _ _ _). case_bool_decide; [done|]. by intros [= <-]. Qed.

Lemma recompute_cases n : events_typed (n_db n) →
  ∃ n' r, recompute_consensus n = (n', r) ∧ calm n n' ∧ (r = Ok tt ∨ ∃ e, r = Err e ∧ consensus_stuck e n').
Proof.
  intros Ht. unfold recompute_consensus. destruct (is_ok_inv _ (typed_all_events _ Ht)) as [events Hev].
  rewrite (bind_run _ _ n n n eq_refl), (bind_run (lift _) _ n n events) by (unfold lift; by rewrite Hev).
  case_bool_decide; [exists n, (Ok tt); by split_and!; auto|]. cbv zeta.
  destruct (active_consensus_membership n) as [n1 snap] eqn:Ha. destruct (active_membership_twice n n1 snap Ha) as [Hm Hcalm].
  rewrite (bind_run _ _ n n1 snap) by by rewrite Ha.
  destruct (snapshot_members snap) as [ms|e] eqn:Hs.
  - rewrite (bind_run (lift _) _ n1 n1 ms eq_refl), (bind_run _ _ n1 n1 n1 eq_refl).
    destruct (toposort (n_db n1)) as [order|e] eqn:Ho.
    + eexists _, _. split; [reflexivity|]. split; [|by left]. etrans; [exact Hcalm|]. split_and!; [|apply replace_state_ids|done..].
      exact (run_store_typed (OpStates _) (n_db n1)).
    + unfold toposort in Ho. pose proof (toposort_error _ _ _ Ho) as ->. eexists _, _. split; [reflexivity|]. split; [done|].
      right. eexists. split; [done|]. left. by split.
  - eexists n1, _. split; [reflexivity|]. split; [done|]. right. eexists. split; [done|]. right. by rewrite Hm.
Qed.

Lemma request_cases n : events_typed (n_db n) →
  ∃ n' r, request_recompute n = (n', r) ∧ calm n n' ∧ (r = Ok tt ∨ ∃ e, r = Err e ∧ consensus_stuck e n' ∧ ¬ debounced n).
Proof.
  intros Ht. unfold request_recompute. rewrite (bind_run _ _ n n n eq_refl). unfold debounced.
  destruct (_ <=?q 0) eqn:Hd.
  - destruct (recompute_cases n Ht) as (n' & r & Hr & Hc & Hcase). exists n', r. split_and!; [done..|].
    destruct Hcase as [?|(e & -> & Hs)]; [by left|right]. exists e. split_and!; [done..|]. apply Qle_bool_iff in Hd. intros [_ Hq]. lra.
  - set (n1 := set_n_recompute_dirty true n). rewrite (bind_run (modify (set_n_recompute_dirty true)) _ n n1 tt eq_refl). destruct (n_loop n) eqn:Hl.
    + eexists _, _. split; [reflexivity|]. split; [|by left]. unfold n1. destruct (existsb _ _); by split_and!.
    + destruct (recompute_cases n1 Ht) as (n' & r & Hr & Hc & Hcase). unfold mbind, nodem_bind. rewrite Hr.
      destruct Hcase as [->|(e & -> & Hs)].
      * eexists _, _. split; [reflexivity|]. split; [|by left]. etrans; [|etrans; [exact Hc|]]; by split_and!.
      * eexists _, _. split; [reflexivity|]. split; [etrans; [|exact Hc]; by split_and!|]. right. exists e. split_and!; [done..|]. by intros [? _].
Qed.

(** What a round may change: the log grows by some ids, the queue grows. *)
Definition brings (ids : list string) (n n' : Node) : Prop :=
  events_typed (n_db n') ∧ (n_loop n' = n_loop n ∧ n_config n' = n_config n) ∧
  (∀ i, i ∈ event_ids (n_db n') ↔ i ∈ event_ids (n_db n) ∨ i ∈ ids) ∧
  (∀ g, n_gossip n = Some g → ∃ g', n_gossip n' = Some g' ∧ ∀ i, i ∈ g_pending g → i ∈ g_pending g').

Lemma brings_nil n : events_typed (n_db n) → brings [] n n.
Proof. intros Ht. split_and!; [done..| |]; [intros i; rewrite elem_of_nil; tauto|]. intros g Hg. by exists g. Qed.
Lemma brings_trans ids1 ids2 a b c : brings ids1 a b → brings ids2 b c → brings (ids1 ++ ids2) a c.
Proof.
  intros (_ & [L1 C1] & H1 & G1) (T & [L2 C2] & H2 & G2). split_and!; [done|congruence|congruence| |].
  - intros i. rewrite H2, H1, elem_of_app. tauto.
  - intros g Hg. destruct (G1 g Hg) as (g1 & Hg1 & P1). destruct (G2 g1 Hg1) as (g2 & Hg2 & P2). exists g2. split; [done|]. auto.
Qed.
Lemma brings_debounced ids a b : brings ids a b → debounced b → debounced a.
Proof. intros (_ & [L C] & _) [H1 H2]. split; by rewrite <- ?L, <- ?C. Qed.
Lemma calm_brings ids a b c : brings ids a b → calm b c → brings ids a c.
Proof.
  intros (T & [L C] & H1 & G) (T' & E1 & E2 & E3 & E4). split_and!; [auto|congruence|congruence| |]; [|by rewrite E2].
  intros i. by rewrite E1.
Qed.

Lemma persist_brings w env n : events_typed (n_db n) →
  brings [env_id env] n (persist_envelope w env false false n).1 ∧ ∃ b, (persist_envelope w env false false n).2 = Ok b.
Proof.
  intros Ht. rewrite persist_quiet.
  pose proof (run_store_typed (OpStore (w_now w) env (ev_consensus_ts (env_event env))) (n_db n) Ht) as Ht'. simpl in Ht'.
  destruct (store_envelope_ids (w_now w) env (ev_consensus_ts (env_event env)) (n_db n)) as [Hids _].
  destruct (store_envelope _ _ _ _) as [db st]. cbn [fst snd] in *. split; [|by eexists].
  assert (∀ i, i ∈ event_ids db ↔ i ∈ event_ids (n_db n) ∨ i ∈ [env_id env]) as Hin.
  { intros i. rewrite Hids. case_decide; [|by rewrite elem_of_app]. rewrite list_elem_of_singleton. naive_solver. }
  unfold gossip_offer. simpl. destruct st; [destruct (n_gossip n) as [g|] eqn:Hg|].
  - split_and!; [done..|]. intros g0 Hg0. assert (g0 = g) as -> by congruence. eexists. split; [reflexivity|].
    intros i. apply add_pending_keeps.
  - split_and!; [done..|]. intros g0 Hg0. congruence.
  - split_and!; [done..|]. intros g0 Hg. by exists g0.
Qed.

Lemma ingest_loop_brings w envs new latest n : events_typed (n_db n) →
  ∃ n' r, ingest_loop w envs new latest n = (n', Ok r) ∧ brings (env_id <$> envs) n n'.
Proof.
  revert new latest n. induction envs as [|env envs IH]; intros new latest n Ht.
  { eexists _, _. split; [reflexivity|]. by apply brings_nil. }
  cbn [ingest_loop]. destruct (persist_brings w env n Ht) as [Hb [b Hr]].
  destruct (persist_envelope w env false false n) as [n1 r1] eqn:Hp. cbn [fst snd] in *. subst r1.
  pose proof Hb as (Ht1 & _).
  assert (∀ new latest, ∃ n' r, ingest_loop w envs new latest n1 = (n', Ok r) ∧ brings (env_id <$> env :: envs) n n') as Hrest.
  { intros new' latest'. destruct (IH new' latest' n1 Ht1) as (n' & r & Hl & Hb'). exists n', r. split; [done|].
    exact (brings_trans [env_id env] _ _ _ _ Hb Hb'). }
  unfold mbind, nodem_bind. rewrite Hp. destruct b; apply Hrest.
Qed.

(** A batch is stored whole in any case; what may raise afterwards is the
    recomputation of the consensus. *)
Lemma ingest_brings w envs n : events_typed (n_db n) →
  ∃ n' r, ingest_envelopes w envs n = (n', r) ∧ brings (env_id <$> envs) n n' ∧
    ((∃ ids, r = Ok ids) ∨ ∃ e, r = Err e ∧ consensus_stuck e n' ∧ ¬ debounced n).
Proof.
  intros Ht. destruct (ingest_loop_brings w envs [] None n Ht) as (n1 & [new latest] & Hl & Hb).
  unfold ingest_envelopes. rewrite (bind_run _ _ _ _ _ Hl). pose proof Hb as (Ht1 & _).
  match goal with |- ∃ n' r, (?m ≫= _) n1 = _ ∧ _ => assert (∃ n2 r, m n1 = (n2, r) ∧ calm n1 n2 ∧
    (r = Ok tt ∨ ∃ e, r = Err e ∧ consensus_stuck e n2 ∧ ¬ debounced n1)) as (n2 & r & Hm & Hs & Hcase) end.
  { case_bool_decide; [exists n1, (Ok tt); by split_and!; auto|].
    destruct (request_cases n1 Ht1) as (n2 & r & Hr & Hs & Hcase). unfold mbind, nodem_bind. rewrite Hr.
    destruct Hcase as [->|(e & -> & Hst)]; [|by eexists _, _; split_and!; eauto].
    unfold get_node, lift, update_metrics, modify. pose proof Hs as (Ht2 & _).
    assert (is_ok (reconstruction_ratio n2) = true) as [ratio ->]%is_ok_inv.
    { unfold reconstruction_ratio. apply bind_is_ok; [apply typed_list_events; auto|]. intros events _.
      by destruct (foldl _ _ _) as [? [? ?]]. }
    destruct latest; eexists _, _; (split; [reflexivity|]); (split; [etrans; [exact Hs|]; by split_and!|by left]). }
  destruct Hcase as [->|(e & -> & Hst & Hd)].
  - rewrite (bind_run _ _ _ _ _ Hm). eexists _, _. split; [reflexivity|]. split; [|left; by eexists].
    apply (calm_brings _ n n1); [done|]. etrans; [exact Hs|]. by split_and!.
  - unfold mbind at 1, nodem_bind at 1. rewrite Hm. eexists _, _. split; [reflexivity|]. split; [by apply (calm_brings _ n n1)|].
    right. exists e. split_and!; [done..|]. intros Hdn. apply Hd. destruct Hdn, Hb as (_ & [L C] & _). split; by rewrite ?L, ?C.
Qed.

(** ** A round against an honest peer *)

(** What an id must be to travel in a URL. *)
Definition path_segment (i : string) : Prop := i ≠ "" ∧ py_split "/" i = [i].

(** The interface between two nodes: what the peer at [address], whose log is
    [db], answers. *)
Class HonestPeer (net : SyncNet) (address : string) (db : DB) : Prop := {
  honest_frontier : ∀ f, local_frontier db = Ok f →
    sn_frontier net address = Some (JObj [("frontier", JObj ((λ p : string * string, (p.1, JStr p.2)) <$> f))]);
  honest_ancestry : ∀ i out, path_segment i → ancestry 64 i db = Ok out →
    sn_ancestry net address i = Some (JObj [("events", JArr (batch_entry <$> out))]) }.

Lemma batch_entry_dict env : batch_entry env = Envelope_to_dict env.
Proof. reflexivity. Qed.

(** The events of a log that travel unchanged. *)
Definition portable (db : DB) : Prop :=
  ∀ i env, get_envelope i db = Ok (Some env) → Envelope_from_dict (Envelope_to_dict env) = Ok env ∧ path_segment i.

Lemma pull_decodes db out : portable db → (∀ env, env ∈ out → get_envelope (env_id env) db = Ok (Some env)) →
  pull_ancestry (Some (JObj [("events", JArr (batch_entry <$> out))])) = Ok out.
Proof.
  intros Hp Hs. unfold pull_ancestry. cbn [as_obj mbind result_bind].
  change (jget_or _ "events" _) with (JArr (batch_entry <$> out)). cbn [py_list mbind result_bind].
  assert (mapR pulled_item (batch_entry <$> out) = Ok (Some <$> out)) as ->.
  { apply mapR_Ok. induction out as [|env out IH]; constructor; [|apply IH; intros e He; apply Hs; by right].
    rewrite batch_entry_dict. unfold pulled_item. by destruct (Hp _ _ (Hs env ltac:(left))) as [-> _]. }
  cbn [mbind result_bind]. f_equal. induction out as [|env out IH]; [done|]. cbn. f_equal. apply IH. intros e He. apply Hs. by right.
Qed.

Section round.
Context (w : World) (net : SyncNet) (address : string) (peer_db : DB).
Context `{!HonestPeer net address peer_db} (Hpt : events_typed peer_db) (Hpp : portable peer_db).

(** The ids of an ancestry answer. *)
Definition answered (i : string) : list string :=
  match ancestry 64 i peer_db with Ok out => env_id <$> out | Err _ => [] end.

Lemma pull_missing_brings missing pulled n : (∀ i, i ∈ missing → path_segment i) → events_typed (n_db n) →
  ∃ n' r, pull_missing w net address missing pulled n = (n', r) ∧
    ((∃ k, r = Ok k ∧ brings (mbind answered missing) n n') ∨
     ∃ e ids, r = Err e ∧ brings ids n n' ∧ consensus_stuck e n' ∧ ¬ debounced n).
Proof.
  revert pulled n. induction missing as [|i missing IH]; intros pulled n Hm Ht.
  { eexists _, _. split; [reflexivity|]. left. eexists. split; [reflexivity|]. by apply brings_nil. }
  destruct (is_ok_inv _ (ancestry_loop_total peer_db (clamp_depth 64) [i] ∅ Hpt)) as [out Ha].
  change (ancestry 64 i peer_db = Ok out) in Ha.
  destruct (ancestry_loop_sound _ _ _ _ _ Ha) as (_ & _ & Hs).
  assert (pull_ancestry (sn_ancestry net address i) = Ok out) as Hpull.
  { rewrite (honest_ancestry i out); [|apply Hm; left|done]. apply (pull_decodes peer_db); [done|]. intros env Hin. by apply Hs. }
  assert (mbind answered (i :: missing) = answered i ++ mbind answered missing) as Hbind by done.
  cbn [pull_missing]. rewrite Hpull, Hbind. unfold answered at 1. rewrite Ha.
  rewrite (bind_run _ _ n n out eq_refl).
  assert (∀ j, j ∈ missing → path_segment j) as Hm' by (intros j Hj; apply Hm; by right).
  case_bool_decide as Ho; [subst out; exact (IH pulled n Hm' Ht)|].
  destruct (ingest_brings w out n Ht) as (n1 & r & Hi & Hb & [[ids ->]|(e & -> & Hst & Hd)]).
  - rewrite (bind_run _ _ _ _ _ Hi). pose proof Hb as (Ht1 & _).
    destruct (IH (pulled + length out)%nat n1 Hm' Ht1) as (n' & r & Hr & Hcase). exists n', r. split; [done|].
    destruct Hcase as [(k & -> & Hb')|(e & ids' & -> & Hb' & Hst & Hd)].
    + left. exists k. split; [done|]. by apply (brings_trans _ _ _ n1).
    + right. exists e, ((env_id <$> out) ++ ids'). split_and!; [done|by apply (brings_trans _ _ _ n1)|done|].
      intros [H1 H2]. apply Hd. destruct Hb as (_ & [L C] & _). split; by rewrite ?L, ?C.
  - unfold mbind, nodem_bind. rewrite Hi. eexists _, _. split; [reflexivity|]. right. exists e, (env_id <$> out). done.
Qed.
End round.

Lemma offers_run l n : forM l (λ i, modify (gossip_offer i)) n = (foldl (λ n i, gossip_offer i n) n l, Ok tt).
Proof.
  revert n. induction l as [|i l IH]; intros n; [done|]. cbn [forM foldl].
  rewrite (bind_run _ _ n (gossip_offer i n) tt); [apply IH|done].
Qed.
Lemma offers_fields l n : let n' := foldl (λ n i, gossip_offer i n) n l in
  n_db n' = n_db n ∧ n_loop n' = n_loop n ∧ n_config n' = n_config n ∧ n_gossip n' = offer_all l (n_gossip n).
Proof.
  cbv zeta. revert n. induction l as [|i l IH]; intros n; [split_and!; [reflexivity..|]; simpl; by destruct (n_gossip n)|]. cbn [foldl].
  destruct (IH (gossip_offer i n)) as (E1 & E2 & E3 & E4). rewrite E1, E2, E3, E4. unfold gossip_offer.
  destruct (n_gossip n) eqn:Hg; [done|]. by rewrite Hg.
Qed.

Lemma offers_brings l n : events_typed (n_db n) →
  ∃ n', forM l (λ i, modify (gossip_offer i)) n = (n', Ok tt) ∧ brings [] n n' ∧
    event_ids (n_db n') = event_ids (n_db n) ∧
    ∀ g, n_gossip n = Some g → ∃ g', n_gossip n' = Some g' ∧ ∀ i, i ∈ g_pending g ∨ queue_ok g ∧ i ∈ l → i ∈ g_pending g'.
Proof.
  intros Ht.
  rewrite offers_run. exists (foldl (λ n i, gossip_offer i n) n l). split; [done|].
  destruct (offers_fields l n) as (E1 & E2 & E3 & E4).
  assert (∀ l g i, i ∈ g_pending g → i ∈ g_pending (foldl (λ g i, add_pending i g) g l)) as Hkeep.
  { clear. induction l as [|j l IH]; intros g i Hi; [done|]. by apply IH, add_pending_keeps. }
  split; [|split; [by rewrite E1|]].
  - unfold brings. rewrite E1, E2, E3, E4. split_and!; [done..| |].
    + intros i. rewrite elem_of_nil. tauto.
    + intros g Hg. rewrite Hg. eexists. split; [done|]. intros i. apply Hkeep.
  - intros g Hg. rewrite E4, Hg. eexists. split; [done|]. intros i [Hi|[Hok Hi]]; [by apply Hkeep|by apply offer_all_pending].
Qed.

Lemma mapR_elem {X Y} (f : X → result Y) l ys y : mapR f l = Ok ys → y ∈ ys → ∃ x, x ∈ l ∧ f x = Ok y.
Proof.
  revert ys. induction l as [|x l IH]; intros ys; cbn [mapR].
  - intros [= <-] Hy. by apply elem_of_nil in Hy.
  - intros Hm Hy. apply result_bind_Ok in Hm as (z & Hz & Hm). apply result_bind_Ok in Hm as (zs & Hzs & [= <-]).
    apply elem_of_cons in Hy as [->|Hy]; [exists x; split; [left|done]|].
    destruct (IH zs Hzs Hy) as (x' & Hx' & Hf). exists x'. split; [by right|done].
Qed.


Lemma frontier_stored db f c i : local_frontier db = Ok f → (c, i) ∈ f → i ∈ event_ids db.
Proof.
  unfold local_frontier. intros Hf Hin. apply result_bind_Ok in Hf as (events & He & [= <-]).
  apply list_elem_of_fmap in Hin as ([c' [ts i']] & [= -> ->] & Hin).
  assert (∀ l (acc : odict (Q * string)), (∀ p, p ∈ acc → p.2.2 ∈ ev_id <$> l ∨ p ∈ acc) →
    ∀ p, p ∈ foldl frontier_step acc l → p ∈ acc ∨ p.2.2 ∈ ev_id <$> l) as Hstep.
  { clear. induction l as [|e l IH]; intros acc _ p Hp; [by left|]. cbn [foldl] in Hp.
    apply IH in Hp; [|auto]. destruct Hp as [Hp|Hp]; [|right; by right].
    unfold frontier_step in Hp. case_decide; [by left|].
    assert (∀ (d : odict (Q * string)) k v q, q ∈ dset d k v → q ∈ d ∨ q = (k, v)) as Hset.
    { clear. induction d as [|[k' v'] d IH]; intros k v q; simpl.
      - intros ->%list_elem_of_singleton. by right.
      - case_decide; intros [->|Hq]%elem_of_cons; [by right|left; by right|left; left|].
        apply IH in Hq as [?|?]; [left; by right|by right]. }
    destruct (dget acc (event_creator e)) as [[t j]|].
    - destruct (t <?q ev_ts_local e); [|by left]. apply Hset in Hp as [?| ->]; [by left|right; left].
    - apply Hset in Hp as [?| ->]; [by left|right; left]. }
  apply Hstep in Hin as [Hn|Hin]; [by apply elem_of_nil in Hn| |by intros p Hp%elem_of_nil].
  apply list_elem_of_fmap in Hin as (e & Heq & Hin). simpl in Heq. subst i'.
  destruct (mapR_elem _ _ _ _ He Hin) as (r & Hr & Hre). apply Event_from_record_id in Hre. rewrite Hre.
  apply list_elem_of_fmap_2. by apply order_by_created_elem.
Qed.

Lemma missing_ids_run db (f : odict string) :
  events_typed db → (∀ p, p ∈ f → p.2 ≠ "") →
  ∃ ms, mapR (λ p : string * string, missing_id db p.2) f = Ok ms ∧
        ∀ i, i ∈ omap id ms ↔ i ∈ f.*2 ∧ i ∉ event_ids db.
Proof.
  intros Ht Hf. induction f as [|[c i] f IH].
  { exists []. split; [done|]. intros i. rewrite !elem_of_nil. tauto. }
  destruct IH as (ms & Hm & Hin); [intros p Hp; apply Hf; by right|].
  destruct (is_ok_inv _ (typed_get_event db i Ht)) as [o Ho].
  assert (missing_id db i = Ok (match o with None => Some i | Some _ => None end)) as Hmi.
  { unfold missing_id. rewrite decide_False by (apply (Hf (c, i)); left). by rewrite Ho. }
  cbn [mapR snd]. rewrite Hmi. cbn [mbind result_bind]. rewrite Hm.
  eexists. split; [reflexivity|]. intros j. cbn [fmap list_fmap snd]. rewrite elem_of_cons. destruct o as [e|]; cbn [omap list_omap id].
  - apply get_event_stored in Ho as [_ Ho]. rewrite Hin. split; [tauto|]. intros [[->|?] ?]; [done|tauto].
  - apply get_event_None in Ho. rewrite elem_of_cons, Hin. split; [intros [->|?]; tauto|tauto].
Qed.

Lemma frontier_decodes (f : odict string) :
  mapR (λ p : string * json, i ← frontier_id p.2; Ok (p.1, i)) ((λ p : string * string, (p.1, JStr p.2)) <$> f) = Ok f.
Proof. apply mapR_Ok. induction f as [|[c i] f IH]; constructor; done. Qed.

(** A round against an honest peer, up to the pull. *)
Lemma frontier_sync_run (w : World) (choose : list PeerInfo → PeerInfo) (net : SyncNet) (n n1 : Node) (peer_db : DB)
    (theirs ours : odict string) (ms : list (option string)) :
  let address := pi_address (choose (node_list_peers n)) in
  n_gossip n ≠ None → n_peers n ≠ [] → HonestPeer net address peer_db →
  local_frontier peer_db = Ok theirs → local_frontier (n_db n) = Ok ours →
  mapR (λ p : string * string, missing_id (n_db n) p.2) theirs = Ok ms →
  forM (to_push ours theirs) (λ i, modify (gossip_offer i)) n = (n1, Ok tt) →
  frontier_sync_once w choose net n =
    (pulled ← pull_missing w net address (omap id ms) 0;
     modify (add_pulls pulled);;
     mret (Some (mkSyncReport address pulled (omap id ms)))) n1.
Proof.
  intros address Hg Hp Hh Hth Hou Hm Hr1.
  unfold frontier_sync_once. rewrite (bind_run _ _ n n n eq_refl).
  rewrite !bool_decide_false by done. cbn [orb]. fold address. rewrite (honest_frontier theirs Hth).
  rewrite (bind_run _ _ n n [("frontier", JObj ((λ p : string * string, (p.1, JStr p.2)) <$> theirs))] eq_refl).
  rewrite (bind_run _ _ n n ((λ p : string * string, (p.1, JStr p.2)) <$> theirs)) by (destruct theirs; reflexivity).
  rewrite (bind_run _ _ n n theirs) by (unfold lift; by rewrite frontier_decodes).
  rewrite (bind_run _ _ n n ours) by (unfold lift; by rewrite Hou).
  rewrite (bind_run _ _ n n ms) by (unfold lift; by rewrite Hm).
  by rewrite (bind_run _ _ _ _ _ Hr1).
Qed.

(** C4: anti-entropy heals: a round against an honest peer loses nothing and queues the
    node's latest event of every creator for whom the peer lists another one.  It
    ends with the latest event of every creator the peer knows in the log, and, for
    each of them that was missing, every ancestor the peer has stored, unless the
    answer was cut at 64 events; or it is broken off after a batch was stored,
    because the consensus is recomputed at once and cannot be (the stored events
    are on a cycle, or the stored member list cannot be read). *)
Theorem frontier_sync_heals (w : World) (choose : list PeerInfo → PeerInfo) (net : SyncNet) (n : Node) (g : Gossip)
    (peer_db : DB) (theirs ours : odict string) :
  let address := pi_address (choose (node_list_peers n)) in
  n_gossip n = Some g → queue_ok g → n_peers n ≠ [] → events_typed (n_db n) →
  HonestPeer net address peer_db → events_typed peer_db → portable peer_db →
  local_frontier peer_db = Ok theirs → local_frontier (n_db n) = Ok ours →
  ∃ n' r, frontier_sync_once w choose net n = (n', r) ∧
    (∀ i, i ∈ event_ids (n_db n) → i ∈ event_ids (n_db n')) ∧
    (∃ g', n_gossip n' = Some g' ∧ (∀ i, i ∈ g_pending g → i ∈ g_pending g') ∧
      ∀ creator tip, (creator, tip) ∈ ours → tip ≠ "" → dget theirs creator ≠ Some tip → tip ∈ g_pending g') ∧
    ((∃ report, r = Ok (Some report) ∧ sr_peer report = address ∧
        (∀ i, i ∈ sr_missing_ids report ↔ i ∈ theirs.*2 ∧ i ∉ event_ids (n_db n)) ∧
        (∀ i, i ∈ theirs.*2 → i ∈ event_ids (n_db n')) ∧
        (∀ tip out i, tip ∈ sr_missing_ids report → ancestry 64 tip peer_db = Ok out → (length out < 64)%nat →
           rtc (parent_of peer_db) tip i → i ∈ event_ids peer_db → i ∈ event_ids (n_db n'))) ∨
     (∃ e, r = Err e ∧ consensus_stuck e n' ∧ ¬ debounced n)).
Proof.
  intros address Hg Hq Hp Ht Hh Hpt Hpp Hth Hou.
  assert (∀ i, i ∈ event_ids peer_db → path_segment i) as Hseg.
  { intros i Hi. apply (stored_typed peer_db i Hpt) in Hi as [env He]. by apply (Hpp i env). }
  assert (∀ p, p ∈ theirs → p.2 ∈ event_ids peer_db) as Hst by (intros [c i]; by apply frontier_stored).
  destruct (missing_ids_run (n_db n) theirs Ht) as (ms & Hm & Hmiss); [intros p Hpi; by apply Hseg, Hst|].
  destruct (offers_brings (to_push ours theirs) n Ht) as (n1 & Hr1 & Hb1 & Hids1 & Hg1).
  pose proof Hb1 as (Ht1 & _).
  destruct (pull_missing_brings w net address peer_db Hpt Hpp (omap id ms) 0 n1) as (n2 & r & Hr2 & Hcase); [|done|].
  { intros i Hi%Hmiss. destruct Hi as [([c j] & -> & Hj)%list_elem_of_fmap _]. by apply Hseg, (Hst (c, j)). }
  assert (∃ ids, brings ids n1 n2) as [ids0 (_ & _ & Hin0 & Hgrow)] by (destruct Hcase as [(k & _ & Hb)|(e & ids & _ & Hb & _)]; by eexists).
  rewrite Hids1 in Hin0.
  assert (∃ g', n_gossip n2 = Some g' ∧ (∀ i, i ∈ g_pending g → i ∈ g_pending g') ∧
    ∀ creator tip, (creator, tip) ∈ ours → tip ≠ "" → dget theirs creator ≠ Some tip → tip ∈ g_pending g') as Hpush.
  { destruct (Hg1 g Hg) as (g1 & Hg1' & Hpend). destruct (Hgrow g1 Hg1') as (g2 & Hg2 & Hkeep). exists g2. split; [done|]. split.
    - intros i Hi. apply Hkeep, Hpend. by left.
    - intros c tip Hc Hne Hdiff. apply Hkeep, Hpend. right. split; [done|]. apply list_elem_of_omap. exists (c, tip).
      split; [done|]. simpl. rewrite decide_False; [done|]. intros [?|?]; done. }
  rewrite (frontier_sync_run w choose net n n1 peer_db theirs ours ms) by (done || congruence). fold address.
  destruct Hcase as [(k & -> & (_ & _ & Hin & _))|(e & ids & -> & Hb & Hstuck & Hd)].
  2: { unfold mbind, nodem_bind. rewrite Hr2. eexists _, _. split; [reflexivity|]. split; [intros i Hi; apply Hin0; by left|]. split; [done|].
       right. exists e. split_and!; [done..|]. intros Hdn. apply Hd. destruct Hdn, Hb1 as (_ & [L C] & _). split; by rewrite ?L, ?C. }
  rewrite (bind_run _ _ _ _ _ Hr2). eexists _, _. split; [reflexivity|]. split; [intros i Hi; apply Hin0; by left|]. split; [done|]. left.
  eexists. split; [reflexivity|]. cbn [sr_peer sr_missing_ids]. split; [done|]. split; [done|]. rewrite Hids1 in Hin.
  assert (∀ tip out i, tip ∈ omap id ms → ancestry 64 tip peer_db = Ok out → i ∈ env_id <$> out →
    i ∈ event_ids (n_db n2)) as Hgot.
  { intros tip out i Htip Ha Hi. apply Hin. right. apply list_elem_of_bind. exists tip. split; [|done].
    unfold answered. by rewrite Ha. }
  split.
  - intros i Hi. destruct (decide (i ∈ event_ids (n_db n))); [apply Hin; by left|].
    assert (i ∈ omap id ms) as Htip by (by apply Hmiss).
    destruct (is_ok_inv _ (ancestry_loop_total peer_db (clamp_depth 64) [i] ∅ Hpt)) as [out Ha].
    apply (Hgot i out i Htip Ha). apply (ancestry_self peer_db 64 i out Ha).
    apply (stored_typed peer_db i Hpt). apply list_elem_of_fmap in Hi as (p & -> & Hi). by apply Hst.
  - intros tip out i Htip Ha Hlen Hr Hi. apply (Hgot tip out i Htip Ha). apply (ancestry_listed peer_db 64 tip out Ha); [done..|].
    by apply stored_typed.
Qed.
End facts.

(** ** The theorems on a small network *)

(** The network whose only peer answers from [db]. *)
Definition db_net `{FloatFormat} (db : DB) : SyncNet :=
  mkSyncNet
    (λ _, match local_frontier db with
          | Ok f => Some (JObj [("frontier", JObj ((λ p : string * string, (p.1, JStr p.2)) <$> f))]) | Err _ => None end)
    (λ _ i, match ancestry 64 i db with Ok out => Some (JObj [("events", JArr (batch_entry <$> out))]) | Err _ => None end).
#[export] Instance db_net_honest `{FloatFormat} address db : HonestPeer (db_net db) address db.
Proof. split; [intros f Hf; simpl; by rewrite Hf|intros i out _ Ha; simpl; by rewrite Ha]. Qed.

Definition portable_event `{FloatFormat} (db : DB) (i : string) : bool :=
  match get_envelope i db with
  | Ok (Some env) => bool_decide (Envelope_from_dict (Envelope_to_dict env) = Ok env) && bool_decide (path_segment i)
  | _ => true
  end.
Lemma portable_check `{FloatFormat} db : forallb (portable_event db) (event_ids db) = true → portable db.
Proof.
  rewrite forallb_forall. intros Hall i env He. destruct (get_envelope_stored _ _ _ He) as [_ Hi].
  apply list_elem_of_In, Hall in Hi. unfold portable_event in Hi. rewrite He in Hi.
  by apply andb_true_iff in Hi as [?%bool_decide_eq_true ?%bool_decide_eq_true].
Qed.
Lemma typed_check db : forallb row_typed (db_events db) = true → events_typed db.
Proof. rewrite forallb_forall. intros Hall r Hr. by apply Hall, list_elem_of_In. Qed.

(** A peer with two events, one the parent of the other. *)
Definition first_event : Event := @Event_create frac_format B "p" 1 {["p" := 1]} [] [] None None None None.
Definition second_event : Event :=
  @Event_create frac_format B "p" 2 {["p" := 2]} [ev_id first_event] [] None None None None.
Definition peer_log : DB :=
  foldl (λ db e, @run_store frac_format (OpStore 1 (mkEnvelope e []) None) db) empty_db [first_event; second_event].
Lemma peer_log_typed : events_typed peer_log.
Proof. apply typed_check. vm_compute. reflexivity. Defined.

Lemma ancestry_contract_witness :
  events_typed peer_log ∧
  ∃ out, @ancestry 64 (ev_id second_event) peer_log = Ok out ∧
    (length out ≤ clamp_depth 64)%nat ∧ NoDup (env_id <$> out) ∧
    (∀ env, env ∈ out → get_envelope (env_id env) peer_log = Ok (Some env) ∧ rtc (parent_of peer_log) (ev_id second_event) (env_id env)) ∧
    ((length out < clamp_depth 64)%nat →
     ∀ j, rtc (parent_of peer_log) (ev_id second_event) j ∧ j ∈ event_ids peer_log ↔ j ∈ env_id <$> out).
Proof. split; [exact peer_log_typed|]. exact (@ancestry_contract peer_log 64 (ev_id second_event) peer_log_typed). Defined.

(** A running node with an event of its own. *)
Definition debounced_config : NodeConfig :=
  let c := sample_config in
  mkNodeConfig (cfg_node_id c) (cfg_listen c) (cfg_peers c) (cfg_profile c) (cfg_gossip c) (cfg_prioritization c) (cfg_hmac_key c)
    (cfg_sqlite_path c) (cfg_linux_ingest c) (cfg_collectors c) (cfg_retention c) (cfg_discovery c) (cfg_notifier c)
    (cfg_agent_relay c) (cfg_heartbeat c) (mkRuntimeConfig 1 0 5 (2 # 3) 10 3 0 0 0) (cfg_ui_enabled c).
Definition running_node : Node :=
  (@ingest_envelopes frac_format sample_world [example_envelope]
     (set_n_loop true (set_n_gossip (Some empty_gossip)
        (@new_node frac_format 1 debounced_config (mkCatalog EVENT_CATALOG []) empty_db)))).1.

(** The same under the default runtime configuration: no delay. *)
Definition plain_node : Node :=
  (@ingest_envelopes frac_format sample_world [example_envelope]
     (set_n_loop true (set_n_gossip (Some empty_gossip)
        (@new_node frac_format 1 sample_config (mkCatalog EVENT_CATALOG []) empty_db)))).1.
Definition first_peer (l : list PeerInfo) : PeerInfo := default (mkPeer "" "" None false false "" "" "" false "") (head l).

Lemma frontier_sync_heals_witness :
  let w := sample_world in
  let net := @db_net frac_format peer_log in
  let n := plain_node in
  let address := pi_address (first_peer (node_list_peers n)) in
  ∃ g theirs ours, n_gossip n = Some g ∧ queue_ok g ∧ n_peers n ≠ [] ∧ events_typed (n_db n) ∧
  HonestPeer net address peer_log ∧ events_typed peer_log ∧ @portable frac_format peer_log ∧
  local_frontier peer_log = Ok theirs ∧ local_frontier (n_db n) = Ok ours ∧
  is_ok (@frontier_sync_once frac_format w first_peer net n).2 = true ∧ ¬ debounced n ∧
  ∃ n' r, @frontier_sync_once frac_format w first_peer net n = (n', r) ∧
    (∀ i, i ∈ event_ids (n_db n) → i ∈ event_ids (n_db n')) ∧
    (∃ g', n_gossip n' = Some g' ∧ (∀ i, i ∈ g_pending g → i ∈ g_pending g') ∧
      ∀ creator tip, (creator, tip) ∈ ours → tip ≠ "" → dget theirs creator ≠ Some tip → tip ∈ g_pending g') ∧
    ((∃ report, r = Ok (Some report) ∧ sr_peer report = address ∧
        (∀ i, i ∈ sr_missing_ids report ↔ i ∈ theirs.*2 ∧ i ∉ event_ids (n_db n)) ∧
        (∀ i, i ∈ theirs.*2 → i ∈ event_ids (n_db n')) ∧
        (∀ tip out i, tip ∈ sr_missing_ids report → ancestry 64 tip peer_log = Ok out → (length out < 64)%nat →
           rtc (parent_of peer_log) tip i → i ∈ event_ids peer_log → i ∈ event_ids (n_db n'))) ∨
     (∃ e, r = Err e ∧ @consensus_stuck frac_format e n' ∧ ¬ debounced n)).
Proof.
  intros w net n address.
  destruct (result_is_ok (local_frontier peer_log)) as [theirs Hth]; [vm_compute; reflexivity|].
  destruct (result_is_ok (local_frontier (n_db n))) as [ours Hou]; [vm_compute; reflexivity|].
  assert (n_gossip n = Some (add_pending (env_id example_envelope) empty_gossip)) as Hg by (vm_compute; reflexivity).
  assert (queue_ok (add_pending (env_id example_envelope) empty_gossip)) as Hq by (apply add_pending_ok, empty_queue_ok).
  assert (n_peers n ≠ []) as Hp by (vm_compute; discriminate).
  assert (events_typed (n_db n)) as Ht by (apply typed_check; vm_compute; reflexivity).
  assert (HonestPeer net address peer_log) as Hh by exact (db_net_honest address peer_log).
  assert (@portable frac_format peer_log) as Hpp by (apply portable_check; vm_compute; reflexivity).
  exists (add_pending (env_id example_envelope) empty_gossip), theirs, ours.
  do 4 (split; [assumption|]). split; [exact Hh|]. split; [exact peer_log_typed|]. split; [exact Hpp|].
  split; [exact Hth|]. split; [exact Hou|]. split; [vm_compute; reflexivity|]. split; [intros [_ Hd]; vm_compute in Hd; discriminate Hd|].
  exact (@frontier_sync_heals frac_format w first_peer net n _ peer_log theirs ours Hg Hq Hp Ht Hh peer_log_typed Hpp Hth Hou).
Defined.

(** Two events that are each other's parent, which no node checks on arrival: the
    round stores both and raises, and with the delay it does not. *)
Definition cyclic_log : DB :=
  foldl (λ db e, @run_store frac_format (OpStore 1 (mkEnvelope e []) None) db) empty_db
    [sample_event "x" "p" ["y"]; sample_event "y" "p" ["x"]].
Example cycle_breaks_round :
  let run n := @frontier_sync_once frac_format sample_world first_peer (@db_net frac_format cyclic_log) n in
  let stored n := bool_decide ("x" ∈ event_ids (n_db (run n).1) ∧ "y" ∈ event_ids (n_db (run n).1)) in
  ((run plain_node).2, stored plain_node) = (Err (ValueError "cycle detected in DAG"), true) ∧
  (is_ok (run running_node).2, stored running_node) = (true, true).
Proof. vm_compute. split; reflexivity. Qed.
