(* ===== verification/AgentRelay.v ===== *)
(** [mdrj/agent_relay.py] and [mdrj/collectors/base.py]: the client that forwards
    events to a central collector, collected events and collector counters. *)
From S2P Require Import Prelude Sha256 Json Models Config.

(** ** Collected events *)
Record CollectedEvent := mkCollected { co_event_kind : string; co_payload : odict json }.
Definition to_payload (e : CollectedEvent) : odict json := dsetdefault (co_payload e) "event_kind" (JStr (co_event_kind e)).
Definition annotate (host_id node_id : string) (e : CollectedEvent) : CollectedEvent :=
  let p := co_payload e in
  let p := if decide (host_id = "") then p else dsetdefault p "host_id" (JStr host_id) in
  let p := if decide (node_id = "") then p else dsetdefault p "node_id" (JStr node_id) in
  mkCollected (co_event_kind e) p.

Record CollectorStatus := mkCollectorStatus {
  ct_name : string; ct_enabled : bool; ct_last_poll_at : option pyfloat; ct_last_event_at : option pyfloat;
  ct_last_error : option string; ct_emitted_count : Z; ct_dropped_count : Z; ct_last_drop_reason : option string }.
Definition record_drop (reason : string) (s : CollectorStatus) : CollectorStatus :=
  mkCollectorStatus (ct_name s) (ct_enabled s) (ct_last_poll_at s) (ct_last_event_at s) (ct_last_error s)
    (ct_emitted_count s) (ct_dropped_count s + 1) (Some reason).
Definition CollectorStatus_to_dict (s : CollectorStatus) : json :=
  JObj [("name", JStr (ct_name s)); ("enabled", JBool (ct_enabled s)); ("last_poll_at", jopt JFloat (ct_last_poll_at s));
        ("last_event_at", jopt JFloat (ct_last_event_at s)); ("last_error", jopt JStr (ct_last_error s));
        ("emitted_count", JInt (ct_emitted_count s)); ("dropped_count", JInt (ct_dropped_count s));
        ("last_drop_reason", jopt JStr (ct_last_drop_reason s))].

(** ** The relay *)
Record Relay := mkRelay { rl_sent : Z; rl_failed : Z; rl_last_error : option string; rl_last_sent_at : option pyfloat }.
Definition new_relay : Relay := mkRelay 0 0 None None.

(** The answer to one POST: a status with the text of the body, or an exception
    (its type name and message). *)
Inductive relay_answer := RelayStatus (status : Z) (body : string) | RelayRaised (name msg : string).

Section relay.
Context `{FloatFormat}.

Definition relay_body (event_kind : string) (payload : odict json) : bytes :=
  utf8_encode (json_dumps (JObj [("event_kind", JStr event_kind); ("payload", JObj payload)])).
Definition relay_headers (hmac_key : option string) (body : bytes) : odict string :=
  let headers := [("Content-Type", "application/json")] in
  match hmac_key with
  | Some k => if decide (k = "") then headers
              else dset headers "X-MDRJ-Sig" (hmac_sha256_hex (utf8_encode k) body)
  | None => headers
  end.

(** The attempts [attempt], [attempt + 1], ...; the pauses between them have no
    other effect. *)
Fixpoint relay_attempts (now : Q) (answer : nat → relay_answer) (fuel attempt : nat) (r : Relay) : Relay * bool :=
  match fuel with
  | O => (mkRelay (rl_sent r) (rl_failed r + 1) (rl_last_error r) (rl_last_sent_at r), false)
  | S f =>
      match answer attempt with
      | RelayStatus status body =>
          if (200 <=? status) && (status <? 300) then (mkRelay (rl_sent r + 1) (rl_failed r) None (Some now), true)
          else relay_attempts now answer f (S attempt)
                 (mkRelay (rl_sent r) (rl_failed r)
                    (Some ("http " +:+ py_str_int status +:+ ": " +:+ String.substring 0 200 body)) (rl_last_sent_at r))
      | RelayRaised name msg =>
          relay_attempts now answer f (S attempt)
            (mkRelay (rl_sent r) (rl_failed r) (Some (name +:+ ": " +:+ msg)) (rl_last_sent_at r))
      end
  end.

Definition relay_send (cfg : AgentRelayConfig) (now : Q) (answer : nat → relay_answer) (r : Relay) : Relay * bool :=
  if negb (ar_enabled cfg) then (r, false)
  else if decide (ar_relay_url cfg = "") then
    (mkRelay (rl_sent r) (rl_failed r) (Some "agent_relay.relay_url not set") (rl_last_sent_at r), false)
  else relay_attempts now answer (Z.to_nat (ar_max_retries cfg)) 1 r.

Definition relay_status (cfg : AgentRelayConfig) (r : Relay) : json :=
  JObj [("enabled", JBool (ar_enabled cfg)); ("relay_url", JStr (ar_relay_url cfg)); ("sent_count", JInt (rl_sent r));
        ("failed_count", JInt (rl_failed r)); ("last_error", jopt JStr (rl_last_error r));
        ("last_sent_at", jopt JFloat (rl_last_sent_at r))].
End relay.

(** A call that is carried out is counted once, as sent exactly when one of the
    allowed attempts was answered with a 2xx status. *)
Definition delivered_at (answer : nat → relay_answer) (i : nat) : bool :=
  match answer i with RelayStatus s _ => (200 <=? s) && (s <? 300) | RelayRaised _ _ => false end.
Lemma relay_attempts_spec now answer fuel attempt r :
  let res := relay_attempts now answer fuel attempt r in
  res.2 = existsb (delivered_at answer) (seq attempt fuel) ∧
  rl_sent res.1 = rl_sent r + (if res.2 then 1 else 0) ∧ rl_failed res.1 = rl_failed r + (if res.2 then 0 else 1).
Proof.
  revert attempt r. induction fuel as [|f IH]; intros attempt r; cbn [relay_attempts seq existsb].
  - simpl. lia.
  - unfold delivered_at at 1. destruct (answer attempt) as [st b|nm msg].
    + destruct ((200 <=? st) && (st <? 300)); [simpl; lia|]. cbn [orb].
      destruct (IH (S attempt) (mkRelay (rl_sent r) (rl_failed r) (Some ("http " +:+ py_str_int st +:+ ": " +:+ String.substring 0 200 b)) (rl_last_sent_at r))) as (H1 & H2 & H3).
      done.
    + destruct (IH (S attempt) (mkRelay (rl_sent r) (rl_failed r) (Some (nm +:+ ": " +:+ msg)) (rl_last_sent_at r))) as (H1 & H2 & H3).
      done.
Qed.
