(* ===== verification/Notifier.v ===== *)
(** [mdrj/notifier.py]: notifications about events by mail and Telegram.

    The SMTP server and the Telegram API are arguments: the outcome of handing
    over a message. *)
From S2P Require Import Prelude Json Models Config.

Record NotificationPayload := mkNotification {
  np_event_id : string; np_event_kind : string; np_cls : string; np_creator : string;
  np_payload : odict json; np_ts : pyfloat }.

Section notifier.
Context `{FloatFormat}.

(** ** Text *)
Definition raw_escape_char (c : Ascii.ascii) : string :=
  if (126 <? Ascii.N_of_ascii c)%N then String c "" else json_escape_char c.
Fixpoint raw_escape (s : string) : string :=
  match s with EmptyString => "" | String c s' => raw_escape_char c +:+ raw_escape s' end.
Definition raw_quote (s : string) : string := dquote +:+ raw_escape s +:+ dquote.
Definition newline : string := String "010"%char "".
Fixpoint spaces (n : nat) : string := match n with O => "" | S n => " " +:+ spaces n end.

(** [json.dumps(v, ensure_ascii=False, indent=2)] at the given indentation. *)
Fixpoint json_indent (depth : nat) (v : json) : string :=
  let inner := newline +:+ spaces (2 * S depth) in
  match v with
  | JStr s => raw_quote s
  | JArr [] => "[]"
  | JObj [] => "{}"
  | JArr l => "[" +:+ inner +:+ py_join ("," +:+ inner) (json_indent (S depth) <$> l) +:+ newline +:+ spaces (2 * depth) +:+ "]"
  | JObj kvs =>
      "{" +:+ inner +:+ py_join ("," +:+ inner) ((λ p, raw_quote p.1 +:+ ": " +:+ json_indent (S depth) p.2) <$> kvs)
      +:+ newline +:+ spaces (2 * depth) +:+ "}"
  | _ => json_dump "," ": " v
  end.

Definition notification_title (p : NotificationPayload) : string := "[" +:+ np_cls p +:+ "] " +:+ np_event_kind p.
Definition notification_text (p : NotificationPayload) : string :=
  py_join newline
    ["MDRJ-DAG notification"; "Event:        " +:+ np_event_kind p; "Class:        " +:+ np_cls p;
     "Creator:      " +:+ np_creator p; "Event ID:     " +:+ np_event_id p; "Timestamp:    " +:+ float_repr (np_ts p);
     ""; "Payload:"; json_indent 0 (JObj (np_payload p))].

(** ** Channels *)
Inductive Channel :=
  | EmailChannel (config : EmailChannelConfig) (last_error : option string)
  | TelegramChannel (config : TelegramChannelConfig) (last_error : option string).

Definition channel_name (c : Channel) : string :=
  match c with EmailChannel _ _ => "email" | TelegramChannel _ _ => "telegram" end.
Definition channel_error (c : Channel) : option string :=
  match c with EmailChannel _ e => e | TelegramChannel _ e => e end.

(** A mail: subject, sender, recipients, text. *)
Record Mail := mkMail { ml_subject : string; ml_from : string; ml_to : string; ml_text : string }.
Definition email_of (config : EmailChannelConfig) (p : NotificationPayload) : Mail :=
  mkMail (notification_title p) (em_from_addr config) (py_join ", " (em_to_addrs config)) (notification_text p).

(** What is done with the mail server, in order. *)
Inductive SmtpStep := SmtpConnect (host : string) (port : Z) | SmtpStartTls | SmtpLogin (user password : string) | SmtpSend (mail : Mail).
Definition smtp_login (config : EmailChannelConfig) : list SmtpStep :=
  match em_smtp_user config, em_smtp_password config with
  | Some user, Some password => if decide (user = "" ∨ password = "") then [] else [SmtpLogin user password]
  | _, _ => []
  end.
Definition smtp_session (config : EmailChannelConfig) (p : NotificationPayload) : list SmtpStep :=
  [SmtpConnect (em_smtp_host config) (em_smtp_port config)] ++ (if em_use_tls config then [SmtpStartTls] else []) ++
  smtp_login config ++ [SmtpSend (email_of config p)].

Inductive telegram_answer := TelegramStatus (status : Z) (body : string) | TelegramRaised (msg : string).
Definition telegram_text (p : NotificationPayload) : string :=
  "*" +:+ notification_title p +:+ "*" +:+ newline +:+ "```" +:+ newline +:+ notification_text p +:+ newline +:+ "```".

(** The chats in order; the first failure ends the call. *)
Fixpoint telegram_posts (answer : string → string → telegram_answer) (text : string) (chat_ids : list string) : option string :=
  match chat_ids with
  | [] => None
  | chat_id :: rest =>
      match answer chat_id text with
      | TelegramStatus status body =>
          if status =? 200 then telegram_posts answer text rest
          else Some ("telegram http " +:+ py_str_int status +:+ ": " +:+ String.substring 0 200 body)
      | TelegramRaised msg => Some msg
      end
  end.

(** [nn_smtp]: the exception that a session with the mail server raises, as
    [Type: message]. *)
Record NotifyNet := mkNotifyNet { nn_smtp : list SmtpStep → option string; nn_telegram : string → string → telegram_answer }.

(** The new [last_error] and whether the notification was sent. *)
Definition email_send (net : NotifyNet) (p : NotificationPayload) (config : EmailChannelConfig) (last_error : option string)
    : option string * bool :=
  if negb (em_enabled config) then (last_error, false)
  else if bool_decide (em_smtp_host config = "") || bool_decide (em_from_addr config = "") || bool_decide (em_to_addrs config = [])
  then (Some "email channel not fully configured", false)
  else match nn_smtp net (smtp_session config p) with None => (None, true) | Some e => (Some e, false) end.
Definition telegram_send (net : NotifyNet) (p : NotificationPayload) (config : TelegramChannelConfig) (last_error : option string)
    : option string * bool :=
  if negb (tg_enabled config) then (last_error, false)
  else if bool_decide (tg_bot_token config = "") || bool_decide (tg_chat_ids config = [])
  then (Some "telegram channel not fully configured", false)
  else match telegram_posts (nn_telegram net) (telegram_text p) (tg_chat_ids config) with
       | None => (None, true) | Some e => (Some e, false) end.
Definition channel_send (net : NotifyNet) (p : NotificationPayload) (c : Channel) : Channel * bool :=
  match c with
  | EmailChannel config err => let '(err, ok) := email_send net p config err in (EmailChannel config err, ok)
  | TelegramChannel config err => let '(err, ok) := telegram_send net p config err in (TelegramChannel config err, ok)
  end.

(** ** The engine *)
Record Notifier := mkNotifier { no_config : NotifierConfig; no_channels : list Channel; no_sent : Z; no_failed : Z }.

Definition new_notifier (config : NotifierConfig) : Notifier :=
  mkNotifier config
    ((if em_enabled (nc_email config) then [EmailChannel (nc_email config) None] else []) ++
     (if tg_enabled (nc_telegram config) then [TelegramChannel (nc_telegram config) None] else [])) 0 0.

Definition should_trigger (n : Notifier) (cls : string) : bool :=
  nc_enabled (no_config n) && bool_decide (cls ∈ nc_trigger_classes (no_config n)).

Fixpoint dispatch_channels (net : NotifyNet) (p : NotificationPayload) (channels : list Channel)
    : list Channel * list (string * bool) :=
  match channels with
  | [] => ([], [])
  | c :: rest =>
      let '(c', ok) := channel_send net p c in
      let '(rest', results) := dispatch_channels net p rest in
      (c' :: rest', (channel_name c, ok) :: results)
  end.
Definition dispatch (net : NotifyNet) (p : NotificationPayload) (n : Notifier) : Notifier * odict bool :=
  if negb (nc_enabled (no_config n)) then (n, [])
  else if negb (bool_decide (np_cls p ∈ nc_trigger_classes (no_config n))) then (n, [])
  else
    let '(channels, results) := dispatch_channels net p (no_channels n) in
    (mkNotifier (no_config n) channels (no_sent n + Z.of_nat (count_if snd results))
       (no_failed n + Z.of_nat (count_if (λ r, negb r.2) results)), dupdate [] results).

Definition notifier_status (n : Notifier) : json :=
  JObj [("enabled", JBool (nc_enabled (no_config n))); ("trigger_classes", strs_json (nc_trigger_classes (no_config n)));
        ("channels", JArr ((λ c, JObj [("name", JStr (channel_name c)); ("last_error", jopt JStr (channel_error c))]) <$> no_channels n));
        ("sent_count", JInt (no_sent n)); ("failed_count", JInt (no_failed n))].
End notifier.

Example json_indent_ex : @json_indent frac_format 0 (JObj [("a", JArr [JInt 1; JNull]); ("b", JObj [])])
  = "{" +:+ newline +:+ "  " +:+ dquote +:+ "a" +:+ dquote +:+ ": [" +:+ newline +:+ "    1," +:+ newline +:+ "    null" +:+ newline
    +:+ "  ]," +:+ newline +:+ "  " +:+ dquote +:+ "b" +:+ dquote +:+ ": {}" +:+ newline +:+ "}".
Proof. reflexivity. Qed.
