(* ===== verification/NodeLoops.v ===== *)
(** [mdrj/node.py], part 5: the iterations of the background loops that feed the
    log: collectors, the authentication log reader, metrics history, the hourly
    status event, notifications. *)
From S2P Require Import Prelude Sha256 Json VectorClock Models Consensus Storage Config Metrics Prioritization Gossip Checkpoint Auth Catalog Node NodeEvents NodeCheckpoints AgentRelay Notifier.

(** ** State of the loops *)
Record LinuxIngestStatus := mkIngestStatus {
  ls_enabled : bool; ls_source_type : string; ls_source_path : option string; ls_host_id : option string;
  ls_last_poll_at : option pyfloat; ls_last_event_at : option pyfloat; ls_last_error : option string; ls_emitted_count : Z }.
Definition LinuxIngestStatus_to_dict (s : LinuxIngestStatus) : json :=
  JObj [("enabled", JBool (ls_enabled s)); ("source_type", JStr (ls_source_type s)); ("source_path", jopt JStr (ls_source_path s));
        ("host_id", jopt JStr (ls_host_id s)); ("last_poll_at", jopt JFloat (ls_last_poll_at s));
        ("last_event_at", jopt JFloat (ls_last_event_at s)); ("last_error", jopt JStr (ls_last_error s));
        ("emitted_count", JInt (ls_emitted_count s))].
Definition ingest_polled (now : Q) (s : LinuxIngestStatus) : LinuxIngestStatus :=
  mkIngestStatus (ls_enabled s) (ls_source_type s) (ls_source_path s) (ls_host_id s) (Some now) (ls_last_event_at s)
    (ls_last_error s) (ls_emitted_count s).
Definition ingest_error (e : option string) (s : LinuxIngestStatus) : LinuxIngestStatus :=
  mkIngestStatus (ls_enabled s) (ls_source_type s) (ls_source_path s) (ls_host_id s) (ls_last_poll_at s) (ls_last_event_at s)
    e (ls_emitted_count s).
Definition ingest_emitted (now : Q) (s : LinuxIngestStatus) : LinuxIngestStatus :=
  mkIngestStatus (ls_enabled s) (ls_source_type s) (ls_source_path s) (ls_host_id s) (ls_last_poll_at s) (Some now)
    (ls_last_error s) (ls_emitted_count s + 1).

(** The latches of the hourly status: where its window starts. *)
Record HourlyWindow := mkWindow {
  hw_process_start : pyfloat; hw_start : pyfloat; hw_collectors : odict Z; hw_by_class : odict Z; hw_emitted : Z }.

Section loops.
Context `{FloatFormat}.

(** ** Collectors

    One pass over the events of a poll.  An unknown kind is skipped, a kind that
    the policy disables is counted as dropped, an exception ends the pass. *)
Fixpoint collector_pass (w : World) (answer : CollectedEvent → nat → relay_answer) (events : list CollectedEvent)
    (r : Relay) (s : CollectorStatus) (n : Node) : Node * Relay * CollectorStatus :=
  match events with
  | [] => (n, r, s)
  | e :: rest =>
      if negb (is_known_event_kind (co_event_kind e) (n_catalog n)) then collector_pass w answer rest r s n
      else if negb (registry_enabled_for (co_event_kind e) (n_catalog n)) then
        collector_pass w answer rest r (record_drop "policy_disabled" s) n
      else match event_class_for (co_event_kind e) (n_catalog n) with
           | Err _ => (n, r, s)
           | Ok cls =>
               if ar_enabled (cfg_agent_relay (n_config n)) then
                 collector_pass w answer rest (relay_send (cfg_agent_relay (n_config n)) (w_now w) (answer e) r).1 s n
               else match emit_event w cls (to_payload e) n with
                    | (n, Ok _) => collector_pass w answer rest r s n
                    | (n, Err _) => (n, r, s)
                    end
           end
  end.

Fixpoint ingest_payloads (w : World) (payloads : list (odict json)) (s : LinuxIngestStatus) (n : Node)
    : Node * LinuxIngestStatus :=
  match payloads with
  | [] => (n, s)
  | p :: rest =>
      match emit_event w A p n with
      | (n, Ok em) => ingest_payloads w rest (if em_stored em then ingest_emitted (w_now w) s else s) n
      | (n, Err e) => (n, ingest_error (Some (exn_text e)) s)
      end
  end.
(** [poll]: what the log reader returns or raises. *)
Definition linux_ingest_pass (w : World) (poll : result (list (odict json))) (s : LinuxIngestStatus) (n : Node)
    : Node * LinuxIngestStatus :=
  let s := ingest_polled (w_now w) s in
  match poll with
  | Err e => (n, ingest_error (Some (exn_text e)) s)
  | Ok payloads => ingest_payloads w payloads (ingest_error None s) n
  end.

(** ** Metrics history *)
Definition METRICS_HISTORY_KEEP_ROWS : Z := 5760.
Definition metrics_history_pass (w : World) (n : Node) : Node :=
  let snapshot := sort_keys (node_metrics_snapshot w n) in
  let db := append_metrics_snapshot (w_now w) snapshot (n_db n) in
  set_n_db (prune_metrics_history METRICS_HISTORY_KEEP_ROWS db).1 n.

(** ** Hourly status *)
Definition add_to_class (out : odict Z) (p : (string * string) * Z) : odict Z :=
  dset out p.1.1 (default 0 (dget out p.1.1) + p.2).
Definition snapshot_events_by_class (n : Node) : odict Z :=
  foldl add_to_class [("A", 0); ("B", 0); ("C", 0)] (k_events_by_class_kind (n_counters n)).

Definition collector_delta (hw : HourlyWindow) (s : CollectorStatus) : Z :=
  Z.max 0 (ct_emitted_count s - default 0 (dget (hw_collectors hw) (ct_name s))).
Definition collector_snapshot (hw : HourlyWindow) (s : CollectorStatus) : json :=
  JObj [("name", JStr (ct_name s)); ("enabled", JBool (ct_enabled s)); ("emitted_in_window", JInt (collector_delta hw s));
        ("emitted_total", JInt (ct_emitted_count s)); ("dropped_total", JInt (ct_dropped_count s));
        ("last_poll_at", jopt JFloat (ct_last_poll_at s)); ("last_event_at", jopt JFloat (ct_last_event_at s));
        ("last_error", jopt JStr (ct_last_error s))].
Definition class_delta (hw : HourlyWindow) (cur : odict Z) (cls : string) : Z :=
  Z.max 0 (default 0 (dget cur cls) - default 0 (dget (hw_by_class hw) cls)).

Definition latest_confirmed_checkpoint_summary (now : Q) (db : DB) : Z * Q :=
  match latest_confirmed_checkpoint db with
  | None => (0, 0%Q)
  | Some c =>
      let at_ := match cp_confirmed_at c with Some t => if t =?q 0 then cp_created_at c else t | None => cp_created_at c end in
      (cp_round_received c, Qmax 0 (now - at_))
  end.

(** Host figures: uptime, load, memory and disk use. *)
Record HostHealth := mkHealth { hh_uptime : pyfloat; hh_load : pyfloat; hh_mem : pyfloat; hh_disk : pyfloat }.

Definition hourly_payload (now : Q) (hh : HostHealth) (collectors : list CollectorStatus) (hw : HourlyWindow) (n : Node) : odict json :=
  let cur := snapshot_events_by_class n in
  let '(last_cp_round, last_cp_age) := latest_confirmed_checkpoint_summary now (n_db n) in
  [("event_kind", JStr "node_hourly_status"); ("node_id", JStr (node_id n)); ("host_id", JStr (host_id n));
   ("window_sec", JFloat (now - hw_start hw)); ("process_uptime_sec", JFloat (now - hw_process_start hw));
   ("host_uptime_sec", JFloat (hh_uptime hh)); ("collectors", JArr (collector_snapshot hw <$> collectors));
   ("events_in_window", JObj ((λ cls, (cls, JInt (class_delta hw cur cls))) <$> ["A"; "B"; "C"]));
   ("load_avg_1m", JFloat (hh_load hh)); ("mem_used_pct", JFloat (hh_mem hh)); ("disk_used_pct_root", JFloat (hh_disk hh));
   ("last_confirmed_checkpoint_round", JInt last_cp_round); ("last_checkpoint_age_sec", JFloat last_cp_age);
   ("tamper_evidence", JBool (n_tamper_evidence n)); ("peers_known", JInt (Z.of_nat (length (n_peers n))));
   ("collection_policy_hash", JStr (collection_policy_hash (n_catalog n)))].

(** The window moves only when the event was emitted, to the counters as they
    were when the payload was made. *)
Definition emit_hourly_status (w : World) (hh : HostHealth) (collectors : list CollectorStatus) (hw : HourlyWindow) (n : Node)
    : Node * HourlyWindow :=
  let cur := snapshot_events_by_class n in
  match emit_event w B (hourly_payload (w_now w) hh collectors hw n) n with
  | (n, Err _) => (n, hw)
  | (n, Ok _) =>
      (n, mkWindow (hw_process_start hw) (w_now w) (dupdate [] ((λ s, (ct_name s, ct_emitted_count s)) <$> collectors)) cur
            (hw_emitted hw + 1))
  end.

(** ** Notifications: the task [NotifyEvent]. *)
Definition notification_of (now : Q) (e : Event) : NotificationPayload :=
  mkNotification (ev_id e) (str_or (py_str (jget_or (ev_payload e) "event_kind" (JStr ""))) (EventClass_value (ev_cls e)))
    (EventClass_value (ev_cls e)) (ev_creator e) (ev_payload e) now.
Definition notify_event (net : NotifyNet) (now : Q) (e : Event) (nt : Notifier) : Notifier :=
  (dispatch net (notification_of now e) nt).1.
End loops.
