(* ===== verification/Loops.v ===== *)
(** [mdrj/node.py] and [mdrj/discovery.py]: the polling loops.  Every background
    task of a node is one of two loops around a pass: it makes the pass and then
    waits, or it waits and then makes the pass; the wait ends with the interval or
    with the stop event.  The passes themselves are in NodeLoops, NodeCheckpoints,
    NodeSync, Archive and Discovery. *)
From S2P Require Import Prelude Sha256 Json VectorClock Models Consensus Storage Config Metrics Prioritization Gossip Auth Catalog Node NodeEvents NodeEventsFacts NodeCheckpoints NodeSync AgentRelay Notifier NodeLoops.

(** ** One loop

    [WorkFirst]: linux ingest, collectors, metrics history, heartbeat, retention,
    discovery.  [WaitFirst]: hourly status, checkpoint proposals, tamper
    verification, frontier synchronisation. *)
Inductive LoopKind := WorkFirst | WaitFirst.

(** Where the task is: at the [while], in a pass since a time, in
    [wait_for(stop.wait(), timeout=interval)] since a time, or done. *)
Inductive Phase := Checking | Working (since : Q) | Waiting (since : Q) | Finished.
Record Loop := mkLoop { lp_kind : LoopKind; lp_interval : Q; lp_stop : bool; lp_task : option Phase }.
Definition new_loop (kind : LoopKind) (interval : Q) : Loop := mkLoop kind interval true None.
Definition set_lp_task (t : option Phase) (l : Loop) : Loop := mkLoop (lp_kind l) (lp_interval l) (lp_stop l) t.
Definition set_lp_stop (b : bool) (l : Loop) : Loop := mkLoop (lp_kind l) (lp_interval l) b (lp_task l).

(** [self._task and not self._task.done()] *)
Definition loop_running (l : Loop) : bool :=
  match lp_task l with None | Some Finished => false | Some _ => true end.
(** [_start_...] *)
Definition loop_start (l : Loop) : Loop :=
  if loop_running l then l else set_lp_task (Some Checking) (set_lp_stop false l).
(** The [while] condition, and what follows it. *)
Definition loop_check (now : Q) (l : Loop) : Loop :=
  set_lp_task (Some (if lp_stop l then Finished else match lp_kind l with WorkFirst => Working now | WaitFirst => Waiting now end)) l.
(** The pass is over, returned or raised; an exception is logged. *)
Definition loop_passed (now : Q) (l : Loop) : Loop :=
  set_lp_task (Some (match lp_kind l with WorkFirst => Waiting now | WaitFirst => Checking end)) l.
(** The wait is over: by the stop event, or by its time limit. *)
Definition loop_stopped (l : Loop) : Loop :=
  set_lp_task (Some (match lp_kind l with WorkFirst => Checking | WaitFirst => Finished end)) l.
Definition loop_timeout (now : Q) (l : Loop) : Loop :=
  set_lp_task (Some (match lp_kind l with WorkFirst => Checking | WaitFirst => Working now end)) l.
(** [stop]: the event is set, the task awaited and forgotten. *)
Definition loop_forget (l : Loop) : Loop :=
  match lp_task l with Some Finished => set_lp_task None l | _ => l end.

(** ** Runs

    [pass now s]: what a pass that ends at [now] does to the state it works on,
    and whether it raised.  [lr_log]: when the passes began and ended, the latest
    first. *)
Section loop.
Context {S : Type} (pass : Q → S → S * result unit).

Record LoopRun := mkRun { lr_now : Q; lr_loop : Loop; lr_state : S; lr_log : list (Q * Q) }.

Inductive loop_step : LoopRun → LoopRun → Prop :=
  | step_time now now' l s log : (now <= now')%Q → loop_step (mkRun now l s log) (mkRun now' l s log)
  | step_start now l s log : loop_running l = true → loop_step (mkRun now l s log) (mkRun now (loop_start l) s log)
  | step_check now l s log : lp_task l = Some Checking → loop_step (mkRun now l s log) (mkRun now (loop_check now l) s log)
  | step_pass now l s log since : lp_task l = Some (Working since) →
      loop_step (mkRun now l s log) (mkRun now (loop_passed now l) (pass now s).1 ((since, now) :: log))
  | step_timeout now l s log since : lp_task l = Some (Waiting since) → (since + lp_interval l <= now)%Q →
      loop_step (mkRun now l s log) (mkRun now (loop_timeout now l) s log)
  | step_stopped now l s log since : lp_task l = Some (Waiting since) → lp_stop l = true →
      loop_step (mkRun now l s log) (mkRun now (loop_stopped l) s log)
  | step_stop now l s log : loop_step (mkRun now l s log) (mkRun now (set_lp_stop true l) s log).
End loop.
Arguments mkRun {S}.
Arguments lr_now {S}.
Arguments lr_loop {S}.
Arguments lr_state {S}.
Arguments lr_log {S}.

(** ** The loops of a node

    Each with the shortest interval a configuration can ask for. *)
Definition at_least (floor setting : Q) : Q := Qmax floor setting.
Definition linux_ingest_loop (cfg : NodeConfig) : Loop := new_loop WorkFirst (at_least (1 # 2) (li_poll_interval_sec (cfg_linux_ingest cfg))).
(** [self._metrics_history_interval] *)
Definition METRICS_HISTORY_INTERVAL : Q := 30.
Definition metrics_history_loop : Loop := new_loop WorkFirst (at_least (5 # 100) METRICS_HISTORY_INTERVAL).
Definition retention_loop (cfg : NodeConfig) : Loop := new_loop WorkFirst (at_least 5 (rc_poll_interval_sec (cfg_retention cfg))).
Definition heartbeat_loop (cfg : NodeConfig) : Loop := new_loop WorkFirst (at_least (5 # 100) (hb_interval_sec (cfg_heartbeat cfg))).
Definition hourly_status_loop (cfg : NodeConfig) : Loop := new_loop WaitFirst (at_least 60 (rt_hourly_status_interval_sec (cfg_runtime cfg))).
Definition checkpoint_propose_loop (cfg : NodeConfig) : Loop :=
  new_loop WaitFirst (at_least 10 (rt_checkpoint_propose_interval_sec (cfg_runtime cfg))).
Definition frontier_sync_loop (cfg : NodeConfig) : Loop := new_loop WaitFirst (at_least 5 (rt_frontier_sync_interval_sec (cfg_runtime cfg))).
Definition tamper_verify_loop (cfg : NodeConfig) : Loop := new_loop WaitFirst (at_least 10 (rt_tamper_verify_interval_sec (cfg_runtime cfg))).
Definition consensus_monitor_loop (cfg : NodeConfig) : Loop := new_loop WorkFirst (at_least (3 # 2) (gc_period_sec (cfg_gossip cfg) * (3 # 2))).

Inductive LoopName := LinuxIngest | MetricsHistory | Retention | Heartbeat | HourlyStatus | CheckpointPropose | FrontierSync
  | TamperVerify | ConsensusMonitor.
Definition node_loop (cfg : NodeConfig) (name : LoopName) : Loop :=
  match name with
  | LinuxIngest => linux_ingest_loop cfg | MetricsHistory => metrics_history_loop | Retention => retention_loop cfg
  | Heartbeat => heartbeat_loop cfg | HourlyStatus => hourly_status_loop cfg | CheckpointPropose => checkpoint_propose_loop cfg
  | FrontierSync => frontier_sync_loop cfg | TamperVerify => tamper_verify_loop cfg | ConsensusMonitor => consensus_monitor_loop cfg
  end.

(** [start]: which loops are started, in this order. *)
Definition loop_enabled (cfg : NodeConfig) (name : LoopName) : bool :=
  match name with
  | ConsensusMonitor => true
  | LinuxIngest => li_enabled (cfg_linux_ingest cfg)
  | MetricsHistory => cfg_ui_enabled cfg
  | Retention => rc_enabled (cfg_retention cfg)
  | Heartbeat => hb_enabled (cfg_heartbeat cfg)
  | HourlyStatus => 0 <?q rt_hourly_status_interval_sec (cfg_runtime cfg)
  | CheckpointPropose => 0 <?q rt_checkpoint_propose_interval_sec (cfg_runtime cfg)
  | FrontierSync => 0 <?q rt_frontier_sync_interval_sec (cfg_runtime cfg)
  | TamperVerify => 0 <?q rt_tamper_verify_interval_sec (cfg_runtime cfg)
  end.
Definition start_order : list LoopName :=
  [ConsensusMonitor; LinuxIngest; MetricsHistory; Retention; Heartbeat; HourlyStatus; CheckpointPropose; FrontierSync; TamperVerify].
Definition started_loops (cfg : NodeConfig) : list (LoopName * Loop) :=
  (λ name, (name, loop_start (node_loop cfg name))) <$> filter (λ name, loop_enabled cfg name = true) start_order.

(** [_start_collectors]: one task per collector, under one stop event. *)
Definition collector_loop (poll_interval_sec : Q) : Loop := new_loop WorkFirst (Qmax (1 # 5) poll_interval_sec).
Definition start_collectors (poll_intervals : list Q) : list Loop := (λ i, loop_start (collector_loop i)) <$> poll_intervals.

(** [_start_hourly_status] also opens the window the first status reports on. *)
Definition start_hourly_status (now : Q) (collectors : list CollectorStatus) (n : Node) (hw : HourlyWindow) (l : Loop) : HourlyWindow * Loop :=
  if loop_running l then (hw, l)
  else (mkWindow now now (dupdate [] ((λ s, (ct_name s, ct_emitted_count s)) <$> collectors)) (snapshot_events_by_class n) (hw_emitted hw),
        loop_start l).

(** The margin of the automatic proposals. *)
Definition propose_margin (cfg : NodeConfig) : Z := Z.max 0 (rt_checkpoint_propose_margin (cfg_runtime cfg)).

(** The status reports of two loops. *)
Definition heartbeat_status (cfg : NodeConfig) (emitted : Z) (l : Loop) : json :=
  JObj [("enabled", JBool (hb_enabled (cfg_heartbeat cfg))); ("interval_sec", JFloat (hb_interval_sec (cfg_heartbeat cfg)));
        ("emitted_count", JInt emitted); ("running", JBool (loop_running l))].
Definition hourly_status_runtime (cfg : NodeConfig) (emitted : Z) (l : Loop) : json :=
  let interval := rt_hourly_status_interval_sec (cfg_runtime cfg) in
  JObj [("enabled", JBool (0 <?q interval)); ("interval_sec", JFloat interval);
        ("emitted_count", JInt emitted); ("running", JBool (loop_running l))].

(** ** The rate of a loop *)
Definition count_q (log : list (Q * Q)) : Q := inject_Z (Z.of_nat (length log)).
(** From the end of a pass to the beginning of the next one. *)
Fixpoint spaced (i : Q) (log : list (Q * Q)) : Prop :=
  match log with
  | p :: ((q :: _) as rest) => (q.2 + i <= p.1)%Q ∧ spaced i rest
  | _ => True
  end.
(** The end of the latest pass, the beginning of the run when there was none. *)
Definition last_end (t0 : Q) (log : list (Q * Q)) : Q := match log with [] => t0 | p :: _ => p.2 end.

Section rate.
Context {S : Type} (pass : Q → S → S * result unit) (t0 : Q) (i : Q) (Hi : (0 <= i)%Q).

(** Where a run of a loop that started at [t0] can be. *)
Definition rate_inv (r : @LoopRun S) : Prop :=
  let l := lr_loop r in
  let e := last_end t0 (lr_log r) in
  lp_interval l = i ∧ spaced i (lr_log r) ∧ (t0 + (count_q (lr_log r) - 1) * i <= e)%Q ∧ (e <= lr_now r)%Q ∧
  match lp_task l with
  | None => False
  | Some Finished => lp_stop l = true
  | Some (Working since) => (since <= lr_now r)%Q ∧ (lr_log r = [] ∧ (t0 <= since)%Q ∨ (e + i <= since)%Q)
  | Some Checking => lp_kind l = WaitFirst ∨ lp_stop l = true ∨ lr_log r = [] ∨ (e + i <= lr_now r)%Q
  | Some (Waiting since) => (e <= since)%Q ∧ (since <= lr_now r)%Q
  end.

Lemma rate_start l s : lp_interval l = i → loop_running l = false → rate_inv (mkRun t0 (loop_start l) s []).
Proof.
  intros Hl Hr. unfold loop_start. rewrite Hr. unfold rate_inv. cbn. split_and!; [done|done|change (count_q []) with 0%Q; cbn; lra|cbn; lra|by right; right; left].
Qed.

Lemma count_cons p log : (count_q (p :: log) == count_q log + 1)%Q.
Proof. unfold count_q. cbn [length]. rewrite Nat2Z.inj_succ, <- Z.add_1_r, inject_Z_plus. reflexivity. Qed.

Lemma rate_step r r' : loop_step pass r r' → rate_inv r → rate_inv r'.
Proof.
  intros Hs (Hi' & Hsp & Hb & He & Ht). destruct Hs as [now now' l s log Hn|now l s log Hrun|now l s log Hc|now l s log since Hc|now l s log since Hc Hd|now l s log since Hc Hst|now l s log];
    unfold rate_inv in *; cbn [lr_loop lr_log lr_now lr_state] in *.
  - split_and!; [done..|lra|]. destruct (lp_task l) as [[]|]; intuition lra.
  - unfold loop_start. rewrite Hrun. by split_and!.
  - rewrite Hc in Ht. unfold loop_check. cbn. split_and!; [done..|]. destruct (lp_stop l) eqn:Hst; [done|].
    destruct (lp_kind l) eqn:Hk; cbn; [|split; lra]. split; [lra|]. destruct Ht as [?|[?|[->|?]]]; [congruence|congruence|by left|by right].
  - rewrite Hc in Ht. unfold loop_passed. cbn. destruct Ht as [Hsn Ht].
    assert (spaced i ((since, now) :: log) ∧ t0 + (count_q ((since, now) :: log) - 1) * i <= now)%Q as [H1 H2].
    { rewrite count_cons. destruct log as [|q log]; [split; [done|change (count_q []) with 0%Q; cbn in *; destruct Ht as [[_ ?]|?]; lra]|].
      destruct Ht as [[? _]|Ht]; [done|]. split; [by split|]. cbn [last_end] in *. lra. }
    split_and!; [done..|lra|]. destruct (lp_kind l) eqn:Hk; cbn; [split; lra|by left].
  - rewrite Hc in Ht. unfold loop_timeout. cbn. split_and!; [done..|]. rewrite Hi' in Hd.
    destruct (lp_kind l) eqn:Hk; cbn; [right; right; right; lra|]. split; [lra|]. right. lra.
  - rewrite Hc in Ht. unfold loop_stopped. cbn. split_and!; [done..|]. destruct (lp_kind l) eqn:Hk; cbn; [by right; left|done].
  - cbn. split_and!; [done..|]. destruct (lp_task l) as [[]|]; [by right; left|done..].
Qed.

Lemma rate_run r r' : rtc (loop_step pass) r r' → rate_inv r → rate_inv r'.
Proof. induction 1 as [|a b c Hab _ IH]; [done|]. intros Ha. by apply IH, (rate_step a). Qed.
End rate.

Lemma start_interval l : lp_interval (loop_start l) = lp_interval l.
Proof. unfold loop_start. by destruct (loop_running l). Qed.
(** The floors of the intervals. *)
Definition loop_floor (name : LoopName) : Q :=
  match name with
  | LinuxIngest => 1 # 2 | MetricsHistory | Heartbeat => 5 # 100 | Retention | FrontierSync => 5 | HourlyStatus => 60
  | CheckpointPropose | TamperVerify => 10 | ConsensusMonitor => 3 # 2
  end.
Lemma loop_interval_floor cfg name : (0 < loop_floor name)%Q ∧ (loop_floor name <= lp_interval (node_loop cfg name))%Q.
Proof. split; [by destruct name|]. destruct name; apply Q.le_max_l. Qed.
Lemma node_loop_idle cfg name : loop_running (node_loop cfg name) = false.
Proof. by destruct name. Qed.

(** C30: a loop cannot run away: whatever the configuration says, however fast its
    passes are and whether they raise, between the end of a pass and the beginning of
    the next one lies at least the interval of the loop, so in a run of any length
    from one start, with any number of further starts, it makes at most one pass more
    than floors of its interval fit (20 heartbeats a second, a checkpoint proposal every 10
    seconds). *)
Theorem loop_rate_bounded {S} (pass : Q → S → S * result unit) (cfg : NodeConfig) (name : LoopName) (t0 : Q) (s : S) (r : LoopRun) :
  rtc (loop_step pass) (mkRun t0 (loop_start (node_loop cfg name)) s []) r →
  spaced (loop_floor name) (lr_log r) ∧ ((count_q (lr_log r) - 1) * loop_floor name <= lr_now r - t0)%Q.
Proof.
  intros Hr. destruct (loop_interval_floor cfg name) as [H0 Hf].
  pose proof (rate_run pass t0 (lp_interval (node_loop cfg name)) _ _ Hr) as Hinv.
  destruct Hinv as (_ & Hsp & Hb & He & _); [apply rate_start; [lra|done|apply node_loop_idle]|]. split.
  - revert Hsp. generalize (lr_log r). intros log. induction log as [|p [|q log] IH]; [done|done|]. intros [Hpq Hsp]. split; [lra|by apply IH].
  - revert Hb He. destruct (lr_log r) as [|p log]; [change (count_q []) with 0%Q; change (last_end t0 []) with t0; lra|]. intros Hb He.
    assert (0 <= count_q (p :: log) - 1)%Q as Hc.
    { rewrite count_cons. unfold count_q. assert (0 <= inject_Z (Z.of_nat (length log)))%Q; [|lra]. change 0%Q with (inject_Z 0). rewrite <- Zle_Qle. lia. }
    nra.
Qed.

(** ** A loop survives its passes, and ends when it is told to *)
Section life.
Context {S : Type} (pass : Q → S → S * result unit).

(** Runs from a start: the task is there, and done only under the stop event. *)
Definition live_inv (r : @LoopRun S) : Prop :=
  match lp_task (lr_loop r) with None => False | Some Finished => lp_stop (lr_loop r) = true | Some (Working since) => (since <= lr_now r)%Q
  | Some (Waiting since) => (since <= lr_now r)%Q | Some Checking => True end.
Lemma live_start t0 l s : loop_running l = false → live_inv (mkRun t0 (loop_start l) s []).
Proof. intros Hr. unfold loop_start. by rewrite Hr. Qed.
Lemma live_run r r' : rtc (loop_step pass) r r' → live_inv r → live_inv r'.
Proof.
  induction 1 as [|a b c Hab _ IH]; [done|]. intros Ha. apply IH. revert Ha. unfold live_inv.
  destruct Hab as [now now' l s log Hn|now l s log Hrun|now l s log Hc|now l s log since Hc|now l s log since Hc Hd|now l s log since Hc Hst|now l s log];
    cbn [lr_loop lr_now].
  - destruct (lp_task l) as [[]|]; try done; intros; lra.
  - unfold loop_start. by rewrite Hrun.
  - intros _. unfold loop_check. cbn. destruct (lp_stop l) eqn:Hst; [done|]. destruct (lp_kind l); cbn; lra.
  - intros _. unfold loop_passed. cbn. destruct (lp_kind l); cbn; [lra|done].
  - intros _. unfold loop_timeout. cbn. destruct (lp_kind l); cbn; [done|lra].
  - intros _. unfold loop_stopped. cbn. by destruct (lp_kind l).
  - cbn. by destruct (lp_task l) as [[]|].
Qed.

(** The steps that lead to the next pass. *)
Lemma to_wait_end now l s log since : lp_task l = Some (Waiting since) → (since <= now)%Q → (0 <= lp_interval l)%Q →
  ∃ now', (now <= now')%Q ∧ (now' <= now + lp_interval l)%Q ∧
    rtc (loop_step pass) (mkRun now l s log) (mkRun now' (loop_timeout now' l) s log).
Proof.
  intros Hw Hs Hi. set (now' := Qmax now (since + lp_interval l)).
  assert (now <= now' ∧ since + lp_interval l <= now' ∧ now' <= now + lp_interval l)%Q as (H1 & H2 & H3).
  { unfold now'. split_and!; [apply Q.le_max_l|apply Q.le_max_r|]. apply Q.max_lub; lra. }
  exists now'. split; [exact H1|]. split; [exact H3|].
  eapply rtc_l; [by apply (step_time pass now now')|]. apply rtc_once. by eapply step_timeout.
Qed.
Lemma to_pass now l s log since : lp_task l = Some (Working since) →
  rtc (loop_step pass) (mkRun now l s log) (mkRun now (loop_passed now l) (pass now s).1 ((since, now) :: log)).
Proof. intros Hw. apply rtc_once. by apply step_pass. Qed.
Lemma to_check now l s log : lp_task l = Some Checking → 
  rtc (loop_step pass) (mkRun now l s log) (mkRun now (loop_check now l) s log).
Proof. intros Hw. apply rtc_once. by apply step_check. Qed.


(** [makes_pass late r]: one more pass ends by the time [late], and nobody stopped the loop. *)
Definition makes_pass (late : Q) (r : @LoopRun S) : Prop :=
  ∃ r', rtc (loop_step pass) r r' ∧ length (lr_log r') = Datatypes.S (length (lr_log r)) ∧ (lr_now r' <= late)%Q ∧
    lp_stop (lr_loop r') = false.
Lemma makes_after late r r' : rtc (loop_step pass) r r' → lr_log r' = lr_log r → makes_pass late r' → makes_pass late r.
Proof. intros Hr Hl (r2 & H1 & H2 & H3 & H4). exists r2. split_and!; [by etrans|by rewrite H2, Hl|done|done]. Qed.
Lemma working_passes late now l s log since : lp_task l = Some (Working since) → lp_stop l = false → (now <= late)%Q →
  makes_pass late (mkRun now l s log).
Proof. intros Hw Hst Hn. eexists. split; [by eapply to_pass|]. by split_and!. Qed.
Lemma waiting_passes now l s log since : lp_task l = Some (Waiting since) → lp_stop l = false → (since <= now)%Q → (0 <= lp_interval l)%Q →
  makes_pass (now + lp_interval l) (mkRun now l s log).
Proof.
  intros Hw Hst Hs Hi. destruct (to_wait_end now l s log since Hw Hs Hi) as (now' & H1 & H2 & Hr).
  eapply makes_after; [exact Hr|done|]. unfold loop_timeout. destruct (lp_kind l) eqn:Hk; [|by eapply working_passes].
  eapply makes_after; [by apply to_check|done|]. unfold loop_check. cbn. rewrite Hst, Hk. by eapply working_passes.
Qed.

(** C31: a loop never dies of its passes: whatever its passes did and raised so far,
    as long as it has not been told to stop it can always make one more, without
    outside help and no later than one interval from now. *)
Theorem loop_survives (l : Loop) (t0 : Q) (s : S) (r : LoopRun) :
  loop_running l = false → (0 <= lp_interval l)%Q →
  rtc (loop_step pass) (mkRun t0 (loop_start l) s []) r → lp_stop (lr_loop r) = false →
  ∃ r', rtc (loop_step pass) r r' ∧ length (lr_log r') = Datatypes.S (length (lr_log r)) ∧ (lr_now r' <= lr_now r + lp_interval l)%Q ∧
    lp_stop (lr_loop r') = false.
Proof.
  intros Hl Hi Hr Hst. pose proof (live_run _ _ Hr (live_start t0 l s Hl)) as Hlive.
  destruct (rate_run pass t0 (lp_interval l) _ _ Hr) as (Hil & _); [by apply rate_start|].
  change (makes_pass (lr_now r + lp_interval l) r). rewrite <- Hil in *. clear Hr Hil.
  destruct r as [now l' s' log]. cbn [lr_loop lr_now] in *. unfold live_inv in Hlive. cbn [lr_loop lr_now] in Hlive.
  destruct (lp_task l') as [[|since|since|]|] eqn:Ht; [| | |congruence|done].
  - eapply makes_after; [by apply to_check|done|]. unfold loop_check. rewrite Hst. destruct (lp_kind l') eqn:Hk.
    + eapply working_passes; [done|done|lra].
    + eapply (waiting_passes now (set_lp_task (Some (Waiting now)) l') s' log now); [done|done|lra|done].
  - eapply working_passes; [done|done|lra].
  - by eapply waiting_passes.
Qed.

(** The passes a stopped loop may still make. *)
Definition passes_left (l : Loop) : nat :=
  match lp_task l with
  | Some (Working _) => 1
  | Some (Waiting _) => match lp_kind l with WorkFirst => 0 | WaitFirst => 1 end
  | _ => 0
  end.
Lemma stopped_run r r' : rtc (loop_step pass) r r' → lp_stop (lr_loop r) = true →
  (length (lr_log r') + passes_left (lr_loop r') ≤ length (lr_log r) + passes_left (lr_loop r))%nat ∧
  (lp_task (lr_loop r) = Some Finished → lr_log r' = lr_log r ∧ lp_task (lr_loop r') = Some Finished).
Proof.
  induction 1 as [|a b c Hab _ IH]; [done|]. intros Hst.
  assert (lp_stop (lr_loop b) = true ∧ (length (lr_log b) + passes_left (lr_loop b) ≤ length (lr_log a) + passes_left (lr_loop a))%nat ∧
    (lp_task (lr_loop a) = Some Finished → lr_log b = lr_log a ∧ lp_task (lr_loop b) = Some Finished)) as (H1 & H2 & H3).
  { destruct Hab as [now now' l s log Hn|now l s log Hrun|now l s log Hc|now l s log since Hc|now l s log since Hc Hd|now l s log since Hc Hs|now l s log];
      cbn [lr_loop lr_log] in *; unfold passes_left.
    - done.
    - unfold loop_start. by rewrite Hrun.
    - unfold loop_check. rewrite Hst, Hc. cbn. split_and!; [done|lia|done].
    - unfold loop_passed. rewrite Hc. cbn. split_and!; [done|destruct (lp_kind l) eqn:Hk; cbn; rewrite ?Hk; lia|done].
    - unfold loop_timeout. rewrite Hc. cbn. split_and!; [done|destruct (lp_kind l) eqn:Hk; cbn; rewrite ?Hk; lia|done].
    - unfold loop_stopped. rewrite Hc. cbn. split_and!; [done|destruct (lp_kind l) eqn:Hk; cbn; rewrite ?Hk; lia|done].
    - done. }
  destruct (IH H1) as [H4 H5]. split; [lia|]. intros Hf. destruct (H3 Hf) as [<- Hb]. by apply H5.
Qed.

(** A stopped loop can end now. *)
Definition can_end (r : @LoopRun S) : Prop := ∃ r', rtc (loop_step pass) r r' ∧ lp_task (lr_loop r') = Some Finished ∧ lr_now r' = lr_now r.
Lemma can_end_after r r' : rtc (loop_step pass) r r' → lr_now r' = lr_now r → can_end r' → can_end r.
Proof. intros Hr Hn (r2 & H1 & H2 & H3). exists r2. split_and!; [by etrans|done|by rewrite H3]. Qed.
Lemma checking_ends now l s log : lp_task l = Some Checking → lp_stop l = true → can_end (mkRun now l s log).
Proof.
  intros Hc Hst. eapply can_end_after; [by apply to_check|done|]. unfold loop_check. rewrite Hst. by eexists.
Qed.
Lemma waiting_ends now l s log since : lp_task l = Some (Waiting since) → lp_stop l = true → can_end (mkRun now l s log).
Proof.
  intros Hw Hst. eapply can_end_after; [apply rtc_once; by eapply step_stopped|done|]. unfold loop_stopped.
  destruct (lp_kind l); [by apply checking_ends|by eexists].
Qed.

(** Stopping a loop works, and does not wait for the interval: once the stop event
    is set at most one more pass is made, whatever happens, and the task can
    end at once, after the pass it may be in; then nothing of it runs any more. *)
Theorem loop_stop_ends (l : Loop) (t0 : Q) (s : S) (r : LoopRun) :
  loop_running l = false →
  rtc (loop_step pass) (mkRun t0 (loop_start l) s []) r → lp_stop (lr_loop r) = true →
  (∀ r', rtc (loop_step pass) r r' → (length (lr_log r') ≤ Datatypes.S (length (lr_log r)))%nat ∧
     (lp_task (lr_loop r) = Some Finished → lr_log r' = lr_log r ∧ lp_task (lr_loop r') = Some Finished)) ∧
  ∃ r', rtc (loop_step pass) r r' ∧ lp_task (lr_loop r') = Some Finished ∧ lr_now r' = lr_now r.
Proof.
  intros Hl Hr Hst. split.
  - intros r' Hr'. destruct (stopped_run _ _ Hr' Hst) as [Hlog Hfin]. split; [|exact Hfin].
    assert (passes_left (lr_loop r) ≤ 1)%nat; [|lia]. unfold passes_left. destruct (lp_task _) as [[]|]; try lia. destruct (lp_kind _); lia.
  - pose proof (live_run _ _ Hr (live_start t0 l s Hl)) as Hlive. clear Hr. change (can_end r).
    destruct r as [now l' s' log]. unfold live_inv in Hlive. cbn [lr_loop lr_now] in *.
    destruct (lp_task l') as [[|since|since|]|] eqn:Ht; [| | | |done].
    + by apply checking_ends.
    + eapply can_end_after; [by eapply to_pass|done|]. unfold loop_passed. destruct (lp_kind l') eqn:Hk; [by eapply waiting_ends|by apply checking_ends].
    + by eapply waiting_ends.
    + by eexists.
Qed.
End life.

(** ** The gossip task, and what [stop] closes

    [GossipEngine._loop] catches nothing but its cancellation: [GDone] is the end of
    the task with what it returned or raised. *)
Inductive GossipTask := GTicking | GSleeping (until : Q) | GDone (r : result unit).
Record GossipRun := mkGossipRun { gr_event : bool; gr_task : option GossipTask }.
Definition new_gossip_run : GossipRun := mkGossipRun true None.
Definition gossip_start (g : GossipRun) : GossipRun :=
  match gr_task g with None => mkGossipRun (gr_event g) (Some GTicking) | Some _ => g end.
(** The end of a tick, and of the sleep after it. *)
Definition gossip_ticked (now period : Q) (r : result unit) : GossipTask :=
  match r with Ok _ => GSleeping (now + period) | Err e => GDone (Err e) end.
Definition gossip_woken (g : GossipRun) : GossipTask := if gr_event g then GTicking else GDone (Ok tt).
(** [stop] of a task that has ended: awaiting it raises what it raised. *)
Definition gossip_stop (g : GossipRun) : GossipRun * result unit :=
  match gr_task g with
  | Some (GDone (Ok _)) => (mkGossipRun false None, Ok tt)
  | Some (GDone (Err e)) => (mkGossipRun false (Some (GDone (Err e))), Err e)
  | t => (mkGossipRun false t, Ok tt)
  end.

(** What [stop] closes last, in this order, once the other loops are stopped. *)
Record Services := mkServices {
  sv_gossip : option GossipRun; sv_session : bool; sv_http : bool; sv_storage : bool; sv_state : NodeState }.
Definition stop_services (sv : Services) : Services * result unit :=
  let closed := (mkServices None false false false STARTED, Ok tt) in
  match sv_gossip sv with
  | None => closed
  | Some g => match gossip_stop g with
              | (g, Err e) => (mkServices (Some g) (sv_session sv) (sv_http sv) (sv_storage sv) (sv_state sv), Err e)
              | (_, Ok _) => closed
              end
  end.

Section gossip_task.
Context `{FloatFormat}.
(** The gossip task of a node while everything else happens to it: a tick, a sleep, [stop]
    clearing the event, any change of the node in between. *)
Inductive gossip_task_step : Node * GossipRun → Node * GossipRun → Prop :=
  | gt_tick w sample period n g : gr_task g = Some GTicking →
      gossip_task_step (n, g) ((gossip_iteration w sample n).1,
        mkGossipRun (gr_event g) (Some (gossip_ticked (w_now w) period (gossip_iteration w sample n).2)))
  | gt_wake n g until : gr_task g = Some (GSleeping until) →
      gossip_task_step (n, g) (n, mkGossipRun (gr_event g) (Some (gossip_woken g)))
  | gt_start n g : gossip_task_step (n, g) (n, gossip_start g)
  | gt_clear n g : gossip_task_step (n, g) (n, mkGossipRun false (gr_task g))
  | gt_other n n' g : gossip_task_step (n, g) (n', g).

Lemma gossip_dead_stays e n g n' g' : rtc gossip_task_step (n, g) (n', g') → gr_task g = Some (GDone (Err e)) →
  gr_task g' = Some (GDone (Err e)).
Proof.
  remember (n, g) as a eqn:Ha. remember (n', g') as b eqn:Hb. intros Hr. revert n g Ha.
  induction Hr as [|x y z Hxy _ IH]; intros n g -> Hg; [by injection Hb as <- <-|].
  destruct y as [n1 g1]. apply (IH Hb n1 g1 eq_refl). clear IH. inversion Hxy; subst; cbn in *; try congruence.
  unfold gossip_start. by rewrite Hg.
Qed.

(** C32: one gossip round that raises ends gossip for good, and the node can no longer
    be stopped: whatever happens afterwards, [stop] raises what the round
    raised, however often it is called, and leaves the HTTP server, the client
    session and the database as they are. *)
Theorem failed_round_blocks_stop (w : World) (sample : list PeerInfo → nat → list PeerInfo) (period : Q) (n n' : Node)
    (g g' : GossipRun) (sv : Services) (e : exn) :
  gr_task g = Some GTicking → (gossip_iteration w sample n).2 = Err e →
  rtc gossip_task_step ((gossip_iteration w sample n).1, mkGossipRun (gr_event g) (Some (gossip_ticked (w_now w) period (gossip_iteration w sample n).2)))
    (n', g') → sv_gossip sv = Some g' →
  let '(sv1, r1) := stop_services sv in
  let '(sv2, r2) := stop_services sv1 in
  r1 = Err e ∧ r2 = Err e ∧
  (sv_session sv2, sv_http sv2, sv_storage sv2) = (sv_session sv, sv_http sv, sv_storage sv).
Proof.
  intros Hg He Hr Hsv. rewrite He in Hr. apply gossip_dead_stays with (e := e) in Hr; [|done].
  unfold stop_services. rewrite Hsv. unfold gossip_stop. rewrite Hr. by split_and!.
Qed.
End gossip_task.

(** ** The theorems on concrete runs

    A pass that always raises, in the heartbeat loop of the sample configuration:
    one heartbeat, the wait, the next one. *)
Definition raising_pass (now : Q) (s : nat) : nat * result unit := (S s, Err (OtherError "no")).
Definition sample_loop : Loop := node_loop sample_config Heartbeat.
Definition heartbeat_start : LoopRun := mkRun 0 (loop_start sample_loop) 0%nat [].
Definition heartbeat_once : LoopRun :=
  mkRun 1 (loop_passed 1 (loop_check 0 (loop_start sample_loop))) 1%nat [(0%Q, 1%Q)].
Lemma heartbeat_once_run : rtc (loop_step raising_pass) heartbeat_start heartbeat_once.
Proof.
  eapply rtc_l; [by apply step_check|]. eapply rtc_l; [apply (step_time raising_pass 0 1); vm_compute; discriminate|].
  apply rtc_once. by apply (step_pass raising_pass 1 _ 0%nat [] 0).
Qed.

Lemma loop_rate_bounded_witness :
  rtc (loop_step raising_pass) heartbeat_start heartbeat_once ∧
  spaced (loop_floor Heartbeat) (lr_log heartbeat_once) ∧
  ((count_q (lr_log heartbeat_once) - 1) * loop_floor Heartbeat <= lr_now heartbeat_once - 0)%Q.
Proof.
  split; [exact heartbeat_once_run|].
  exact (loop_rate_bounded raising_pass sample_config Heartbeat 0 0%nat heartbeat_once heartbeat_once_run).
Defined.
Lemma loop_survives_witness :
  rtc (loop_step raising_pass) heartbeat_start heartbeat_once ∧ lp_stop (lr_loop heartbeat_once) = false ∧
  ∃ r', rtc (loop_step raising_pass) heartbeat_once r' ∧ length (lr_log r') = 2%nat ∧
    (lr_now r' <= lr_now heartbeat_once + lp_interval sample_loop)%Q ∧ lp_stop (lr_loop r') = false.
Proof.
  assert (0 <= lp_interval sample_loop)%Q as Hi by (vm_compute; discriminate).
  split; [exact heartbeat_once_run|]. split; [reflexivity|].
  exact (loop_survives raising_pass sample_loop 0 0%nat heartbeat_once eq_refl Hi heartbeat_once_run eq_refl).
Defined.
(** The loop is stopped while it waits. *)
Definition heartbeat_stopped : LoopRun := mkRun 1 (set_lp_stop true (lr_loop heartbeat_once)) 1%nat [(0%Q, 1%Q)].
Lemma loop_stop_ends_witness :
  rtc (loop_step raising_pass) heartbeat_start heartbeat_stopped ∧ lp_stop (lr_loop heartbeat_stopped) = true ∧
  (∀ r', rtc (loop_step raising_pass) heartbeat_stopped r' → (length (lr_log r') ≤ 2)%nat ∧
     (lp_task (lr_loop heartbeat_stopped) = Some Finished →
      lr_log r' = lr_log heartbeat_stopped ∧ lp_task (lr_loop r') = Some Finished)) ∧
  ∃ r', rtc (loop_step raising_pass) heartbeat_stopped r' ∧ lp_task (lr_loop r') = Some Finished ∧ lr_now r' = lr_now heartbeat_stopped.
Proof.
  assert (rtc (loop_step raising_pass) heartbeat_start heartbeat_stopped) as Hr.
  { eapply rtc_r; [exact heartbeat_once_run|]. apply step_stop. }
  split; [exact Hr|]. split; [reflexivity|].
  exact (loop_stop_ends raising_pass sample_loop 0 0%nat heartbeat_stopped eq_refl Hr eq_refl).
Defined.

(** A node with a row that cannot be read, waiting for gossip. *)
Definition unreadable_node : Node :=
  set_n_gossip (Some (add_pending "x" empty_gossip)) (set_n_db (set_events empty_db [[("id", SText "x")]]) sample_node).
Lemma failed_round_blocks_stop_witness :
  let sample := λ (l : list PeerInfo) (_ : nat), l in
  let g := gossip_start new_gossip_run in
  let r := @gossip_iteration frac_format sample_world sample unreadable_node in
  ∃ e, r.2 = Err e ∧ gr_task g = Some GTicking ∧
  let g' := mkGossipRun true (Some (gossip_ticked 100 1 r.2)) in
  let sv := mkServices (Some g') true true true RUN in
  let '(sv1, r1) := stop_services sv in
  let '(sv2, r2) := stop_services sv1 in
  r1 = Err e ∧ r2 = Err e ∧ (sv_session sv2, sv_http sv2, sv_storage sv2) = (true, true, true).
Proof.
  intros sample g r.
  assert (∃ e, r.2 = Err e) as [e He] by (vm_compute; eexists; reflexivity).
  exists e. split; [exact He|]. split; [reflexivity|]. intros g' sv.
  exact (@failed_round_blocks_stop frac_format sample_world sample 1 unreadable_node r.1 g g' sv e eq_refl He (rtc_refl _ _) eq_refl).
Defined.
