(* ===== verification/Regex.v ===== *)
(** What the log readers use of Python's [re]: backtracking matching with greedy
    repetition, named groups, [match] and [search].  [rmatch] is the language of an
    expression as a relation; the matcher is sound and complete for it. *)
From S2P Require Import Prelude.

(** ** Expressions

    Every repetition of the sources ranges over one character class. *)
Inductive re :=
  | RChar (p : Ascii.ascii → bool)
  | REmpty
  | RSeq (a b : re)
  | RAlt (a b : re)
  | ROpt (a : re)
  | RRep (p : Ascii.ascii → bool) (lo : nat) (hi : option nat)
  | RGroup (name : string) (a : re)
  | RBol
  | RWordB.

Definition code_in (lo hi : N) (c : Ascii.ascii) : bool :=
  ((lo <=? Ascii.N_of_ascii c) && (Ascii.N_of_ascii c <=? hi))%N.
Definition is_digit : Ascii.ascii → bool := code_in 48 57.
Definition is_upper : Ascii.ascii → bool := code_in 65 90.
Definition is_lower : Ascii.ascii → bool := code_in 97 122.
Definition is_char (x : Ascii.ascii) (c : Ascii.ascii) : bool := bool_decide (c = x).
Definition is_one_of (s : string) (c : Ascii.ascii) : bool := bool_decide (c ∈ String.list_ascii_of_string s).
Definition non_space (c : Ascii.ascii) : bool := negb (py_isspace c).
(** [\w] on code points below 256: letters, numeric characters and [_]. *)
Definition is_word (c : Ascii.ascii) : bool :=
  is_digit c || is_upper c || is_lower c || is_char "_" c ||
  bool_decide (Ascii.N_of_ascii c ∈ [170; 178; 179; 181; 185; 186; 188; 189; 190]%N) ||
  code_in 192 214 c || code_in 216 246 c || code_in 248 255 c.

Fixpoint rlit (s : string) : re :=
  match s with EmptyString => REmpty | String c s' => RSeq (RChar (is_char c)) (rlit s') end.
Definition rplus (p : Ascii.ascii → bool) : re := RRep p 1 None.
Definition rstar (p : Ascii.ascii → bool) : re := RRep p 0 None.
Definition rexactly (n : nat) (p : Ascii.ascii → bool) : re := RRep p n (Some n).
Fixpoint rseq (l : list re) : re :=
  match l with [] => REmpty | [r] => r | r :: l' => RSeq r (rseq l') end.

(** ** Matching

    A position is the character before it (if any) and the text after it. *)
Definition pos : Type := option Ascii.ascii * string.
Definition word_at (o : option Ascii.ascii) : bool := match o with Some c => is_word c | None => false end.
Definition next_char (s : string) : option Ascii.ascii := match s with String c _ => Some c | EmptyString => None end.
Definition at_boundary (q : pos) : bool := xorb (word_at q.1) (word_at (next_char q.2)).
Definition hi_left (hi : option nat) : bool := match hi with Some O => false | _ => true end.

(** The text between two positions, the later one a suffix of the earlier. *)
Definition between (q q' : pos) : string := py_take (String.length q.2 - String.length q'.2) q.2.

Section matcher.
Context {X : Type}.
Definition kont : Type := pos → odict string → option X.

Fixpoint rep_match (p : Ascii.ascii → bool) (prev : option Ascii.ascii) (s : string) (lo : nat) (hi : option nat)
    (caps : odict string) (k : kont) {struct s} : option X :=
  let stop := if Nat.eqb lo 0 then k (prev, s) caps else None in
  match s with
  | EmptyString => stop
  | String c s' =>
      if hi_left hi && p c then
        match rep_match p (Some c) s' (Nat.pred lo) (Nat.pred <$> hi) caps k with
        | Some x => Some x
        | None => stop
        end
      else stop
  end.

Fixpoint re_match (r : re) (q : pos) (caps : odict string) (k : kont) {struct r} : option X :=
  match r with
  | RChar p => match q.2 with String c s' => if p c then k (Some c, s') caps else None | EmptyString => None end
  | REmpty => k q caps
  | RSeq a b => re_match a q caps (λ q1 c1, re_match b q1 c1 k)
  | RAlt a b => match re_match a q caps k with Some x => Some x | None => re_match b q caps k end
  | ROpt a => match re_match a q caps k with Some x => Some x | None => k q caps end
  | RRep p lo hi => rep_match p q.1 q.2 lo hi caps k
  | RGroup name a => re_match a q caps (λ q1 c1, k q1 (dset c1 name (between q q1)))
  | RBol => match q.1 with None => k q caps | Some _ => None end
  | RWordB => if at_boundary q then k q caps else None
  end.
End matcher.

Definition py_match (r : re) (s : string) : option (odict string) := re_match r (None, s) [] (λ _ c, Some c).
Fixpoint search_from (r : re) (prev : option Ascii.ascii) (s : string) : option (odict string) :=
  match re_match r (prev, s) [] (λ _ c, Some c) with
  | Some c => Some c
  | None => match s with EmptyString => None | String c s' => search_from r (Some c) s' end
  end.
Definition py_search (r : re) (s : string) : option (odict string) := search_from r None s.
(** [m.group(name)] of a group that took part in the match. *)
Definition group (caps : odict string) (name : string) : string := default "" (dget caps name).

(** ** The language of an expression *)
Inductive rep_rel (p : Ascii.ascii → bool) : nat → option nat → pos → pos → Prop :=
  | rep_stop hi q : rep_rel p 0 hi q q
  | rep_more lo hi prev c s q' : hi_left hi = true → p c = true →
      rep_rel p (Nat.pred lo) (Nat.pred <$> hi) (Some c, s) q' → rep_rel p lo hi (prev, String c s) q'.
Inductive rmatch : re → pos → odict string → pos → odict string → Prop :=
  | rm_char p prev c s cs : p c = true → rmatch (RChar p) (prev, String c s) cs (Some c, s) cs
  | rm_empty q cs : rmatch REmpty q cs q cs
  | rm_seq a b q cs q1 c1 q2 c2 : rmatch a q cs q1 c1 → rmatch b q1 c1 q2 c2 → rmatch (RSeq a b) q cs q2 c2
  | rm_left a b q cs q1 c1 : rmatch a q cs q1 c1 → rmatch (RAlt a b) q cs q1 c1
  | rm_right a b q cs q1 c1 : rmatch b q cs q1 c1 → rmatch (RAlt a b) q cs q1 c1
  | rm_some a q cs q1 c1 : rmatch a q cs q1 c1 → rmatch (ROpt a) q cs q1 c1
  | rm_none a q cs : rmatch (ROpt a) q cs q cs
  | rm_rep p lo hi q cs q1 : rep_rel p lo hi q q1 → rmatch (RRep p lo hi) q cs q1 cs
  | rm_group nm a q cs q1 c1 : rmatch a q cs q1 c1 → rmatch (RGroup nm a) q cs q1 (dset c1 nm (between q q1))
  | rm_bol s cs : rmatch RBol (None, s) cs (None, s) cs
  | rm_wordb q cs : at_boundary q = true → rmatch RWordB q cs q cs.
Create HintDb regex.
#[export] Hint Constructors rep_rel rmatch : regex.

Section matcher_facts.
Context {X : Type}.
Implicit Types (k : kont (X:=X)).

Lemma rep_match_sound p s : ∀ prev lo hi cs k x, rep_match p prev s lo hi cs k = Some x →
  ∃ q1, rep_rel p lo hi (prev, s) q1 ∧ k q1 cs = Some x.
Proof.
  induction s as [|c s IH]; intros prev lo hi cs k x; cbn [rep_match].
  - destruct lo; [|done]. simpl. eauto with regex.
  - assert (∀ y, (if Nat.eqb lo 0 then k (prev, String c s) cs else None) = Some y →
       ∃ q1, rep_rel p lo hi (prev, String c s) q1 ∧ k q1 cs = Some y) as Hstop.
    { destruct lo; simpl; [|done]. eauto with regex. }
    destruct (hi_left hi) eqn:Hh, (p c) eqn:Hp; simpl; eauto.
    destruct (rep_match p (Some c) s (Nat.pred lo) (Nat.pred <$> hi) cs k) as [y|] eqn:Hr; [|by eauto].
    intros [= ->]. destruct (IH _ _ _ _ _ _ Hr) as (q1 & H1 & H2). eauto with regex.
Qed.
Lemma rep_match_complete p lo hi q q1 : rep_rel p lo hi q q1 →
  ∀ cs k, is_Some (k q1 cs) → is_Some (rep_match p q.1 q.2 lo hi cs k).
Proof.
  induction 1 as [hi q|lo hi prev c s q' Hh Hp _ IH]; intros cs k [x Hk].
  - destruct q as [prev [|c s]]; simpl; rewrite Hk; [done|]. repeat case_match; done.
  - cbn [fst snd rep_match]. rewrite Hh, Hp. cbn [andb].
    destruct (IH cs k (mk_is_Some _ _ Hk)) as [y Hy]. cbn [fst snd] in Hy. by rewrite Hy.
Qed.

(** The matcher only succeeds on words of the expression, and succeeds when some
    way to match it satisfies the rest. *)
Lemma re_match_sound r : ∀ q cs k x, re_match r q cs k = Some x →
  ∃ q1 c1, rmatch r q cs q1 c1 ∧ k q1 c1 = Some x.
Proof.
  induction r as [p| |a IHa b IHb|a IHa b IHb|a IHa|p lo hi|nm a IHa| |]; intros q cs k x; cbn [re_match].
  - destruct q as [prev [|c s]]; simpl; [done|]. destruct (p c) eqn:Hp; [|done]. eauto with regex.
  - eauto with regex.
  - intros (q1 & c1 & H1 & (q2 & c2 & H2 & H3)%IHb)%IHa. eauto with regex.
  - destruct (re_match a q cs k) as [y|] eqn:Ha.
    + intros [= ->]. destruct (IHa _ _ _ _ Ha) as (q1 & c1 & ? & ?). eauto with regex.
    + intros (q1 & c1 & ? & ?)%IHb. eauto with regex.
  - destruct (re_match a q cs k) as [y|] eqn:Ha.
    + intros [= ->]. destruct (IHa _ _ _ _ Ha) as (q1 & c1 & ? & ?). eauto with regex.
    + eauto with regex.
  - destruct q as [prev s]. intros (q1 & ? & ?)%rep_match_sound. eauto with regex.
  - intros (q1 & c1 & ? & ?)%IHa. eauto with regex.
  - destruct q as [[c|] s]; simpl; [done|]. eauto with regex.
  - destruct (at_boundary q) eqn:?; [|done]. eauto with regex.
Qed.
Lemma re_match_complete r q cs q1 c1 : rmatch r q cs q1 c1 →
  ∀ k, is_Some (k q1 c1) → is_Some (re_match r q cs k).
Proof.
  induction 1 as [p prev c s cs Hp| |a b q cs q1 c1 q2 c2 _ IH1 _ IH2|a b q cs q1 c1 _ IH|a b q cs q1 c1 _ IH
                 |a q cs q1 c1 _ IH|a q cs|p lo hi q cs q1 Hr|nm a q cs q1 c1 _ IH|s cs|q cs Hb]; intros k Hk; cbn [re_match].
  - cbn [snd]. by rewrite Hp.
  - done.
  - apply IH1. by apply IH2.
  - destruct (IH k Hk) as [y ->]. done.
  - destruct (re_match a q cs k); [done|]. by apply IH.
  - destruct (IH k Hk) as [y ->]. done.
  - destruct (re_match a q cs k); done.
  - by eapply rep_match_complete.
  - by apply IH.
  - done.
  - by rewrite Hb.
Qed.
End matcher_facts.

(** [search] finds nothing exactly when no suffix starts with a word of the
    expression. *)
Lemma search_from_none r s : ∀ prev, search_from r prev s = None →
  ∀ a b q1 c1, s = a +:+ b →
    ¬ rmatch r (match last (String.list_ascii_of_string a) with Some c => Some c | None => prev end, b) [] q1 c1.
Proof.
  assert (∀ prev t, re_match r (prev, t) [] (λ _ c, Some c) = None → ∀ q1 c1, ¬ rmatch r (prev, t) [] q1 c1) as Hno.
  { intros prev t Hn q1 c1 Hr. destruct (re_match_complete _ _ _ _ _ Hr (λ _ c, Some c)) as [x Hx]; [done|congruence]. }
  induction s as [|c s IH]; intros prev; cbn [search_from].
  - destruct (re_match r (prev, "") [] _) eqn:Hm; [done|]. intros _ a b q1 c1 Hab.
    destruct a; [|done]. change (b) with ("" +:+ b). rewrite <- Hab. by apply Hno.
  - destruct (re_match r (prev, String c s) [] _) eqn:Hm; [done|]. intros Hs a b q1 c1 Hab.
    destruct a as [|c' a]; [change b with ("" +:+ b); rewrite <- Hab; by apply Hno|].
    injection Hab as <- Hab. pose proof (IH _ Hs a b q1 c1 Hab) as H. cbn [String.list_ascii_of_string].
    rewrite last_cons. by destruct (last _).
Qed.

(** ** Walking through a text

    Each rule matches the head of an expression against the head of a text and
    leaves the rest of both. *)
Fixpoint after (prev : option Ascii.ascii) (w : string) : option Ascii.ascii :=
  match w with EmptyString => prev | String c w' => after (Some c) w' end.
Definition all_chars (p : Ascii.ascii → bool) (w : string) : bool := forallb p (String.list_ascii_of_string w).
Definition head_not (p : Ascii.ascii → bool) (t : string) : bool := match t with String c _ => negb (p c) | EmptyString => true end.

Lemma str_app_cons c a b : String c a +:+ b = String c (a +:+ b).
Proof. reflexivity. Qed.
Lemma str_length_app a b : String.length (a +:+ b) = (String.length a + String.length b)%nat.
Proof. induction a as [|c a IH]; [done|]. rewrite str_app_cons. cbn [String.length]. by rewrite IH. Qed.
Lemma py_take_app a b : py_take (String.length a) (a +:+ b) = a.
Proof. induction a as [|c a IH]; [by destruct b|]. rewrite str_app_cons. cbn [String.length py_take]. by rewrite IH. Qed.
Lemma str_app_assoc a b c : (a +:+ b) +:+ c = a +:+ (b +:+ c).
Proof. induction a as [|x a IH]; [done|]. rewrite !str_app_cons. by rewrite IH. Qed.
Lemma between_app prev prev' w t : between (prev, w +:+ t) (prev', t) = w.
Proof. unfold between. cbn [snd]. rewrite str_length_app, Nat.add_sub. apply py_take_app. Qed.

Section walk.
Context {X : Type}.
Implicit Types (k : kont (X:=X)).

Lemma re_match_char p c prev t cs k : p c = true → re_match (RChar p) (prev, String c t) cs k = k (Some c, t) cs.
Proof. intros Hp. cbn [re_match snd]. by rewrite Hp. Qed.
Lemma re_match_lit w : ∀ prev t cs k, re_match (rlit w) (prev, w +:+ t) cs k = k (after prev w, t) cs.
Proof.
  induction w as [|c w IH]; intros prev t cs k; [done|]. rewrite str_app_cons. cbn [rlit re_match snd after].
  unfold is_char. rewrite bool_decide_true by done. apply IH.
Qed.
Lemma rep_match_run p w : ∀ lo hi prev t cs k x, all_chars p w = true → (lo <= String.length w)%nat →
  match hi with Some h => (String.length w <= h)%nat ∧ (head_not p t = true ∨ h = String.length w) | None => head_not p t = true end →
  k (after prev w, t) cs = Some x → rep_match p prev (w +:+ t) lo hi cs k = Some x.
Proof.
  induction w as [|c w IH]; intros lo hi prev t cs k x Hall Hlo Hhi Hk.
  - cbn [String.length] in Hlo. assert (lo = 0%nat) as -> by lia. change ("" +:+ t) with t. destruct t as [|c t]; cbn [rep_match]; [done|].
    replace (hi_left hi && p c) with false; [done|]. destruct hi as [h|]; cbn [head_not] in Hhi.
    + destruct Hhi as [_ [Hp| ->]]; [|done]. apply negb_true_iff in Hp. rewrite Hp. by rewrite andb_false_r.
    + apply negb_true_iff in Hhi. by rewrite Hhi, andb_false_r.
  - rewrite str_app_cons. cbn [rep_match]. unfold all_chars in Hall. cbn [String.list_ascii_of_string forallb] in Hall.
    apply andb_true_iff in Hall as [Hc Hall]. cbn [String.length] in *.
    replace (hi_left hi) with true by (destruct hi as [[|h]|]; [lia|done|done]). rewrite Hc. cbn [andb].
    rewrite (IH (Nat.pred lo) (Nat.pred <$> hi) (Some c) t cs k x); [done|done|lia| |done].
    destruct hi as [h|]; simpl; [|done]. destruct Hhi as [H1 [H2|H2]]; split; [lia|by left|lia|right; lia].
Qed.
(** The greedy run of a class up to a character outside it. *)
Lemma re_match_run p lo w prev t cs k x : all_chars p w = true → (lo <= String.length w)%nat → head_not p t = true →
  k (after prev w, t) cs = Some x → re_match (RRep p lo None) (prev, w +:+ t) cs k = Some x.
Proof. intros. cbn [re_match fst snd]. by apply rep_match_run. Qed.
Lemma re_match_exactly p n w prev t cs k x : all_chars p w = true → String.length w = n →
  k (after prev w, t) cs = Some x → re_match (rexactly n p) (prev, w +:+ t) cs k = Some x.
Proof. intros ? <- ?. cbn [re_match rexactly fst snd]. apply rep_match_run; auto. Qed.
Lemma re_match_group_run nm p lo w prev t cs k x : all_chars p w = true → (lo <= String.length w)%nat → head_not p t = true →
  k (after prev w, t) (dset cs nm w) = Some x → re_match (RGroup nm (RRep p lo None)) (prev, w +:+ t) cs k = Some x.
Proof. intros. cbn [re_match fst snd]. apply rep_match_run; try done. by rewrite between_app. Qed.
Lemma re_match_left a b q cs k x : re_match a q cs k = Some x → re_match (RAlt a b) q cs k = Some x.
Proof. intros Ha. cbn [re_match]. by rewrite Ha. Qed.
Lemma re_match_right a b q cs k x : re_match a q cs k = None → re_match b q cs k = Some x → re_match (RAlt a b) q cs k = Some x.
Proof. intros Ha Hb. cbn [re_match]. by rewrite Ha. Qed.
Lemma re_match_some a q cs k x : re_match a q cs k = Some x → re_match (ROpt a) q cs k = Some x.
Proof. intros Ha. cbn [re_match]. by rewrite Ha. Qed.
Lemma re_match_skip a q cs k x : re_match a q cs k = None → k q cs = Some x → re_match (ROpt a) q cs k = Some x.
Proof. intros Ha Hk. cbn [re_match]. by rewrite Ha. Qed.
Lemma re_match_seq a b q cs k : re_match (RSeq a b) q cs k = re_match a q cs (λ q1 c1, re_match b q1 c1 k).
Proof. reflexivity. Qed.
Lemma re_match_lit_inv w : ∀ prev s cs k x, re_match (rlit w) (prev, s) cs k = Some x → ∃ t, s = w +:+ t.
Proof.
  induction w as [|c w IH]; intros prev s cs k x; [by exists s|]. cbn [rlit re_match snd]. destruct s as [|c' s]; [done|].
  unfold is_char. case_bool_decide as Hc; [|done]. subst. intros [t ->]%IH. by exists t.
Qed.
End walk.

Lemma search_from_here r prev s c : re_match r (prev, s) [] (λ _ c, Some c) = Some c → search_from r prev s = Some c.
Proof. intros H. destruct s; cbn [search_from]; by rewrite H. Qed.
(** The first word of a text is determined by the text. *)
Lemma word_split a : ∀ b t t', all_chars non_space a = true → all_chars non_space b = true →
  a +:+ String " " t = b +:+ String " " t' → a = b ∧ t = t'.
Proof.
  unfold all_chars. induction a as [|c a IH]; intros [|d b] t t'; rewrite ?str_app_cons;
    cbn [String.list_ascii_of_string forallb]; intros Ha Hb Heq.
  - by injection Heq.
  - change ("" +:+ String " " t) with (String " " t) in Heq. injection Heq as <- _. done.
  - change ("" +:+ String " " t') with (String " " t') in Heq. injection Heq as -> _. done.
  - injection Heq as -> Heq. apply andb_true_iff in Ha as [_ Ha], Hb as [_ Hb]. by destruct (IH b t t' Ha Hb Heq) as [-> ->].
Qed.
