(* ===== verification/Archive.v ===== *)
(** The cold archive: [Node._write_archive_chunk], which retention calls, and the
    command [archive verify] of [mdrj/cli.py], which recomputes the payload hashes. *)
From S2P Require Import Prelude Sha256 Json VectorClock Models Consensus Storage Config Metrics Prioritization Gossip Checkpoint Auth Catalog Node NodeEvents NodeCheckpoints JsonText JsonParse Notifier Regex.

Section archive.
Context `{FloatFormat}.

(** ** Writing *)

(** A column as the value of [row[name]] that [json.dumps] then writes. *)
Definition column_json (v : sqlval) : json :=
  match v with
  | SNull => JNull | SInt z => JInt z | SReal q => JFloat q | SText s => JStr s | SJson _ => JStr (column_text v)
  end.
(** [json.loads(row[name])] *)
Definition column_loads (v : sqlval) : result json :=
  match v with
  | SJson j => Ok j
  | SText s => result_of_option (ValueError "JSONDecodeError") (json_parse s)
  | _ => Err (TypeError "the JSON object must be str, bytes or bytearray")
  end.
(** The record of a pruned event. *)
Definition pruned_record (p : PrunedEvent) : result json :=
  let r := pr_row p in
  let col c := column_json (sql_get r c) in
  vclock ← column_loads (sql_get r "vclock");
  parents ← column_loads (sql_get r "parents");
  payload ← column_loads (sql_get r "payload");
  Ok (JObj [("id", col "id"); ("cls", col "cls"); ("source", col "source"); ("creator", col "creator"); ("ts_local", col "ts_local");
            ("vclock", vclock); ("parents", parents); ("self_parent_id", col "self_parent_id"); ("other_parent_id", col "other_parent_id");
            ("payload", payload); ("sig", col "sig"); ("consensus_ts", col "consensus_ts"); ("lamport_ts", col "lamport_ts");
            ("round", col "round"); ("round_received", col "round_received"); ("payload_hash", JStr (pr_payload_hash p))]).

(** [json.dumps(v, ensure_ascii=False)] *)
Definition raw_dumps (v : json) : string := dump_with raw_escape v.
Definition archive_header (now : Q) (c : CheckpointRow) : json :=
  JObj [("_archive_header", JObj [("checkpoint_round", JInt (cp_round_received c)); ("merkle_root", JStr (cp_merkle_root c));
         ("members_snapshot_hash", JStr (cp_members_snapshot_hash c)); ("exported_at", JFloat now)])].
Definition unlines (ls : list string) : string := foldr (λ l s, l +:+ newline +:+ s) "" ls.
(** The lines [_write_archive_chunk] appends. *)
Definition archive_chunk (now : Q) (records : list json) (c : CheckpointRow) : list string :=
  raw_dumps (archive_header now c) :: (raw_dumps <$> records).

(** One pass of retention with its archive file: the rows are pruned first, then the
    chunk is appended; [io] is how opening and writing the file ends.  A record whose
    columns do not load raises inside the transaction, which is rolled back. *)
Definition retention_pass (now : Q) (io : result unit) (n : Node) (file : string) : Node * string * result RetentionReport :=
  let '(n', (report, pruned)) := run_retention_once now n in
  match pruned, latest_confirmed_checkpoint (n_db n) with
  | [], _ | _, None => (n', file, Ok report)
  | _, Some c =>
      match mapR pruned_record pruned with
      | Err e => (n, file, Err e)
      | Ok records =>
          match io with
          | Err e => (n', file, Err e)
          | Ok _ => (n', file +:+ unlines (archive_chunk now records c), Ok report)
          end
      end
  end.

(** ** Verifying *)

(** The lines of a text file: [\n], [\r] and [\r\n] end a line. *)
Fixpoint text_lines_from (cur : string) (s : string) : list string :=
  match s with
  | EmptyString => if decide (cur = "") then [] else [string_rev cur]
  | String c s' =>
      if decide (c = "010"%char) then string_rev cur :: text_lines_from "" s'
      else if decide (c = "013"%char) then
        string_rev cur ::
        match s' with
        | String d s'' => if decide (d = "010"%char) then text_lines_from "" s'' else text_lines_from "" s'
        | EmptyString => []
        end
      else text_lines_from (String c cur) s'
  end.
Definition text_lines (s : string) : list string := text_lines_from "" s.

Record ArchiveReport := mkArchiveReport { ar_records_ok : Z; ar_records_bad : Z; ar_mismatches : list json }.
(** ["_archive_header" in record]; a number, a bool or null raises. *)
Definition header_in (record : json) : result bool :=
  match record with
  | JObj d => Ok (bool_decide ("_archive_header" ∈ dkeys d))
  | JArr l => Ok (bool_decide (JStr "_archive_header" ∈ l))
  | JStr s => Ok (bool_decide (is_Some (py_search (rlit "_archive_header") s)))
  | _ => Err (TypeError "argument is not iterable")
  end.
Definition verify_record (record : json) (r : ArchiveReport) : result ArchiveReport :=
  match record with
  | JObj d =>
      payload ← dget_req d "payload";
      let actual := sha256_hex (utf8_encode (canonical_json payload)) in
      if decide (jget d "payload_hash" = JStr actual)
      then Ok (mkArchiveReport (ar_records_ok r + 1) (ar_records_bad r) (ar_mismatches r))
      else Ok (mkArchiveReport (ar_records_ok r) (ar_records_bad r + 1) (ar_mismatches r ++ [jget d "id"]))
  | _ => Err (OtherError "object has no attribute 'get'")
  end.
Definition verify_line (raw : string) (r : ArchiveReport) : result ArchiveReport :=
  let line := py_strip raw in
  if decide (line = "") then Ok r
  else
    record ← result_of_option (ValueError "JSONDecodeError") (json_parse line);
    header ← header_in record;
    if (header : bool) then Ok r else verify_record record r.
Fixpoint verify_lines (ls : list string) (r : ArchiveReport) : result ArchiveReport :=
  match ls with
  | [] => Ok r
  | l :: rest => r ← verify_line l r; verify_lines rest r
  end.
(** [archive verify]: the report, or the exception; exit code 2 with a bad record. *)
Definition archive_verify (file : string) : result ArchiveReport := verify_lines (text_lines file) (mkArchiveReport 0 0 []).
Definition archive_exit_code (r : ArchiveReport) : Z := if ar_records_bad r =? 0 then 0 else 2.
End archive.
