(* ===== verification/ArchiveFacts.v ===== *)
(** Theorems about the cold archive: what retention writes verifies, and a clean
    report binds the payloads. *)
From S2P Require Import Prelude Sha256 Json VectorClock Models Consensus Storage StorageFacts Config Metrics Prioritization Gossip Checkpoint Auth Catalog Node NodeLogic NodeEvents NodeEventsFacts NodeCheckpoints NodeEvidence NodeCheckpointsFacts JsonText JsonParse Notifier Regex Archive.

(** ** Lines *)
Definition line_char (c : Ascii.ascii) : bool := bool_decide (c ≠ "010"%char ∧ c ≠ "013"%char).
Definition one_line (s : string) : bool := all_chars line_char s.
Lemma all_chars_app p a b : all_chars p (a +:+ b) = all_chars p a && all_chars p b.
Proof.
  unfold all_chars. induction a as [|c a IH]; [done|]. rewrite str_app_cons. cbn [String.list_ascii_of_string forallb].
  by rewrite IH, andb_assoc.
Qed.
Lemma string_rev_app a b : string_rev (a +:+ b) = string_rev b +:+ string_rev a.
Proof.
  unfold string_rev. assert (∀ x y, String.list_ascii_of_string (x +:+ y) = String.list_ascii_of_string x ++ String.list_ascii_of_string y) as H1.
  { intros x y. induction x as [|c x IH]; [done|]. rewrite str_app_cons. cbn. by rewrite IH. }
  assert (∀ x y, String.string_of_list_ascii (x ++ y) = String.string_of_list_ascii x +:+ String.string_of_list_ascii y) as H2.
  { intros x y. induction x as [|c x IH]; [done|]. cbn. rewrite IH. done. }
  by rewrite H1, reverse_app, H2.
Qed.
Lemma string_rev_involutive a : string_rev (string_rev a) = a.
Proof. unfold string_rev. by rewrite String.list_ascii_of_string_of_list_ascii, reverse_involutive, String.string_of_list_ascii_of_string. Qed.
Lemma str_app_empty_r a : a +:+ "" = a.
Proof. induction a as [|c a IH]; [done|]. rewrite str_app_cons. by rewrite IH. Qed.

Lemma text_lines_line l : ∀ cur rest, one_line l = true →
  text_lines_from cur (l +:+ newline +:+ rest) = (string_rev cur +:+ l) :: text_lines_from "" rest.
Proof.
  induction l as [|c l IH]; intros cur rest Hl.
  - change ("" +:+ newline +:+ rest) with (String "010" rest). cbn [text_lines_from]. rewrite decide_True by done. by rewrite str_app_empty_r.
  - unfold one_line, all_chars in Hl. cbn in Hl. apply andb_true_iff in Hl as [Hc Hl]. apply bool_decide_eq_true in Hc as [H1 H2].
    rewrite str_app_cons. cbn [text_lines_from]. rewrite !decide_False by done. rewrite IH by done. f_equal.
    change (String c cur) with (String c "" +:+ cur). rewrite string_rev_app, str_app_assoc. done.
Qed.
Lemma text_lines_unlines ls : Forall (λ l, one_line l = true) ls → text_lines (unlines ls) = ls.
Proof.
  unfold text_lines. induction 1 as [|l ls Hl _ IH]; [done|]. cbn [unlines foldr]. fold (unlines ls). by rewrite text_lines_line, IH.
Qed.
Lemma unlines_app a b : unlines (a ++ b) = unlines a +:+ unlines b.
Proof. induction a as [|l a IH]; [done|]. cbn [unlines foldr app]. fold (unlines (a ++ b)) (unlines a). by rewrite IH, !str_app_assoc. Qed.

(** A text between two visible characters is not stripped. *)
Lemma py_strip_between c d m : py_isspace c = false → py_isspace d = false → py_strip (String c (m +:+ String d "")) = String c (m +:+ String d "").
Proof.
  intros Hc Hd. unfold py_strip. cbn [py_lstrip]. rewrite Hc.
  change (String c (m +:+ String d "")) with (String c m +:+ String d ""). rewrite string_rev_app.
  change (string_rev (String d "") +:+ string_rev (String c m)) with (String d (string_rev (String c m))). cbn [py_lstrip]. rewrite Hd.
  change (String d (string_rev (String c m))) with (string_rev (String d "") +:+ string_rev (String c m)).
  by rewrite <- string_rev_app, string_rev_involutive.
Qed.

(** ** Raw texts *)
Lemma scan_string_raw_char c s : scan_string (raw_escape_char c +:+ s) = ('(t, r) ← scan_string s; Some (String c t, r)).
Proof. destruct c as [[] [] [] [] [] [] [] []]; reflexivity. Qed.
Lemma scan_string_raw s r : scan_string (raw_escape s +:+ dquote +:+ r) = Some (s, r).
Proof. induction s as [|c s IH]; [done|]. cbn [raw_escape]. by rewrite str_app_assoc, scan_string_raw_char, IH. Qed.
Lemma raw_escape_line s : one_line (raw_escape s) = true.
Proof.
  unfold one_line. induction s as [|c s IH]; [done|]. cbn [raw_escape]. rewrite all_chars_app, IH, andb_true_r.
  destruct c as [[] [] [] [] [] [] [] []]; reflexivity.
Qed.
Lemma pretty_line z : one_line (py_str_int z) = true.
Proof.
  assert (∀ (x : N) s, one_line s = true → one_line (pretty_N_go x s) = true) as Hgo.
  { intros x. induction (N.lt_wf_0 x) as [x _ IH]. intros s Hs. destruct (decide (x = 0)%N) as [->|Hx]; [by rewrite pretty_N_go_0|].
    rewrite pretty_N_go_step by lia. apply IH; [apply N.div_lt; lia|]. unfold one_line, all_chars in *. cbn. rewrite Hs, andb_true_r.
    unfold pretty_N_char. by repeat case_match. }
  assert (∀ x : N, one_line (pretty x) = true) as Hn.
  { intros x. unfold pretty, pretty_N. case_decide; [done|]. by apply Hgo. }
  unfold py_str_int. destruct z as [|p|p]; [done|apply (Hn (Npos p))|]. unfold pretty, pretty_Z. unfold one_line, all_chars.
  exact (Hn (Npos p)).
Qed.

Section archive.
Context `{FloatFormat}.

(** Values whose float texts hold no line end. *)
Fixpoint line_json (v : json) : bool :=
  match v with
  | JFloat q => one_line (float_repr q)
  | JArr l => forallb line_json l
  | JObj kvs => forallb (λ p, line_json p.2) kvs
  | _ => true
  end.
Lemma py_join_line l : Forall (λ s, one_line s = true) l → one_line (py_join ", " l) = true.
Proof.
  induction 1 as [|x [|y l] Hx _ IH]; [done|done|]. rewrite join_cons. unfold one_line in *. by rewrite !all_chars_app, Hx, IH.
Qed.
Lemma raw_dumps_line v : line_json v = true → one_line (raw_dumps v) = true.
Proof.
  unfold raw_dumps, one_line. induction v as [|[]|z|q|s|l IH|kvs IH] using json_nested_ind; intros Hv; cbn [dump_with]; try done.
  - apply pretty_line.
  - by rewrite !all_chars_app, raw_escape_line.
  - rewrite !all_chars_app. rewrite (py_join_line (dump_with raw_escape <$> l)); [done|]. cbn [line_json] in Hv. revert Hv.
    induction IH as [|x l Hx _ IHl]; cbn [forallb fmap list_fmap]; [constructor|]. intros [H1 H2]%andb_true_iff. constructor; auto.
  - rewrite !all_chars_app. erewrite py_join_line; [done|]. cbn [line_json] in Hv. revert Hv.
    induction IH as [|x l Hx _ IHl]; cbn [forallb fmap list_fmap]; [constructor|]. intros [H1 H2]%andb_true_iff. constructor; [|auto].
    unfold one_line. by rewrite !all_chars_app, raw_escape_line, Hx.
Qed.

(** ** Records *)
(** A row whose record [json] can write and read back on one line, and whose payload
    column holds canonical text. *)
Definition record_of (r : sqlrow) : PrunedEvent := mkPruned r (row_payload_hash r).
Definition archivable (r : sqlrow) : Prop :=
  ∃ j payload, pruned_record (record_of r) = Ok j ∧ json_ok j ∧ line_json j = true ∧
    sql_get r "payload" = SJson payload ∧ sort_keys payload = payload.

Definition archivable_b (r : sqlrow) : bool :=
  match pruned_record (record_of r), sql_get r "payload" with
  | Ok j, SJson payload => json_check j && line_json j && bool_decide (sort_keys payload = payload)
  | _, _ => false
  end.
Lemma archivable_check r : archivable_b r = true → archivable r.
Proof.
  unfold archivable_b. destruct (pruned_record (record_of r)) as [j|] eqn:Hj; [|done]. destruct (sql_get r "payload") as [| | | |payload] eqn:Hp; try done.
  rewrite !andb_true_iff. intros [[Hc%json_check_ok Hl] Hs%bool_decide_eq_true]. by exists j, payload.
Qed.

Lemma raw_dumps_stripped d : d ≠ [] → py_strip (raw_dumps (JObj d)) = raw_dumps (JObj d) ∧ raw_dumps (JObj d) ≠ "".
Proof.
  intros Hd. unfold raw_dumps. cbn [dump_with]. set (m := py_join _ _). split; [|done].
  change ("{" +:+ (m +:+ "}")) with (String "{" (m +:+ String "}" "")). by apply py_strip_between.
Qed.
Lemma verify_line_record d r : d ≠ [] → json_ok (JObj d) → "_archive_header" ∉ dkeys d →
  verify_line (raw_dumps (JObj d)) r = verify_record (JObj d) r.
Proof.
  intros Hd Hok Hh. unfold verify_line. destruct (raw_dumps_stripped d Hd) as [-> Hne]. rewrite decide_False by done.
  unfold raw_dumps. rewrite parse_dump_with by (apply scan_string_raw || done). cbn. by rewrite bool_decide_false.
Qed.
Lemma verify_line_header now c r : float_ok now → verify_line (raw_dumps (archive_header now c)) r = Ok r.
Proof.
  intros Hf. unfold verify_line. destruct (raw_dumps_stripped [("_archive_header", JObj [("checkpoint_round", JInt (cp_round_received c));
    ("merkle_root", JStr (cp_merkle_root c)); ("members_snapshot_hash", JStr (cp_members_snapshot_hash c)); ("exported_at", JFloat now)])]) as [Hs Hne]; [done|].
  fold (archive_header now c) in Hs, Hne. rewrite Hs, decide_False by done. unfold raw_dumps.
  rewrite parse_dump_with; [done|apply scan_string_raw|]. cbn. split; [apply NoDup_singleton|]. split; [|done].
  split; [|by repeat split]. apply (bool_decide_unpack _). vm_compute. exact I.
Qed.
(** A written record counts as good. *)
Lemma verify_line_archivable r j rep : archivable r → pruned_record (record_of r) = Ok j →
  verify_line (raw_dumps j) rep = Ok (mkArchiveReport (ar_records_ok rep + 1) (ar_records_bad rep) (ar_mismatches rep)) ∧
  one_line (raw_dumps j) = true.
Proof.
  intros (j' & payload & Hr & Hok & Hline & Hp & Hs) Hj. rewrite Hj in Hr. injection Hr as <-. split; [|by apply raw_dumps_line].
  unfold pruned_record in Hj. cbn [pr_row pr_payload_hash record_of] in Hj.
  apply result_bind_Ok in Hj as (vclock & _ & Hj). apply result_bind_Ok in Hj as (parents & _ & Hj). apply result_bind_Ok in Hj as (pl & Hpl & Hj).
  rewrite Hp in Hpl. injection Hpl as <-. injection Hj as <-.
  rewrite verify_line_record; [|done|done|apply (bool_decide_unpack _); vm_compute; exact I].
  unfold verify_record. change (dget_req _ "payload") with (Ok payload). cbn [mbind result_bind].
  change (jget _ "payload_hash") with (JStr (row_payload_hash r)).
  rewrite decide_True; [done|]. unfold row_payload_hash. rewrite Hp. unfold canonical_json. by rewrite Hs.
Qed.

Lemma verify_lines_app a b r : verify_lines (a ++ b) r = (r ← verify_lines a r; verify_lines b r).
Proof.
  revert r. induction a as [|l a IH]; intros r; [done|]. cbn [app verify_lines]. destruct (verify_line l r) as [r1|e]; cbn; [apply IH|done].
Qed.
Lemma verify_records rows js rep : (∀ r, r ∈ rows → archivable r) → mapR pruned_record (record_of <$> rows) = Ok js →
  verify_lines (raw_dumps <$> js) rep = Ok (mkArchiveReport (ar_records_ok rep + Z.of_nat (length rows)) (ar_records_bad rep) (ar_mismatches rep)) ∧
  Forall (λ l, one_line l = true) (raw_dumps <$> js).
Proof.
  revert js rep. induction rows as [|r rows IH]; intros js rep Ha Hjs.
  - injection Hjs as <-. cbn. split; [|constructor]. destruct rep. cbn. do 2 f_equal. lia.
  - cbn [fmap list_fmap mapR] in Hjs. apply result_bind_Ok in Hjs as (j & Hj & Hjs). apply result_bind_Ok in Hjs as (js' & Hjs' & [= <-]).
    destruct (verify_line_archivable r j rep (Ha r (list_elem_of_here _ _)) Hj) as [Hv Hl]. cbn [fmap list_fmap verify_lines]. rewrite Hv.
    cbn [mbind result_bind].
    edestruct (IH js' (mkArchiveReport (ar_records_ok rep + 1) (ar_records_bad rep) (ar_mismatches rep))) as [-> Hls]; [|done|].
    { intros r' Hr'. apply Ha. by right. }
    split; [|by constructor]. cbn [ar_records_ok ar_records_bad ar_mismatches length]. do 2 f_equal. lia.
Qed.
Lemma mapR_records rows : (∀ r, r ∈ rows → archivable r) → ∃ js, mapR pruned_record (record_of <$> rows) = Ok js.
Proof.
  induction rows as [|r rows IH]; intros Ha; [by exists []|]. destruct (Ha r (list_elem_of_here _ _)) as (j & _ & Hj & _).
  destruct IH as [js Hjs]; [intros; apply Ha; by right|]. exists (j :: js). cbn [fmap list_fmap mapR]. by rewrite Hj, Hjs.
Qed.
Lemma run_retention_rows now n : ∃ rows, (run_retention_once now n).2.2 = record_of <$> rows ∧ (∀ r, r ∈ rows → r ∈ db_events (n_db n)) ∧
  (rows ≠ [] → is_Some (latest_confirmed_checkpoint (n_db n))).
Proof.
  assert (∃ rows, ([] : list PrunedEvent) = record_of <$> rows ∧ (∀ r, r ∈ rows → r ∈ db_events (n_db n)) ∧
    (rows ≠ [] → is_Some (latest_confirmed_checkpoint (n_db n)))) as Hnone.
  { exists []. split; [done|]. split; [by intros r ?%elem_of_nil|done]. }
  unfold run_retention_once. destruct (negb _); [done|]. destruct (latest_confirmed_checkpoint (n_db n)) as [c|]; [|done].
  unfold prune_under_checkpoint. cbn [snd]. case_bool_decide; [done|].
  eexists. split; [reflexivity|]. split; [|by eexists]. intros r. unfold sort_on. rewrite sort_by_perm. unfold sql_select. by intros [_ ?]%list_elem_of_filter.
Qed.

(** ** The archive of a node *)
(** Retention passes, at their times and in the states the node is then in, and the
    number of records each should add. *)
Fixpoint archive_passes (ps : list (Q * Node)) (file : string) : string * nat :=
  match ps with
  | [] => (file, 0%nat)
  | (now, n) :: rest =>
      let '(file', k) := archive_passes rest (retention_pass now (Ok ()) n file).1.2 in
      (file', (length (run_retention_once now n).2.2 + k)%nat)
  end.
Definition pass_ok (p : Q * Node) : Prop :=
  float_ok p.1 ∧ one_line (float_repr p.1) = true ∧ ∀ r, r ∈ db_events (n_db p.2) → archivable r.
(** A file of whole lines whose records are good so far. *)
Definition clean_archive (file : string) (k : nat) : Prop :=
  ∃ ls, file = unlines ls ∧ Forall (λ l, one_line l = true) ls ∧ verify_lines ls (mkArchiveReport 0 0 []) = Ok (mkArchiveReport (Z.of_nat k) 0 []).

Lemma clean_archive_chunk now rows c file k : float_ok now → one_line (float_repr now) = true → (∀ r, r ∈ rows → archivable r) →
  clean_archive file k → ∃ js, mapR pruned_record (record_of <$> rows) = Ok js ∧
  clean_archive (file +:+ unlines (archive_chunk now js c)) (k + length rows).
Proof.
  intros Hf Hl Ha (ls & -> & Hls & Hv). destruct (mapR_records rows Ha) as [js Hjs]. exists js. split; [done|].
  exists (ls ++ archive_chunk now js c). split; [by rewrite unlines_app|].
  destruct (verify_records rows js (mkArchiveReport (Z.of_nat k) 0 []) Ha Hjs) as [Hvr Hlr]. split.
  - apply Forall_app. split; [done|]. constructor; [|done]. apply raw_dumps_line. cbn. by rewrite Hl.
  - rewrite verify_lines_app, Hv. cbn [mbind result_bind]. unfold archive_chunk. cbn [verify_lines]. rewrite verify_line_header by done.
    cbn [mbind result_bind]. rewrite Hvr. cbn [ar_records_ok ar_records_bad ar_mismatches]. do 2 f_equal. lia.
Qed.
Lemma retention_pass_clean now n file k : pass_ok (now, n) → clean_archive file k →
  clean_archive (retention_pass now (Ok ()) n file).1.2 (k + length (run_retention_once now n).2.2).
Proof.
  intros (Hf & Hl & Ha) Hc. destruct (run_retention_rows now n) as (rows & Hrows & Hin & Hcp). unfold retention_pass.
  destruct (run_retention_once now n) as [n' [report pruned]]. cbn [fst snd] in *. subst pruned.
  destruct rows as [|r rows]; [cbn; by rewrite Nat.add_0_r|]. destruct (Hcp ltac:(done)) as [c ->].
  destruct (clean_archive_chunk now (r :: rows) c file k Hf Hl) as (js & Hjs & Hclean); [|done|].
  { intros r' Hr'. by apply Ha, Hin. }
  cbn [fmap list_fmap] in Hjs |- *. rewrite Hjs. cbn [fst snd length] in *. by rewrite length_fmap.
Qed.

(** C15: the archive that a node writes over its life verifies: the command counts every
    archived record as good and none as bad, and exits with 0. *)
Theorem archive_verifies ps : Forall pass_ok ps →
  archive_verify (archive_passes ps "").1 = Ok (mkArchiveReport (Z.of_nat (archive_passes ps "").2) 0 []) ∧
  archive_exit_code (mkArchiveReport (Z.of_nat (archive_passes ps "").2) 0 []) = 0.
Proof.
  intros Hps. split; [|done].
  assert (∀ file k, clean_archive file k → clean_archive (archive_passes ps file).1 (k + (archive_passes ps file).2)) as Hrun.
  { induction Hps as [|[now n] ps Hp _ IH]; intros file k Hc; cbn [archive_passes]; [by rewrite Nat.add_0_r|].
    specialize (IH _ _ (retention_pass_clean now n file k Hp Hc)). destruct (archive_passes ps _) as [file' k']. cbn [fst snd] in *.
    by rewrite Nat.add_assoc. }
  destruct (Hrun "" 0%nat) as (ls & -> & Hls & Hv); [by exists []|]. unfold archive_verify. by rewrite text_lines_unlines.
Qed.

(** A clean report binds the payloads: a record that states the hash of a payload
    holds that payload, unless SHA-256 collides on the two texts. *)
Lemma verify_lines_clean ls : ∀ r r', verify_lines ls r = Ok r' → ar_records_bad r' = 0 → 0 <= ar_records_bad r →
  ar_records_bad r = 0 ∧ ∀ l, l ∈ ls → ∃ r1 r2, verify_line l r1 = Ok r2 ∧ ar_records_bad r1 = 0 ∧ ar_records_bad r2 = 0.
Proof.
  assert (∀ l r r', verify_line l r = Ok r' → ar_records_bad r <= ar_records_bad r') as Hmono.
  { intros l r r'. unfold verify_line. case_decide; [intros [= <-]; lia|]. intros (rec & _ & Hr)%result_bind_Ok.
    apply result_bind_Ok in Hr as ([] & _ & Hr); [injection Hr as <-; lia|]. unfold verify_record in Hr. destruct rec; try done.
    apply result_bind_Ok in Hr as (p & _ & Hr). case_decide; injection Hr as <-; cbn; lia. }
  induction ls as [|l ls IH]; intros r r' Hv Hbad H0.
  - injection Hv as ->. split; [done|]. by intros l ?%elem_of_nil.
  - cbn [verify_lines] in Hv. apply result_bind_Ok in Hv as (r1 & Hl & Hv). pose proof (Hmono _ _ _ Hl) as Hm.
    destruct (IH r1 r' Hv Hbad ltac:(lia)) as [H1 H2]. assert (ar_records_bad r = 0) as Hr by lia. split; [done|].
    intros l' [->|Hl']%elem_of_cons; [by exists r, r1|by apply H2].
Qed.
Theorem archive_binds_payloads file rep raw d payload original : archive_verify file = Ok rep → ar_records_bad rep = 0 →
  raw ∈ text_lines file → json_parse (py_strip raw) = Some (JObj d) → "_archive_header" ∉ dkeys d →
  jget d "payload_hash" = JStr (sha256_hex (utf8_encode (canonical_json original))) → dget d "payload" = Some payload →
  collision_free [utf8_encode (canonical_json payload); utf8_encode (canonical_json original)] →
  canonical_json payload = canonical_json original.
Proof.
  intros Hv Hbad Hin Hparse Hh Hstated Hpay Hcf.
  destruct (verify_lines_clean _ _ _ Hv Hbad ltac:(done)) as [_ Hall]. destruct (Hall raw Hin) as (r1 & r2 & Hl & H1 & H2).
  unfold verify_line in Hl. case_decide as He; [rewrite He in Hparse; by vm_compute in Hparse|]. rewrite Hparse in Hl. cbn [result_of_option mbind result_bind header_in] in Hl.
  rewrite bool_decide_false in Hl by done. unfold verify_record, dget_req in Hl. rewrite Hpay in Hl. cbn [result_of_option mbind result_bind] in Hl.
  case_decide as Heq; [|injection Hl as <-; cbn in H2; lia]. rewrite Hstated in Heq.
  apply (f_equal (λ v, match v with JStr s => s | _ => "" end)) in Heq. cbv beta iota in Heq.
  assert (utf8_encode (canonical_json payload) = utf8_encode (canonical_json original)) as E by
    (apply Hcf; [left|right; left|by symmetry]).
  apply (f_equal utf8_decode) in E. rewrite !utf8_decode_encode in E. by injection E.
Qed.
End archive.

(** ** A concrete archive *)
Definition archiving_config : NodeConfig :=
  let c := retention_config in
  mkNodeConfig (cfg_node_id c) (cfg_listen c) [] (cfg_profile c) (cfg_gossip c) (cfg_prioritization c)
    (cfg_hmac_key c) (cfg_sqlite_path c) (cfg_linux_ingest c) (cfg_collectors c)
    (mkRetentionConfig true 104857600 0 false (Some "/var/lib/mdrj/archive.jsonl") 300) (cfg_discovery c) (cfg_notifier c) (cfg_agent_relay c)
    (cfg_heartbeat c) (cfg_runtime c) (cfg_ui_enabled c).
#[local] Instance whole_format : FloatFormat := λ q, py_str_int (Qfloor q) +:+ ".0".
Definition archive_start : Node :=
  let n := new_node 1 archiving_config (mkCatalog EVENT_CATALOG []) empty_db in
  set_n_db (replace_consensus_state [received_state (env_id example_envelope)]
              (store_envelope 100 example_envelope None (n_db n)).1) n.
Definition archive_node : Node := (propose_local_checkpoint 200 1 archive_start).1.
Definition example_archive : string * nat := archive_passes [(1000, archive_node)]%Q "".

Lemma archive_verifies_witness :
  Forall pass_ok [(1000, archive_node)]%Q ∧
  archive_verify example_archive.1 = Ok (mkArchiveReport (Z.of_nat example_archive.2) 0 []) ∧
  archive_exit_code (mkArchiveReport (Z.of_nat example_archive.2) 0 []) = 0.
Proof.
  assert (Forall pass_ok [(1000, archive_node)]%Q) as Hp.
  { apply Forall_singleton. split; [vm_compute; reflexivity|]. split; [vm_compute; reflexivity|].
    cbn [snd]. assert (Forall (λ r, archivable_b r = true) (db_events (n_db archive_node))) as Hall
      by (apply (bool_decide_unpack _); vm_compute; exact I).
    intros r Hr. apply archivable_check. by apply (proj1 (Forall_forall _ _) Hall). }
  split; [exact Hp|]. exact (archive_verifies [(1000, archive_node)]%Q Hp).
Defined.
(** One record is archived, and its event has left the hot storage. *)
Example example_archive_counts : example_archive.2 = 1%nat ∧ archive_verify example_archive.1 = Ok (mkArchiveReport 1 0 []) ∧
  db_events (n_db (retention_pass 1000 (Ok ()) archive_node "").1.1) = [].
Proof. vm_compute. done. Qed.

(** ** What the archive does not give *)

(** The rows are deleted before the file is written: when writing fails, the events
    are neither in hot storage nor in the archive. *)
Example failed_archive_loses_events :
  let '(n', file, r) := retention_pass 1000 (Err (OtherError "OSError")) archive_node "" in
  length (db_events (n_db archive_node)) = 1%nat ∧ db_events (n_db n') = [] ∧ file = "" ∧ r = Err (OtherError "OSError").
Proof. vm_compute. done. Qed.

(** The command compares a payload with a hash of the same file: a record whose payload
    and hash are changed together passes, and so does one with another source. *)
Definition forged_record : json :=
  JObj [("id", JStr (env_id example_envelope)); ("cls", JStr "A"); ("source", JStr "another host");
        ("payload", JObj [("a", JStr "forged")]);
        ("payload_hash", JStr (sha256_hex (utf8_encode (canonical_json (JObj [("a", JStr "forged")])))))].
Example forged_archive_verifies : archive_verify (unlines [raw_dumps forged_record]) = Ok (mkArchiveReport 1 0 []).
Proof. vm_compute. done. Qed.
(** A payload changed alone is reported, and the command exits with 2. *)
Example changed_payload_reported :
  let tampered := match forged_record with
    | JObj d => JObj (dset d "payload" (JObj [("a", JStr "other")])) | v => v end in
  archive_verify (unlines [raw_dumps tampered]) = Ok (mkArchiveReport 0 1 [JStr (env_id example_envelope)]) ∧
  archive_exit_code (mkArchiveReport 0 1 [JStr (env_id example_envelope)]) = 2.
Proof. vm_compute. done. Qed.
