(* ===== verification/Collectors.v ===== *)
(** [mdrj/collectors/]: file integrity, firewall, processes, host life cycle and
    journal.  Each collector is its state and a [poll]: a function of what the host
    shows during the poll that returns the new state, the new status and the events.
    A poll reads the clock several times: [clock i] is the reading number [i]. *)
From stdpp Require Import gmap.
From Stdlib Require Import Qabs.
From S2P Require Import Prelude Sha256 Json Models Config JsonText JsonParse AgentRelay Regex.

(** ** What the collectors share *)
(** [str(Path(p))] on a POSIX host. *)
Definition path_root (p : string) : string :=
  match p with
  | String "/" (String "/" (String "/" _)) => "/"
  | String "/" (String "/" _) => "//"
  | String "/" _ => "/"
  | _ => ""
  end.
Definition path_str (p : string) : string :=
  str_or (path_root p +:+ py_join "/" (filter (λ c, c ≠ "" ∧ c ≠ ".") (py_split "/" p))) ".".
Example path_str_ex : path_str <$> ["//etc///passwd/"; "./a/./b"; ""; "/"; "///x"] = ["//etc/passwd"; "a/b"; "."; "/"; "/x"].
Proof. reflexivity. Qed.

(** [s.split()]: the words between runs of white space. *)
Fixpoint words_from (cur : string) (s : string) : list string :=
  match s with
  | EmptyString => if decide (cur = "") then [] else [string_rev cur]
  | String c s' =>
      if py_isspace c then (if decide (cur = "") then words_from "" s' else string_rev cur :: words_from "" s')
      else words_from (String c cur) s'
  end.
Definition py_words (s : string) : list string := words_from "" s.

(** [s.splitlines()]: line boundaries below code point 256; [\r\n] is one. *)
Definition is_line_end (c : Ascii.ascii) : bool :=
  bool_decide (Ascii.N_of_ascii c ∈ [10; 11; 12; 13; 28; 29; 30; 133]%N).
Fixpoint lines_from (cur : string) (s : string) : list string :=
  match s with
  | EmptyString => if decide (cur = "") then [] else [string_rev cur]
  | String c s' =>
      if is_line_end c then
        string_rev cur ::
        match s' with
        | String d s'' => if bool_decide (c = "013"%char ∧ d = "010"%char) then lines_from "" s'' else lines_from "" s'
        | EmptyString => []
        end
      else lines_from (String c cur) s'
  end.
Definition py_splitlines (s : string) : list string := lines_from "" s.
Example splitlines_ex : py_splitlines (String "a" (String "013" (String "010" (String "010" "b")))) = ["a"; ""; "b"]
  ∧ py_words "  Uid:  0 1 " = ["Uid:"; "0"; "1"].
Proof. split; reflexivity. Qed.

Definition new_status (name : string) (enabled : bool) (err : option string) : CollectorStatus :=
  mkCollectorStatus name enabled None None err 0 0 None.
Definition status_polled (now : Q) (s : CollectorStatus) : CollectorStatus :=
  mkCollectorStatus (ct_name s) (ct_enabled s) (Some now) (ct_last_event_at s) (ct_last_error s) (ct_emitted_count s)
    (ct_dropped_count s) (ct_last_drop_reason s).
Definition status_error (e : option string) (s : CollectorStatus) : CollectorStatus :=
  mkCollectorStatus (ct_name s) (ct_enabled s) (ct_last_poll_at s) (ct_last_event_at s) e (ct_emitted_count s)
    (ct_dropped_count s) (ct_last_drop_reason s).
Definition status_emitted (now : Q) (count : nat) (s : CollectorStatus) : CollectorStatus :=
  mkCollectorStatus (ct_name s) (ct_enabled s) (ct_last_poll_at s) (Some now) (ct_last_error s)
    (ct_emitted_count s + Z.of_nat count) (ct_dropped_count s) (ct_last_drop_reason s).
(** The last lines of every poll: count the events, if there are any. *)
Definition status_events (now : Q) (events : list CollectedEvent) (s : CollectorStatus) : CollectorStatus :=
  match events with [] => s | _ => status_emitted now (length events) s end.

(** What [subprocess.run] gives: output, FileNotFoundError or TimeoutExpired (with
    the text of the exception), or another exception. *)
Inductive run_answer :=
  | RunDone (code : Z) (stdout stderr : string)
  | RunMissing (text : string)
  | RunTimeout (text : string)
  | RunOther (name text : string).
Definition exit_error (cmd : string) (code : Z) (stderr : string) : string :=
  cmd +:+ " exit " +:+ py_str_int code +:+ ": " +:+ py_take 200 (py_strip stderr).

(** [datetime.fromtimestamp(t).isoformat(timespec="seconds")]: depends on the time
    zone of the host. *)
Class LocalTime := local_iso : Q → string.

(** ** [linux_audit.py] *)
Record FileWatchSnapshot := mkSnapshot { fs_mtime_ns : Z; fs_size : Z; fs_sha256 : string }.
#[export] Instance FileWatchSnapshot_eq_dec : EqDecision FileWatchSnapshot.
Proof. solve_decision. Defined.
(** [path.stat()] and the bytes read afterwards ([None]: an OSError). *)
Inductive stat_answer := StatOk (mtime_ns size : Z) | StatMissing | StatDenied | StatOther (e : exn).
Record FileView := mkFileView { fv_stat : stat_answer; fv_bytes : option bytes }.
Record AuditState := mkAudit { au_snapshots : gmap string FileWatchSnapshot; au_first_poll : bool }.
Definition new_audit : AuditState := mkAudit ∅ true.

Section collectors.
Context (host_id node_id : string) `{LocalTime}.

Definition file_snapshot (cfg : LinuxAuditCollectorConfig) (v : FileView) : result (option FileWatchSnapshot) :=
  match fv_stat v with
  | StatMissing | StatDenied => Ok None
  | StatOther e => Err e
  | StatOk mtime size =>
      Ok (Some (mkSnapshot mtime size
        (if size <=? ac_hash_max_bytes cfg then match fv_bytes v with Some b => sha256_hex b | None => "" end else "")))
  end.
(** The status after [_snapshot]: a denied read leaves a message. *)
Definition snapshot_status (path : string) (v : FileView) (s : CollectorStatus) : CollectorStatus :=
  match fv_stat v with StatDenied => status_error (Some ("permission denied: " +:+ path)) s | _ => s end.
Definition modified (a b : FileWatchSnapshot) : bool :=
  bool_decide (fs_sha256 a ≠ fs_sha256 b) || negb (fs_mtime_ns a =? fs_mtime_ns b).
Definition file_modified_event (path : string) (a b : FileWatchSnapshot) : CollectedEvent :=
  annotate host_id node_id (mkCollected "critical_file_modified"
    [("category", JStr "integrity"); ("path", JStr path); ("previous_sha256", JStr (fs_sha256 a));
     ("current_sha256", JStr (fs_sha256 b)); ("size_bytes", JInt (fs_size b));
     ("mtime_iso", JStr (local_iso (inject_Z (fs_mtime_ns b) / 1000000000)))]).

(** The loop over the watched paths; an exception keeps the snapshots made so far. *)
Fixpoint audit_loop (cfg : LinuxAuditCollectorConfig) (view : string → FileView) (first : bool) (paths : list string)
    (snaps : gmap string FileWatchSnapshot) (s : CollectorStatus)
    : gmap string FileWatchSnapshot * CollectorStatus * result (list CollectedEvent) :=
  match paths with
  | [] => (snaps, s, Ok [])
  | raw :: rest =>
      let path := path_str raw in
      let s := snapshot_status path (view path) s in
      match file_snapshot cfg (view path) with
      | Err e => (snaps, s, Err e)
      | Ok None => audit_loop cfg view first rest (delete path snaps) s
      | Ok (Some snap) =>
          let '(snaps', s', r) := audit_loop cfg view first rest (<[path := snap]> snaps) s in
          let evs := match snaps !! path with
                     | Some previous => if negb first && modified previous snap then [file_modified_event path previous snap] else []
                     | None => []
                     end in
          (snaps', s', evs' ← r; Ok (evs ++ evs'))
      end
  end.
Definition audit_poll (cfg : LinuxAuditCollectorConfig) (view : string → FileView) (clock : nat → Q)
    (st : AuditState) (s : CollectorStatus) : AuditState * CollectorStatus * result (list CollectedEvent) :=
  let s := status_polled (clock 0%nat) s in
  if negb (ct_enabled s) then (st, s, Ok [])
  else match audit_loop cfg view (au_first_poll st) (ac_watch_paths cfg) (au_snapshots st) s with
       | (snaps, s, Err e) => (mkAudit snaps (au_first_poll st), s, Err e)
       | (snaps, s, Ok events) => (mkAudit snaps false, status_events (clock 1%nat) events (status_error None s), Ok events)
       end.

(** ** [linux_firewall.py] *)
Record FirewallState := mkFirewall { fwst_last_digest : option string; fwst_first_poll : bool }.
Definition new_firewall : FirewallState := mkFirewall None true.
Definition firewall_cmd (cfg : LinuxFirewallCollectorConfig) : list string :=
  if decide (fw_tool cfg = "nft") then ["nft"; "-a"; "list"; "ruleset"] else ["iptables-save"].
Definition firewall_tool_name (cfg : LinuxFirewallCollectorConfig) : string := default "" (head (firewall_cmd cfg)).
(** [available]: [shutil.which]. *)
Definition firewall_status (cfg : LinuxFirewallCollectorConfig) (available : bool) : CollectorStatus :=
  if available then new_status "linux_firewall" true None
  else new_status "linux_firewall" false (Some (firewall_tool_name cfg +:+ " not available")).
Definition firewall_event (cfg : LinuxFirewallCollectorConfig) (previous : option string) (digest stdout : string) : CollectedEvent :=
  annotate host_id node_id (mkCollected "iptables_rule_changed"
    [("category", JStr "network"); ("tool", JStr (fw_tool cfg)); ("previous_digest", jopt JStr previous);
     ("current_digest", JStr digest); ("ruleset_bytes", JInt (Z.of_nat (String.length stdout)))]).
Definition firewall_poll (cfg : LinuxFirewallCollectorConfig) (run : run_answer) (clock : nat → Q)
    (st : FirewallState) (s : CollectorStatus) : FirewallState * CollectorStatus * result (list CollectedEvent) :=
  let s := status_polled (clock 0%nat) s in
  if negb (ct_enabled s) then (st, s, Ok [])
  else match run with
       | RunMissing text => (st, status_error (Some ("FileNotFoundError: " +:+ text)) s, Ok [])
       | RunTimeout text => (st, status_error (Some ("TimeoutExpired: " +:+ text)) s, Ok [])
       | RunOther _ text => (st, s, Err (OtherError text))
       | RunDone code stdout stderr =>
           if negb (code =? 0) then (st, status_error (Some (exit_error (firewall_tool_name cfg) code stderr)) s, Ok [])
           else
             let s := status_error None s in
             let digest := sha256_hex (utf8_encode stdout) in
             let previous := fwst_last_digest st in
             let st' := mkFirewall (Some digest) false in
             if fwst_first_poll st then (st', s, Ok [])
             else if decide (previous = Some digest) then (st', s, Ok [])
             else let e := firewall_event cfg previous digest stdout in (st', status_emitted (clock 1%nat) 1 s, Ok [e])
       end.

(** ** [linux_proc.py] *)
Record ProcInfo := mkProcInfo { pi_comm : string; pi_exe : string; pi_uid : option Z }.
(** The files of [/proc/<pid>]; [None] is an OSError. *)
Record ProcView := mkProcView { pv_comm : option string; pv_exe : option string; pv_status : option string }.
Record ProcState := mkProc { pr_seen_pids : gset Z; pr_first_poll : bool }.
Definition new_proc : ProcState := mkProc ∅ true.
Definition proc_status (cfg : LinuxProcCollectorConfig) (root_is_dir : bool) : CollectorStatus :=
  if root_is_dir then new_status "linux_proc" true None
  else new_status "linux_proc" false (Some (prc_proc_root cfg +:+ " not a directory")).

Fixpoint status_uid (lines : list string) : result (option Z) :=
  match lines with
  | [] => Ok None
  | l :: rest =>
      if String.prefix "Uid:" l then
        match py_words l with
        | _ :: w :: _ => u ← result_of_option (ValueError "invalid literal for int()") (int_of_str w); Ok (Some u)
        | _ => Ok None
        end
      else status_uid rest
  end.
Definition read_proc (v : ProcView) : result (option ProcInfo) :=
  match pv_comm v, pv_status v with
  | Some comm, Some status =>
      uid ← status_uid (py_splitlines status);
      Ok (Some (mkProcInfo (py_strip comm) (default "" (pv_exe v)) uid))
  | _, _ => Ok None
  end.
(** The entries of the directory whose names are numbers. *)
Definition iter_pids (entries : list string) : list Z :=
  omap (λ name, if py_isdigit name then int_of_str name else None) entries.

Definition blocklist_lower (cfg : LinuxProcCollectorConfig) : list string :=
  py_lower <$> filter (λ name, name ≠ "") (prc_blocklist cfg).
Definition exe_basename (info : ProcInfo) : string := py_lower (default "" (last (py_split "/" (pi_exe info)))).
Definition malicious (cfg : LinuxProcCollectorConfig) (info : ProcInfo) : bool :=
  bool_decide (exe_basename info ≠ "" ∧ exe_basename info ∈ blocklist_lower cfg) ||
  bool_decide (py_lower (pi_comm info) ∈ blocklist_lower cfg).
Definition privileged (cfg : LinuxProcCollectorConfig) (info : ProcInfo) : bool :=
  match pi_uid info with Some u => bool_decide (u ∈ prc_privileged_uids cfg) | None => false end.
Definition malicious_event (cfg : LinuxProcCollectorConfig) (pid : Z) (info : ProcInfo) : CollectedEvent :=
  annotate host_id node_id (mkCollected "known_malicious_process"
    [("category", JStr "malware"); ("pid", JInt pid); ("exe", JStr (pi_exe info)); ("comm", JStr (pi_comm info));
     ("uid", jopt JInt (pi_uid info));
     ("matched", JStr (if decide (exe_basename info ∈ blocklist_lower cfg) then exe_basename info else py_lower (pi_comm info)))]).
Definition privileged_event (pid : Z) (info : ProcInfo) : CollectedEvent :=
  annotate host_id node_id (mkCollected "privileged_process_started"
    [("category", JStr "process"); ("pid", JInt pid); ("exe", JStr (pi_exe info)); ("comm", JStr (pi_comm info));
     ("uid", jopt JInt (pi_uid info))]).
Definition proc_events (cfg : LinuxProcCollectorConfig) (pid : Z) (info : ProcInfo) : list CollectedEvent :=
  if malicious cfg info then [malicious_event cfg pid info]
  else if privileged cfg info then [privileged_event pid info] else [].

Fixpoint proc_loop (cfg : LinuxProcCollectorConfig) (view : Z → ProcView) (st : ProcState) (pids : list Z)
    : result (list CollectedEvent) :=
  match pids with
  | [] => Ok []
  | pid :: rest =>
      evs ← (if decide (pid ∈ pr_seen_pids st) then Ok []
             else info ← read_proc (view pid);
                  Ok (match info with
                      | None => []
                      | Some i => if pr_first_poll st then [] else proc_events cfg pid i
                      end));
      evs' ← proc_loop cfg view st rest;
      Ok (evs ++ evs')
  end.
(** [entries]: the names in the directory, with the OSError that ended the listing. *)
Definition proc_poll (cfg : LinuxProcCollectorConfig) (entries : list string) (listing_error : option string)
    (view : Z → ProcView) (clock : nat → Q) (st : ProcState) (s : CollectorStatus)
    : ProcState * CollectorStatus * result (list CollectedEvent) :=
  let s := status_polled (clock 0%nat) s in
  if negb (ct_enabled s) then (st, s, Ok [])
  else match proc_loop cfg view st (iter_pids entries) with
       | Err e => (st, s, Err e)
       | Ok events =>
           let s := match listing_error with Some _ => status_error listing_error s | None => s end in
           (mkProc (list_to_set (iter_pids entries)) false, status_events (clock 1%nat) events (status_error None s), Ok events)
       end.

(** ** [host_lifecycle.py]

    The two descriptions are Russian sentences, outside the model's strings. *)
Context (boot_description reboot_description : string).
Inductive uptime_answer := UptimeText (text : string) | UptimeFailed (text : string) | UptimeOther (e : exn).
Record HostState := mkHost { hs_known_boot_time : option pyfloat; hs_first_poll_done : bool }.
Definition new_host : HostState := mkHost None false.
Definition host_status (cfg : HostLifecycleCollectorConfig) (exists_ : bool) : CollectorStatus :=
  if negb (hc_enabled cfg) then new_status "host_lifecycle" false None
  else if negb exists_ then
    new_status "host_lifecycle" false (Some (hc_proc_uptime_path cfg +:+ " not a regular file"))
  else new_status "host_lifecycle" true None.
Definition read_boot_time (a : uptime_answer) (now : Q) (s : CollectorStatus) : CollectorStatus * result (option Q) :=
  match a with
  | UptimeOther e => (s, Err e)
  | UptimeFailed text => (status_error (Some ("read /proc/uptime failed: " +:+ text)) s, Ok None)
  | UptimeText text =>
      match w ← head (py_words text); float_of_str w with
      | Some uptime => (s, Ok (Some (now - uptime)%Q))
      | None => (status_error (Some "failed to parse /proc/uptime") s, Ok None)
      end
  end.
Definition host_boot_event (boot now : Q) : CollectedEvent :=
  annotate host_id node_id (mkCollected "host_boot"
    [("category", JStr "system_lifecycle"); ("boot_time", JFloat boot); ("uptime_at_observation_sec", JFloat (now - boot)%Q);
     ("description", JStr boot_description)]).
Definition host_reboot_event (known boot : Q) : CollectedEvent :=
  annotate host_id node_id (mkCollected "host_reboot"
    [("category", JStr "system_lifecycle"); ("previous_boot_time", JFloat known); ("new_boot_time", JFloat boot);
     ("drift_sec", JFloat (Qabs (boot - known))); ("description", JStr reboot_description)]).
Definition host_poll (cfg : HostLifecycleCollectorConfig) (a : uptime_answer) (clock : nat → Q)
    (st : HostState) (s : CollectorStatus) : HostState * CollectorStatus * result (list CollectedEvent) :=
  let s := status_polled (clock 0%nat) s in
  if negb (ct_enabled s) then (st, s, Ok [])
  else match read_boot_time a (clock 1%nat) s with
       | (s, Err e) => (st, s, Err e)
       | (s, Ok None) => (st, s, Ok [])
       | (s, Ok (Some boot)) =>
           let s := status_error None s in
           if negb (hs_first_poll_done st) then
             (mkHost (Some boot) true, status_emitted (clock 3%nat) 1 s, Ok [host_boot_event boot (clock 2%nat)])
           else match hs_known_boot_time st with
                | Some known =>
                    if (hc_boot_time_drift_threshold_sec cfg <?q Qabs (boot - known))%Q then
                      (mkHost (Some boot) true, status_emitted (clock 2%nat) 1 s, Ok [host_reboot_event known boot])
                    else (st, s, Ok [])
                | None => (st, s, Ok [])
                end
       end.

(** ** [linux_journald.py] *)
Record JournaldState := mkJournald {
  jd_failure_window : list pyfloat; jd_last_cursor : option json; jd_last_burst_emit_at : pyfloat }.
Definition new_journald : JournaldState := mkJournald [] None 0.
Definition journald_status (available : bool) : CollectorStatus :=
  if available then new_status "linux_journald" true None
  else new_status "linux_journald" false (Some "journalctl not available").

(** [r"Failed (?:password|publickey) for (?:invalid user )?(?P<user>\S+) from (?P<ip>\S+)"] *)
Definition FAILED_SSH_RE : re :=
  rseq [rlit "Failed "; RAlt (rlit "password") (rlit "publickey"); rlit " for "; ROpt (rlit "invalid user ");
        RGroup "user" (rplus non_space); rlit " from "; RGroup "ip" (rplus non_space)].

(** [deque(maxlen=2048)] *)
Definition window_append (w : list pyfloat) (t : Q) : list pyfloat := let w' := w ++ [t] in drop (length w' - 2048) w'.
Fixpoint pop_before (cutoff : Q) (w : list pyfloat) : list pyfloat :=
  match w with t :: w' => if (t <?q cutoff)%Q then pop_before cutoff w' else w | [] => [] end.

Definition journal_args (journalctl : string) (cfg : JournaldCollectorConfig) (st : JournaldState) : list json :=
  (JStr <$> [journalctl; "--output=json"; "--no-pager"; "-n"; "200"]) ++
  (match jd_last_cursor st with
   | Some c => [JStr "--after-cursor"; c]
   | None => [JStr "--since"; JStr ("-" +:+ py_str_int (Qtrunc (Qmax (1#5) (jc_poll_interval_sec cfg) * 3)) +:+ "s")]
   end) ++
  (u ← jc_units cfg; [JStr "-u"; JStr u]).

Definition journal_realtime_ts (record : odict json) (now : Q) : Q :=
  match jget record "__REALTIME_TIMESTAMP" with
  | JNull => now
  | raw => match py_int raw with Ok z => (inject_Z z / 1000000)%Q | Err _ => now end
  end.

Definition login_failure_event (user ip message : string) (ts : Q) : CollectedEvent :=
  annotate host_id node_id (mkCollected "admin_login_failure"
    [("principal", JStr user); ("source_ip", JStr ip); ("target_service", JStr "sshd"); ("result", JStr "failure");
     ("occurred_at", JStr (local_iso ts)); ("category", JStr "authentication"); ("raw_line", JStr message)]).
Definition journal_burst_event (cfg : JournaldCollectorConfig) (count : nat) (first ts : Q) : CollectedEvent :=
  annotate host_id node_id (mkCollected "failed_login_burst"
    [("category", JStr "authentication"); ("count", JInt (Z.of_nat count)); ("window_sec", JInt (jc_burst_window_sec cfg));
     ("first_failure_at", JStr (local_iso first)); ("last_failure_at", JStr (local_iso ts))]).

Definition journal_maybe_emit_burst (cfg : JournaldCollectorConfig) (now ts : Q) (st : JournaldState)
    : JournaldState * result (list CollectedEvent) :=
  let w := pop_before (ts - inject_Z (jc_burst_window_sec cfg))%Q (jd_failure_window st) in
  let st := mkJournald w (jd_last_cursor st) (jd_last_burst_emit_at st) in
  if Z.of_nat (length w) <? jc_burst_threshold cfg then (st, Ok [])
  else if (now - jd_last_burst_emit_at st <?q inject_Z (jc_burst_window_sec cfg))%Q then (st, Ok [])
  else match w with
       | [] => (mkJournald w (jd_last_cursor st) now, Err (IndexError "deque index out of range"))
       | first :: _ => (mkJournald w (jd_last_cursor st) now, Ok [journal_burst_event cfg (length w) first ts])
       end.

Section journal.
Context `{FloatFormat}.

(** One message, [now] and [now'] being the readings of the clock. *)
Definition journal_message (cfg : JournaldCollectorConfig) (message : string) (record : odict json) (now now' : Q)
    (st : JournaldState) : JournaldState * result (list CollectedEvent) :=
  match py_search FAILED_SSH_RE message with
  | None => (st, Ok [])
  | Some m =>
      let ts := journal_realtime_ts record now' in
      let e := login_failure_event (group m "user") (group m "ip") message ts in
      let st := mkJournald (window_append (jd_failure_window st) ts) (jd_last_cursor st) (jd_last_burst_emit_at st) in
      let '(st, r) := journal_maybe_emit_burst cfg now ts st in
      (st, burst ← r; Ok (e :: burst))
  end.
Definition journal_line (cfg : JournaldCollectorConfig) (line : string) (now now' : Q) (st : JournaldState)
    : JournaldState * result (list CollectedEvent) :=
  match json_parse (py_strip line) with
  | None => (st, Ok [])
  | Some (JObj record) =>
      let cursor := jget record "__CURSOR" in
      let st := if py_bool cursor then mkJournald (jd_failure_window st) (Some cursor) (jd_last_burst_emit_at st) else st in
      journal_message cfg (py_str (py_or (jget record "MESSAGE") (JStr ""))) record now now' st
  | Some _ => (st, Err (OtherError "object has no attribute 'get'"))
  end.
(** The lines of a poll; line [i] reads the clock at [1 + 2 i] and [2 + 2 i]. *)
Fixpoint journal_lines (cfg : JournaldCollectorConfig) (clock : nat → Q) (i : nat) (lines : list string) (st : JournaldState)
    : JournaldState * result (list CollectedEvent) :=
  match lines with
  | [] => (st, Ok [])
  | l :: rest =>
      match (if decide (py_strip l = "") then (st, Ok []) else journal_line cfg l (clock (1 + 2 * i)%nat) (clock (2 + 2 * i)%nat) st) with
      | (st, Err e) => (st, Err e)
      | (st, Ok evs) =>
          let '(st, r) := journal_lines cfg clock (S i) rest st in
          (st, evs' ← r; Ok (evs ++ evs'))
      end
  end.
(** [run]: what [journalctl] answers to its arguments. *)
Definition journald_poll (journalctl : string) (cfg : JournaldCollectorConfig) (run : list json → run_answer) (clock : nat → Q)
    (st : JournaldState) (s : CollectorStatus) : JournaldState * CollectorStatus * result (list CollectedEvent) :=
  let s := status_polled (clock 0%nat) s in
  if negb (ct_enabled s) then (st, s, Ok [])
  else match run (journal_args journalctl cfg st) with
       | RunMissing text => (st, status_error (Some text) s, Ok [])
       | RunTimeout text => (st, status_error (Some ("TimeoutExpired: " +:+ text)) s, Ok [])
       | RunOther name text => (st, status_error (Some (name +:+ ": " +:+ text)) s, Ok [])
       | RunDone code stdout stderr =>
           if negb (code =? 0) then
             (st, status_error (Some ("RuntimeError: " +:+ exit_error "journalctl" code stderr)) s, Ok [])
           else
             let s := status_error None s in
             let lines := py_splitlines stdout in
             match journal_lines cfg clock 0 lines st with
             | (st, Err e) => (st, s, Err e)
             | (st, Ok events) => (st, status_events (clock (1 + 2 * length lines)%nat) events s, Ok events)
             end
       end.
End journal.
End collectors.

(** ** [Node._build_collectors]: the statuses of the collectors a node runs, given
    what the host has. *)
Record HostTools := mkHostTools { ht_journalctl : bool; ht_firewall : bool; ht_proc_dir : bool; ht_uptime_file : bool }.
Definition build_collectors (cfg : CollectorsConfig) (tools : HostTools) : list CollectorStatus :=
  (if jc_enabled (co_journald cfg) then [journald_status (ht_journalctl tools)] else []) ++
  (if ac_enabled (co_audit cfg) then [new_status "linux_audit" true None] else []) ++
  (if fw_enabled (co_firewall cfg) then [firewall_status (co_firewall cfg) (ht_firewall tools)] else []) ++
  (if prc_enabled (co_proc cfg) then [proc_status (co_proc cfg) (ht_proc_dir tools)] else []) ++
  (if hc_enabled (co_host_lifecycle cfg) then [host_status (co_host_lifecycle cfg) (ht_uptime_file tools)] else []).
