(* ===== verification/HostFigures.v ===== *)
(** [Node._collect_host_health] of [mdrj/node.py]: the host figures of the hourly
    status, from the texts of /proc and the answer of [statvfs]. *)
From Stdlib Require Import QArith.Qabs.
From S2P Require Import Prelude Sha256 Json VectorClock Models Consensus Storage Config Metrics Prioritization Gossip Checkpoint Auth Catalog Node NodeEvents NodeCheckpoints AgentRelay Notifier NodeLoops Regex Collectors.

(** [None]: opening, reading or decoding the file failed, or [statvfs] did. *)
Record HostFiles := mkHostFiles {
  hf_uptime : option string; hf_loadavg : option string; hf_meminfo : option string; hf_statvfs : option (Z * Z) }.

(** [float(fp.read().split()[0])], 0.0 when anything raised. *)
Definition first_float (text : option string) : pyfloat := default 0%Q (t ← text; w ← head (py_words t); float_of_str w).

(** [round(x, 1)] *)
Definition round1 (x : Q) : Q := (inject_Z (py_round (x * 10)) / 10)%Q.
(** [round((1.0 - free / total) * 100.0, 1)] *)
Definition used_pct (free total : Z) : Q := round1 ((1 - inject_Z free / inject_Z total) * 100)%Q.

(** The entry of a line with a colon; [None]: the value is blank, an [IndexError]. *)
Definition meminfo_entry (ln : string) : option (option (string * string)) :=
  match py_split_max ":" 1 ln with
  | [k; v] => w ← head (py_words v); Some (Some (k, w))
  | _ => Some None
  end.
Fixpoint meminfo_dict (lines : list string) (d : odict string) : option (odict string) :=
  match lines with
  | [] => Some d
  | ln :: rest => e ← meminfo_entry ln; meminfo_dict rest (match e with Some (k, v) => dset d k v | None => d end)
  end.
Definition mem_used_pct (text : option string) : Q :=
  default 0%Q (t ← text; d ← meminfo_dict (py_splitlines t) [];
    total ← int_of_str (default "1" (dget d "MemTotal"));
    available ← int_of_str (default "0" (dget d "MemAvailable"));
    if 0 <? total then Some (used_pct available total) else Some 0%Q).
Definition disk_used_pct (answer : option (Z * Z)) : Q :=
  match answer with Some (blocks, bavail) => if 0 <? blocks then used_pct bavail blocks else 0%Q | None => 0%Q end.
Definition collect_host_health (files : HostFiles) : HostHealth :=
  mkHealth (first_float (hf_uptime files)) (first_float (hf_loadavg files)) (mem_used_pct (hf_meminfo files)) (disk_used_pct (hf_statvfs files)).

Definition sample_meminfo : string := "MemTotal:       16000 kB" +:+ newline +:+ "MemFree:  100 kB" +:+ newline +:+ "MemAvailable:    4000 kB" +:+ newline.
Example collect_ex :
  let h := collect_host_health (mkHostFiles (Some "12.5 3.0") (Some "0.25 0.1 0.1 1/100 5") (Some sample_meminfo) (Some (100, 1))) in
  (hh_uptime h == 125 # 10)%Q ∧ (hh_load h == 25 # 100)%Q ∧ (hh_mem h == 75)%Q ∧ (hh_disk h == 99)%Q.
Proof. vm_compute. by split_and!. Qed.
(** A line of /proc/meminfo without a value hides the memory figure. *)
Example blank_line_hides_memory : mem_used_pct (Some (sample_meminfo +:+ "Odd:" +:+ newline)) = 0%Q.
Proof. vm_compute. reflexivity. Qed.

(** ** Bounds *)
Lemma py_round_near x : (Qabs (inject_Z (py_round x) - x) <= 1 # 2)%Q.
Proof.
  unfold py_round. pose proof (Qfloor_le x) as H1. pose proof (Qlt_floor x) as H2. rewrite inject_Z_plus in H2. change (inject_Z 1) with 1%Q in H2.
  apply Qabs_Qle_condition. repeat case_if; reflect_bool; rewrite ?inject_Z_plus; change (inject_Z 1) with 1%Q; split; lra.
Qed.
Lemma div_10 a : (a / 10 == a * (1 # 10))%Q.
Proof. reflexivity. Qed.
Lemma round1_near x : (Qabs (round1 x - x) <= 1 # 20)%Q.
Proof.
  unfold round1. pose proof (py_round_near (x * 10)) as H. apply Qabs_Qle_condition in H as [H1 H2]. apply Qabs_Qle_condition. rewrite div_10. split; lra.
Qed.
Lemma round1_mono x y : (x <= y)%Q → (round1 x <= round1 y)%Q.
Proof.
  intros Hxy. unfold round1. assert (inject_Z (py_round (x * 10)) <= inject_Z (py_round (y * 10)))%Q; [|rewrite !div_10; lra].
  rewrite <- Zle_Qle. apply py_round_mono. lra.
Qed.
(** A share of a total is a percentage, to a twentieth of a percent. *)
Lemma used_pct_bounds free total : 0 <= free <= total → 0 < total →
  (0 <= used_pct free total <= 100)%Q ∧ (Qabs (used_pct free total - (1 - inject_Z free / inject_Z total) * 100) <= 1 # 20)%Q.
Proof.
  intros [H0 H1] Ht. split; [|apply round1_near].
  assert (0 < inject_Z total)%Q as Hq by (change 0%Q with (inject_Z 0); by rewrite <- Zlt_Qlt).
  assert (0 <= inject_Z free)%Q as Hf by (change 0%Q with (inject_Z 0); by rewrite <- Zle_Qle).
  assert (0 <= inject_Z free / inject_Z total)%Q as L by (apply Qle_shift_div_l; lra).
  assert (inject_Z free / inject_Z total <= 1)%Q as U by (apply Qle_shift_div_r; [done|]; rewrite Qmult_1_l; by rewrite <- Zle_Qle).
  split.
  - apply (Qle_trans _ (round1 0)); [vm_compute; discriminate|]. apply round1_mono. lra.
  - apply (Qle_trans _ (round1 100)); [|vm_compute; discriminate]. apply round1_mono. lra.
Qed.
(** What cannot be read is zero, and hides nothing else. *)
Lemma unreadable_host : collect_host_health (mkHostFiles None None None None) = mkHealth 0 0 0 0.
Proof. reflexivity. Qed.
