(* ===== verification/CollectorsFacts.v ===== *)
(** Theorems about [mdrj/collectors/]: over successive polls a collector reports the
    differences between what the host showed, and what it misses. *)
From stdpp Require Import gmap.
From Stdlib Require Import Qabs.
From S2P Require Import Prelude Sha256 Json Models Config JsonText JsonParse AgentRelay Regex Collectors.

Lemma bind_ext_elem {A B} (f g : A → list B) l : (∀ x, x ∈ l → f x = g x) → (x ← l; f x) = (x ← l; g x).
Proof.
  induction l as [|a l IH]; intros H; [done|]. rewrite !bind_cons. f_equal; [apply H; left|].
  apply IH. intros x Hx. apply H. by right.
Qed.

Lemma status_events_enabled now evs s : ct_enabled (status_events now evs s) = ct_enabled s.
Proof. by destruct evs. Qed.

Section facts.
Context (host_id node_id : string) `{LocalTime}.

(** ** File integrity *)
Section audit.
Context (cfg : LinuxAuditCollectorConfig).
#[local] Abbreviation paths := (path_str <$> ac_watch_paths cfg).
#[local] Abbreviation apoll := (audit_poll host_id node_id cfg).

(** *** The specification

    What a poll finds of a watched path: modification time, size and digest, when the
    file is there and can be examined; the content of a large file, or one that
    cannot be read, has no digest. *)
Definition found (v : string → FileView) (path : string) : option (Z * Z * string) :=
  match fv_stat (v path) with
  | StatOk mtime_ns size =>
      let hashed := bool_decide (size <= ac_hash_max_bytes cfg) in
      Some (mtime_ns, size, match fv_bytes (v path) with Some content => if hashed then sha256_hex content else "" | None => "" end)
  | _ => None
  end.
(** No watched path raises another error than "missing" or "denied". *)
Definition stat_answers (v : string → FileView) : Prop := ∀ path, path ∈ paths → ∀ e, fv_stat (v path) ≠ StatOther e.
(** The watched files that both polls find, and whose time or digest differ. *)
Definition file_changes (v1 v2 : string → FileView) : list CollectedEvent :=
  path ← paths;
  match found v1 path, found v2 path with
  | Some (mtime1, _, digest1), Some (mtime2, size2, digest2) =>
      if decide (mtime1 = mtime2 ∧ digest1 = digest2) then []
      else [annotate host_id node_id (mkCollected "critical_file_modified"
              [("category", JStr "integrity"); ("path", JStr path); ("previous_sha256", JStr digest1); ("current_sha256", JStr digest2);
               ("size_bytes", JInt size2); ("mtime_iso", JStr (local_iso (inject_Z mtime2 / 1000000000)))])]
  | _, _ => []
  end.

(** *** The same in terms of the collector *)
Definition seen_snapshot (v : string → FileView) (path : string) : option FileWatchSnapshot :=
  match file_snapshot cfg (v path) with Ok o => o | Err _ => None end.
Definition change_events (before : option FileWatchSnapshot) (after : option FileWatchSnapshot) (path : string) : list CollectedEvent :=
  match before, after with
  | Some a, Some b => if modified a b then [file_modified_event host_id node_id path a b] else []
  | _, _ => []
  end.
Lemma seen_found v path : seen_snapshot v path = (λ f : Z * Z * string, mkSnapshot f.1.1 f.1.2 f.2) <$> found v path.
Proof.
  unfold seen_snapshot, file_snapshot, found. destruct (fv_stat (v path)) as [mtime size| | |e]; try done. cbn. do 2 f_equal.
  case_bool_decide as Hs; [apply Z.leb_le in Hs as ->; by destruct (fv_bytes _)|].
  destruct (Z.leb_spec size (ac_hash_max_bytes cfg)); [lia|by destruct (fv_bytes _)].
Qed.
Lemma file_changes_seen v1 v2 : file_changes v1 v2 = (path ← paths; change_events (seen_snapshot v1 path) (seen_snapshot v2 path) path).
Proof.
  unfold file_changes. apply bind_ext_elem. intros path _. rewrite !seen_found. unfold change_events.
  destruct (found v1 path) as [[[m1 s1] d1]|], (found v2 path) as [[[m2 s2] d2]|]; cbn; try done.
  unfold modified. cbn. destruct (decide (m1 = m2 ∧ d1 = d2)) as [[-> ->]|Hn].
  - by rewrite bool_decide_false, Z.eqb_refl by tauto.
  - destruct (Z.eqb_spec m1 m2) as [->|]; [|by rewrite orb_true_r]. rewrite bool_decide_true; [done|]. intros ->. by apply Hn.
Qed.
Lemma stat_answers_ok v path : stat_answers v → path ∈ paths → is_ok (file_snapshot cfg (v path)) = true.
Proof. intros Hv Hp. specialize (Hv path Hp). unfold file_snapshot. destruct (fv_stat (v path)) as [| | |e]; try done. by destruct (Hv e). Qed.

Lemma audit_loop_spec v first ps snaps s : NoDup (path_str <$> ps) → (∀ p, p ∈ path_str <$> ps → is_ok (file_snapshot cfg (v p)) = true) →
  ∃ snaps' s', audit_loop host_id node_id cfg v first ps snaps s =
      (snaps', s', Ok (path ← path_str <$> ps; if (first : bool) then [] else change_events (snaps !! path) (seen_snapshot v path) path))
    ∧ ct_enabled s' = ct_enabled s
    ∧ (∀ p, p ∈ path_str <$> ps → snaps' !! p = seen_snapshot v p)
    ∧ (∀ p, p ∉ path_str <$> ps → snaps' !! p = snaps !! p).
Proof.
  revert snaps s. induction ps as [|raw ps IH]; intros snaps s Hnd Hok.
  { exists snaps, s. split; [done|]. split; [done|]. split; [intros p Hp; inversion Hp|done]. }
  cbn [audit_loop]. rewrite fmap_cons in Hnd, Hok |- *. apply NoDup_cons in Hnd as [Hni Hnd].
  set (path := path_str raw) in *. set (s1 := snapshot_status path (v path) s).
  assert (ct_enabled s1 = ct_enabled s) as Hen by (unfold s1, snapshot_status; destruct (fv_stat (v path)); reflexivity).
  assert (∀ snaps1 snaps' : gmap string FileWatchSnapshot, (∀ p, p ∈ path_str <$> ps → snaps' !! p = seen_snapshot v p) →
     (∀ p, p ∉ path_str <$> ps → snaps' !! p = snaps1 !! p) → snaps1 !! path = seen_snapshot v path →
     (∀ p, p ≠ path → snaps1 !! p = snaps !! p) →
     (∀ p, p ∈ path :: (path_str <$> ps) → snaps' !! p = seen_snapshot v p) ∧
     (∀ p, p ∉ path :: (path_str <$> ps) → snaps' !! p = snaps !! p)) as Hframe.
  { intros snaps1 snaps' H1 H2 H3 H4. split.
    - intros p [->|Hp]%elem_of_cons; [by rewrite H2|by apply H1].
    - intros p Hp. rewrite not_elem_of_cons in Hp. destruct Hp. by rewrite H2, H4. }
  assert (∀ snaps1 : gmap string FileWatchSnapshot, (∀ p, p ≠ path → snaps1 !! p = snaps !! p) →
     (p ← path_str <$> ps; if first then [] else change_events (snaps1 !! p) (seen_snapshot v p) p) =
     (p ← path_str <$> ps; if first then [] else change_events (snaps !! p) (seen_snapshot v p) p)) as Hrest.
  { intros snaps1 H1. apply bind_ext_elem. intros p Hp. rewrite H1; [done|]. by intros ->. }
  assert (is_ok (file_snapshot cfg (v path)) = true) as Hv by (apply Hok; left).
  assert (seen_snapshot v path = match file_snapshot cfg (v path) with Ok o => o | Err _ => None end) as Hseen by done.
  destruct (file_snapshot cfg (v path)) as [[snap|]|]; [| |done].
  - destruct (IH (<[path := snap]> snaps) s1) as (snaps' & s' & -> & H2 & H3 & H4); [done|set_solver|].
    exists snaps', s'. split; [|split; [by rewrite H2|apply (Hframe (<[path := snap]> snaps)); try done]].
    + cbn [mbind result_bind]. rewrite bind_cons, Hseen, (Hrest (<[path := snap]> snaps)) by (intros; by rewrite lookup_insert_ne).
      do 2 f_equal. destruct first, (snaps !! path); simpl; try done.
    + by rewrite lookup_insert_eq.
    + intros. by rewrite lookup_insert_ne.
  - destruct (IH (delete path snaps) s1) as (snaps' & s' & -> & H2 & H3 & H4); [done|set_solver|].
    exists snaps', s'. split; [|split; [by rewrite H2|apply (Hframe (delete path snaps)); try done]].
    + rewrite bind_cons, Hseen, (Hrest (delete path snaps)) by (intros; by rewrite lookup_delete_ne).
      by destruct first, (snaps !! path).
    + by rewrite lookup_delete_eq.
    + intros. by rewrite lookup_delete_ne.
Qed.

(** A run: what the host shows at each poll, and the answer of each poll. *)
Fixpoint audit_run (views : list ((string → FileView) * (nat → Q))) (st : AuditState) (s : CollectorStatus)
    : list (result (list CollectedEvent)) :=
  match views with
  | [] => []
  | (v, c) :: rest => let '(st', s', r) := apoll v c st s in r :: audit_run rest st' s'
  end.

Lemma audit_poll_spec v c st s : ct_enabled s = true → NoDup paths → stat_answers v →
  ∃ st' s', apoll v c st s =
      (st', s', Ok (path ← paths; if au_first_poll st then [] else change_events (au_snapshots st !! path) (seen_snapshot v path) path))
    ∧ ct_enabled s' = true ∧ au_first_poll st' = false
    ∧ ∀ p, p ∈ paths → au_snapshots st' !! p = seen_snapshot v p.
Proof.
  intros Hen Hnd Hok. unfold audit_poll. cbn [ct_enabled status_polled]. rewrite Hen. cbn [negb].
  destruct (audit_loop_spec v (au_first_poll st) (ac_watch_paths cfg) (au_snapshots st) (status_polled (c 0%nat) s))
    as (snaps' & s' & -> & H2 & H3 & _); [done|intros p; by apply stat_answers_ok|].
  eexists _, _. split; [done|]. split; [|done]. by rewrite status_events_enabled; cbn; rewrite H2.
Qed.
Lemma audit_run_from vs : ∀ v st s, ct_enabled s = true → NoDup paths → Forall (λ w, stat_answers w.1) vs →
  au_first_poll st = false → (∀ p, p ∈ paths → au_snapshots st !! p = seen_snapshot v p) →
  audit_run vs st s = Ok <$> zip_with file_changes (v :: vs.*1) vs.*1.
Proof.
  induction vs as [|[w c] vs IH]; intros v st s Hen Hnd Hall Hf Hsn; [done|].
  apply Forall_cons in Hall as [Hw Hall]. cbn [audit_run].
  destruct (audit_poll_spec w c st s) as (st' & s' & -> & H2 & H3 & H4); [done..|].
  rewrite (IH w) by done. cbn [fmap list_fmap zip_with fst]. f_equal. f_equal. rewrite Hf.
  rewrite file_changes_seen. apply bind_ext_elem. intros p Hp. by rewrite Hsn.
Qed.

(** C36: Between one poll and the next, exactly the watched files that both polls find
    and whose content digest or modification time differ are reported, in the
    order they are watched; the first poll reports nothing. *)
Theorem audit_reports_changes v c vs s :
  ct_enabled s = true → NoDup paths → Forall (λ w, stat_answers w.1) ((v, c) :: vs) →
  audit_run ((v, c) :: vs) new_audit s = Ok <$> [] :: zip_with file_changes (v :: vs.*1) vs.*1.
Proof.
  intros Hen Hnd [Hv Hall]%Forall_cons. cbn [audit_run].
  destruct (audit_poll_spec v c new_audit s) as (st' & s' & -> & H2 & H3 & H4); [done..|].
  rewrite (audit_run_from vs v st' s') by done. cbn [fmap list_fmap]. f_equal. f_equal. cbn [au_first_poll new_audit].
  generalize paths. intros l. by induction l.
Qed.
End audit.

(** ** Firewall *)
Section firewall.
Context (cfg : LinuxFirewallCollectorConfig).

Fixpoint firewall_run (answers : list (run_answer * (nat → Q))) (st : FirewallState) (s : CollectorStatus)
    : list (result (list CollectedEvent)) :=
  match answers with
  | [] => []
  | (a, c) :: rest => let '(st', s', r) := firewall_poll host_id node_id cfg a c st s in r :: firewall_run rest st' s'
  end.
Definition dump_of (a : run_answer) : option string :=
  match a with RunDone code out _ => if code =? 0 then Some out else None | _ => None end.
Definition dump_digest (out : string) : string := sha256_hex (utf8_encode out).
(** The specification: consecutive dumps that differ, whatever failed between them. *)
Fixpoint rule_changes (prev : string) (outs : list string) : list CollectedEvent :=
  match outs with
  | [] => []
  | o :: rest =>
      (if decide (dump_digest prev = dump_digest o) then []
       else [firewall_event host_id node_id cfg (Some (dump_digest prev)) (dump_digest o) o]) ++ rule_changes o rest
  end.
Definition reported (rs : list (result (list CollectedEvent))) : list CollectedEvent :=
  r ← rs; match r with Ok evs => evs | Err _ => [] end.

Lemma firewall_poll_dump a c st s : ct_enabled s = true →
  let '(st', s', r) := firewall_poll host_id node_id cfg a c st s in
  ct_enabled s' = true ∧
  match dump_of a with
  | None => st' = st ∧ reported [r] = []
  | Some o =>
      st' = mkFirewall (Some (dump_digest o)) false ∧
      reported [r] = if fwst_first_poll st then []
                     else if decide (fwst_last_digest st = Some (dump_digest o)) then []
                     else [firewall_event host_id node_id cfg (fwst_last_digest st) (dump_digest o) o]
  end.
Proof.
  intros Hen. unfold firewall_poll, dump_of. cbn [ct_enabled status_polled]. rewrite Hen. cbn [negb].
  destruct a as [code out err|t|t|nm t]; cbn; try done. destruct (code =? 0); cbn; [|done].
  fold (dump_digest out). destruct (fwst_first_poll st); cbn; [done|]. by case_decide.
Qed.
Lemma firewall_run_from answers : ∀ o st s, ct_enabled s = true →
  st = mkFirewall (Some (dump_digest o)) false →
  reported (firewall_run answers st s) = rule_changes o (omap dump_of answers.*1).
Proof.
  induction answers as [|[a c] answers IH]; intros o st s Hen ->; [done|]. cbn [firewall_run fmap list_fmap omap list_omap fst].
  pose proof (firewall_poll_dump a c (mkFirewall (Some (dump_digest o)) false) s Hen) as Hp.
  destruct (firewall_poll _ _ _ a c _ s) as [[st' s'] r]. destruct Hp as [Hen' Hp].
  change (r :: firewall_run answers st' s') with ([r] ++ firewall_run answers st' s').
  unfold reported in *. rewrite bind_app. destruct (dump_of a) as [o'|]; destruct Hp as [-> Hr]; rewrite Hr.
  - cbn [rule_changes]. rewrite (IH o') by done. f_equal. cbn [fwst_first_poll fwst_last_digest].
    destruct (decide (dump_digest o = dump_digest o')) as [E|E]; [rewrite decide_True|rewrite decide_False]; try done; congruence.
  - by apply IH.
Qed.

(** The reported rule changes are those between consecutive successful dumps:
    failed runs in between hide nothing. *)
Theorem firewall_reports_changes answers s : ct_enabled s = true →
  reported (firewall_run answers new_firewall s) =
  match omap dump_of answers.*1 with [] => [] | o :: outs => rule_changes o outs end.
Proof.
  revert s. induction answers as [|[a c] answers IH]; intros s Hen; [done|]. cbn [firewall_run fmap list_fmap omap list_omap fst].
  pose proof (firewall_poll_dump a c new_firewall s Hen) as Hp.
  destruct (firewall_poll _ _ _ a c _ s) as [[st' s'] r]. destruct Hp as [Hen' Hp].
  change (r :: firewall_run answers st' s') with ([r] ++ firewall_run answers st' s').
  unfold reported in *. rewrite bind_app. destruct (dump_of a) as [o'|]; destruct Hp as [-> Hr]; rewrite Hr; cbn [app].
  - by apply firewall_run_from.
  - by apply IH.
Qed.
End firewall.

(** ** Processes *)
Section proc.
Context (cfg : LinuxProcCollectorConfig).

(** A listing of the processes with what can be read of each of them. *)
Record ProcListing := mkListing { pl_entries : list string; pl_error : option string; pl_view : Z → ProcView }.
Definition listing_ok (l : ProcListing) : Prop := ∀ pid, is_ok (read_proc (pl_view l pid)) = true.
Definition pids_of (l : ProcListing) : list Z := iter_pids (pl_entries l).
Fixpoint proc_run (ls : list (ProcListing * (nat → Q))) (st : ProcState) (s : CollectorStatus)
    : list (result (list CollectedEvent)) :=
  match ls with
  | [] => []
  | (l, c) :: rest =>
      let '(st', s', r) := proc_poll host_id node_id cfg (pl_entries l) (pl_error l) (pl_view l) c st s in
      r :: proc_run rest st' s'
  end.
(** The specification: the processes listed now and not before that can be read
    and are on the block list or run under a privileged user. *)
Definition suspicious (l : ProcListing) (pid : Z) : list CollectedEvent :=
  match read_proc (pl_view l pid) with Ok (Some i) => proc_events host_id node_id cfg pid i | _ => [] end.
Definition started (before now : ProcListing) : list CollectedEvent :=
  pid ← pids_of now; if decide (pid ∈ pids_of before) then [] else suspicious now pid.

Lemma proc_loop_spec l st pids : listing_ok l →
  proc_loop host_id node_id cfg (pl_view l) st pids =
  Ok (pid ← pids; if decide (pid ∈ pr_seen_pids st) then [] else if pr_first_poll st then [] else suspicious l pid).
Proof.
  intros Hok. induction pids as [|pid pids IH]; [done|]. cbn [proc_loop]. rewrite IH, bind_cons.
  unfold suspicious. case_decide; [done|]. specialize (Hok pid).
  destruct (read_proc (pl_view l pid)) as [[i|]|]; cbn; [|by destruct (pr_first_poll st)|done]. by destruct (pr_first_poll st).
Qed.
Lemma proc_poll_spec l c st s : ct_enabled s = true → listing_ok l →
  ∃ s', ct_enabled s' = true ∧
  proc_poll host_id node_id cfg (pl_entries l) (pl_error l) (pl_view l) c st s =
  (mkProc (list_to_set (pids_of l)) false, s',
   Ok (pid ← pids_of l; if decide (pid ∈ pr_seen_pids st) then [] else if pr_first_poll st then [] else suspicious l pid)).
Proof.
  intros Hen Hok. unfold proc_poll. cbn [ct_enabled status_polled]. rewrite Hen. cbn [negb]. rewrite proc_loop_spec by done.
  eexists. split; [|done]. rewrite status_events_enabled. by destruct (pl_error l).
Qed.
Lemma proc_run_from ls : ∀ before s, ct_enabled s = true → Forall (λ l, listing_ok l.1) ls →
  proc_run ls (mkProc (list_to_set (pids_of before)) false) s = Ok <$> zip_with started (before :: ls.*1) ls.*1.
Proof.
  induction ls as [|[l c] ls IH]; intros before s Hen Hall; [done|]. apply Forall_cons in Hall as [Hl Hall]. cbn [proc_run].
  destruct (proc_poll_spec l c (mkProc (list_to_set (pids_of before)) false) s) as (s' & Hen' & ->); [done..|].
  rewrite (IH l) by done. cbn [fmap list_fmap zip_with fst]. f_equal. f_equal. apply bind_ext_elem. intros pid _. cbn.
  destruct (decide (pid ∈ pids_of before)); [rewrite decide_True|rewrite decide_False]; try done; by rewrite elem_of_list_to_set.
Qed.
(** Every poll after the first reports exactly the suspicious processes that the
    poll before did not list; the first poll reports nothing. *)
Theorem proc_reports_started l c ls s : ct_enabled s = true → Forall (λ l, listing_ok l.1) ((l, c) :: ls) →
  proc_run ((l, c) :: ls) new_proc s = Ok <$> [] :: zip_with started (l :: ls.*1) ls.*1.
Proof.
  intros Hen [Hl Hall]%Forall_cons. cbn [proc_run]. destruct (proc_poll_spec l c new_proc s) as (s' & Hen' & ->); [done..|].
  rewrite (proc_run_from ls l) by done. cbn [fmap list_fmap]. f_equal. f_equal. generalize (pids_of l). intros pids.
  induction pids as [|pid pids IH]; [done|]. rewrite bind_cons, IH. by destruct (decide (pid ∈ pr_seen_pids new_proc)).
Qed.
End proc.

(** ** Host life cycle *)
Section host.
Context (bd rd : string) (cfg : HostLifecycleCollectorConfig).
(** A poll that can read the boot time leaves the last reported boot time within
    the threshold of it: no drift, however slow, goes unreported. *)
Lemma host_poll_drift a c st s boot : ct_enabled s = true → (0 <= hc_boot_time_drift_threshold_sec cfg)%Q →
  (hs_first_poll_done st = true → is_Some (hs_known_boot_time st)) →
  (read_boot_time a (c 1%nat) (status_polled (c 0%nat) s)).2 = Ok (Some boot) →
  let '(st', s', r) := host_poll host_id node_id bd rd cfg a c st s in
  hs_first_poll_done st' = true ∧ ct_enabled s' = true ∧
  ∃ known, hs_known_boot_time st' = Some known ∧ (Qabs (boot - known) <= hc_boot_time_drift_threshold_sec cfg)%Q ∧
           (r = Ok [] ∨ known = boot ∧ ∃ e, r = Ok [e]).
Proof.
  intros Hen Hth Hinv Hboot. unfold host_poll. cbn [ct_enabled status_polled]. rewrite Hen. cbn [negb].
  assert (Qabs (boot - boot) <= hc_boot_time_drift_threshold_sec cfg)%Q as Hself.
  { assert (boot - boot == 0)%Q as -> by ring. exact Hth. }
  destruct (read_boot_time a (c 1%nat) (status_polled (c 0%nat) s)) as [s1 r1] eqn:Hr. cbn in Hboot. subst r1.
  assert (ct_enabled s1 = true) as Hen1.
  { unfold read_boot_time in Hr. destruct a; [|by injection Hr as <-|by injection Hr as <-].
    destruct (w ← head (py_words text); float_of_str w); by injection Hr as <-. }
  destruct (hs_first_poll_done st) eqn:Hf; cbn [negb].
  - destruct (Hinv eq_refl) as [known Hk]. rewrite Hk. destruct (_ <?q _)%Q eqn:Hd.
    + split; [done|]. split; [done|]. exists boot. eauto 10.
    + split; [done|]. split; [done|]. exists known. split; [done|]. split; [|by left]. by apply Qltb_false.
  - split; [done|]. split; [done|]. exists boot. eauto 10.
Qed.
End host.

(** ** Journal *)
Section journal.
Context `{FloatFormat} (cfg : JournaldCollectorConfig).

(** The texts sshd writes for a refused login. *)
Definition failure_methods : list string := ["password"; "publickey"].
Definition refused_login (method invalid user ip rest : string) : string :=
  "Failed " +:+ (method +:+ (" for " +:+ (invalid +:+ (user +:+ (" from " +:+ (ip +:+ rest)))))).

Lemma invalid_user_mismatch user t prev cs (k : kont (X:=odict string)) :
  all_chars non_space user = true → re_match (rlit "invalid user ") (prev, user +:+ (" from " +:+ t)) cs k = None.
Proof.
  intros Hu. destruct (re_match _ _ _ _) eqn:Hm; [|done]. exfalso. apply re_match_lit_inv in Hm as [t' Ht].
  change (" from " +:+ t) with (String " " ("from " +:+ t)) in Ht.
  change ("invalid user " +:+ t') with ("invalid" +:+ String " " ("user " +:+ t')) in Ht.
  by apply word_split in Ht as [_ ?].
Qed.
(** The user and the address are read back when neither contains white space. *)
Lemma failed_ssh_parsed method invalid user ip rest : method ∈ failure_methods → invalid ∈ ["" ; "invalid user "] →
  user ≠ "" → ip ≠ "" → all_chars non_space user = true → all_chars non_space ip = true → head_not non_space rest = true →
  py_search FAILED_SSH_RE (refused_login method invalid user ip rest) = Some [("user", user); ("ip", ip)].
Proof.
  intros Hm Hi Hu0 Hi0 Hu Hip Hr. apply search_from_here. unfold FAILED_SSH_RE, refused_login. cbn [rseq].
  assert (∀ w, w ≠ "" → (1 <= String.length w)%nat) as Hlen by (intros [|]; [done|cbn; lia]).
  rewrite re_match_seq, re_match_lit, re_match_seq.
  assert (∀ prev, re_match (RSeq (rlit " for ") (RSeq (ROpt (rlit "invalid user ")) (RSeq (RGroup "user" (rplus non_space))
     (RSeq (rlit " from ") (RGroup "ip" (rplus non_space)))))) (prev, " for " +:+ (invalid +:+ (user +:+ (" from " +:+ (ip +:+ rest))))) []
     (λ _ c, Some c) = Some [("user", user); ("ip", ip)]) as Htail.
  { intros prev. rewrite re_match_seq, re_match_lit, re_match_seq.
    assert (∀ prev, re_match (RSeq (RGroup "user" (rplus non_space)) (RSeq (rlit " from ") (RGroup "ip" (rplus non_space))))
      (prev, user +:+ (" from " +:+ (ip +:+ rest))) [] (λ _ c, Some c) = Some [("user", user); ("ip", ip)]) as Hn.
    { intros prev'. rewrite re_match_seq. apply re_match_group_run; [done|by apply Hlen|done|].
      rewrite re_match_seq, re_match_lit. apply re_match_group_run; [done|by apply Hlen|done|done]. }
    apply elem_of_cons in Hi as [-> | ->%list_elem_of_singleton].
    - change ("" +:+ ?x) with x. apply re_match_skip; [|apply Hn]. by apply invalid_user_mismatch.
    - apply re_match_some. rewrite re_match_lit. apply Hn. }
  apply elem_of_cons in Hm as [-> | ->%list_elem_of_singleton].
  - apply re_match_left. rewrite re_match_lit. apply Htail.
  - apply re_match_right; [done|]. rewrite re_match_lit. apply Htail.
Qed.

(** *** Bursts *)
Lemma pop_before_ge cutoff w : Forall (λ t, cutoff <= t)%Q w → pop_before cutoff w = w.
Proof. destruct 1 as [|t w Ht _]; [done|]. cbn [pop_before]. by rewrite (proj2 (Qltb_false t cutoff) Ht). Qed.
Lemma window_append_short w t : (length w < 2048)%nat → window_append w t = w ++ [t].
Proof. intros Hl. unfold window_append. rewrite length_app. cbn [length]. by replace (length w + 1 - 2048)%nat with 0%nat by lia. Qed.

(** The messages of a run: text, record and the two readings of the clock. *)
Record JournalMessage := mkMessage { jm_text : string; jm_record : odict json; jm_now : pyfloat; jm_now' : pyfloat }.
Definition message_step (m : JournalMessage) (st : JournaldState) : JournaldState * result (list CollectedEvent) :=
  journal_message host_id node_id cfg (jm_text m) (jm_record m) (jm_now m) (jm_now' m) st.
Definition is_burst (e : CollectedEvent) : bool := bool_decide (co_event_kind e = "failed_login_burst").
(** The times at which a run reports a burst. *)
Fixpoint burst_times (ms : list JournalMessage) (st : JournaldState) : list pyfloat :=
  match ms with
  | [] => []
  | m :: rest =>
      let '(st', r) := message_step m st in
      match r with Ok evs => if existsb is_burst evs then jm_now m :: burst_times rest st' else burst_times rest st' | Err _ => [] end
  end.

Lemma message_step_burst m st : let '(st', r) := message_step m st in
  match r with
  | Ok evs =>
      if existsb is_burst evs
      then jd_last_burst_emit_at st' = jm_now m ∧ (inject_Z (jc_burst_window_sec cfg) <= jm_now m - jd_last_burst_emit_at st)%Q
      else jd_last_burst_emit_at st' = jd_last_burst_emit_at st
  | Err _ => True
  end.
Proof.
  unfold message_step, journal_message. destruct (py_search _ _); [|done]. unfold journal_maybe_emit_burst.
  set (w := pop_before _ _). destruct (Z.of_nat (length w) <? jc_burst_threshold cfg); [done|].
  destruct (_ <?q _)%Q eqn:Hq; [done|]. destruct w; [done|]. split; [done|]. by apply Qltb_false.
Qed.
Definition spaced (w : Q) (last : Q) (ts : list Q) : Prop :=
  ∀ i a b, (last :: ts) !! i = Some a → (last :: ts) !! S i = Some b → (w <= b - a)%Q.
(** Two reported bursts are a whole window apart. *)
Lemma burst_times_spaced ms st : spaced (inject_Z (jc_burst_window_sec cfg)) (jd_last_burst_emit_at st) (burst_times ms st).
Proof.
  revert st. induction ms as [|m ms IH]; intros st; [intros [|i] a b; done|]. cbn [burst_times].
  pose proof (message_step_burst m st) as Hb. destruct (message_step m st) as [st' [evs|]]; [|intros [|i] a b; done].
  destruct (existsb is_burst evs).
  - destruct Hb as [Hl Hw]. intros [|i] a b; cbn [lookup list_lookup].
    + intros [= <-] [= <-]. done.
    + rewrite <- Hl. apply IH.
  - rewrite <- Hb. apply IH.
Qed.

Lemma pop_before_nonempty cutoff w t : (cutoff <= t)%Q → pop_before cutoff (w ++ [t]) ≠ [].
Proof.
  intros Ht. induction w as [|x w IH]; cbn [app pop_before].
  - by rewrite (proj2 (Qltb_false t cutoff) Ht).
  - by destruct (x <?q cutoff)%Q.
Qed.
Lemma window_append_last w t : ∃ w', window_append w t = w' ++ [t].
Proof. unfold window_append. rewrite length_app. cbn [length]. exists (drop (length w + 1 - 2048) w). rewrite drop_app_le by lia. done. Qed.

(** A refused login in sshd's words is reported with its user and its address, and
    with a burst exactly when the window holds the threshold of failures and the last
    burst is a whole window old. *)
Theorem refused_login_reported method invalid user ip rest record now now' st :
  method ∈ failure_methods → invalid ∈ [""; "invalid user "] → user ≠ "" → ip ≠ "" →
  all_chars non_space user = true → all_chars non_space ip = true → head_not non_space rest = true →
  0 <= jc_burst_window_sec cfg →
  let message := refused_login method invalid user ip rest in
  let ts := journal_realtime_ts record now' in
  let w := pop_before (ts - inject_Z (jc_burst_window_sec cfg))%Q (window_append (jd_failure_window st) ts) in
  let burst := (jc_burst_threshold cfg <=? Z.of_nat (length w)) &&
               (inject_Z (jc_burst_window_sec cfg) <=?q now - jd_last_burst_emit_at st)%Q in
  journal_message host_id node_id cfg message record now now' st =
  (mkJournald w (jd_last_cursor st) (if burst then now else jd_last_burst_emit_at st),
   Ok (login_failure_event host_id node_id user ip message ts ::
       if burst then [journal_burst_event host_id node_id cfg (length w) (hd 0%Q w) ts] else [])).
Proof.
  intros Hm Hi Hu0 Hi0 Hu Hip Hr HW. cbv zeta. unfold journal_message. rewrite failed_ssh_parsed by done. unfold journal_maybe_emit_burst.
  cbn [jd_failure_window jd_last_cursor jd_last_burst_emit_at]. change (group _ "user") with user. change (group _ "ip") with ip.
  set (ts := journal_realtime_ts record now'). set (W := inject_Z (jc_burst_window_sec cfg)).
  assert (pop_before (ts - W) (window_append (jd_failure_window st) ts) ≠ []) as Hw.
  { destruct (window_append_last (jd_failure_window st) ts) as [w' ->]. apply pop_before_nonempty.
    assert (0 <= W)%Q by (subst W; change 0%Q with (inject_Z 0); by rewrite <- Zle_Qle). lra. }
  set (w := pop_before _ _) in *. rewrite Z.ltb_antisym. destruct (jc_burst_threshold cfg <=? _); cbn [negb andb]; [|done].
  unfold Qltb. destruct (W <=?q _)%Q; cbn [negb]; [|done]. by destruct w.
Qed.
(** When the failures in the window and this one reach the threshold, all of them
    inside the window, and no burst was reported for a whole window, one is. *)
Lemma burst_detected ts st now : 0 <= jc_burst_window_sec cfg →
  Forall (λ t, ts - inject_Z (jc_burst_window_sec cfg) <= t)%Q (jd_failure_window st) →
  (S (length (jd_failure_window st)) <= 2048)%nat → jc_burst_threshold cfg <= Z.of_nat (S (length (jd_failure_window st))) →
  (inject_Z (jc_burst_window_sec cfg) <= now - jd_last_burst_emit_at st)%Q →
  ∃ first, (journal_maybe_emit_burst host_id node_id cfg now ts
     (mkJournald (window_append (jd_failure_window st) ts) (jd_last_cursor st) (jd_last_burst_emit_at st))).2 =
     Ok [journal_burst_event host_id node_id cfg (S (length (jd_failure_window st))) first ts].
Proof.
  intros HW Hin Hlen Hth Hold. unfold journal_maybe_emit_burst. cbn [jd_failure_window jd_last_cursor jd_last_burst_emit_at].
  rewrite window_append_short by lia. rewrite pop_before_ge.
  2: { apply Forall_app; split; [done|]. apply Forall_singleton.
       assert (0 <= inject_Z (jc_burst_window_sec cfg))%Q by (change 0%Q with (inject_Z 0); by rewrite <- Zle_Qle). lra. }
  rewrite length_app. cbn [length]. rewrite Nat.add_1_r.
  destruct (Z.ltb_spec (Z.of_nat (S (length (jd_failure_window st)))) (jc_burst_threshold cfg)); [lia|].
  rewrite (proj2 (Qltb_false _ _) Hold). destruct (jd_failure_window st) as [|x w]; cbn; eauto.
Qed.
End journal.
End facts.

(** ** Concrete hosts *)
#[local] Instance example_time : LocalTime := λ q, "t" +:+ py_str_int (Qtrunc q).
#[local] Instance example_floats : FloatFormat := frac_format.
Definition example_audit_cfg : LinuxAuditCollectorConfig := mkAuditConfig true ["/etc/passwd"; "/etc//shadow"] 5 1048576.
(** A host whose two files have the given modification times and bytes. *)
Definition two_files (passwd shadow : option (Z * bytes)) (path : string) : FileView :=
  match (if decide (path = "/etc/passwd") then passwd else if decide (path = "/etc/shadow") then shadow else None) with
  | Some (mtime, b) => mkFileView (StatOk mtime (Z.of_nat (length b))) (Some b)
  | None => mkFileView StatMissing None
  end.
Definition clock_ticks : nat → Q := λ i, inject_Z (Z.of_nat i).
Definition events_view {B} (f : CollectedEvent → B) (r : result (list CollectedEvent)) : result (list B) :=
  match r with Ok l => Ok (f <$> l) | Err e => Err e end.
Definition audit_kinds (views : list (string → FileView)) : list (result (list (string * json))) :=
  events_view (λ e, (co_event_kind e, jget (co_payload e) "path")) <$>
  audit_run "h" "n" example_audit_cfg ((λ v : string → FileView, (v, clock_ticks)) <$> views) new_audit (new_status "linux_audit" true None).

Lemma audit_reports_changes_witness :
  audit_kinds [two_files (Some (1, [65])) (Some (1, [66])); two_files (Some (1, [65])) (Some (2, [67]))]
  = [Ok []; Ok [("critical_file_modified", JStr "/etc/shadow")]].
Proof.
  unfold audit_kinds. cbn [fmap list_fmap].
  rewrite (audit_reports_changes "h" "n" example_audit_cfg (two_files (Some (1, [65])) (Some (1, [66]))) clock_ticks
    [(two_files (Some (1, [65])) (Some (2, [67])), clock_ticks)]).
  - vm_compute. reflexivity.
  - reflexivity.
  - apply (bool_decide_unpack _). vm_compute. exact I.
  - repeat constructor; intros p [->|[->|[]%elem_of_nil]%elem_of_cons]%elem_of_cons e; discriminate.
Defined.
(** A file that is removed before one poll and rewritten before the next is not
    reported: neither its removal nor its new content. *)
Example recreated_file_unreported :
  audit_kinds [two_files (Some (1, [65])) (Some (1, [66])); two_files (Some (1, [65])) None; two_files (Some (1, [65])) (Some (9, [99; 99]))]
  = [Ok []; Ok []; Ok []].
Proof. vm_compute. reflexivity. Qed.

Definition example_journald_cfg : JournaldCollectorConfig := mkJournaldConfig true ["ssh.service"] 60 2 5.
Lemma refused_login_reported_witness :
  let st := mkJournald [100%Q] None 0 in
  let r := journal_message "h" "n" example_journald_cfg (refused_login "password" "invalid user " "bob" "10.0.0.5" " port 22 ssh2") [] 130 130 st in
  (jd_failure_window r.1, jd_last_burst_emit_at r.1, events_view co_event_kind r.2)
  = ([100%Q; 130%Q], 130%Q, Ok ["admin_login_failure"; "failed_login_burst"]).
Proof.
  cbv zeta. rewrite (refused_login_reported "h" "n" example_journald_cfg) by first [discriminate | reflexivity | apply (bool_decide_unpack _); vm_compute; exact I].
  vm_compute. reflexivity.
Defined.
(** The user of an invalid login chooses the address that is recorded: the text up
    to the first [ from ] counts as the user. *)
Example forged_source :
  events_view (λ e, (jget (co_payload e) "principal", jget (co_payload e) "source_ip"))
    (journal_message "h" "n" example_journald_cfg (refused_login "password" "invalid user " "x from 6.6.6.6" "10.0.0.5" " port 22 ssh2") [] 130 130
      new_journald).2 = Ok [(JStr "x", JStr "6.6.6.6")].
Proof. vm_compute. reflexivity. Qed.
