(* ===== verification/AuthLog.v ===== *)
(** [mdrj/linux_ingest.py] and [mdrj/collectors/linux_auth.py]: reading the
    authentication log from the offset kept between polls and across restarts, and
    turning sshd, sudo and su lines into events. *)
From S2P Require Import Prelude Sha256 Json Models Config JsonText JsonParse AgentRelay Regex Collectors.

(** ** Expressions *)
Definition is_user_char (c : Ascii.ascii) : bool := is_word c || is_one_of ".@-" c.
Definition is_ip_char (c : Ascii.ascii) : bool := is_digit c || code_in 97 102 c || code_in 65 70 c || is_one_of ":." c.
Definition spaces : re := rplus py_isspace.
(** [(?:\[\d+\])?:\s+] after the name of a program. *)
Definition pid_colon : re := rseq [ROpt (rseq [rlit "["; rplus is_digit; rlit "]"]); rlit ":"; spaces].
Definition sshd_prefix : re := rseq [rlit "sshd"; ROpt (rlit "-session"); pid_colon].
Definition from_port : re :=
  rseq [spaces; rlit "from"; spaces; RGroup "source_ip" (rplus is_ip_char); spaces; rlit "port"; spaces; RGroup "port" (rplus is_digit)].
Definition accepted_tail : re :=
  rseq [spaces; RGroup "host" (rplus non_space); spaces; sshd_prefix; rlit "Accepted"; spaces;
        RGroup "method" (rplus non_space); spaces; rlit "for"; spaces; RGroup "user" (rplus is_user_char); from_port].
Definition SYSLOG_SSH_ACCEPTED_RE : re :=
  rseq [RBol; RGroup "month" (RSeq (RChar is_upper) (rexactly 2 is_lower)); spaces; RGroup "day" (RRep is_digit 1 (Some 2%nat)); spaces;
        RGroup "clock" (rseq [rexactly 2 is_digit; rlit ":"; rexactly 2 is_digit; rlit ":"; rexactly 2 is_digit]); accepted_tail].
Definition ISO_SSH_ACCEPTED_RE : re :=
  rseq [RBol; RGroup "occurred_at" (rseq [rexactly 4 is_digit; rlit "-"; rexactly 2 is_digit; rlit "-"; rexactly 2 is_digit; rlit "T"; rplus non_space]);
        accepted_tail].
Definition SSH_FAILED_RE : re :=
  rseq [sshd_prefix; rlit "Failed"; spaces; rlit "password"; spaces; rlit "for"; spaces; ROpt (RSeq (rlit "invalid user") spaces);
        RGroup "user" (rplus is_user_char); from_port].
Definition session_opened : re := rseq [spaces; rlit "session opened for user"; spaces; RGroup "target" (rplus is_user_char)].
Definition SUDO_SESSION_RE : re :=
  rseq [rlit "sudo"; pid_colon; rlit "pam_unix(sudo:session):"; session_opened;
        ROpt (rseq [rlit "(uid="; rplus is_digit; rlit ")"]); spaces; rlit "by"; spaces; RGroup "actor" (rstar is_user_char)].
Definition SU_SESSION_RE : re :=
  rseq [RWordB; rlit "su"; pid_colon; rlit "pam_unix(su"; ROpt (rlit "-l"); rlit ":session):"; session_opened].

(** ** The reader *)

(** [datetime], as far as the reader uses it: formatting in UTC and local time,
    [fromisoformat(s).isoformat(timespec="seconds")] and [strptime] (where it accepts
    the text), the year of a moment, the moment a syslog date denotes.  They depend on the time zone. *)
Record Calendar := mkCalendar {
  cal_utc_iso : Q → string;
  cal_local_iso : Q → string;
  cal_fromisoformat : string → option string;
  cal_date : Type;
  cal_year : Q → Z;
  cal_strptime : Z → string → string → string → option cal_date;
  cal_timestamp : cal_date → Q;
  cal_replace_year : Z → cal_date → option cal_date;
  cal_isoformat : cal_date → string }.
(** [pwd.getpwnam(u).pw_gid] and the members and id of [grp.getgrnam(g)]. *)
Record Accounts := mkAccounts { ac_gid : string → option Z; ac_group : string → option (list string * Z) }.
(** The Russian sentences of the events, outside the model's strings. *)
Record AuthTexts := mkAuthTexts {
  tx_login_title : string → string; tx_login_description : string → string → string;
  tx_burst_title : string → string; tx_burst_description : string → string;
  tx_escalation_title : string → string → string; tx_escalation_description : string → string → string → string }.

Record Ingestor := mkIngestor {
  ig_state : json;
  ig_failed_window : odict (list pyfloat);
  ig_burst_emitted_at : odict pyfloat }.
Definition set_ig_state (v : json) (g : Ingestor) : Ingestor := mkIngestor v (ig_failed_window g) (ig_burst_emitted_at g).

Section reader.
Context (cfg : LinuxIngestConfig) (node_id : string) (cal : Calendar) (acc : Accounts) (tx : AuthTexts) `{FloatFormat}.

Definition ig_auth_log_path : string := path_str (default "" (li_auth_log_path cfg)).
Definition ig_host_id : string := str_or_opt (li_host_id cfg) node_id.
(** [_state_path], from the configuration or the default. *)
Definition ig_state_path (dflt : option string) : option string :=
  let p := str_or_opt (li_state_path cfg) (default "" dflt) in if decide (p = "") then None else Some (path_str p).
Definition ig_admin_users : list string := py_strip <$> filter (λ u, py_strip u ≠ "") (li_admin_users cfg).
Definition ig_privileged_groups : list string := py_strip <$> filter (λ u, py_strip u ≠ "") (li_privileged_groups cfg).

Definition failed_burst_threshold : nat := 5.
Definition failed_burst_window_sec : Q := 120.

(** [_load_state] from the text of the state file, when there is one that can be read. *)
Definition fresh_state : json := JObj [("inode", JInt 0); ("offset", JInt 0)].
Definition load_state (file : option string) : json :=
  match file with None => fresh_state | Some text => default fresh_state (json_parse text) end.
Definition new_ingestor (file : option string) : Ingestor := mkIngestor (load_state file) [] [].

(** [int(self._state.get(k, 0) or 0)] *)
Definition state_int (st : json) (k : string) : result Z :=
  match st with
  | JObj d => py_int (py_or (jget_or d k (JInt 0)) (JInt 0))
  | _ => Err (OtherError "object has no attribute 'get'")
  end.

Definition principal_in_privileged_group (principal : string) : bool :=
  match ac_gid acc principal with
  | None => false
  | Some gid => existsb (λ g, match ac_group acc g with
                              | None => false
                              | Some (members, gr_gid) => bool_decide (principal ∈ members) || (gr_gid =? gid)
                              end) ig_privileged_groups
  end.
Definition privilege_scope (principal : string) : option string :=
  if decide (principal = "root") then Some "root"
  else if decide (principal ∈ ig_admin_users) then Some "configured_admin_user"
  else if bool_decide (ig_privileged_groups ≠ []) && principal_in_privileged_group principal then Some "privileged_group"
  else None.

Definition parse_timestamp (m : odict string) (iso : bool) (now : Q) : result string :=
  if iso then result_of_option (ValueError "Invalid isoformat string") (cal_fromisoformat cal (group m "occurred_at"))
  else
    d ← result_of_option (ValueError "time data does not match format")
          (cal_strptime cal (cal_year cal now) (group m "month") (group m "day") (group m "clock"));
    d ← (if (86400 <?q cal_timestamp cal d - now)%Q
         then result_of_option (ValueError "day is out of range for month") (cal_replace_year cal (cal_year cal now - 1) d)
         else Ok d);
    Ok (cal_isoformat cal d).

Definition raw_ref (offset : Z) : string := ig_auth_log_path +:+ ":" +:+ py_str_int offset.
Definition login_payload (m : odict string) (scope occurred_at line : string) (offset port : Z) (collected : Q) : odict json :=
  let principal := group m "user" in
  [("event_kind", JStr "admin_ssh_login_success"); ("class", JStr "A"); ("host_id", JStr ig_host_id); ("node_id", JStr node_id);
   ("occurred_at", JStr occurred_at); ("collected_at", JStr (cal_utc_iso cal collected +:+ "Z")); ("principal", JStr principal);
   ("source_ip", JStr (group m "source_ip")); ("target_service", JStr "sshd"); ("result", JStr "success");
   ("privilege_scope", JStr scope); ("raw_ref", JStr (raw_ref offset)); ("title", JStr (tx_login_title tx principal));
   ("description", JStr (tx_login_description tx principal (group m "source_ip"))); ("category", JStr "authentication");
   ("context", JObj [("source_type", JStr (li_source_type cfg)); ("ssh_auth_method", JStr (group m "method")); ("ssh_port", JInt port);
                     ("raw_line", JStr line)])].
Definition line_context (line : string) : json := JObj [("source_type", JStr (li_source_type cfg)); ("raw_line", JStr line)].
Definition burst_payload (ip line : string) (offset : Z) (count : nat) (collected : Q) : odict json :=
  [("event_kind", JStr "failed_login_burst"); ("class", JStr "A"); ("host_id", JStr ig_host_id); ("node_id", JStr node_id);
   ("collected_at", JStr (cal_local_iso cal collected +:+ "Z")); ("source_ip", JStr ip); ("target_service", JStr "sshd");
   ("result", JStr "failure"); ("failed_count", JInt (Z.of_nat count)); ("window_sec", JFloat failed_burst_window_sec);
   ("raw_ref", JStr (raw_ref offset)); ("title", JStr (tx_burst_title tx ip)); ("description", JStr (tx_burst_description tx ip));
   ("category", JStr "authentication"); ("context", line_context line)].
Definition escalation_payload (mechanism target actor line : string) (offset : Z) (collected : Q) : odict json :=
  [("event_kind", JStr "privilege_escalation"); ("class", JStr "A"); ("host_id", JStr ig_host_id); ("node_id", JStr node_id);
   ("collected_at", JStr (cal_local_iso cal collected +:+ "Z")); ("mechanism", JStr mechanism); ("target_user", JStr target);
   ("actor_user", JStr actor); ("raw_ref", JStr (raw_ref offset)); ("title", JStr (tx_escalation_title tx mechanism target));
   ("description", JStr (tx_escalation_description tx mechanism target actor)); ("category", JStr "authentication");
   ("context", line_context line)].

(** One refused login from [ip]: the window of the address and perhaps a burst. *)
Definition failed_login (ip line : string) (offset : Z) (now : Q) (g : Ingestor) : Ingestor * option (odict json) :=
  let window := filter (λ t, now - failed_burst_window_sec <=?q t = true)%Q (default [] (dget (ig_failed_window g) ip) ++ [now]) in
  let g1 := mkIngestor (ig_state g) (dset (ig_failed_window g) ip window) (ig_burst_emitted_at g) in
  if decide (failed_burst_threshold <= length window)%nat then
    if (now - default 0 (dget (ig_burst_emitted_at g) ip) <?q failed_burst_window_sec)%Q then (g1, None)
    else (mkIngestor (ig_state g) (dset (ig_failed_window g) ip []) (dset (ig_burst_emitted_at g) ip now),
          Some (burst_payload ip line offset (length window) now))
  else (g1, None).

(** The session of sudo or su that a line opens: mechanism, target, actor. *)
Definition opened_session (line : string) : option (string * string * string) :=
  match py_search SUDO_SESSION_RE line with
  | Some m => Some ("sudo", group m "target", group m "actor")
  | None => match py_search SU_SESSION_RE line with Some m => Some ("su", group m "target", "") | None => None end
  end.
Definition parse_other (line : string) (offset : Z) (now : Q) (g : Ingestor) : Ingestor * option (odict json) :=
  match py_search SSH_FAILED_RE line with
  | Some m => failed_login (group m "source_ip") line offset now g
  | None =>
      (g, match opened_session line with
          | Some (mechanism, target, actor) =>
              if decide (target = "root") then Some (escalation_payload mechanism target actor line offset now) else None
          | None => None
          end)
  end.
Definition parse_accepted (m : odict string) (iso : bool) (line : string) (offset : Z) (now dt_now : Q) : result (option (odict json)) :=
  match privilege_scope (group m "user") with
  | None => Ok None
  | Some scope =>
      occurred_at ← parse_timestamp m iso dt_now;
      port ← result_of_option (ValueError "invalid literal for int()") (int_of_str (group m "port"));
      Ok (Some (login_payload m scope occurred_at line offset port now))
  end.
(** [dt_now]: the reading of [datetime.now()] while the line is parsed. *)
Definition parse_line (line : string) (offset : Z) (now dt_now : Q) (g : Ingestor) : Ingestor * result (option (odict json)) :=
  match py_match ISO_SSH_ACCEPTED_RE line with
  | Some m => (g, parse_accepted m true line offset now dt_now)
  | None =>
      match py_match SYSLOG_SSH_ACCEPTED_RE line with
      | Some m => (g, parse_accepted m false line offset now dt_now)
      | None => let '(g, o) := parse_other line offset now g in (g, Ok o)
      end
  end.

(** ** Polling

    [readline] of a text file: lines end at [\n], [\r] or [\r\n]; the last one may
    have no end.  [start] is the offset of the line, [pos] that of the next byte. *)
Fixpoint read_lines (start pos : Z) (cur : bytes) (bs : bytes) : list (Z * bytes) :=
  match bs with
  | [] => match cur with [] => [] | _ => [(start, reverse cur)] end
  | b :: bs' =>
      if b =? 10 then (start, reverse cur) :: read_lines (pos + 1) (pos + 1) [] bs'
      else if b =? 13 then
        match bs' with
        | 10 :: bs'' => (start, reverse cur) :: read_lines (pos + 2) (pos + 2) [] bs''
        | _ => (start, reverse cur) :: read_lines (pos + 1) (pos + 1) [] bs'
        end
      else read_lines start (pos + 1) (b :: cur) bs'
  end.

(** What a poll meets: the file ([None]: it does not exist) with its inode, its size
    when examined and its bytes when read; the clock; how [_save_state] ends. *)
Record LogView := mkLogView { lv_inode : Z; lv_size : Z; lv_bytes : result bytes }.
Record PollEnv := mkPollEnv { pe_file : option LogView; pe_now : Q; pe_dt_now : Z → Q; pe_save : result unit }.
Context (decode : bytes → string).

Fixpoint parse_lines (now : Q) (dt_now : Z → Q) (ls : list (Z * bytes)) (g : Ingestor) : Ingestor * result (list (odict json)) :=
  match ls with
  | [] => (g, Ok [])
  | (off, raw) :: rest =>
      match parse_line (decode raw) off now (dt_now off) g with
      | (g, Err e) => (g, Err e)
      | (g, Ok o) => let '(g, r) := parse_lines now dt_now rest g in (g, evs ← r; Ok (option_list o ++ evs))
      end
  end.

(** The offset at which a poll starts. *)
Definition start_offset (st : json) (v : LogView) : result Z :=
  inode ← state_int st "inode";
  offset ← state_int st "offset";
  Ok (if negb (inode =? lv_inode v) || (lv_size v <? offset) then 0 else offset).
Definition log_state (inode offset : Z) : json := JObj [("inode", JInt inode); ("offset", JInt offset)].
(** The lines a poll reads from its starting offset, or what it raises before. *)
Definition lines_read (v : LogView) (g : Ingestor) : result (Z * list (Z * bytes)) :=
  offset ← start_offset (ig_state g) v;
  bs ← lv_bytes v;
  if offset <? 0 then Err (ValueError "negative seek position")
  else Ok (Z.max offset (Z.of_nat (length bs)), read_lines offset offset [] (drop (Z.to_nat offset) bs)).
Definition poll (env : PollEnv) (g : Ingestor) : Ingestor * result (list (odict json)) :=
  match pe_file env with
  | None => (g, Err (OtherError ("auth log path does not exist: " +:+ ig_auth_log_path)))
  | Some v =>
      match lines_read v g with
      | Err e => (g, Err e)
      | Ok (next, ls) =>
          match parse_lines (pe_now env) (pe_dt_now env) ls g with
          | (g, Err e) => (g, Err e)
          | (g, Ok events) => (set_ig_state (log_state (lv_inode v) next) g, _ ← pe_save env; Ok events)
          end
      end
  end.
(** The text [_save_state] writes. *)
Definition saved_text (g : Ingestor) : string := json_dumps (ig_state g).

(** ** [LinuxAuthCollector.poll] *)
Context (host_id : string).
Definition auth_collected (record : odict json) : CollectedEvent :=
  annotate host_id node_id
    (mkCollected (py_str (py_or (jget record "event_kind") (JStr "admin_ssh_login_success"))) record).
(** The message for an exception of the reader of class [type_name]. *)
Definition auth_error (env : PollEnv) (type_name : string) (e : exn) : string :=
  if bool_decide (pe_file env = None) || bool_decide (type_name = "FileNotFoundError") then exn_text e
  else type_name +:+ ": " +:+ exn_text e.
Definition auth_poll (env : PollEnv) (type_name : exn → string) (clock : nat → Q) (g : Ingestor) (s : CollectorStatus)
    : Ingestor * CollectorStatus * list CollectedEvent :=
  let s := status_polled (clock 0%nat) s in
  match poll env g with
  | (g, Err e) => (g, status_error (Some (auth_error env (type_name e) e)) s, [])
  | (g, Ok raw) =>
      let events := auth_collected <$> raw in
      (g, status_events (clock 1%nat) events (status_error None s), events)
  end.
End reader.
