(* ===== verification/AuthLogLines.v ===== *)
(** The lines of sshd: what the authentication log reader makes of them. *)
From S2P Require Import Prelude Sha256 Json Models Config JsonText JsonParse AgentRelay Regex Collectors CollectorsFacts AuthLog.

(** ** Characters *)
Lemma ascii_forall (p : Ascii.ascii → bool) : forallb (λ n, p (Ascii.ascii_of_nat n)) (seq 0 256) = true → ∀ c, p c = true.
Proof.
  intros Hall c. rewrite forallb_forall in Hall. rewrite <- (Ascii.ascii_nat_embedding c). apply Hall. apply in_seq.
  pose proof (Ascii.nat_ascii_bounded c). lia.
Qed.
Definition disjoint_class (p q : Ascii.ascii → bool) : Prop := ∀ c, p c = true → q c = false.
Lemma disjoint_class_compute p q : forallb (λ n, negb (p (Ascii.ascii_of_nat n) && q (Ascii.ascii_of_nat n))) (seq 0 256) = true → disjoint_class p q.
Proof.
  intros Hall c Hp. pose proof (ascii_forall (λ c, negb (p c && q c)) Hall c) as H. cbn in H. rewrite Hp in H. by apply negb_true_iff in H.
Qed.
Lemma user_not_space : disjoint_class is_user_char py_isspace.
Proof. apply disjoint_class_compute. vm_compute. reflexivity. Qed.
Lemma ip_not_space : disjoint_class is_ip_char py_isspace.
Proof. apply disjoint_class_compute. vm_compute. reflexivity. Qed.
Lemma digit_not_space : disjoint_class is_digit py_isspace.
Proof. apply disjoint_class_compute. vm_compute. reflexivity. Qed.
Lemma non_space_not_space : disjoint_class non_space py_isspace.
Proof. intros c. apply negb_true_iff. Qed.
(** A field: a text of one class that is not empty. *)
Definition field (p : Ascii.ascii → bool) (w : string) : Prop := w ≠ "" ∧ all_chars p w = true.
Lemma field_head p q w t : disjoint_class p q → field p w → head_not q (w +:+ t) = true.
Proof.
  intros Hd [Hne Hall]. destruct w as [|c w]; [done|]. rewrite str_app_cons. cbn [head_not]. unfold all_chars in Hall.
  cbn in Hall. apply andb_true_iff in Hall as [Hc _]. by rewrite (Hd c Hc).
Qed.
Lemma field_length p w : field p w → (1 <= String.length w)%nat.
Proof. intros [Hne _]. destruct w; [done|cbn; lia]. Qed.
Lemma field_chars p w : field p w → all_chars p w = true.
Proof. by intros []. Qed.
Create HintDb field.
#[export] Hint Resolve field_head field_length field_chars user_not_space ip_not_space digit_not_space non_space_not_space : field.

(** ** A successful login *)
Record Login := mkLogin {
  lg_host : string; lg_pid : string; lg_method : string; lg_user : string; lg_ip : string; lg_port : string; lg_rest : string }.
Record login_ok (l : Login) : Prop := {
  lo_host : field non_space (lg_host l);
  lo_pid : field is_digit (lg_pid l);
  lo_method : field non_space (lg_method l);
  lo_user : field is_user_char (lg_user l);
  lo_ip : field is_ip_char (lg_ip l);
  lo_port : field is_digit (lg_port l);
  lo_rest : head_not is_digit (lg_rest l) = true }.
(** [ host sshd[pid]: Accepted method for user from ip port n...] *)
Definition peer_text (l : Login) : string :=
  " " +:+ ("from" +:+ (" " +:+ (lg_ip l +:+ (" " +:+ ("port" +:+ (" " +:+ (lg_port l +:+ lg_rest l))))))).
Definition sshd_text (l : Login) (t : string) : string :=
  "sshd" +:+ ("[" +:+ (lg_pid l +:+ ("]" +:+ (":" +:+ (" " +:+ t))))).
Definition accepted_text (l : Login) : string :=
  " " +:+ (lg_host l +:+ (" " +:+ sshd_text l ("Accepted" +:+ (" " +:+ (lg_method l +:+ (" " +:+ ("for" +:+ (" " +:+ (lg_user l +:+ peer_text l))))))))).

Section login.
Context (l : Login) (Hok : login_ok l).

Lemma match_spaces {X} prev t cs (k : kont (X:=X)) x : head_not py_isspace t = true → k (Some " "%char, t) cs = Some x →
  re_match spaces (prev, " " +:+ t) cs k = Some x.
Proof. intros. by apply re_match_run. Qed.

Lemma match_peer prev cs : re_match from_port (prev, peer_text l) cs (λ _ c, Some c) =
  Some (dset (dset cs "source_ip" (lg_ip l)) "port" (lg_port l)).
Proof.
  destruct Hok as [_ _ _ _ Hip Hport Hrest]. unfold from_port, peer_text. cbn [rseq].
  rewrite re_match_seq. apply match_spaces; [done|]. rewrite re_match_seq, re_match_lit.
  rewrite re_match_seq. apply match_spaces; [eauto with field|]. rewrite re_match_seq.
  apply re_match_group_run; [by eauto with field..|done|]. rewrite re_match_seq. apply match_spaces; [done|].
  rewrite re_match_seq, re_match_lit. rewrite re_match_seq. apply match_spaces; [eauto with field|].
  by apply re_match_group_run; eauto with field.
Qed.
Lemma match_sshd {X} prev t cs (k : kont (X:=X)) x : head_not py_isspace t = true → (∀ p, k (p, t) cs = Some x) →
  re_match sshd_prefix (prev, sshd_text l t) cs k = Some x.
Proof.
  intros Ht Hk. pose proof (lo_pid l Hok) as Hpid. unfold sshd_prefix, sshd_text, pid_colon. cbn [rseq].
  rewrite re_match_seq, re_match_lit, re_match_seq. apply re_match_skip; [done|]. rewrite re_match_seq. apply re_match_some.
  rewrite re_match_seq, re_match_lit, re_match_seq. apply re_match_run; [by eauto with field..|done|].
  rewrite re_match_lit, re_match_seq, re_match_lit. apply match_spaces; [done|]. apply Hk.
Qed.
Lemma match_accepted prev cs : re_match accepted_tail (prev, accepted_text l) cs (λ _ c, Some c) =
  Some (dset (dset (dset (dset (dset cs "host" (lg_host l)) "method" (lg_method l)) "user" (lg_user l)) "source_ip" (lg_ip l)) "port" (lg_port l)).
Proof.
  pose proof Hok as [Hhost _ Hm Hu _ _ _]. unfold accepted_tail, accepted_text. cbn [rseq].
  rewrite re_match_seq. apply match_spaces; [eauto with field|]. rewrite re_match_seq.
  apply re_match_group_run; [by eauto with field..|done|]. rewrite re_match_seq. apply match_spaces; [done|].
  rewrite re_match_seq. apply match_sshd; [done|]. intros p. rewrite re_match_seq, re_match_lit.
  rewrite re_match_seq. apply match_spaces; [eauto with field|]. rewrite re_match_seq.
  apply re_match_group_run; [by eauto with field..|done|]. rewrite re_match_seq. apply match_spaces; [done|].
  rewrite re_match_seq, re_match_lit. rewrite re_match_seq. apply match_spaces; [eauto with field|]. rewrite re_match_seq.
  apply re_match_group_run; [by eauto with field..|done|]. apply match_peer.
Qed.
End login.

(** ** The two time stamps *)
Definition digits (n : nat) (w : string) : Prop := all_chars is_digit w = true ∧ String.length w = n.
Inductive Stamp :=
  | IsoStamp (year month day time : string)
  | SyslogStamp (initial : Ascii.ascii) (letters pad day hh mm ss : string).
Definition stamp_ok (s : Stamp) : Prop :=
  match s with
  | IsoStamp y m d t => digits 4 y ∧ digits 2 m ∧ digits 2 d ∧ field non_space t
  | SyslogStamp i ls pad d hh mm ss =>
      is_upper i = true ∧ all_chars is_lower ls = true ∧ String.length ls = 2%nat ∧ field py_isspace pad ∧
      field is_digit d ∧ (String.length d <= 2)%nat ∧ digits 2 hh ∧ digits 2 mm ∧ digits 2 ss
  end.
Definition iso_text (y m d t : string) : string := y +:+ ("-" +:+ (m +:+ ("-" +:+ (d +:+ ("T" +:+ t))))).
Definition clock_text (hh mm ss : string) : string := hh +:+ (":" +:+ (mm +:+ (":" +:+ ss))).
Definition stamp_text (s : Stamp) : string :=
  match s with
  | IsoStamp y m d t => iso_text y m d t
  | SyslogStamp i ls pad d hh mm ss => String i ls +:+ (pad +:+ (d +:+ (" " +:+ clock_text hh mm ss)))
  end.
Definition stamp_groups (s : Stamp) : odict string :=
  match s with
  | IsoStamp y m d t => [("occurred_at", iso_text y m d t)]
  | SyslogStamp i ls pad d hh mm ss => [("month", String i ls); ("day", d); ("clock", clock_text hh mm ss)]
  end.
Definition stamp_is_iso (s : Stamp) : bool := match s with IsoStamp _ _ _ _ => true | _ => false end.
Definition login_groups (l : Login) : odict string :=
  [("host", lg_host l); ("method", lg_method l); ("user", lg_user l); ("source_ip", lg_ip l); ("port", lg_port l)].
Definition login_line (s : Stamp) (l : Login) : string := stamp_text s +:+ accepted_text l.

Lemma between_text prev prev' s w t : s = w +:+ t → between (prev, s) (prev', t) = w.
Proof. intros ->. apply between_app. Qed.
Lemma re_match_group {X} nm a q cs (k : kont (X:=X)) :
  re_match (RGroup nm a) q cs k = re_match a q cs (λ q1 c1, k q1 (dset c1 nm (between q q1))).
Proof. reflexivity. Qed.
Lemma match_digits {X} n w prev t cs (k : kont (X:=X)) x : digits n w → (∀ p, k (p, t) cs = Some x) →
  re_match (rexactly n is_digit) (prev, w +:+ t) cs k = Some x.
Proof. intros [Hd Hn] Hk. apply re_match_exactly; auto. Qed.
Lemma upper_not_digit : disjoint_class is_upper is_digit.
Proof. apply disjoint_class_compute. vm_compute. reflexivity. Qed.
Lemma digit_not_space_seq : disjoint_class py_isspace is_digit.
Proof. apply disjoint_class_compute. vm_compute. reflexivity. Qed.

Lemma match_iso y m d t l : login_ok l → digits 4 y → digits 2 m → digits 2 d → field non_space t →
  py_match ISO_SSH_ACCEPTED_RE (iso_text y m d t +:+ accepted_text l) = Some (("occurred_at", iso_text y m d t) :: login_groups l).
Proof.
  intros Hl Hy Hm Hd Ht. unfold py_match, ISO_SSH_ACCEPTED_RE. cbn [rseq]. rewrite re_match_seq.
  change (re_match RBol ?q ?c ?k) with (k q c). cbv beta. rewrite re_match_seq, re_match_group.
  assert (iso_text y m d t +:+ accepted_text l = y +:+ ("-" +:+ (m +:+ ("-" +:+ (d +:+ ("T" +:+ (t +:+ accepted_text l))))))) as Htext
    by (unfold iso_text; rewrite !str_app_assoc; done).
  rewrite Htext. rewrite re_match_seq. apply match_digits; [done|]. intros p1. rewrite re_match_seq, re_match_lit, re_match_seq.
  apply match_digits; [done|]. intros p2. rewrite re_match_seq, re_match_lit, re_match_seq.
  apply match_digits; [done|]. intros p3. rewrite re_match_seq, re_match_lit. apply re_match_run; [by eauto with field..|done|].
  rewrite <- Htext. rewrite (between_text _ _ _ (iso_text y m d t) _ eq_refl). by rewrite match_accepted.
Qed.
Lemma match_syslog i ls pad d hh mm ss l : login_ok l → stamp_ok (SyslogStamp i ls pad d hh mm ss) →
  py_match SYSLOG_SSH_ACCEPTED_RE (login_line (SyslogStamp i ls pad d hh mm ss) l) =
  Some (stamp_groups (SyslogStamp i ls pad d hh mm ss) ++ login_groups l).
Proof.
  intros Hl (Hi & Hls & Hlen & Hpad & Hd & Hd2 & Hhh & Hmm & Hss).
  unfold py_match, SYSLOG_SSH_ACCEPTED_RE. cbn [rseq]. rewrite re_match_seq.
  change (re_match RBol ?q ?c ?k) with (k q c). cbv beta.
  assert (login_line (SyslogStamp i ls pad d hh mm ss) l =
    String i (ls +:+ (pad +:+ (d +:+ (" " +:+ (clock_text hh mm ss +:+ accepted_text l)))))) as ->
    by (unfold login_line, stamp_text; rewrite !str_app_assoc; done).
  rewrite re_match_seq, re_match_group, re_match_seq, re_match_char by done. apply re_match_exactly; [done..|].
  set (tail := pad +:+ _). rewrite (between_text _ _ _ (String i ls) tail eq_refl). subst tail.
  rewrite re_match_seq. apply re_match_run; [by eauto with field..|by apply (field_head is_digit); [apply digit_not_space|]|].
  rewrite re_match_seq, re_match_group. cbn [re_match fst snd]. apply rep_match_run; [by eauto with field..|by split; [|left]|].
  rewrite between_app. change (rep_match py_isspace ?a ?b 1 None) with (re_match spaces (X:=odict string) (a, b)).
  assert (clock_text hh mm ss +:+ accepted_text l = hh +:+ (":" +:+ (mm +:+ (":" +:+ (ss +:+ accepted_text l))))) as Hclock
    by (unfold clock_text; rewrite !str_app_assoc; done).
  apply match_spaces.
  { rewrite Hclock. destruct Hhh as [Hc Hn]. apply (field_head is_digit); [apply digit_not_space|]. split; [|done]. by intros ->. }
  rewrite Hclock. apply match_digits; [done|]. intros p1. rewrite re_match_lit.
  apply match_digits; [done|]. intros p2. rewrite re_match_lit. apply match_digits; [done|]. intros p3.
  rewrite <- Hclock, between_app. by rewrite match_accepted.
Qed.
Lemma syslog_not_iso i ls pad d hh mm ss l : is_upper i = true →
  py_match ISO_SSH_ACCEPTED_RE (login_line (SyslogStamp i ls pad d hh mm ss) l) = None.
Proof.
  intros Hi. unfold py_match, ISO_SSH_ACCEPTED_RE, login_line, stamp_text. cbn [rseq].
  rewrite !str_app_cons. cbn -[accepted_tail is_digit]. by rewrite (upper_not_digit i Hi).
Qed.

(** ** What the reader reports *)
Section reports.
Context (cfg : LinuxIngestConfig) (node_id : string) (cal : Calendar) (acc : Accounts) (tx : AuthTexts) `{FloatFormat}.
#[local] Abbreviation read_line := (parse_line cfg node_id cal acc tx).
#[local] Abbreviation scope_of := (privilege_scope cfg acc).

(** The time of a stamp, read at [dt]. *)
Definition stamp_time (s : Stamp) (dt : Q) : result string := parse_timestamp cal (stamp_groups s) (stamp_is_iso s) dt.

Lemma login_line_parsed s l off now dt g : login_ok l → stamp_ok s →
  read_line (login_line s l) off now dt g =
  (g, parse_accepted cfg node_id cal acc tx (stamp_groups s ++ login_groups l) (stamp_is_iso s) (login_line s l) off now dt).
Proof.
  intros Hl Hs. unfold parse_line. destruct s as [y m d t|i ls pad d hh mm ss].
  - destruct Hs as (Hy & Hm & Hd & Ht). change (login_line (IsoStamp y m d t) l) with (iso_text y m d t +:+ accepted_text l).
    by rewrite match_iso.
  - rewrite syslog_not_iso by apply Hs. by rewrite match_syslog.
Qed.

(** What is made of the fields of the line. *)
Definition login_result (s : Stamp) (l : Login) (off port : Z) (dt : Q) (r : result (option (odict json))) : Prop :=
  match scope_of (lg_user l) with
  | None => r = Ok None
  | Some scope =>
      match stamp_time s dt with
      | Err e => r = Err e
      | Ok t =>
          ∃ p context, r = Ok (Some p) ∧
            jget p "event_kind" = JStr "admin_ssh_login_success" ∧ jget p "principal" = JStr (lg_user l) ∧
            jget p "source_ip" = JStr (lg_ip l) ∧ jget p "occurred_at" = JStr t ∧ jget p "privilege_scope" = JStr scope ∧
            jget p "raw_ref" = JStr (raw_ref cfg off) ∧ jget p "context" = JObj context ∧
            jget context "ssh_auth_method" = JStr (lg_method l) ∧ jget context "ssh_port" = JInt port ∧
            jget context "raw_line" = JStr (login_line s l)
      end
  end.
Lemma parse_accepted_login s l off now dt port : int_of_str (lg_port l) = Some port →
  login_result s l off port dt
    (parse_accepted cfg node_id cal acc tx (stamp_groups s ++ login_groups l) (stamp_is_iso s) (login_line s l) off now dt).
Proof.
  intros Hport. unfold login_result, parse_accepted.
  assert (group (stamp_groups s ++ login_groups l) "user" = lg_user l) as -> by by destruct s.
  destruct (scope_of (lg_user l)) as [scope|]; [|done].
  assert (parse_timestamp cal (stamp_groups s ++ login_groups l) (stamp_is_iso s) dt = stamp_time s dt) as -> by by destruct s.
  destruct (stamp_time s dt) as [t|e]; [|done]. cbn [mbind result_bind].
  assert (group (stamp_groups s ++ login_groups l) "port" = lg_port l) as -> by by destruct s.
  rewrite Hport. cbn [result_of_option]. eexists _, _. split; [done|]. destruct s; repeat split.
Qed.

(** A successful login in sshd's words, with either time stamp: nothing is reported
    for a user without privileges; an unreadable date raises; otherwise the event has
    exactly the user, address, method and port of the line. *)
Theorem login_reported s l off now dt g port : login_ok l → stamp_ok s → int_of_str (lg_port l) = Some port →
  (read_line (login_line s l) off now dt g).1 = g ∧
  login_result s l off port dt (read_line (login_line s l) off now dt g).2.
Proof. intros Hl Hs Hport. rewrite login_line_parsed by done. split; [done|]. by apply parse_accepted_login. Qed.
(** A login of a privileged user whose date cannot be read raises. *)
Lemma login_unreadable s l off now dt g scope e : login_ok l → stamp_ok s → scope_of (lg_user l) = Some scope →
  stamp_time s dt = Err e → is_ok (read_line (login_line s l) off now dt g).2 = false.
Proof.
  intros Hl Hs Hp Ht. rewrite login_line_parsed by done. unfold parse_accepted. cbn [snd].
  assert (group (stamp_groups s ++ login_groups l) "user" = lg_user l) as -> by by destruct s.
  assert (parse_timestamp cal (stamp_groups s ++ login_groups l) (stamp_is_iso s) dt = stamp_time s dt) as -> by by destruct s.
  by rewrite Hp, Ht.
Qed.

(** *** Refused logins and bursts *)
Record Refusal := mkRefusal { rf_ip : string; rf_time : pyfloat; rf_line : string; rf_offset : Z }.
(** Refusals one after another, with the bursts they report: address and time. *)
Fixpoint refused_run (rs : list Refusal) (g : Ingestor) : Ingestor * list (string * Q) :=
  match rs with
  | [] => (g, [])
  | r :: rest =>
      let '(g, o) := failed_login cfg node_id cal tx (rf_ip r) (rf_line r) (rf_offset r) (rf_time r) g in
      let '(g, bs) := refused_run rest g in
      (g, match o with Some _ => (rf_ip r, rf_time r) :: bs | None => bs end)
  end.
Definition later (c : Q) (l : list Q) : list Q := filter (λ t, c <?q t = true)%Q l.
Definition refusal_times (ip : string) (rs : list Refusal) : list Q := rf_time <$> filter (λ r, rf_ip r = ip) rs.
Definition last_burst (g : Ingestor) (ip : string) : Q := default 0%Q (dget (ig_burst_emitted_at g) ip).
Definition window_of (g : Ingestor) (ip : string) : list Q := default [] (dget (ig_failed_window g) ip).

(** The refusals of an address later than [c], which is neither before its last
    burst nor a window before [now], are in its window. *)
Definition windows_hold (rs : list Refusal) (now : Q) (g : Ingestor) (bs : list (string * Q)) : Prop :=
  Forall (λ r, rf_time r <= now)%Q rs ∧
  (∀ ip t, dget (ig_burst_emitted_at g) ip = Some t → (ip, t) ∈ bs ∧ (t <= now)%Q) ∧
  ∀ ip c, (last_burst g ip <= c)%Q → (now - failed_burst_window_sec <= c)%Q →
    (length (later c (refusal_times ip rs)) <= length (later c (window_of g ip)))%nat.

Lemma later_app c a b : later c (a ++ b) = later c a ++ later c b.
Proof. apply filter_app. Qed.
Lemma later_recent c cutoff l : (cutoff <= c)%Q → later c (filter (λ t, cutoff <=?q t = true)%Q l) = later c l.
Proof.
  intros Hc. unfold later. rewrite list_filter_filter. apply list_filter_iff. intros t. rewrite Qltb_true, Qle_bool_iff.
  split; [by intros []|]. intros Ht. split; [done|]. lra.
Qed.
Lemma later_none c l : Forall (λ t, t <= c)%Q l → later c l = [].
Proof.
  induction 1 as [|t l Ht _ IH]; [done|]. unfold later in *. rewrite filter_cons_False; [done|]. rewrite Qltb_true. lra.
Qed.
Lemma later_length c l : (length (later c l) <= length l)%nat.
Proof. apply length_filter. Qed.

Lemma refusal_times_snoc ip rs r :
  refusal_times ip (rs ++ [r]) = refusal_times ip rs ++ (if decide (rf_ip r = ip) then [rf_time r] else []).
Proof.
  unfold refusal_times. rewrite filter_app, fmap_app. f_equal.
  case_decide; [rewrite filter_cons_True|rewrite filter_cons_False]; done.
Qed.
(** The recent burst that an address with an emission time after [c] has. *)
Lemma recent_burst rs now g bs ip c : windows_hold rs now g bs → (0 <= c)%Q → (c < last_burst g ip)%Q →
  ∃ t, (ip, t) ∈ bs ∧ (c < t <= now)%Q.
Proof.
  intros (_ & Hb & _) H0 Hc. unfold last_burst in Hc. destruct (dget (ig_burst_emitted_at g) ip) as [t|] eqn:Ht; cbn in Hc; [|lra].
  destruct (Hb _ _ Ht). eauto.
Qed.
(** The refusal enters its window; old ones may leave it. *)
Lemma window_entered r rs now g bs :
  let window := filter (λ t, rf_time r - failed_burst_window_sec <=?q t = true)%Q (window_of g (rf_ip r) ++ [rf_time r]) in
  windows_hold rs now g bs → (now <= rf_time r)%Q →
  windows_hold (rs ++ [r]) (rf_time r)
    (mkIngestor (ig_state g) (dset (ig_failed_window g) (rf_ip r) window) (ig_burst_emitted_at g)) bs ∧
  ∀ c, (last_burst g (rf_ip r) <= c)%Q → (rf_time r - failed_burst_window_sec <= c)%Q →
    (length (later c (refusal_times (rf_ip r) (rs ++ [r]))) <= length window)%nat.
Proof.
  intros window (Ht & Hb & Hw) Hnow.
  assert (∀ c, (last_burst g (rf_ip r) <= c)%Q → (rf_time r - failed_burst_window_sec <= c)%Q →
    (length (later c (refusal_times (rf_ip r) (rs ++ [r]))) <= length (later c window))%nat) as Hown.
  { intros c H1 H2. subst window. rewrite later_recent, refusal_times_snoc, decide_True, !later_app, !length_app by done.
    specialize (Hw (rf_ip r) c H1 ltac:(lra)). lia. }
  split.
  - split; [|split].
    + apply Forall_app; split; [|by apply Forall_singleton, Qle_refl]. eapply Forall_impl; [exact Ht|]. intros x Hx. cbn in *. lra.
    + intros ip t Hip. destruct (Hb ip t Hip). split; [done|lra].
    + intros ip c H1 H2. unfold window_of. cbn [ig_failed_window]. destruct (decide (ip = rf_ip r)) as [->|Hne].
      * rewrite dget_dset_eq. by apply Hown.
      * rewrite dget_dset_ne by done. rewrite refusal_times_snoc, decide_False, app_nil_r by done. apply Hw; [done|lra].
  - intros c H1 H2. etransitivity; [by apply Hown|apply later_length].
Qed.
Lemma failed_login_step r rs now g bs : windows_hold rs now g bs → (now <= rf_time r)%Q → (failed_burst_window_sec <= rf_time r)%Q →
  let '(g', o) := failed_login cfg node_id cal tx (rf_ip r) (rf_line r) (rf_offset r) (rf_time r) g in
  let bs' := match o with Some _ => (rf_ip r, rf_time r) :: bs | None => bs end in
  windows_hold (rs ++ [r]) (rf_time r) g' bs' ∧
  ((5 <= length (later (rf_time r - failed_burst_window_sec) (refusal_times (rf_ip r) (rs ++ [r]))))%nat →
   ∃ t, (rf_ip r, t) ∈ bs' ∧ (rf_time r - failed_burst_window_sec < t <= rf_time r)%Q).
Proof.
  intros Hh Hnow Hep. pose proof (window_entered r rs now g bs Hh Hnow) as [Hg1 Hwin].
  set (window := filter _ _) in *. set (t := rf_time r) in *. unfold failed_login. fold (window_of g (rf_ip r)). fold t. fold window.
  fold (last_burst g (rf_ip r)). assert (0 <= t - failed_burst_window_sec)%Q as H0 by lra.
  assert ((t - failed_burst_window_sec < last_burst g (rf_ip r))%Q →
    ∃ t', (rf_ip r, t') ∈ bs ∧ (t - failed_burst_window_sec < t' <= t)%Q) as Hrecent.
  { intros Hlb. destruct (recent_burst rs now g bs (rf_ip r) _ Hh H0 Hlb) as (t' & ? & ?). exists t'. split; [done|lra]. }
  destruct (decide (failed_burst_threshold <= length window)%nat) as [Hlen|Hlen].
  - destruct (_ <?q _)%Q eqn:Hq; (split; [|intros H5]).
    + done.
    + apply Hrecent. apply Qltb_true in Hq. lra.
    + destruct Hg1 as (Ht & Hb & Hw). split; [done|]. split.
      * intros ip t'. cbn [ig_burst_emitted_at]. destruct (decide (ip = rf_ip r)) as [->|Hne].
        -- rewrite dget_dset_eq. intros [= <-]. split; [left|lra].
        -- rewrite dget_dset_ne by done. intros Hip. destruct (Hb ip t' Hip). split; [by right|done].
      * intros ip c. unfold last_burst, window_of. cbn [ig_burst_emitted_at ig_failed_window]. destruct (decide (ip = rf_ip r)) as [->|Hne].
        -- rewrite !dget_dset_eq. cbn [default]. intros Hc _. rewrite later_none; [cbn; lia|]. unfold refusal_times.
           apply Forall_fmap, Forall_forall. intros x [_ Hx]%list_elem_of_filter. rewrite Forall_forall in Ht. specialize (Ht x Hx). cbn in *. lra.
        -- rewrite !dget_dset_ne by done. specialize (Hw ip c). unfold last_burst, window_of in Hw. cbn [ig_burst_emitted_at ig_failed_window] in Hw.
           rewrite dget_dset_ne in Hw by done. apply Hw.
    + exists t. split; [left|]. unfold failed_burst_window_sec. lra.
  - split; [done|]. intros H5. apply Hrecent. apply Qnot_le_lt. intros Hle. apply Hlen. unfold failed_burst_threshold.
    etransitivity; [exact H5|]. apply Hwin; [done|apply Qle_refl].
Qed.

Lemma windows_hold_weaken rs now now' g bs bs' : windows_hold rs now g bs → (now <= now')%Q → bs ⊆ bs' → windows_hold rs now' g bs'.
Proof.
  intros (Ht & Hb & Hw) Hn Hs. split; [|split].
  - eapply Forall_impl; [exact Ht|]. intros x Hx. cbn in *. lra.
  - intros ip t Hip. destruct (Hb ip t Hip). split; [by apply Hs|lra].
  - intros ip c H1 H2. apply Hw; [done|lra].
Qed.
Lemma refused_run_app a b g : refused_run (a ++ b) g =
  let '(g1, bs1) := refused_run a g in let '(g2, bs2) := refused_run b g1 in (g2, bs1 ++ bs2).
Proof.
  revert g. induction a as [|r a IH]; intros g; cbn [app refused_run]; [by destruct (refused_run b g)|].
  destruct (failed_login _ _ _ _ _ _ _ _ g) as [g1 o]. rewrite IH. destruct (refused_run a g1) as [g2 bs].
  destruct (refused_run b g2) as [g3 bs']. by destruct o.
Qed.
Definition in_order (rs : list Refusal) : Prop := StronglySorted (λ x y, rf_time x <= rf_time y)%Q rs.
Lemma in_order_app a r b : in_order (a ++ r :: b) → in_order a ∧ Forall (λ x, rf_time x <= rf_time r)%Q a.
Proof.
  unfold in_order. rewrite StronglySorted_app. intros (H1 & H2 & _). split; [done|]. apply Forall_forall. intros x Hx. apply H1; [done|left].
Qed.
Lemma refused_run_holds file rs : in_order rs → Forall (λ r, failed_burst_window_sec <= rf_time r)%Q rs →
  ∀ now, Forall (λ r, rf_time r <= now)%Q rs → (0 <= now)%Q →
  let '(g, bs) := refused_run rs (new_ingestor file) in windows_hold rs now g bs.
Proof.
  induction rs as [|r rs IH] using rev_ind; intros Hord Hep now Hnow H0.
  - cbn. split; [constructor|]. split; [intros ip t [=]|]. intros. cbn. lia.
  - rewrite refused_run_app. apply Forall_app in Hep as [Hep Hr], Hnow as [_ Hlast]. rewrite Forall_singleton in Hr, Hlast.
    apply in_order_app in Hord as [Hord Hbefore]. specialize (IH Hord Hep (rf_time r) Hbefore).
    destruct (refused_run rs (new_ingestor file)) as [g bs]. cbn [refused_run].
    assert (windows_hold rs (rf_time r) g bs) as Hh.
    { apply IH. unfold failed_burst_window_sec in *. lra. }
    pose proof (failed_login_step r rs (rf_time r) g bs Hh (Qle_refl _) Hr) as Hstep.
    destruct (failed_login _ _ _ _ _ _ _ _ g) as [g1 o]. destruct Hstep as [Hh1 _].
    eapply windows_hold_weaken; [exact Hh1|done|]. destruct o; set_solver.
Qed.

(** C26: Five refusals of one address within the window are never missed: at the fifth, a
    burst of that address has been reported within the window. *)
Theorem brute_force_reported file rs pre r post : in_order rs → Forall (λ r, failed_burst_window_sec <= rf_time r)%Q rs →
  rs = pre ++ r :: post →
  (5 <= length (later (rf_time r - failed_burst_window_sec) (refusal_times (rf_ip r) (pre ++ [r]))))%nat →
  ∃ t, (rf_ip r, t) ∈ (refused_run rs (new_ingestor file)).2 ∧ (rf_time r - failed_burst_window_sec < t <= rf_time r)%Q.
Proof.
  intros Hord Hep -> H5. rewrite (refused_run_app pre (r :: post)). apply Forall_app in Hep as [Hep Hr]. apply Forall_cons in Hr as [Hr _].
  apply in_order_app in Hord as [Hord Hbefore]. pose proof (refused_run_holds file pre Hord Hep (rf_time r) Hbefore) as Hh.
  destruct (refused_run pre (new_ingestor file)) as [g bs]. cbn [refused_run].
  assert (windows_hold pre (rf_time r) g bs) as Hw.
  { apply Hh. unfold failed_burst_window_sec in *. lra. }
  pose proof (failed_login_step r pre (rf_time r) g bs Hw (Qle_refl _) Hr) as Hstep.
  destruct (failed_login _ _ _ _ _ _ _ _ g) as [g1 o]. destruct Hstep as [_ Hstep]. destruct (Hstep H5) as (t & Hin & Ht).
  destruct (refused_run post g1) as [g2 bs2]. cbn [snd]. exists t. split; [|done]. apply elem_of_app. destruct o; set_solver.
Qed.
End reports.

(** ** Concrete lines *)
Definition example_calendar : Calendar :=
  mkCalendar (λ q, "utc " +:+ py_str_int (Qtrunc q)) (λ q, "local " +:+ py_str_int (Qtrunc q))
    (λ s, if String.prefix "2026-05-" s then Some s else None) string (λ _, 2026)
    (λ y m d c, Some (py_join " " [py_str_int y; m; d; c])) (λ _, 0%Q) (λ _ s, Some s) id.
Definition example_accounts : Accounts :=
  mkAccounts (λ u, if decide (u = "alice") then Some 1000 else None)
    (λ g, if decide (g = "sudo") then Some (["alice"], 27) else None).
Definition example_texts : AuthTexts :=
  mkAuthTexts (λ u, u) (λ u ip, u) (λ ip, ip) (λ ip, ip) (λ m t, m) (λ m t a, a).
Definition example_ingest_cfg : LinuxIngestConfig :=
  mkLinuxIngestConfig true "auth_log_file" (Some "/var/log/auth.log") 2 None [] ["sudo"] None.
Definition example_login : Login := mkLogin "srv1" "4242" "publickey" "alice" "10.0.0.7" "52022" " ssh2: ED25519".
Definition example_iso (month : string) : Stamp := IsoStamp "2026" month "01" "10:00:00.123456+03:00".
Definition example_syslog : Stamp := SyslogStamp "M" "ay" "  " "1" "10" "00" "00".
Lemma example_login_ok : login_ok example_login.
Proof. repeat split; discriminate. Qed.
Lemma example_stamps_ok : stamp_ok (example_iso "05") ∧ stamp_ok (example_iso "13") ∧ stamp_ok example_syslog.
Proof. repeat split; (discriminate || (cbn; lia)). Qed.
Definition no_refusals : Ingestor := new_ingestor None.
Definition payload_view (ks : list string) (r : Ingestor * result (option (odict json))) : option (list json) :=
  match r.2 with Ok (Some p) => Some (jget p <$> ks) | _ => None end.
#[local] Instance line_floats : FloatFormat := frac_format.
Definition example_parse (line : string) : Ingestor * result (option (odict json)) :=
  parse_line example_ingest_cfg "n1" example_calendar example_accounts example_texts line 0 1000 1000 no_refusals.

Lemma login_reported_witness :
  privilege_scope example_ingest_cfg example_accounts (lg_user example_login) = Some "privileged_group" ∧
  payload_view ["principal"; "source_ip"; "occurred_at"] (example_parse (login_line example_syslog example_login))
  = Some [JStr "alice"; JStr "10.0.0.7"; JStr "2026 May 1 10:00:00"] ∧
  ∃ p, (example_parse (login_line (example_iso "05") example_login)).2 = Ok (Some p) ∧ jget p "principal" = JStr "alice".
Proof.
  split; [vm_compute; reflexivity|]. split; [vm_compute; reflexivity|].
  pose proof (login_reported example_ingest_cfg "n1" example_calendar example_accounts example_texts (example_iso "05") example_login
    0 1000 1000 no_refusals 52022 example_login_ok (proj1 example_stamps_ok) eq_refl) as Hr.
  destruct Hr as [_ (p & ctx & Hr & _ & Hp & _)]. exists p. split; [exact Hr|exact Hp].
Defined.

Definition refusals_at (ts : list Q) : list Refusal := (λ t, mkRefusal "10.0.0.5" t "" 0) <$> ts.
Lemma brute_force_reported_witness :
  let rs := refusals_at [1000; 1010; 1020; 1030; 1040; 1050; 1060]%Q in
  (∃ t, ("10.0.0.5", t) ∈ (refused_run example_ingest_cfg "n1" example_calendar example_texts rs (new_ingestor None)).2 ∧
        (1060 - 120 < t <= 1060)%Q) ∧
  (refused_run example_ingest_cfg "n1" example_calendar example_texts rs (new_ingestor None)).2 = [("10.0.0.5", 1040%Q)].
Proof.
  cbv zeta. split; [|vm_compute; reflexivity].
  apply (brute_force_reported example_ingest_cfg "n1" example_calendar example_texts None
    (refusals_at [1000; 1010; 1020; 1030; 1040; 1050; 1060]%Q) (refusals_at [1000; 1010; 1020; 1030; 1040; 1050]%Q)
    (mkRefusal "10.0.0.5" 1060 "" 0) []).
  - unfold in_order, refusals_at. repeat constructor; cbn; lra.
  - unfold refusals_at, failed_burst_window_sec. repeat constructor; cbn; lra.
  - reflexivity.
  - vm_compute. lia.
Defined.

(** The address of a refused login and the text of an escalation can be forged by
    the user name of the attacker. *)
Example forged_refusal :
  default [] (dget (ig_failed_window (example_parse
    "May  1 10:00:00 srv1 sshd[7]: Failed password for invalid user x from 6.6.6.6 port 1 from 10.0.0.5 port 22 ssh2").1) "6.6.6.6")
  = [1000%Q].
Proof. vm_compute. reflexivity. Qed.
Example forged_escalation :
  payload_view ["event_kind"; "actor_user"] (example_parse
    "May  1 10:00:00 srv1 sshd[7]: Invalid user sudo: pam_unix(sudo:session): session opened for user root by bob from 10.0.0.5 port 22")
  = Some [JStr "privilege_escalation"; JStr "bob"].
Proof. vm_compute. reflexivity. Qed.
(** An unprivileged user who becomes root through su is reported, one who becomes
    another user is not. *)
Example su_sessions :
  payload_view ["event_kind"; "mechanism"; "target_user"] <$>
    (example_parse <$> ["May  1 10:00:00 srv1 su[8]: pam_unix(su-l:session): session opened for user root(uid=0) by bob(uid=1001)";
                        "May  1 10:00:00 srv1 su: pam_unix(su:session): session opened for user carol by bob(uid=1001)"])
  = [Some [JStr "privilege_escalation"; JStr "su"; JStr "root"]; None].
Proof. vm_compute. reflexivity. Qed.
