(* ===== verification/AuthLogFacts.v ===== *)
(** Theorems about the authentication log reader: the lines of a log that only grows
    are handed to the parser once, across polls and restarts, while the state file can
    be written; what stops the reader; and lines it loses. *)
From S2P Require Import Prelude Sha256 Json Models Config JsonText JsonParse AgentRelay Regex Collectors CollectorsFacts AuthLog AuthLogLines.

(** ** Lines and offsets *)
(** Texts that end at a line boundary. *)
Definition whole_lines (a : bytes) : Prop := a = [] ∨ last a = Some 10.

Lemma read_lines_app_at a : ∀ start pos cur b, last a = Some 10 →
  read_lines start pos cur (a ++ b) =
  read_lines start pos cur a ++ read_lines (pos + Z.of_nat (length a)) (pos + Z.of_nat (length a)) [] b.
Proof.
  induction a as [a IH] using (induction_ltof1 _ (@length Z)). intros start pos cur b Hl.
  assert (∀ d a' start' pos' cur', (length a' < length a)%nat → last a' = Some 10 ∨ (a' = [] ∧ start' = pos' ∧ cur' = []) → pos' + Z.of_nat (length a') = d →
    read_lines start' pos' cur' (a' ++ b) = read_lines start' pos' cur' a' ++ read_lines d d [] b) as Hrec.
  { intros d a' start' pos' cur' Hlt [Hl'|(-> & -> & ->)] <-; [by apply IH|]. cbn [app length]. by rewrite Z.add_0_r. }
  destruct a as [|x a]; [done|]. cbn [app]. rewrite last_cons in Hl.
  assert (last a = Some 10 ∨ (a = [] ∧ x = 10)) as Hl'.
  { destruct a as [|y a]; [right; by injection Hl as ->|left]. by destruct (last (y :: a)) eqn:E; [|apply last_None in E]. }
  cbn [length] in *. unfold read_lines at 1 2. fold read_lines.
  destruct (Z.eqb_spec x 10) as [->|Hx].
  - cbn [app]. f_equal. apply Hrec; [lia| |lia]. destruct Hl' as [?|[? _]]; eauto.
  - destruct Hl' as [Hl'|[_ ?]]; [|done]. destruct (Z.eqb_spec x 13) as [->|Hx'].
    + destruct a as [|y a]; [done|]. cbn [app length] in *.
      destruct (Z.eq_dec y 10) as [->|Hy].
      * cbn [app]. f_equal. apply Hrec; [lia| |lia]. rewrite last_cons in Hl'. destruct (last a) eqn:E; [by left|].
        apply last_None in E. auto.
      * assert (∀ (A : Type) (p q : A), match y with 10 => p | _ => q end = q) as E2 by
          (intros A p q; repeat match goal with |- context [match ?z with _ => _ end] => is_var z; destruct z end; congruence).
        rewrite !E2. cbn [app]. f_equal. change (y :: a ++ b) with ((y :: a) ++ b). apply Hrec; [cbn; lia|by left|cbn; lia].
    + apply Hrec; [lia|by left|lia].
Qed.
Lemma read_lines_app a b : whole_lines a →
  read_lines 0 0 [] (a ++ b) = read_lines 0 0 [] a ++ read_lines (Z.of_nat (length a)) (Z.of_nat (length a)) [] b.
Proof. intros [->|Hl]; [done|]. by rewrite read_lines_app_at. Qed.

(** ** Polls and restarts *)
Section reader.
Context (cfg : LinuxIngestConfig) (node_id : string) (cal : Calendar) (acc : Accounts) (tx : AuthTexts) `{FloatFormat}.
Context (decode : bytes → string).
#[local] Abbreviation read_poll := (poll cfg node_id cal acc tx decode).
#[local] Abbreviation read_line := (parse_line cfg node_id cal acc tx).
#[local] Abbreviation read_all := (parse_lines cfg node_id cal acc tx decode).

Lemma parse_line_state line off now dt g : ig_state (read_line line off now dt g).1 = ig_state g.
Proof.
  unfold parse_line, parse_other, failed_login. destruct (py_match ISO_SSH_ACCEPTED_RE line); [done|].
  destruct (py_match SYSLOG_SSH_ACCEPTED_RE line); [done|]. destruct (py_search SSH_FAILED_RE line); [|done].
  case_decide; [|done]. by destruct (_ <?q _)%Q.
Qed.
Lemma parse_lines_state now dt ls g : ig_state (read_all now dt ls g).1 = ig_state g.
Proof.
  revert g. induction ls as [|[off raw] ls IH]; intros g; [done|]. cbn [parse_lines].
  pose proof (parse_line_state (decode raw) off now (dt off) g) as Hs.
  destruct (read_line (decode raw) off now (dt off) g) as [g' [o|e]]; [|done].
  specialize (IH g'). destruct (read_all now dt ls g') as [g'' r]. cbn in *. congruence.
Qed.
Lemma log_state_int ino off : state_int (log_state ino off) "inode" = Ok ino ∧ state_int (log_state ino off) "offset" = Ok off.
Proof.
  split; unfold state_int, py_or, log_state; match goal with |- context [py_bool ?v] => change v with (JInt ino) || change v with (JInt off) end.
  all: destruct (py_bool _) eqn:E; cbn in E |- *; [done|]; f_equal; lia.
Qed.
Lemma log_state_ok ino off : json_ok (log_state ino off).
Proof. cbn. repeat split. apply (bool_decide_unpack _). vm_compute. exact I. Qed.

(** The reader, the state file, and whether the last operation was a poll that
    succeeded.  A poll that raises leaves the file as it was, unless it is the writing of
    the file that raises: what a failed write leaves on disk is not modelled, so nothing
    below is claimed of a restart after one. *)
Record LogRun := mkLogRun { lr_reader : Ingestor; lr_file : option string; lr_ok : bool }.
Inductive log_op := LogPoll (env : PollEnv) | LogRestart.
(** An operation and the lines it hands on: those whose events the read_poll returns. *)
Definition log_step (op : log_op) (r : LogRun) : LogRun * list (Z * bytes) :=
  match op with
  | LogRestart => (mkLogRun (new_ingestor (lr_file r)) (lr_file r) false, [])
  | LogPoll env =>
      match read_poll env (lr_reader r) with
      | (g, Ok _) =>
          (mkLogRun g (Some (saved_text g)) true,
           match pe_file env with Some v => match lines_read v (lr_reader r) with Ok (_, ls) => ls | Err _ => [] end | None => [] end)
      | (g, Err _) => (mkLogRun g (lr_file r) false, [])
      end
  end.
Fixpoint log_run (ops : list log_op) (r : LogRun) : LogRun * list (Z * bytes) :=
  match ops with
  | [] => (r, [])
  | op :: rest => let '(r, ls) := log_step op r in let '(r, ls') := log_run rest r in (r, ls ++ ls')
  end.
Definition log_start : LogRun := mkLogRun (new_ingestor None) None true.

(** A log that is only appended to, under one inode (no rotation), and of which every
    poll finds whole lines. *)
Fixpoint appended_only (ino : Z) (bs : bytes) (ops : list log_op) : Prop :=
  match ops with
  | [] => True
  | LogRestart :: rest => appended_only ino bs rest
  | LogPoll env :: rest =>
      ∃ more, pe_file env = Some (mkLogView ino (Z.of_nat (length (bs ++ more))) (Ok (bs ++ more))) ∧
        whole_lines (bs ++ more) ∧ appended_only ino (bs ++ more) rest
  end.
(** The state file can be written whenever it is. *)
Definition state_saved (ops : list log_op) : Prop :=
  Forall (λ op, match op with LogPoll env => pe_save env = Ok () | LogRestart => True end) ops.
(** The reader is not restarted. *)
Definition one_life (ops : list log_op) : Prop := Forall (λ op, op ≠ LogRestart) ops.
(** The bytes of the log when it was last read. *)
Fixpoint log_content (bs : bytes) (ops : list log_op) : bytes :=
  match ops with
  | [] => bs
  | LogPoll env :: rest => log_content (match pe_file env with Some v => match lv_bytes v with Ok b => b | Err _ => bs end | None => bs end) rest
  | LogRestart :: rest => log_content bs rest
  end.

(** In memory, and on disk too, the state says that [p] has been read. *)
Definition has_read_mem (ino : Z) (p : bytes) (r : LogRun) : Prop :=
  ig_state (lr_reader r) = log_state ino (Z.of_nat (length p)) ∨ p = [] ∧ ig_state (lr_reader r) = fresh_state.
Definition on_disk (r : LogRun) : Prop := load_state (lr_file r) = ig_state (lr_reader r).
Definition has_read (ino : Z) (p : bytes) (r : LogRun) : Prop := has_read_mem ino p r ∧ on_disk r.

Lemma has_read_start ino p r size : has_read_mem ino p r → Z.of_nat (length p) <= size → ∀ b,
  start_offset (ig_state (lr_reader r)) (mkLogView ino size b) = Ok (Z.of_nat (length p)).
Proof.
  intros [-> | [-> ->]] Hsz b; unfold start_offset.
  - destruct (log_state_int ino (Z.of_nat (length p))) as [-> ->]. cbn [mbind result_bind lv_inode lv_size].
    rewrite Z.eqb_refl. cbn [negb orb]. by destruct (Z.ltb_spec size (Z.of_nat (length p))); [lia|].
  - change (state_int fresh_state "inode") with (Ok 0). change (state_int fresh_state "offset") with (Ok 0). cbn [mbind result_bind].
    by match goal with |- context [if ?c then _ else _] => destruct c end.
Qed.
Lemma has_read_offset ino p r : has_read_mem ino p r → state_int (ig_state (lr_reader r)) "offset" = Ok (Z.of_nat (length p)).
Proof. intros [-> | [-> ->]]; [|done]. by destruct (log_state_int ino (Z.of_nat (length p))). Qed.

(** One poll: it moves from [p] to [p'], the lines [new] in between are handed on
    or, when the state file cannot be written, lost. *)
Lemma log_step_poll ino p q more env r : has_read_mem ino p r → whole_lines p →
  pe_file env = Some (mkLogView ino (Z.of_nat (length (p ++ q ++ more))) (Ok (p ++ q ++ more))) →
  let '(r', ls) := log_step (LogPoll env) r in
  ∃ p' q' new, p ++ q ++ more = p' ++ q' ∧ has_read_mem ino p' r' ∧ read_lines 0 0 [] p' = read_lines 0 0 [] p ++ new ∧
    (p' = p ∨ p' = p ++ q ++ more) ∧ (lr_ok r' = true → q' = []) ∧ ls `sublist_of` new ∧
    (pe_save env = Ok () → ls = new ∧ (on_disk r → on_disk r')).
Proof.
  intros Hr Hp Hfile. unfold log_step, poll. rewrite Hfile.
  assert (lines_read (mkLogView ino (Z.of_nat (length (p ++ q ++ more))) (Ok (p ++ q ++ more))) (lr_reader r) =
    Ok (Z.of_nat (length (p ++ q ++ more)), read_lines (Z.of_nat (length p)) (Z.of_nat (length p)) [] (q ++ more))) as Hread.
  { unfold lines_read. rewrite (has_read_start ino p r) by (rewrite ?length_app; (done || lia)). cbn [mbind result_bind lv_bytes].
    destruct (Z.ltb_spec (Z.of_nat (length p)) 0); [lia|]. rewrite Nat2Z.id, drop_app_length, length_app. do 2 f_equal. lia. }
  rewrite Hread. cbn [lv_inode]. set (new := read_lines (Z.of_nat (length p)) (Z.of_nat (length p)) [] (q ++ more)).
  pose proof (parse_lines_state (pe_now env) (pe_dt_now env) new (lr_reader r)) as Hs.
  destruct (read_all _ _ _ (lr_reader r)) as [g [evs|e]]; cbn [fst] in Hs.
  - assert (read_lines 0 0 [] (p ++ q ++ more) = read_lines 0 0 [] p ++ new) as Hnew by (by rewrite read_lines_app).
    destruct (pe_save env) as [[]|e] eqn:Hsave; cbn [mbind result_bind]; exists (p ++ q ++ more), [], new; rewrite app_nil_r;
      (split; [done|]; split; [by left|]; split; [done|]; split; [by right|]; split; [done|]).
    + split; [done|]. intros _. split; [done|]. intros _. unfold on_disk. cbn [lr_file load_state lr_reader]. unfold saved_text.
      cbn [ig_state set_ig_state]. by rewrite json_parse_dumps by apply log_state_ok.
    + split; [apply sublist_nil_l|done].
  - exists p, (q ++ more), []. split; [done|]. unfold has_read_mem, on_disk. cbn [lr_reader lr_file lr_ok]. rewrite Hs, app_nil_r.
    split; [done|]. split; [done|]. split; [by left|]. split; [done|]. split; [done|]. done.
Qed.

Lemma log_run_from ino ops : ∀ p q r, has_read_mem ino p r → whole_lines p → (lr_ok r = true → q = []) →
  appended_only ino (p ++ q) ops → on_disk r ∧ state_saved ops ∨ one_life ops →
  let '(r', ls) := log_run ops r in
  ∃ p' q' new, log_content (p ++ q) ops = p' ++ q' ∧ has_read_mem ino p' r' ∧ read_lines 0 0 [] p' = read_lines 0 0 [] p ++ new ∧
    (lr_ok r' = true → q' = []) ∧ ls `sublist_of` new ∧ (state_saved ops → ls = new).
Proof.
  induction ops as [|[env|] ops IH]; intros p q r Hr Hp Hq Happ Hcase; cbn [log_run].
  - exists p, q, []. rewrite app_nil_r. by split_and!.
  - cbn [appended_only] in Happ. destruct Happ as (more & Hfile & Hw & Happ). rewrite <- !app_assoc in *.
    pose proof (log_step_poll ino p q more env r Hr Hp Hfile) as Hstep.
    destruct (log_step (LogPoll env) r) as [r1 ls1]. destruct Hstep as (p1 & q1 & new1 & Heq & Hr1 & Hls & Hp1 & Hok & Hsub & Hsave).
    assert (whole_lines p1) as Hw1 by (destruct Hp1 as [->| ->]; done).
    assert (on_disk r1 ∧ state_saved ops ∨ one_life ops) as Hcase1.
    { destruct Hcase as [[Hd [Hs Hss]%Forall_cons]|[_ Ho]%Forall_cons]; [left|by right]. split; [|done]. by apply Hsave. }
    rewrite Heq in Happ. specialize (IH p1 q1 r1 Hr1 Hw1 Hok Happ Hcase1). cbn [log_content]. rewrite Hfile. cbn [lv_bytes]. rewrite Heq.
    destruct (log_run ops r1) as [r2 ls2]. destruct IH as (p2 & q2 & new2 & H1 & H2 & H3 & H4 & H5 & H6).
    exists p2, q2, (new1 ++ new2). rewrite H3, Hls, app_assoc. split_and!; try done; [by apply sublist_app|].
    intros [Hs Hss]%Forall_cons. destruct (Hsave Hs) as [-> _]. by rewrite H6.
  - destruct Hcase as [[Hd [_ Hss]%Forall_cons]|[Hn _]%Forall_cons]; [|done].
    cbn [appended_only log_step] in *. specialize (IH p q (mkLogRun (new_ingestor (lr_file r)) (lr_file r) false)).
    destruct (log_run ops (mkLogRun (new_ingestor (lr_file r)) (lr_file r) false)) as [r2 ls2]. cbn [log_content app].
    destruct IH as (p2 & q2 & new2 & H1 & H2 & H3 & H4 & H5 & H6); try done.
    + unfold has_read_mem. cbn [lr_reader new_ingestor ig_state]. by rewrite Hd.
    + by left.
    + exists p2, q2, new2. split_and!; try done. intros _. by apply H6.
Qed.

(** C25: what reaches the parser from a log that is only appended to, whole lines at
    a time. When the state file can be written, the lines handed on over any sequence
    of polls, polls that a line makes raise, and restarts are those of the part of the log
    that the offset covers, each once, in order, at its true offset, and after a poll
    that succeeds they are all of its lines. When the file cannot be written some lines
    are lost, but while the reader is not restarted none is handed on twice, out of
    order or at a wrong offset. *)
Theorem log_read_once ino ops : appended_only ino [] ops →
  let '(r, ls) := log_run ops log_start in
  (state_saved ops →
   ∃ off, state_int (ig_state (lr_reader r)) "offset" = Ok (Z.of_nat off) ∧
     ls = read_lines 0 0 [] (take off (log_content [] ops)) ∧ (lr_ok r = true → off = length (log_content [] ops))) ∧
  (one_life ops →
   ∃ off, state_int (ig_state (lr_reader r)) "offset" = Ok (Z.of_nat off) ∧
     ls `sublist_of` read_lines 0 0 [] (take off (log_content [] ops))).
Proof.
  intros Happ. pose proof (log_run_from ino ops [] [] log_start) as Hrun. destruct (log_run ops log_start) as [r ls].
  assert (∀ Hcase : on_disk log_start ∧ state_saved ops ∨ one_life ops,
    ∃ off, state_int (ig_state (lr_reader r)) "offset" = Ok (Z.of_nat off) ∧
      ls `sublist_of` read_lines 0 0 [] (take off (log_content [] ops)) ∧
      (state_saved ops → ls = read_lines 0 0 [] (take off (log_content [] ops))) ∧
      (lr_ok r = true → off = length (log_content [] ops))) as Hall.
  { intros Hcase. destruct Hrun as (p & q & new & Hc & Hst & Hls & Hok & Hsub & Hsave); [by right|by left|done|done|done|].
    cbn [app] in Hc, Hls. rewrite Hc. exists (length p). rewrite take_app_length, Hls. split; [by eapply has_read_offset|].
    split; [done|]. split; [done|]. intros ->%Hok. by rewrite app_nil_r. }
  split.
  - intros Hs. destruct Hall as (off & H1 & _ & H2 & H3); [by left|]. exists off. split_and!; auto.
  - intros Ho. destruct Hall as (off & H1 & H2 & _); [by right|]. by exists off.
Qed.

(** *** A line that raises *)
Definition unreadable (raw : bytes) : Prop := ∀ off now dt g, is_ok (read_line (decode raw) off now dt g).2 = false.
Lemma parse_lines_unreadable ls off raw : (off, raw) ∈ ls → unreadable raw → ∀ now dt g, is_ok (read_all now dt ls g).2 = false.
Proof.
  intros Hin Hu now dt. induction ls as [|[off' raw'] ls IH]; [by inversion Hin|]. intros g. cbn [parse_lines].
  apply elem_of_cons in Hin as [[= <- <-]|Hin].
  - specialize (Hu off now (dt off) g). by destruct (read_line _ _ _ _ g) as [g' [o|e]].
  - destruct (read_line _ _ _ _ g) as [g' [o|e]]; [|done]. specialize (IH Hin g'). by destruct (read_all now dt ls g') as [g'' [|]].
Qed.
Definition no_line_end (raw : bytes) : bool := forallb (λ b, negb (b =? 10) && negb (b =? 13)) raw.
Lemma read_lines_line raw : ∀ start pos cur b, no_line_end raw = true →
  (start, reverse cur ++ raw) ∈ read_lines start pos cur (raw ++ 10 :: b).
Proof.
  induction raw as [|x raw IH]; intros start pos cur b Hn.
  - cbn [app read_lines]. rewrite app_nil_r. left.
  - unfold no_line_end in Hn. cbn [forallb] in Hn. apply andb_true_iff in Hn as [Hx Hn]. apply andb_true_iff in Hx as [H1 H2].
    cbn [app read_lines]. apply negb_true_iff in H1, H2. rewrite H1, H2.
    specialize (IH start (pos + 1) (x :: cur) b Hn). rewrite reverse_cons, <- app_assoc in IH. exact IH.
Qed.
Lemma poll_unreadable ino p a raw b env r : has_read ino p r → whole_lines a → no_line_end raw = true → unreadable raw →
  pe_file env = Some (mkLogView ino (Z.of_nat (length (p ++ a ++ raw ++ 10 :: b))) (Ok (p ++ a ++ raw ++ 10 :: b))) →
  is_ok (read_poll env (lr_reader r)).2 = false ∧ ig_state (read_poll env (lr_reader r)).1 = ig_state (lr_reader r).
Proof.
  intros [Hr _] Ha Hn Hu Hfile. unfold poll. rewrite Hfile. unfold lines_read.
  rewrite (has_read_start ino p r) by (rewrite ?length_app; (done || lia)). cbn [mbind result_bind lv_bytes lv_inode].
  destruct (Z.ltb_spec (Z.of_nat (length p)) 0); [lia|]. rewrite Nat2Z.id, drop_app_length.
  set (s := Z.of_nat (length p)). set (ls := read_lines s s [] (a ++ raw ++ 10 :: b)).
  assert (∃ off, (off, raw) ∈ ls) as [off Hin].
  { subst ls. destruct Ha as [->|Hl]; [exists s; by apply (read_lines_line raw s s [])|].
    rewrite read_lines_app_at by done. eexists. apply elem_of_app. right. by apply (read_lines_line raw _ _ []). }
  pose proof (parse_lines_unreadable ls off raw Hin Hu (pe_now env) (pe_dt_now env) (lr_reader r)) as Hp.
  pose proof (parse_lines_state (pe_now env) (pe_dt_now env) ls (lr_reader r)) as Hs.
  by destruct (read_all _ _ ls (lr_reader r)) as [g [|]].
Qed.

(** C27: One line the parser raises on stops the reader for good: whatever is appended and
    however often it is polled or restarted, no line is handed on and the offset stays. *)
Theorem reader_stalls ino p a raw b ops r : has_read ino p r → whole_lines a → no_line_end raw = true → unreadable raw →
  appended_only ino (p ++ a ++ raw ++ 10 :: b) ops →
  let '(r', ls) := log_run ops r in ls = [] ∧ has_read ino p r'.
Proof.
  intros Hr Ha Hn Hu. revert b r Hr. induction ops as [|[env|] ops IH]; intros b r Hr Happ; cbn [log_run]; [done| |].
  - cbn [appended_only] in Happ. destruct Happ as (more & Hfile & _ & Happ).
    replace ((p ++ a ++ raw ++ 10 :: b) ++ more) with (p ++ a ++ raw ++ 10 :: (b ++ more)) in * by (by rewrite <- !app_assoc).
    destruct (poll_unreadable ino p a raw (b ++ more) env r Hr Ha Hn Hu Hfile) as [Hf Hs].
    cbn [log_step]. destruct (read_poll env (lr_reader r)) as [g [|e]]; [done|]. cbn [fst] in Hs.
    specialize (IH (b ++ more) (mkLogRun g (lr_file r) false)). destruct (log_run ops _) as [r2 ls2]. cbn [app]. apply IH; [|done].
    destruct Hr as [H1 H2]. unfold has_read, has_read_mem, on_disk in *. cbn [lr_reader lr_file]. by rewrite Hs.
  - cbn [appended_only log_step] in *. specialize (IH b (mkLogRun (new_ingestor (lr_file r)) (lr_file r) false)).
    destruct (log_run ops _) as [r2 ls2]. cbn [app]. apply IH; [|done].
    destruct Hr as [H1 H2]. unfold has_read, has_read_mem, on_disk in *. cbn [lr_reader lr_file new_ingestor ig_state]. by rewrite H2.
Qed.
End reader.

(** ** A concrete log *)
#[local] Instance log_floats : FloatFormat := frac_format.
Definition ascii_decode (b : bytes) : string := String.string_of_list_ascii ((λ z, Ascii.ascii_of_N (Z.to_N z)) <$> b).
Definition ascii_encode (s : string) : bytes := (λ c, Z.of_N (Ascii.N_of_ascii c)) <$> String.list_ascii_of_string s.
Definition log_line (s : string) : bytes := ascii_encode s ++ [10].
Definition example_env (bs : bytes) (save : result ()) : PollEnv :=
  mkPollEnv (Some (mkLogView 7 (Z.of_nat (length bs)) (Ok bs))) 1000 (λ _, 1000%Q) save.
Definition example_run (ops : list log_op) : LogRun * list (Z * bytes) :=
  log_run example_ingest_cfg "n1" example_calendar example_accounts example_texts ascii_decode ops log_start.
Definition example_poll (env : PollEnv) (g : Ingestor) : Ingestor * result (list (odict json)) :=
  poll example_ingest_cfg "n1" example_calendar example_accounts example_texts ascii_decode env g.
Definition first_line : bytes := log_line (login_line example_syslog example_login).
Definition noise_line : bytes := log_line "May  1 10:00:01 srv1 cron[9]: job".

(** Two polls with a restart between them. *)
Definition example_ops : list log_op :=
  [LogPoll (example_env first_line (Ok ())); LogRestart; LogPoll (example_env (first_line ++ noise_line ++ first_line) (Ok ()))].
Lemma example_ops_appended : appended_only 7 [] example_ops.
Proof.
  exists first_line. split; [reflexivity|]. split; [by right|].
  exists (noise_line ++ first_line). split; [reflexivity|]. split; [by right|]. done.
Qed.
(** Three polls of which the second one cannot write its state file. *)
Definition failing_ops : list log_op :=
  [LogPoll (example_env first_line (Ok ())); LogPoll (example_env (first_line ++ noise_line) (Err (OtherError "No space left on device")));
   LogPoll (example_env (first_line ++ noise_line ++ first_line) (Ok ()))].
Lemma failing_ops_appended : appended_only 7 [] failing_ops.
Proof.
  exists first_line. split; [reflexivity|]. split; [by right|].
  exists noise_line. split; [reflexivity|]. split; [by right|].
  exists first_line. split; [reflexivity|]. split; [by right|]. done.
Qed.
Lemma log_read_once_witness :
  (let '(r, ls) := log_run example_ingest_cfg "n1" example_calendar example_accounts example_texts ascii_decode example_ops log_start in
   ∃ off, state_int (ig_state (lr_reader r)) "offset" = Ok (Z.of_nat off) ∧
     ls = read_lines 0 0 [] (take off (log_content [] example_ops)) ∧ (lr_ok r = true → off = length (log_content [] example_ops))) ∧
  lr_ok (example_run example_ops).1 = true ∧
  (example_run example_ops).2 = read_lines 0 0 [] (first_line ++ noise_line ++ first_line) ∧ length (example_run example_ops).2 = 3%nat ∧
  (let '(r, ls) := log_run example_ingest_cfg "n1" example_calendar example_accounts example_texts ascii_decode failing_ops log_start in
   ∃ off, state_int (ig_state (lr_reader r)) "offset" = Ok (Z.of_nat off) ∧
     ls `sublist_of` read_lines 0 0 [] (take off (log_content [] failing_ops))) ∧
  length (example_run failing_ops).2 = 2%nat.
Proof.
  pose proof (log_read_once example_ingest_cfg "n1" example_calendar example_accounts example_texts ascii_decode 7 example_ops example_ops_appended) as H1.
  pose proof (log_read_once example_ingest_cfg "n1" example_calendar example_accounts example_texts ascii_decode 7 failing_ops failing_ops_appended) as H2.
  assert (state_saved example_ops) as Hs by (by repeat constructor).
  assert (one_life failing_ops) as Ho by (by repeat constructor).
  split; [|split; [vm_compute; reflexivity|split; [vm_compute; reflexivity|split; [vm_compute; reflexivity|split; [|vm_compute; reflexivity]]]]].
  - destruct (log_run _ _ _ _ _ _ example_ops log_start) as [r ls]. exact (proj1 H1 Hs).
  - destruct (log_run _ _ _ _ _ _ failing_ops log_start) as [r ls]. exact (proj2 H2 Ho).
Defined.

(** A line with month 13, accepted by the expression and refused by [fromisoformat]. *)
Definition bad_line : bytes := ascii_encode (login_line (example_iso "13") example_login).
Lemma bad_line_unreadable : unreadable example_ingest_cfg "n1" example_calendar example_accounts example_texts ascii_decode bad_line.
Proof.
  intros off now dt g. assert (ascii_decode bad_line = login_line (example_iso "13") example_login) as -> by (vm_compute; reflexivity).
  apply (login_unreadable _ _ _ _ _ (example_iso "13") example_login off now dt g "privileged_group" (ValueError "Invalid isoformat string")).
  - apply example_login_ok.
  - apply example_stamps_ok.
  - vm_compute. reflexivity.
  - reflexivity.
Qed.
Lemma reader_stalls_witness :
  let ops := [LogPoll (example_env (bad_line ++ [10]) (Ok ())); LogRestart; LogPoll (example_env (bad_line ++ [10] ++ first_line) (Ok ()))] in
  (example_run ops).2 = [] ∧ (example_run [LogPoll (example_env first_line (Ok ()))]).2 = [(0, ascii_encode (login_line example_syslog example_login))].
Proof.
  cbv zeta. split; [|vm_compute; reflexivity].
  pose proof (reader_stalls example_ingest_cfg "n1" example_calendar example_accounts example_texts ascii_decode 7 [] [] bad_line []
    [LogPoll (example_env (bad_line ++ [10]) (Ok ())); LogRestart; LogPoll (example_env (bad_line ++ [10] ++ first_line) (Ok ()))] log_start) as Hr.
  unfold example_run. destruct (log_run _ _ _ _ _ _ _ log_start) as [r ls]. apply Hr; clear Hr.
  - split; [by right|done].
  - by left.
  - vm_compute. reflexivity.
  - apply bad_line_unreadable.
  - exists []. split; [reflexivity|]. split; [by right|].
    exists first_line. split; [reflexivity|]. split; [by right|]. done.
Defined.

(** A login whose line is half written when it is polled is never reported: the
    offset moves past the first half, and the second half is read as a line. *)
Definition half : bytes := take 60 first_line.
Example half_written_line_lost :
  let '(g1, r1) := example_poll (example_env half (Ok ())) no_refusals in
  let '(g2, r2) := example_poll (example_env first_line (Ok ())) g1 in
  (r1, r2, state_int (ig_state g2) "offset") = (Ok [], Ok [], Ok (Z.of_nat (length first_line))) ∧
  is_ok (example_poll (example_env first_line (Ok ())) no_refusals).2 = true ∧
  length (match (example_poll (example_env first_line (Ok ())) no_refusals).2 with Ok l => l | Err _ => [] end) = 1%nat.
Proof. vm_compute. done. Qed.
(** When the state file cannot be written the events of the poll are lost: the offset
    in memory has moved already. *)
Example failed_save_loses_events :
  let '(g1, r1) := example_poll (example_env first_line (Err (OtherError "No space left on device"))) no_refusals in
  (is_ok r1, (example_poll (example_env first_line (Ok ())) g1).2) = (false, Ok []).
Proof. vm_compute. reflexivity. Qed.
