(* ===== verification/Discovery.v ===== *)
(** [mdrj/discovery.py]: the discovery backends and their polling loop.

    DNS resolution and Zeroconf are arguments: the addresses that are found. *)
From S2P Require Import Prelude Json VectorClock Models Consensus Storage Config Metrics Gossip Auth Catalog Node.

Record DiscoveredPeer := mkDiscovered { dp_address : string; dp_node_id : string }.

Inductive DiscoveryKind := K8s (service : string) (target_port : Z) | MDNS (advertise_port : Z).
Definition discovery_kind (k : DiscoveryKind) : string := match k with K8s _ _ => "k8s" | MDNS _ => "mdns" end.

Record Discovery := mkDiscovery {
  di_kind : DiscoveryKind; di_node_id : string; di_poll_interval_sec : pyfloat; di_self_address : string;
  di_known : gset string }.
Definition set_known (d : Discovery) (known : gset string) : Discovery :=
  mkDiscovery (di_kind d) (di_node_id d) (di_poll_interval_sec d) (di_self_address d) known.

(** [config.advertise_port or int(listen.split(":")[1])], falling back to the
    target port. *)
Definition mdns_port (config : DiscoveryConfig) (listen : string) : Z :=
  match dc_advertise_port config with
  | Some p => if p =? 0 then
                match py_split ":" listen !! 1%nat with
                | Some s => default (dc_k8s_target_port config) (int_of_str s)
                | None => dc_k8s_target_port config
                end
              else p
  | None => match py_split ":" listen !! 1%nat with
            | Some s => default (dc_k8s_target_port config) (int_of_str s)
            | None => dc_k8s_target_port config
            end
  end.

Definition build_discovery (config : DiscoveryConfig) (node_id listen : string) : option Discovery :=
  let mode := py_lower (py_strip (str_or (dc_mode config) "disabled")) in
  let poll := Qmax 1 (dc_poll_interval_sec config) in
  if decide (mode = "disabled") then None
  else if decide (mode = "k8s") then
    match dc_k8s_service config with
    | Some service => if decide (service = "") then None
                      else Some (mkDiscovery (K8s service (dc_k8s_target_port config)) node_id poll listen ∅)
    | None => None
    end
  else if decide (mode = "mdns") then Some (mkDiscovery (MDNS (mdns_port config listen)) node_id poll listen ∅)
  else None.

(** [_resolve_service]: the IPs of the answer, each once. *)
Fixpoint resolve_service (seen : gset string) (ips : list (option string)) (target_port : Z) : list DiscoveredPeer :=
  match ips with
  | [] => []
  | None :: rest => resolve_service seen rest target_port
  | Some ip :: rest =>
      if decide (ip = "" ∨ ip ∈ seen) then resolve_service seen rest target_port
      else mkDiscovered (ip +:+ ":" +:+ py_str_int target_port) "" :: resolve_service ({[ip]} ∪ seen) rest target_port
  end.
(** [_on_zeroconf_add] *)
Definition zeroconf_peers (addresses : list string) (port : Z) (peer_node_id : string) : list DiscoveredPeer :=
  if bool_decide (addresses = []) || (port =? 0) then []
  else (λ a, mkDiscovered (a +:+ ":" +:+ py_str_int port) peer_node_id) <$> addresses.

(** What a pass of [_loop] does with a peer: the key to remember when the
    callback is called. *)
Definition discovery_key (p : DiscoveredPeer) : string := dp_address p +:+ "|" +:+ dp_node_id p.
Definition is_new_peer (d : Discovery) (p : DiscoveredPeer) : bool :=
  negb (bool_decide (dp_address p = "" ∨ dp_address p = di_self_address d)) && negb (bool_decide (discovery_key p ∈ di_known d)).

Section discovery.
Context `{FloatFormat}.
(** One pass of the loop over the peers that were found; an exception of the
    callback is logged. *)
Fixpoint discovery_pass (now : Q) (peers : list DiscoveredPeer) (d : Discovery) (n : Node) : Discovery * Node :=
  match peers with
  | [] => (d, n)
  | p :: rest =>
      if is_new_peer d p then
        discovery_pass now rest (set_known d ({[discovery_key p]} ∪ di_known d))
          (on_discovered_peer now (dp_address p) (dp_node_id p) (discovery_kind (di_kind d)) n).1
      else discovery_pass now rest d n
  end.
End discovery.
