(* ===== verification/DiscoveryRun.v ===== *)
(** [mdrj/discovery.py]: the discovery backends as they run: the loop over time, the
    peers the Zeroconf listener hands over, and the life of the Zeroconf handle.

    The Zeroconf library is a record of what its calls do; [getsockname] of the
    probing socket is its local address. *)
From S2P Require Import Prelude Sha256 Json VectorClock Models Consensus Storage Config Metrics Prioritization Gossip Auth Catalog Node NodeLogic NodeEvents NodeEventsFacts NodeSync Loops Discovery.

(** ** What a run announces *)

(** The peers of an answer for which a pass calls [on_peer]. *)
Fixpoint announced (peers : list DiscoveredPeer) (d : Discovery) : list DiscoveredPeer :=
  match peers with
  | [] => []
  | p :: rest => if is_new_peer d p then p :: announced rest (set_known d ({[discovery_key p]} ∪ di_known d)) else announced rest d
  end.

Section announce.
Context `{FloatFormat}.

Definition tell_node (source : string) (now : Q) (n : Node) (p : DiscoveredPeer) : Node :=
  (on_discovered_peer now (dp_address p) (dp_node_id p) source n).1.

Lemma pass_calls now peers d n : (discovery_pass now peers d n).2 = foldl (tell_node (discovery_kind (di_kind d)) now) n (announced peers d).
Proof. revert d n. induction peers as [|p peers IH]; intros d n; [done|]. cbn. destruct (is_new_peer d p); [|apply IH]. rewrite IH. done. Qed.
Lemma pass_known now peers d n : (discovery_pass now peers d n).1 =
  set_known d (list_to_set (discovery_key <$> announced peers d) ∪ di_known d).
Proof.
  revert d n. induction peers as [|p peers IH]; intros d n; cbn; [|destruct (is_new_peer d p); [|apply IH]].
  - rewrite (left_id_L ∅ (∪)). by destruct d.
  - rewrite IH. unfold set_known. cbn. f_equal. set_solver.
Qed.
Lemma announced_app peers1 peers2 d :
  announced (peers1 ++ peers2) d = announced peers1 d ++ announced peers2 (set_known d (list_to_set (discovery_key <$> announced peers1 d) ∪ di_known d)).
Proof.
  revert d. induction peers1 as [|p peers1 IH]; intros d; cbn; [|destruct (is_new_peer d p); [|apply IH]].
  - rewrite (left_id_L ∅ (∪)). by destruct d.
  - cbn. rewrite IH. f_equal. f_equal. f_equal. unfold set_known. cbn. f_equal. set_solver.
Qed.

(** A peer the loop looks at: it has an address, and not the node's own. *)
Definition foreign (self_address : string) (p : DiscoveredPeer) : Prop := dp_address p ≠ "" ∧ dp_address p ≠ self_address.
Lemma is_new_spec d p : is_new_peer d p = true ↔ foreign (di_self_address d) p ∧ discovery_key p ∉ di_known d.
Proof.
  unfold is_new_peer, foreign. rewrite andb_true_iff, !negb_true_iff, !bool_decide_eq_false. tauto.
Qed.
Lemma announced_spec peers d :
  NoDup (discovery_key <$> announced peers d) ∧ announced peers d `sublist_of` peers ∧
  (∀ p, p ∈ announced peers d → foreign (di_self_address d) p ∧ discovery_key p ∉ di_known d) ∧
  (∀ p, p ∈ peers → foreign (di_self_address d) p → discovery_key p ∈ di_known d ∨ discovery_key p ∈ discovery_key <$> announced peers d).
Proof.
  revert d. induction peers as [|p peers IH]; intros d; cbn; [split_and!; [apply NoDup_nil_2|done|set_solver|set_solver]|].
  destruct (is_new_peer d p) eqn:Hn.
  - apply is_new_spec in Hn as [Hf Hk]. destruct (IH (set_known d ({[discovery_key p]} ∪ di_known d))) as (H1 & H2 & H3 & H4). cbn in *.
    split_and!.
    + apply NoDup_cons. split; [|done]. intros (q & Hq & Hin)%list_elem_of_fmap. apply H3 in Hin. set_solver.
    + by constructor.
    + intros q [->|Hq]%elem_of_cons; [done|]. apply H3 in Hq. set_solver.
    + intros q [->|Hq]%elem_of_cons Hfq; [right; set_solver|]. destruct (H4 q Hq Hfq) as [?|?]; set_solver.
  - destruct (IH d) as (H1 & H2 & H3 & H4). split_and!; [done|by constructor|done|].
    intros q [->|Hq]%elem_of_cons Hfq; [|by apply H4]. left. destruct (decide (discovery_key p ∈ di_known d)) as [|Hk]; [done|].
    assert (is_new_peer d p = true) by by apply is_new_spec. congruence.
Qed.
End announce.

(** ** mDNS: the peers the listener records and the loop takes *)

(** [ServiceInfo]: what the node announces. *)
Record ServiceInfo := mkService { sv_type : string; sv_name : string; sv_addresses : list string; sv_port : Z; sv_node_id : string }.
Definition MDNS_SERVICE_TYPE : string := "_mdrj._tcp.local.".

(** The Zeroconf object of the backend: open or not, the service it announces,
    the browser that calls the listener. *)
Record MDNSState := mkMDNS {
  md_discovery : Discovery; md_port : Z; md_loop : Loop; md_zeroconf : bool; md_service : option ServiceInfo; md_browser : bool;
  md_discovered : list DiscoveredPeer }.
Definition new_mdns (d : Discovery) (advertise_port : Z) : MDNSState :=
  mkMDNS d advertise_port (new_loop WorkFirst (di_poll_interval_sec d)) false None false [].
Definition set_md_loop (l : Loop) (m : MDNSState) : MDNSState :=
  mkMDNS (md_discovery m) (md_port m) l (md_zeroconf m) (md_service m) (md_browser m) (md_discovered m).
Definition set_md_discovered (ps : list DiscoveredPeer) (m : MDNSState) : MDNSState :=
  mkMDNS (md_discovery m) (md_port m) (md_loop m) (md_zeroconf m) (md_service m) (md_browser m) ps.
Definition set_md_discovery (d : Discovery) (m : MDNSState) : MDNSState :=
  mkMDNS d (md_port m) (md_loop m) (md_zeroconf m) (md_service m) (md_browser m) (md_discovered m).

(** [_record_peer] *)
Definition record_peer (p : DiscoveredPeer) (m : MDNSState) : MDNSState := set_md_discovered (md_discovered m ++ [p]) m.
(** [_discover_once]: the list is taken and emptied under the lock. *)
Definition discover_once (m : MDNSState) : MDNSState * list DiscoveredPeer := (set_md_discovered [] m, md_discovered m).
(** [add_service] and [update_service]: the info of the service, [None] when there is
    none.  [asyncio.get_event_loop] raises in a thread that has no event loop;
    [thread_loop]: whether the thread that calls the listener has one.  The browser
    of Zeroconf calls it in a thread of its own, which has none. *)
Definition no_event_loop : exn := OtherError "There is no current event loop in thread".
Definition add_service (thread_loop : bool) (info : option (list string * Z * string)) (m : MDNSState) : MDNSState * result unit :=
  match info with
  | None => (m, Ok tt)
  | Some (addresses, port, peer_node_id) =>
      match zeroconf_peers addresses port peer_node_id with
      | [] => (m, Ok tt)
      | peers => if thread_loop then (foldl (λ m p, record_peer p m) m peers, Ok tt) else (m, Err no_event_loop)
      end
  end.

Section mdns.
Context `{FloatFormat}.
(** One pass of the loop of the backend. *)
Definition mdns_pass (now : Q) (m : MDNSState) (n : Node) : MDNSState * Node :=
  let '(m, peers) := discover_once m in
  let '(d, n) := discovery_pass now peers (md_discovery m) n in
  (set_md_discovery d m, n).

(** What happens to a backend: the browser reports a service, or the loop makes a
    pass; [md_told] collects the peers for which [on_peer] was called. *)
Inductive MdnsOp := ServiceSeen (info : option (list string * Z * string)) | LoopPass (now : Q).
Definition op_peers (op : MdnsOp) : list DiscoveredPeer :=
  match op with ServiceSeen (Some (addresses, port, i)) => zeroconf_peers addresses port i | _ => [] end.
Record MdnsRun := mkMdnsRun { mr_state : MDNSState; mr_node : Node; mr_told : list DiscoveredPeer }.
Definition mdns_op (thread_loop : bool) (r : MdnsRun) (op : MdnsOp) : MdnsRun :=
  match op with
  | ServiceSeen info => mkMdnsRun (add_service thread_loop info (mr_state r)).1 (mr_node r) (mr_told r)
  | LoopPass now =>
      let '(m, n) := mdns_pass now (mr_state r) (mr_node r) in
      mkMdnsRun m n (mr_told r ++ announced (md_discovered (mr_state r)) (md_discovery (mr_state r)))
  end.

Lemma record_all ps m : foldl (λ m p, record_peer p m) m ps = set_md_discovered (md_discovered m ++ ps) m.
Proof.
  revert m. induction ps as [|p ps IH]; intros m; cbn; [rewrite app_nil_r; by destruct m|]. rewrite IH. unfold record_peer. cbn. by rewrite <- app_assoc.
Qed.
Lemma add_service_spec info m : (add_service true info m).1 = set_md_discovered (md_discovered m ++ op_peers (ServiceSeen info)) m.
Proof.
  destruct info as [[[addresses port] i]|]; cbn [add_service op_peers]; [|rewrite app_nil_r; by destruct m].
  destruct (zeroconf_peers addresses port i) as [|p ps]; [rewrite app_nil_r; by destruct m|]. apply record_all.
Qed.

(** After any operations: what is buffered and what was announced together are what
    was seen. *)
Lemma mdns_run_spec d ops r :
  md_discovery (mr_state r) = set_known d (list_to_set (discovery_key <$> mr_told r) ∪ di_known d) →
  ∃ taken, mr_told (foldl (mdns_op true) r ops) = mr_told r ++ announced taken (md_discovery (mr_state r)) ∧
    taken ++ md_discovered (mr_state (foldl (mdns_op true) r ops)) = md_discovered (mr_state r) ++ (ops ≫= op_peers) ∧
    md_discovery (mr_state (foldl (mdns_op true) r ops)) =
      set_known d (list_to_set (discovery_key <$> mr_told (foldl (mdns_op true) r ops)) ∪ di_known d).
Proof.
  revert r. induction ops as [|op ops IH]; intros r Hd; cbn [foldl mbind list_bind].
  { exists []. cbn. rewrite !app_nil_r. done. }
  destruct op as [info|now].
  - destruct (IH (mdns_op true r (ServiceSeen info))) as (taken & H1 & H2 & H3); cbn [mdns_op mr_state mr_told mr_node] in *.
    { rewrite add_service_spec. exact Hd. }
    rewrite add_service_spec in *. exists taken. split_and!; [exact H1| |exact H3]. rewrite H2. cbn. by rewrite <- app_assoc.
  - cbn [mdns_op]. unfold mdns_pass, discover_once. destruct r as [m n told]. cbn [mr_state mr_node mr_told] in *.
    destruct (discovery_pass now (md_discovered m) (md_discovery (set_md_discovered [] m)) n) as [d1 n1] eqn:Hp.
    assert (d1 = set_known (md_discovery m) (list_to_set (discovery_key <$> announced (md_discovered m) (md_discovery m)) ∪ di_known (md_discovery m))) as Hd1.
    { pose proof (pass_known now (md_discovered m) (md_discovery m) n) as Hk. cbn in Hp. by rewrite Hp in Hk. }
    match goal with |- context [foldl (mdns_op true) ?r1 ops] => destruct (IH r1) as (taken & H1 & H2 & H3) end; cbn [mr_state mr_node mr_told md_discovery set_md_discovery md_discovered set_md_discovered] in *.
    { rewrite Hd1, Hd. unfold set_known. cbn. f_equal. rewrite fmap_app, list_to_set_app_L. set_solver. }
    exists (md_discovered m ++ taken). split_and!; [|rewrite <- app_assoc, H2; by rewrite app_nil_l|exact H3].
    rewrite H1, announced_app, <- app_assoc. by rewrite Hd1.
Qed.

(** Were the listener called in a thread with the event loop of the node, mDNS would
    lose no peer and announce none twice: however the reports of the browser and the
    passes of the loop interleave, after a last pass the node was told of every
    reported peer that has an address and not the node's own, each address and id
    exactly once, in the order of the reports. *)
Theorem mdns_announces_once (d : Discovery) (advertise_port : Z) (n : Node) (ops : list MdnsOp) (now : Q) :
  di_known d = ∅ →
  let r := foldl (mdns_op true) (mkMdnsRun (new_mdns d advertise_port) n []) (ops ++ [LoopPass now]) in
  NoDup (discovery_key <$> mr_told r) ∧ mr_told r `sublist_of` (ops ≫= op_peers) ∧
  (∀ p, p ∈ mr_told r → foreign (di_self_address d) p) ∧
  (∀ p, p ∈ (ops ≫= op_peers) → foreign (di_self_address d) p → discovery_key p ∈ discovery_key <$> mr_told r).
Proof.
  intros Hk r. set (r0 := mkMdnsRun (new_mdns d advertise_port) n []).
  destruct (mdns_run_spec d (ops ++ [LoopPass now]) r0) as (taken & H1 & H2 & _).
  { cbn. rewrite (left_id_L ∅ (∪)). by destruct d. }
  assert (md_discovered (mr_state (foldl (mdns_op true) r0 (ops ++ [LoopPass now]))) = []) as He.
  { rewrite foldl_app. cbn. unfold mdns_pass, discover_once. by destruct (discovery_pass _ _ _ _). }
  rewrite He, app_nil_r in H2. cbn [app] in H2. rewrite bind_app in H2. cbn in H2. rewrite app_nil_r in H2. subst taken. subst r. fold r0. rewrite H1. cbn [mr_told r0 app].
  destruct (announced_spec (ops ≫= op_peers) d) as (A1 & A2 & A3 & A4). split_and!; [exact A1|exact A2|by intros p [? _]%A3|].
  intros p Hp Hf. destruct (A4 p Hp Hf) as [Hin|?]; [rewrite Hk in Hin; set_solver|done].
Qed.

(** C35: mDNS finds nobody: the browser of Zeroconf calls the listener in a thread
    without an event loop, so every report of a service with an address raises, and
    however reports and passes of the loop interleave, the node is told of no peer
    and is as it was. *)
Theorem mdns_finds_nobody (d : Discovery) (advertise_port : Z) (n : Node) (ops : list MdnsOp) :
  let r := foldl (mdns_op false) (mkMdnsRun (new_mdns d advertise_port) n []) ops in
  mr_told r = [] ∧ mr_node r = n ∧
  ∀ info, op_peers (ServiceSeen info) ≠ [] → add_service false info (mr_state r) = (mr_state r, Err no_event_loop).
Proof.
  cbv zeta.
  assert (∀ r, md_discovered (mr_state r) = [] → let r' := foldl (mdns_op false) r ops in
    mr_told r' = mr_told r ∧ mr_node r' = mr_node r ∧ md_discovered (mr_state r') = []) as Hrun.
  { induction ops as [|op ops IH]; intros r Hr; [done|]. cbn [foldl]. destruct r as [m n0 told]. cbn [mr_state mr_told mr_node] in *.
    assert (∃ m', mdns_op false (mkMdnsRun m n0 told) op = mkMdnsRun m' n0 told ∧ md_discovered m' = []) as (m' & -> & Hm).
    { destruct op as [[[[addresses port] i]|]|now]; cbn [mdns_op mr_state mr_told mr_node add_service].
      - exists m. split; [|done]. by destruct (zeroconf_peers addresses port i).
      - by exists m.
      - unfold mdns_pass, discover_once. rewrite Hr. cbn. rewrite app_nil_r. by eexists. }
    by destruct (IH (mkMdnsRun m' n0 told) Hm) as (H1 & H2 & H3). }
  destruct (Hrun (mkMdnsRun (new_mdns d advertise_port) n []) eq_refl) as (H1 & H2 & _). split; [done|]. split; [done|].
  intros [[[addresses port] i]|] Hi; cbn [op_peers add_service] in *; [|done]. by destruct (zeroconf_peers addresses port i).
Qed.
End mdns.

(** ** The Zeroconf handle *)

(** What the library answers: whether it is installed, and what its calls return or
    raise; [zl_sockname]: the address of the probing socket, an [OSError] otherwise. *)
Record ZcLib := mkZcLib {
  zl_installed : bool; zl_open : result unit; zl_register : result unit; zl_browse : result unit; zl_unregister : result unit;
  zl_sockname : result string }.
(** The calls that were made, in order. *)
Inductive ZcCall := ZcOpen | ZcRegister (s : ServiceInfo) | ZcBrowse | ZcUnregister (s : ServiceInfo) | ZcClose.

(** [_detect_local_ip] *)
Definition detect_local_ip (lib : ZcLib) : option string := match zl_sockname lib with Ok ip => Some ip | Err _ => None end.
Definition service_of (m : MDNSState) (local_ip : string) : ServiceInfo :=
  mkService MDNS_SERVICE_TYPE (di_node_id (md_discovery m) +:+ "." +:+ MDNS_SERVICE_TYPE) [local_ip] (md_port m) (di_node_id (md_discovery m)).
Definition set_md_zeroconf (b : bool) (m : MDNSState) : MDNSState :=
  mkMDNS (md_discovery m) (md_port m) (md_loop m) b (md_service m) (md_browser m) (md_discovered m).

(** [start]: a failing registration is logged, a failing [Zeroconf()] or browser
    leaves the method. *)
Definition mdns_start (lib : ZcLib) (m : MDNSState) : MDNSState * list ZcCall * result unit :=
  if negb (zl_installed lib) then (m, [], Ok tt)
  else match zl_open lib with
       | Err e => (m, [], Err e)
       | Ok _ =>
           let service := match detect_local_ip lib with Some ip => if decide (ip = "") then None else Some (service_of m ip) | None => None end in
           let registered := match service with Some s => [ZcRegister s] | None => [] end in
           let m := mkMDNS (md_discovery m) (md_port m) (md_loop m) true (match service with Some s => Some s | None => md_service m end)
                      (md_browser m) (md_discovered m) in
           match zl_browse lib with
           | Err e => (m, ZcOpen :: registered ++ [ZcBrowse], Err e)
           | Ok _ => (mkMDNS (md_discovery m) (md_port m) (loop_start (md_loop m)) (md_zeroconf m) (md_service m) true (md_discovered m),
                      ZcOpen :: registered ++ [ZcBrowse], Ok tt)
           end
       end.

(** [stop], once the loop has ended: both calls are in one [try]. *)
Definition mdns_stop (lib : ZcLib) (m : MDNSState) : MDNSState * list ZcCall :=
  let m := set_md_loop (loop_forget (set_lp_stop true (md_loop m))) m in
  if md_zeroconf m then
    (set_md_zeroconf false m,
     match md_service m with
     | Some s => ZcUnregister s :: (match zl_unregister lib with Ok _ => [ZcClose] | Err _ => [] end)
     | None => [ZcClose]
     end)
  else (m, []).

(** [Node._start_discovery] and the stop of the node: a backend whose start raised is
    dropped, so it is not stopped. *)
Definition start_discovery (lib : ZcLib) (m : MDNSState) : option MDNSState * list ZcCall :=
  match mdns_start lib m with
  | (m, calls, Ok _) => (Some m, calls)
  | (_, calls, Err _) => (None, calls)
  end.
Definition stop_discovery (lib : ZcLib) (backend : option MDNSState) : list ZcCall :=
  match backend with Some m => (mdns_stop lib m).2 | None => [] end.

Definition count_calls (c : ZcCall → bool) (calls : list ZcCall) : nat := length (List.filter c calls).
Definition is_open_call (c : ZcCall) : bool := match c with ZcOpen => true | _ => false end.
Definition is_close_call (c : ZcCall) : bool := match c with ZcClose => true | _ => false end.

(** The Zeroconf handle over the life of a node: it is opened at most once and closed at most once,
    and it stays open after the node has stopped exactly when it was opened and the
    browser could not be started, or the service the node had announced could not be
    taken back. *)
Theorem zeroconf_leak (lib : ZcLib) (d : Discovery) (advertise_port : Z) :
  let '(backend, started) := start_discovery lib (new_mdns d advertise_port) in
  let calls := started ++ stop_discovery lib backend in
  let opened := count_calls is_open_call calls in
  let closed := count_calls is_close_call calls in
  (closed ≤ opened ≤ 1)%nat ∧
  (closed < opened ↔ zl_installed lib = true ∧ is_ok (zl_open lib) = true ∧
     (is_ok (zl_browse lib) = false ∨
      (∃ ip, zl_sockname lib = Ok ip ∧ ip ≠ "") ∧ is_ok (zl_unregister lib) = false))%nat.
Proof.
  unfold start_discovery, mdns_start, stop_discovery, mdns_stop, detect_local_ip.
  destruct (zl_installed lib); cbn; [|split; [lia|split; [lia|by intros [? _]]]].
  destruct (zl_open lib); cbn; [|split; [lia|split; [lia|by intros (_ & ? & _)]]].
  destruct (zl_sockname lib) as [ip|e]; [destruct (decide (ip = "")) as [->|Hip]|];
    destruct (zl_browse lib), (zl_unregister lib); cbn; (split; [lia|]); naive_solver lia.
Qed.

(** ** The theorems on concrete runs *)
Definition mdns_backend : Discovery := mkDiscovery (MDNS 9000) "n1" 10 "10.0.0.1:9000" ∅.
Lemma mdns_announces_once_witness :
  let seen := ServiceSeen (Some (["10.0.0.7"; "10.0.0.1"], 9000, "n7")) in
  let ops := [seen; LoopPass 1; seen] in
  let r := foldl (@mdns_op frac_format true) (mkMdnsRun (new_mdns mdns_backend 9000) sample_node []) (ops ++ [LoopPass 2]) in
  di_known mdns_backend = ∅ ∧ dp_address <$> mr_told r = ["10.0.0.7:9000"] ∧
  NoDup (discovery_key <$> mr_told r) ∧ mr_told r `sublist_of` (ops ≫= op_peers) ∧
  (∀ p, p ∈ mr_told r → foreign (di_self_address mdns_backend) p) ∧
  (∀ p, p ∈ (ops ≫= op_peers) → foreign (di_self_address mdns_backend) p → discovery_key p ∈ discovery_key <$> mr_told r).
Proof.
  intros seen ops r. split; [reflexivity|]. split; [vm_compute; reflexivity|].
  exact (@mdns_announces_once frac_format mdns_backend 9000 sample_node ops 2 eq_refl).
Defined.

Lemma mdns_finds_nobody_witness :
  let info := Some (["10.0.0.7"; "10.0.0.1"], 9000, "n7") in
  let ops := [ServiceSeen info; LoopPass 1; ServiceSeen info] in
  let r := foldl (@mdns_op frac_format false) (mkMdnsRun (new_mdns mdns_backend 9000) sample_node []) ops in
  op_peers (ServiceSeen info) ≠ [] ∧ add_service false info (mr_state r) = (mr_state r, Err no_event_loop) ∧
  mr_told r = [] ∧ mr_node r = sample_node ∧
  ∀ info, op_peers (ServiceSeen info) ≠ [] → add_service false info (mr_state r) = (mr_state r, Err no_event_loop).
Proof.
  intros info ops r. assert (op_peers (ServiceSeen info) ≠ []) as Hi by (vm_compute; discriminate).
  pose proof (@mdns_finds_nobody frac_format mdns_backend 9000 sample_node ops) as H. destruct H as (H1 & H2 & H3).
  split; [exact Hi|]. split; [exact (H3 info Hi)|]. split; [exact H1|]. split; [exact H2|exact H3].
Defined.

(** The configuration of [deploy/k8s]: a wildcard listen address, discovered pods are
    approved.  The own pod's address is not the listen address, so a pod that finds
    itself in the answer of the DNS becomes its own peer, and its own
    acknowledgement makes a class A event durable that no other node has. *)
Definition k8s_config : NodeConfig :=
  let c := sample_config in
  mkNodeConfig "pod-0" "0.0.0.0:9001" [] (cfg_profile c) (cfg_gossip c) (cfg_prioritization c) (cfg_hmac_key c)
    (cfg_sqlite_path c) (cfg_linux_ingest c) (cfg_collectors c) (cfg_retention c)
    (mkDiscoveryConfig "k8s" 5 true None (Some "mdrj-headless.mdrj.svc.cluster.local") 9001) (cfg_notifier c)
    (cfg_agent_relay c) (cfg_heartbeat c) (cfg_runtime c) (cfg_ui_enabled c).
Definition k8s_pod : Node := set_n_gossip (Some empty_gossip) (@new_node frac_format 1 k8s_config (mkCatalog EVENT_CATALOG []) empty_db).
Definition own_pod : string := "10.42.0.7:9001".
Definition only_own_answers : World :=
  let w := sample_world in
  {| w_now := w_now w; w_elapsed := w_elapsed w; w_rss := w_rss w; w_cpu := w_cpu w; w_db_size := w_db_size w; w_choice := w_choice w;
     w_net := λ _ a, if decide (a = own_pod) then Response 200 true else NoResponse; w_timeout := w_timeout w; w_done := w_done w;
     w_stopping := w_stopping w; w_hostname := w_hostname w; w_token := w_token w |}.
Example own_pod_counts_as_replica :
  let peers := resolve_service ∅ [Some "10.42.0.7"] 9001 in
  match build_discovery (cfg_discovery k8s_config) "pod-0" (cfg_listen k8s_config) with
  | None => False
  | Some d =>
      let n := (@discovery_pass frac_format 1 peers d k8s_pod).2 in
      pi_address <$> node_list_peers n = [own_pod] ∧
      match (@emit_event frac_format only_own_answers A [("event_kind", JStr "privileged_login")] n).2 with
      | Ok em => em_durability em = Some Durable
      | Err _ => False
      end
  end.
Proof. vm_compute. split; reflexivity. Qed.
