(* ===== verification/Prometheus.v ===== *)
(** [mdrj/prometheus_extras.py] and the Prometheus handler of [mdrj/api.py]: the
    text exposition of the node's figures.  The help texts are UTF-8. *)
From S2P Require Import Prelude Sha256 Json VectorClock Models Consensus Storage Config Metrics Prioritization Gossip JsonText Checkpoint Auth Catalog Node NodeEvents NodeCheckpoints AgentRelay Notifier NodeLoops.

(** A value prints as Python prints the int or float it is. *)
Record MetricSample := mkSample { sa_labels : odict string; sa_value : json }.
Record MetricSeries := mkSeries { se_name : string; se_type : string; se_help : string; se_samples : list MetricSample }.

Definition esc_char (c : Ascii.ascii) : string :=
  if decide (c = "\"%char) then "\\"
  else if (Ascii.N_of_ascii c =? 34)%N then "\" +:+ dquote
  else if (Ascii.N_of_ascii c =? 10)%N then "\n" else String c "".
Fixpoint esc (s : string) : string := match s with EmptyString => "" | String c s' => esc_char c +:+ esc s' end.

Section prometheus.
Context `{FloatFormat}.

(** ** Rendering *)
Definition render_label (p : string * string) : string := p.1 +:+ "=" +:+ dquote +:+ esc p.2 +:+ dquote.
Definition render_sample (name : string) (common : odict string) (s : MetricSample) : string :=
  match ((common : list (string * string)) ++ sa_labels s)%list with
  | [] => name +:+ " " +:+ py_str (sa_value s)
  | pairs => name +:+ "{" +:+ py_join "," (render_label <$> pairs) +:+ "} " +:+ py_str (sa_value s)
  end.
Definition series_lines (common : odict string) (s : MetricSeries) : list string :=
  [("# HELP " +:+ se_name s +:+ " " +:+ se_help s); ("# TYPE " +:+ se_name s +:+ " " +:+ se_type s)] ++
  (render_sample (se_name s) common <$> se_samples s).
Definition render_lines (lines : list string) : string :=
  py_join newline lines +:+ (if bool_decide (lines = []) then "" else newline).
Definition render_series (series : list MetricSeries) (common : odict string) : string :=
  render_lines (mbind (series_lines common) series).

(** ** The series *)
Definition single (name type help : string) (v : Q) : MetricSeries := mkSeries name type help [mkSample [] (JFloat v)].
Definition counter (name help : string) (v : Z) : MetricSeries := single name "counter" help (inject_Z v).
Definition non_empty (s : MetricSeries) : bool := bool_decide (se_samples s ≠ []).

Definition events_series (n : Node) : MetricSeries :=
  let samples := (λ p : (string * string) * Z, mkSample [("class", p.1.1); ("kind", p.1.2)] (JInt p.2)) <$>
    sort_on id (cmp_pair (cmp_pair String.compare String.compare) Z.compare) (k_events_by_class_kind (n_counters n)) in
  mkSeries "mdrj_events_total" "counter" "Накопительный счётчик эмитированных событий по классу/типу"
    (if bool_decide (samples = []) then [mkSample [("class", "A"); ("kind", "_none")] (JInt 0)] else samples).

Definition collector_series (now : Q) (collectors : list CollectorStatus) : list MetricSeries :=
  let label s := [("collector", ct_name s)] in
  filter (λ s, non_empty s = true)
    [mkSeries "mdrj_events_by_collector_total" "counter" "События по коллектору-источнику"
       ((λ s, mkSample (label s) (JFloat (inject_Z (ct_emitted_count s)))) <$> collectors);
     mkSeries "mdrj_collector_enabled" "gauge" "1 если коллектор включён и здоров, иначе 0"
       ((λ s, mkSample (label s) (JFloat (if ct_enabled s then 1 else 0)%Q)) <$> collectors);
     mkSeries "mdrj_collector_last_poll_seconds_ago" "gauge" "Секунд с последнего успешного poll коллектора"
       (omap (λ s, (λ t, mkSample (label s) (JFloat (Qmax 0 (now - t)))) <$> ct_last_poll_at s) collectors);
     mkSeries "mdrj_events_dropped_total" "counter" "Сколько событий было отброшено коллектором по причине"
       (omap (λ s, if ct_dropped_count s =? 0 then None else
          Some (mkSample (dset (label s) "reason" (str_or_opt (ct_last_drop_reason s) "unknown"))
                  (JFloat (inject_Z (ct_dropped_count s))))) collectors)].

Definition count_status (acc : odict Z) (p : PeerInfo) : odict Z :=
  let status := str_or (pi_approval_status p) "approved" in dset acc status (default 0 (dget acc status) + 1).
Definition is_reachable (now : Q) (p : PeerInfo) : bool :=
  negb (pi_is_self p) && match pi_last_seen p with Some t => (now - t)%Q <=?q 30 | None => false end.
Definition peer_series (now : Q) (peers : list PeerInfo) : list MetricSeries :=
  [mkSeries "mdrj_peers_total" "gauge" "Пиров в peer-registry по статусу одобрения"
     ((λ p : string * Z, mkSample [("status", p.1)] (JFloat (inject_Z p.2))) <$>
        foldl count_status [("approved", 0); ("pending", 0); ("rejected", 0)] peers);
   single "mdrj_peers_reachable" "gauge" "Пиров с last_seen < 30c (внешние, без self)"
     (inject_Z (Z.of_nat (count_if (is_reachable now) peers)))].

Definition membership_series (membership : odict json) : result (list MetricSeries) :=
  members ← as_arr (py_or (jget membership "members") (JArr []));
  let size := Z.of_nat (length (members : list json)) in
  Ok [single "mdrj_consensus_membership_size" "gauge" "Размер подтверждённого consensus-membership" (inject_Z size);
      single "mdrj_quorum_size" "gauge" "Размер кворума 2/3 для подписи checkpoint" (inject_Z ((2 * size + 2) / 3))].

Definition LIVENESS_KINDS : list string := ["heartbeat"; "node_hourly_status"].
Definition heartbeat_step (latest : odict Q) (e : Event) : odict Q :=
  match jget (ev_payload e) "event_kind" with
  | JStr kind =>
      if decide (kind ∈ LIVENESS_KINDS) then
        let peer_id := py_strip (py_str (py_or (py_or (jget (ev_payload e) "node_id") (JStr (ev_source e))) (JStr ""))) in
        if decide (peer_id = "") then latest
        else if default 0%Q (dget latest peer_id) <?q ev_ts_local e then dset latest peer_id (ev_ts_local e) else latest
      else latest
  | _ => latest
  end.
Definition collect_peer_heartbeats (now : Q) (db : DB) : odict Q :=
  match list_recent_events 512 db with
  | Err _ => []
  | Ok events => (λ p : string * Q, (p.1, Qmax 0 (now - p.2))) <$> foldl heartbeat_step [] events
  end.

Definition latest_checkpoint_metrics : Q → DB → Z * Q := latest_confirmed_checkpoint_summary.

Definition counter_series (k : Counters) : list MetricSeries :=
  [counter "mdrj_service_started_total" "Эмиссий mdrj_service_start с момента старта процесса" (k_service_started k);
   counter "mdrj_service_stopped_total" "Эмиссий mdrj_service_stop" (k_service_stopped k);
   counter "mdrj_service_killed_total" "Сколько раз обнаружен старт без предыдущего stop (улика УБИ.124)" (k_service_killed k);
   counter "mdrj_host_boot_total" "Зафиксированных загрузок ОС хоста" (k_host_boot k);
   counter "mdrj_host_reboot_total" "Зафиксированных перезагрузок ОС хоста" (k_host_reboot k);
   counter "mdrj_checkpoint_confirmed_total" "Сколько checkpoint достигли 2/3 кворума" (k_checkpoint_confirmed k);
   counter "mdrj_class_a_durable_total" "Класс A с ACK ≥ 2/3 пиров (Слой 2)" (k_class_a_durable k);
   counter "mdrj_class_a_local_only_total" "Класс A без ACK 2/3 (упал в pending для догона)" (k_class_a_local_only k);
   counter "mdrj_frontier_sync_pulls_total" "События подтянутые через frontier-handshake" (k_frontier_sync_pulls k);
   counter "mdrj_tamper_alerts_total" "Эмиссии mdrj_tamper_detected (улики подделки)" (k_tamper_alerts k)].

Definition build_extras (now : Q) (collectors : list CollectorStatus) : NodeM (list MetricSeries) :=
  n ← get_node;
  let head := events_series n :: collector_series now collectors ++ peer_series now (list_peers (n_db n)) in
  membership ← membership_m;
  members ← lift (membership_series membership);
  n ← get_node;
  let heartbeats := collect_peer_heartbeats now (n_db n) in
  let '(last_round, last_age) := latest_checkpoint_metrics now (n_db n) in
  mret (head ++ members ++
    [counter "mdrj_heartbeat_emitted_total" "Локальные heartbeat этого узла" (k_heartbeat_emitted (n_counters n))] ++
    (if bool_decide (heartbeats = []) then [] else
       [mkSeries "mdrj_heartbeat_last_seconds_ago" "gauge" "Секунд с последнего heartbeat-события от пира (включая себя)"
          ((λ p : string * Q, mkSample [("peer", p.1)] (JFloat p.2)) <$> heartbeats)]) ++
    counter_series (n_counters n) ++
    [single "mdrj_checkpoint_last_round" "gauge" "round_received последнего confirmed checkpoint (0 если их нет)" (inject_Z last_round);
     single "mdrj_checkpoint_last_age_seconds" "gauge" "Секунд с подтверждения последнего checkpoint" last_age;
     single "mdrj_tamper_evidence" "gauge" "1 если последний checkpoint/verify нашёл подделку, иначе 0"
       (if n_tamper_evidence n then 1 else 0)%Q]).

(** ** The handler *)
Definition PROMETHEUS_METRIC_TYPES : odict string :=
  [("A_est", "gauge"); ("T_gossip", "gauge"); ("K_r", "gauge"); ("C_mem", "gauge"); ("C_net", "gauge");
   ("event_count", "gauge"); ("rss_bytes", "gauge"); ("cpu_percent", "gauge"); ("db_size_bytes", "gauge");
   ("gossip_bytes_in_total", "counter"); ("gossip_bytes_out_total", "counter"); ("bytes_per_event", "gauge");
   ("emit_to_consensus_latency_p50_ms", "gauge"); ("emit_to_consensus_latency_p95_ms", "gauge")].
Definition base_lines (node_id : string) (p : string * json) : list string :=
  match py_float p.2 with
  | Err _ => []
  | Ok numeric =>
      let metric_name := "mdrj_" +:+ py_lower p.1 in
      [("# TYPE " +:+ metric_name +:+ " " +:+ default "gauge" (dget PROMETHEUS_METRIC_TYPES p.1));
       (metric_name +:+ "{node_id=" +:+ dquote +:+ node_id +:+ dquote +:+ "} " +:+ float_repr numeric)]
  end.
Definition metrics_prometheus (w : World) (collectors : list CollectorStatus) : NodeM string :=
  n ← get_node;
  let snap := match node_metrics_snapshot w n with JObj d => d | _ => [] end in
  let base := render_lines (mbind (base_lines (node_id n)) snap) in
  extras ← build_extras (w_now w) collectors;
  mret (base +:+ render_series extras [("node_id", node_id n)]).

(** ** No injected lines

    A label value never contains a line break or ends its quotes. *)
Fixpoint count_newlines (s : string) : nat :=
  match s with
  | EmptyString => 0
  | String c s' => (if (Ascii.N_of_ascii c =? 10)%N then 1 else 0) + count_newlines s'
  end%nat.
Lemma count_newlines_app a b : count_newlines (a +:+ b) = (count_newlines a + count_newlines b)%nat.
Proof.
  induction a as [|c a IH]; [done|]. change (count_newlines (String c a +:+ b)) with ((if (Ascii.N_of_ascii c =? 10)%N then 1 else 0) + count_newlines (a +:+ b))%nat.
  rewrite IH. simpl. lia.
Qed.
Lemma esc_no_newline s : count_newlines (esc s) = 0%nat.
Proof.
  induction s as [|c s IH]; [done|]. cbn [esc]. rewrite count_newlines_app, IH.
  destruct c as [[] [] [] [] [] [] [] []]; reflexivity.
Qed.
End prometheus.
