(* ===== verification/Api.v ===== *)
(** [mdrj/api.py]: requests, the two authentication middlewares, the handlers and
    the route table.

    [raise web.HTTPxxx] ends a handler with that response, so it is a response
    here; any other exception is an [Err] and becomes a 500.  The framework's
    part is [Request]: the decoded path, query and cookies, the headers with
    their canonical names, the raw body.  HTML pages are represented by their
    names. *)
From S2P Require Import Prelude Sha256 Json JsonParse VectorClock Models Consensus Storage Config Metrics Prioritization Gossip JsonText Checkpoint Auth Catalog Node NodeEvents NodeSimulation NodeCheckpoints NodeSync AgentRelay Notifier NodeLoops Prometheus.

Record Request := mkRequest {
  rq_method : string;
  rq_path : string;
  rq_headers : odict string;
  rq_cookies : odict string;
  rq_query : odict string;
  rq_body : bytes }.

(** [rs_cookie]: the session cookie that is set, or deleted ([Some None]). *)
Record Response := mkResponse { rs_status : Z; rs_body : json; rs_text : string; rs_cookie : option (option string) }.
Definition json_response (body : json) : Response := mkResponse 200 body "" None.
Definition http_error (status : Z) (text : string) : Response := mkResponse status JNull text None.
Definition html_page (name : string) : Response := mkResponse 200 JNull name None.

Definition SESSION_COOKIE_NAME : string := "mdrj_session".
Definition HMAC_HEADER : string := "X-MDRJ-Sig".
Definition HMAC_PROTECTED_METHODS : list string := ["POST"; "PUT"; "DELETE"; "PATCH"].
Definition WRITE_METHODS : list string := ["POST"; "PUT"; "DELETE"; "PATCH"].
Definition AUTH_PUBLIC_PATHS : list string :=
  ["/auth/login"; "/auth/logout"; "/status"; "/event/batch"; "/gossip/frontier"; "/checkpoint/propose"].
Definition VIEWER_READ_PATHS : list string :=
  ["/dag"; "/dag/frontier"; "/metrics"; "/metrics/prometheus"; "/metrics/history"; "/peers"; "/incidents"; "/viz";
   "/viz/graph"; "/viz/stream"; "/checkpoint/list"; "/checkpoint/verify"; "/auth/me"; "/notifier/status"; "/catalog"].

(** What a request reads from outside the node: the world, [hashlib.scrypt] and
    the salt drawn, the token drawn, [datetime.fromisoformat], the peers' answers
    to GET /status, the server's state, the status reports of the parts that keep
    their own, and the figures a demo scenario draws. *)
Record ApiEnv := mkApiEnv {
  ae_world : World;
  ae_scrypt : bytes → bytes → Z → Z → Z → Z → result bytes;
  ae_salt : bytes;
  ae_token : string;
  ae_fromisoformat : string → option Q;
  ae_status_of : string → option json;
  ae_state : NodeState;
  ae_linux_ingest : LinuxIngestStatus;
  ae_notifier : Notifier;
  ae_collectors : list CollectorStatus;
  ae_draw : ScenarioDraw }.
Definition ae_now (e : ApiEnv) : Q := w_now (ae_world e).

Definition Handler := Request → NodeM Response.

(** ** Middlewares *)
Definition resolve_session (now : Q) (rq : Request) : NodeM (option SessionRecord) :=
  match dget (rq_cookies rq) SESSION_COOKIE_NAME with
  | None => mret None
  | Some token =>
      if decide (token = "") then mret None
      else λ n, let '(s, r) := session_get token now (n_sessions n) in (set_n_sessions s n, Ok r)
  end.

Definition hmac_key_of (n : Node) : string := str_or_opt (cfg_hmac_key (n_config n)) "".

Definition hmac_auth (now : Q) (handler : Handler) : Handler := λ rq,
  n ← get_node;
  let hmac_key := hmac_key_of n in
  if decide (hmac_key = "" ∨ rq_method rq ∉ HMAC_PROTECTED_METHODS) then handler rq
  else if decide (rq_path rq ∈ AUTH_PUBLIC_PATHS) then handler rq
  else
    session ← resolve_session now rq;
    if bool_decide (session ≠ None) then handler rq
    else
      n ← get_node;
      if Nat.eqb (users_count (n_db n)) 0 then handler rq
      else
        let provided := default "" (dget (rq_headers rq) HMAC_HEADER) in
        if decide (provided = "") then mret (http_error 401 "missing X-MDRJ-Sig header")
        else if decide (provided = hmac_request_signature hmac_key (rq_body rq)) then handler rq
        else mret (http_error 401 "invalid signature").

Fixpoint str_contains (needle s : string) : bool :=
  String.prefix needle s || match s with String _ s' => str_contains needle s' | EmptyString => false end.

Definition viewer_may_read (path : string) : bool :=
  bool_decide (path ∈ VIEWER_READ_PATHS) || String.prefix "/static/" path || bool_decide (path = "/gossip/frontier") ||
  String.prefix "/events/" path.

(** What the middleware decides once there is a session. *)
Definition role_allows (role : string) (rq : Request) : bool :=
  bool_decide (role = ROLE_ADMIN) ||
  (if decide (rq_method rq ∈ WRITE_METHODS) then bool_decide (rq_path rq = "/auth/logout")
   else negb (bool_decide (rq_method rq = "GET")) || viewer_may_read (rq_path rq)).
Definition role_refusal (rq : Request) : Response :=
  if decide (rq_method rq ∈ WRITE_METHODS) then http_error 403 "admin role required"
  else http_error 403 "not permitted for viewer role".

Definition session_auth (now : Q) (handler : Handler) : Handler := λ rq,
  if decide (rq_path rq ∈ AUTH_PUBLIC_PATHS) then handler rq
  else
    n ← get_node;
    if Nat.eqb (users_count (n_db n)) 0 then handler rq
    else
      session ← resolve_session now rq;
      match session with
      | None =>
          let accept := default "" (dget (rq_headers rq) "Accept") in
          if str_contains "text/html" accept && bool_decide (rq_method rq = "GET")
          then mret (http_error 302 "/auth/login") else mret (http_error 401 "login required")
      | Some session => if role_allows (ss_role session) rq then handler rq else mret (role_refusal rq)
      end.

(** ** Reading a request *)
Definition request_json (rq : Request) : result json := json_loads (rq_body rq).
Definition is_decode_error (e : exn) : bool :=
  match e with ValueError m => bool_decide (m = "JSONDecodeError") | _ => false end.
(** [try: await request.json() except json.JSONDecodeError: dflt] *)
Definition request_json_or (dflt : json) (rq : Request) : NodeM json :=
  match request_json rq with
  | Ok v => mret v
  | Err e => if is_decode_error e then mret dflt else raise e
  end.
Definition request_dict (rq : Request) : NodeM (odict json) := lift (v ← request_json rq; as_obj v).

Section api.
Context `{FloatFormat}.

Definition text_field (d : odict json) (k dflt : string) : string := py_str (py_or (jget d k) (JStr dflt)).
Definition opt_text (d : odict json) (k : string) : option string :=
  match jget d k with JNull => None | v => Some (py_str v) end.
Definition query_int (rq : Request) (k : string) (dflt : Z) : Z :=
  match dget (rq_query rq) k with Some s => default dflt (int_of_str s) | None => dflt end.
Definition peers_json (n : Node) : json := JArr (PeerInfo_to_dict <$> list_peers (n_db n)).

(** ** Events *)
Definition handle_event_batch (env : ApiEnv) : Handler := λ rq,
  update_metrics (record_gossip_in_bytes (Z.of_nat (length (rq_body rq))));;
  payload ← lift (if bool_decide (rq_body rq = []) then Ok JNull else json_loads (rq_body rq));
  match payload with
  | JArr items =>
      envelopes ← lift (mapR Envelope_from_dict items);
      new_ids ← ingest_envelopes (ae_world env) envelopes;
      mret (json_response (JObj [("new", strs_json new_ids)]))
  | _ => mret (http_error 400 "payload must be list of envelopes")
  end.

Definition emission_json (em : EventEmission) : json :=
  JObj [("event", Event_to_dict (em_event em)); ("stored", JBool (em_stored em))].

Definition handle_emit_local (env : ApiEnv) : Handler := λ rq,
  payload ← request_dict rq;
  body ← lift (as_obj (py_or (jget payload "payload") (JObj [])));
  let event_kind := py_or (jget payload "event_kind") (jget body "event_kind") in
  let cls_raw := jget payload "cls" in
  if py_bool event_kind then
    n ← get_node;
    match event_kind with
    | JStr kind =>
        if is_known_event_kind kind (n_catalog n) then
          event_cls ← lift (event_class_for kind (n_catalog n));
          em ← emit_event (ae_world env) event_cls (dset body "event_kind" (JStr kind));
          mret (json_response (emission_json em))
        else mret (http_error 400 ("unknown event_kind: " +:+ kind))
    | JArr _ | JObj _ => raise (TypeError "unhashable type")
    | v => mret (http_error 400 ("unknown event_kind: " +:+ py_str v))
    end
  else if py_bool cls_raw then
    event_cls ← lift (s ← as_str cls_raw; EventClass_from_str s);
    em ← emit_event (ae_world env) event_cls body;
    mret (json_response (emission_json em))
  else mret (http_error 400 "missing event_kind or cls").

(** The metrics, the token and the requests that pass the clear on. *)
Definition viz_clear (env : ApiEnv) (rq : Request) : NodeM (json * string * list ClearRequest) :=
  data ← request_json_or (JObj []) rq;
  d ← lift (as_obj data);
  let given := jget d "token" in
  token ← lift (if py_bool given then as_str given else Ok (ae_token env));
  let propagate := if py_bool given then py_bool (jget_or d "propagate" (JBool true)) else true in
  '(metrics, sent) ← node_clear_events (ae_world env) token propagate;
  mret (metrics, token, sent).
Definition handle_viz_clear (env : ApiEnv) : Handler := λ rq,
  '(metrics, token, _) ← viz_clear env rq;
  mret (json_response (JObj [("status", JStr "cleared"); ("metrics", metrics); ("token", JStr token)])).

Definition handle_incidents (env : ApiEnv) : Handler := λ rq,
  n ← get_node;
  if decide (rq_method rq = "GET") then
    mret (json_response (JObj [("items", JArr (JObj <$> list_incidents (n_db n)))]))
  else
    payload ← request_json_or (JObj []) rq;
    d ← lift (as_obj payload);
    match jget d "items" with
    | JArr items =>
        db ← lift (replace_incidents (ae_fromisoformat env) (ae_now env) items (n_db n));
        modify (set_n_db db);;
        mret (json_response (JObj [("status", JStr "ok"); ("items", JArr (JObj <$> list_incidents db))]))
    | _ => mret (http_error 400 "missing items")
    end.

(** ** Anti-entropy *)
Definition handle_gossip_frontier : Handler := λ rq,
  n ← get_node;
  frontier ← lift (local_frontier (n_db n));
  mret (json_response (JObj [("frontier", JObj ((λ p : string * string, (p.1, JStr p.2)) <$> (frontier : odict string)))])).

Definition handle_event_ancestry (event_id : string) : Handler := λ rq,
  n ← get_node;
  out ← lift (ancestry (query_int rq "depth" 64) event_id (n_db n));
  mret (json_response (JObj [("events", JArr (batch_entry <$> (out : list Envelope)))])).

Definition handle_frontier : Handler := λ rq,
  n ← get_node;
  frontier ← lift (get_frontier (n_db n));
  mret (json_response (JObj [("frontier", JArr ((λ p : string * VectorClock, JArr [JStr p.1; vclock_json p.2]) <$> (frontier : list (string * VectorClock))))])).
Definition handle_dag : Handler := λ rq,
  n ← get_node;
  order ← lift (toposort (n_db n));
  mret (json_response (JObj [("toposort", strs_json order)])).
Definition handle_viz_graph (env : ApiEnv) : Handler := λ rq,
  n ← get_node;
  events ← lift (all_events (n_db n));
  mret (json_response (JObj
    [("nodes", JArr (Event_to_dict <$> (events : list Event)));
     ("edges", JArr ((λ p : string * string, JObj [("source", JStr p.1); ("target", JStr p.2); ("key", JStr (p.1 +:+ "->" +:+ p.2))]) <$> all_edges (n_db n)));
     ("metrics", node_metrics_snapshot (ae_world env) n)])).

(** ** Status and metrics *)
Definition handle_status (env : ApiEnv) : Handler := λ rq,
  status ← node_status (ae_state env) (LinuxIngestStatus_to_dict (ae_linux_ingest env)); mret (json_response status).
Definition handle_metrics (env : ApiEnv) : Handler := λ rq,
  n ← get_node; mret (json_response (node_metrics_snapshot (ae_world env) n)).
Definition handle_metrics_prometheus (env : ApiEnv) : Handler := λ rq,
  text ← metrics_prometheus (ae_world env) (ae_collectors env); mret (mkResponse 200 JNull text None).
Definition handle_metrics_history : Handler := λ rq,
  n ← get_node;
  let since_ts := match dget (rq_query rq) "since" with Some s => default 0%Q (float_of_str s) | None => 0%Q end in
  mret (json_response (JObj [("items", JArr ((λ r : Q * json, JObj [("ts", JFloat r.1); ("snapshot", r.2)]) <$>
    list_metrics_history (query_int rq "limit" 1000) since_ts (n_db n)))])).
Definition handle_consensus_digest (env : ApiEnv) : Handler := λ rq,
  snapshot ← consensus_snapshot (ae_now env); mret (json_response (JObj snapshot)).
Definition handle_notifier_status (env : ApiEnv) : Handler := λ rq, mret (json_response (notifier_status (ae_notifier env))).

(** ** Checkpoints *)
Definition checkpoint_json (c : CheckpointRow) : json :=
  JObj [("round_received", JInt (cp_round_received c)); ("merkle_root", JStr (cp_merkle_root c));
        ("members_snapshot_hash", JStr (cp_members_snapshot_hash c));
        ("signatures", JObj ((λ p : string * string, (p.1, JStr p.2)) <$> cp_signatures c)); ("status", JStr (cp_status c));
        ("confirmed_at", jopt JFloat (cp_confirmed_at c)); ("created_at", JFloat (cp_created_at c))].

(** [except E as exc: raise web.HTTPxxx(text=str(exc))]: [status] gives the status
    of the exceptions that are caught. *)
Definition catch_http (status : exn → option Z) (m : NodeM Response) : NodeM Response := λ n,
  match m n with
  | (n, Err e) => match status e with Some s => (n, Ok (http_error s (exn_text e))) | None => (n, Err e) end
  | r => r
  end.
Definition bad_request_on_value_error : NodeM Response → NodeM Response :=
  catch_http (λ e, match e with ValueError _ => Some 400 | _ => None end).
(** A method that does not raise. *)
Definition call {X} (f : Node → Node * X) : NodeM X := λ n, let '(n, x) := f n in (n, Ok x).

Definition next_target (n : Node) : result (option Z) :=
  let next_round_start := match latest_confirmed_checkpoint (n_db n) with Some c => cp_round_received c + 1 | None => 0 end in
  events ← all_events (n_db n);
  let max_round := foldl Z.max (-1) (omap ev_round_received (events : list Event)) in
  Ok (if max_round <? next_round_start then None else Some max_round).

Definition handle_checkpoint_propose (env : ApiEnv) : Handler := λ rq,
  payload ← request_json_or (JObj []) rq;
  d ← match payload with
      | JObj d => mret (M:=NodeM) d
      | JArr l => if decide (JStr "merkle_root" ∈ l) then raise (TypeError "proposal body") else mret []
      | JStr s => if str_contains "merkle_root" s then raise (TypeError "proposal body") else mret []
      | v => if py_bool v then raise (TypeError "argument is not iterable") else mret []
      end;
  if decide ("merkle_root" ∈ dkeys d) then
    bad_request_on_value_error
      (record ← ingest_checkpoint_proposal (ae_now env) d;
       mret (json_response (JObj [("status", JStr "ok");
         ("checkpoint", match record with Some c => checkpoint_json c | None => JObj [] end)])))
  else
    n ← get_node;
    target ← match jget d "round_received" with
             | JNull => lift (next_target n)
             | _ => mret (Some 0)
             end;
    match target with
    | None => mret (http_error 400 "no new events with round_received available for checkpoint")
    | Some computed =>
        bad_request_on_value_error
          (target_round ← lift (match jget d "round_received" with JNull => Ok computed | v => py_int v end);
           proposal ← propose_local_checkpoint (ae_now env) target_round;
           mret (json_response (JObj [("status", JStr "ok"); ("proposal", proposal_to_dict proposal)])))
    end.

Definition handle_checkpoint_list : Handler := λ rq,
  n ← get_node;
  mret (json_response (JObj [("items", JArr (checkpoint_json <$>
    list_checkpoints (dget (rq_query rq) "status") (query_int rq "limit" 100) (n_db n)))])).

Definition handle_checkpoint_verify : Handler := λ rq,
  match int_of_str (default "" (dget (rq_query rq) "round_received")) with
  | None => mret (http_error 400 "round_received must be integer")
  | Some round_received =>
      catch_http (λ e, match e with KeyError _ => Some 404 | _ => None end)
        (report ← verify_checkpoint round_received; mret (json_response (report_to_dict report)))
  end.

(** ** Users and sessions *)
Definition handle_login (env : ApiEnv) : Handler := λ rq,
  match request_json rq with
  | Err e => if is_decode_error e then mret (http_error 400 "invalid json") else raise e
  | Ok v =>
      payload ← lift (as_obj v);
      let username := py_strip (text_field payload "username" "") in
      let password := text_field payload "password" "" in
      if decide (username = "" ∨ password = "") then mret (http_error 400 "username and password required")
      else
        n ← get_node;
        user ← lift (authenticate (ae_scrypt env) username password n);
        match (user : option UserRow) with
        | None => mret (http_error 401 "invalid credentials")
        | Some user =>
            let '(sessions, record) := session_create username (us_role user) (ae_token env) (ae_now env) (n_sessions n) in
            modify (set_n_sessions sessions);;
            mret (mkResponse 200 (JObj [("status", JStr "ok"); ("username", JStr username); ("role", JStr (us_role user))]) ""
                    (Some (Some (ss_token record))))
        end
  end.

Definition handle_logout : Handler := λ rq,
  match dget (rq_cookies rq) SESSION_COOKIE_NAME with
  | Some token => if decide (token = "") then mret tt else modify (λ n, set_n_sessions (session_revoke token (n_sessions n)) n)
  | None => mret tt
  end;;
  mret (mkResponse 200 (JObj [("status", JStr "ok")]) "" (Some None)).

Definition handle_me (env : ApiEnv) : Handler := λ rq,
  session ← resolve_session (ae_now env) rq;
  match session with
  | None => mret (http_error 401 "no session")
  | Some s => mret (json_response (JObj [("username", JStr (ss_username s)); ("role", JStr (ss_role s)); ("expires_at", JFloat (ss_expires_at s))]))
  end.

Definition handle_users_list : Handler := λ rq,
  n ← get_node;
  mret (json_response (JObj [("items", JArr ((λ u : string * UserRow, JObj [("username", JStr u.1); ("role", JStr (us_role u.2));
    ("created_at", JFloat (us_created_at u.2))]) <$> list_users (n_db n)))])).

Definition handle_users_add (env : ApiEnv) : Handler := λ rq,
  payload ← request_dict rq;
  let username := py_strip (text_field payload "username" "") in
  let password := text_field payload "password" "" in
  let role := text_field payload "role" "viewer" in
  if decide (username = "" ∨ password = "") then mret (http_error 400 "username and password required")
  else
    '(name, role) ← add_user (ae_scrypt env) (ae_now env) (ae_salt env) username password role;
    mret (json_response (JObj [("status", JStr "ok"); ("user", JObj [("username", JStr name); ("role", JStr role)])])).

Definition handle_users_remove : Handler := λ rq,
  payload ← request_dict rq;
  let username := py_strip (text_field payload "username" "") in
  if decide (username = "") then mret (http_error 400 "username required")
  else
    removed ← call (remove_user username);
    mret (json_response (JObj [("status", JStr (if (removed : bool) then "ok" else "not_found"))])).

(** ** Peers *)
Definition peer_answer (peer : option PeerInfo) : Response :=
  match peer with
  | Some p => json_response (JObj [("status", JStr "ok"); ("peer", PeerInfo_to_dict p)])
  | None => http_error 404 "unknown peer"
  end.
Definition handle_peer_decision (decide_peer : string → Node → Node * option PeerInfo) : Handler := λ rq,
  payload ← request_dict rq;
  let address := jget payload "address" in
  if py_bool address then peer ← call (decide_peer (py_str address)); mret (peer_answer peer)
  else mret (http_error 400 "missing address").
Definition handle_peer_approve : Handler := handle_peer_decision approve_peer.
Definition handle_peer_reject : Handler := handle_peer_decision reject_peer.

Definition handle_register_peer (env : ApiEnv) : Handler := λ rq,
  payload ← request_dict rq;
  let note := text_field payload "note" "" in
  let role := jget_or payload "role" (JStr "node") in
  let peer_node_id := text_field payload "node_id" "" in
  if py_bool (jget payload "address") then
    address ← lift (as_str (jget payload "address"));
    register_peer (ae_now env) address note "ui" (py_str role) peer_node_id None;;
    n ← get_node;
    mret (json_response (JObj [("status", JStr "ok"); ("peers", peers_json n)]))
  else mret (http_error 400 "missing address").

Definition handle_update_peer (env : ApiEnv) : Handler := λ rq,
  payload ← request_dict rq;
  if py_bool (jget payload "address") then
    address ← lift (as_str (jget payload "address"));
    let enabled := match jget payload "enabled" with JNull => None | v => Some (py_bool v) end in
    peer ← call (node_update_peer (ae_now env) address enabled (opt_text payload "note") (opt_text payload "role")
                   (opt_text payload "node_id") None);
    mret (peer_answer peer)
  else mret (http_error 400 "missing address").

Definition handle_remove_peer : Handler := λ rq,
  payload ← request_dict rq;
  let address := jget payload "address" in
  if negb (py_bool address) then mret (http_error 400 "missing address")
  else if String.prefix "self:" (py_str address) then mret (http_error 400 "cannot remove self peer")
  else
    address ← lift (as_str address);
    modify (remove_peer address);;
    mret (json_response (JObj [("status", JStr "ok")])).

Definition handle_peers : Handler := λ rq, n ← get_node; mret (json_response (JObj [("peers", peers_json n)])).

Definition handle_reconfigure (env : ApiEnv) : Handler := λ rq,
  snapshot ← reconfigure_consensus_membership (ae_now env) (ae_status_of env);
  mret (json_response (JObj [("status", JStr "ok"); ("snapshot", JObj snapshot)])).

(** ** Catalog *)
Definition ascii_upper (c : Ascii.ascii) : Ascii.ascii :=
  let n := Ascii.N_of_ascii c in if ((97 <=? n) && (n <=? 122) || (224 <=? n) && (n <=? 254) && negb (n =? 247))%N then Ascii.ascii_of_N (n - 32) else c.
Fixpoint py_upper (s : string) : string :=
  match s with EmptyString => "" | String c s' => String (ascii_upper c) (py_upper s') end.

Definition catalog_item (cls_filter threat_filter : string) (c : Catalog) (p : string * CatalogEntry) : option (string * string * json) :=
  let '(kind, descriptor) := p in
  let cls_val := EventClass_value (ce_class descriptor) in
  let meta := event_metadata kind c in
  let linked := match meta with Some m => cm_linked_threats m | None => [] end in
  if bool_decide (cls_filter ≠ "") && bool_decide (cls_val ≠ cls_filter) then None
  else if bool_decide (threat_filter ≠ "") && negb (existsb (λ t, str_contains threat_filter (py_str t)) linked) then None
  else
    let text f := match meta with Some m => f m | None => "" end in
    let category := str_or (text cm_category) (py_str (jget_or (ce_payload descriptor) "category" (JStr "other"))) in
    Some (cls_val, kind, JObj
      [("event_kind", JStr kind); ("class", JStr cls_val); ("title", JStr (ce_title descriptor)); ("category", JStr category);
       ("rationale", JStr (text cm_rationale)); ("linked_threats", JArr linked); ("added_by", JStr (text cm_added_by));
       ("npa", JArr (match meta with Some m => cm_npa m | None => [] end)); ("source", JStr (text cm_source));
       ("registry_enabled", JBool (registry_enabled_for kind c)); ("protected", JBool (bool_decide (kind ∈ POLICY_PROTECTED_KINDS)))]).
Definition handle_catalog : Handler := λ rq,
  n ← get_node;
  let cls_filter := py_strip (py_upper (default "" (dget (rq_query rq) "class"))) in
  let threat_filter := py_strip (default "" (dget (rq_query rq) "threat")) in
  let items := sort_on (λ i : string * string * json, i.1) (cmp_pair String.compare String.compare)
                 (omap (catalog_item cls_filter threat_filter (n_catalog n)) (cat_events (n_catalog n))) in
  mret (json_response (JObj [("version", JInt 1); ("count", JInt (Z.of_nat (length items))); ("events", JArr (snd <$> items))])).

Definition handle_catalog_policy (env : ApiEnv) : Handler := λ rq,
  match request_json rq with
  | Err e => if is_decode_error e then mret (http_error 400 "invalid JSON") else raise e
  | Ok v =>
      body ← lift (as_obj v);
      let kind := py_strip (py_str (jget_or body "event_kind" (JStr ""))) in
      if decide (kind = "") then mret (http_error 400 "missing event_kind")
      else if decide ("enabled" ∉ dkeys body) then mret (http_error 400 "missing enabled")
      else
        catch_http (λ e, match e with KeyError _ => Some 404 | ValueError _ => Some 403 | _ => None end)
          (p ← set_collection_policy (ae_world env) kind (py_bool (jget body "enabled"));
           mret (json_response (JObj
             [("status", JStr "ok"); ("kind", JStr (po_kind p)); ("previous_enabled", JBool (po_previous_enabled p));
              ("new_enabled", JBool (po_new_enabled p)); ("policy_hash", JStr (po_policy_hash p))])))
  end.

(** ** Demo and viewers *)
Definition handle_viz_simulate (env : ApiEnv) : Handler := λ rq,
  n ← get_node;
  if li_enabled (cfg_linux_ingest (n_config n)) then mret (http_error 403 "simulation disabled for linux ingest mode")
  else match request_json rq with
       | Err e => if is_decode_error e then mret (http_error 400 "invalid json") else raise e
       | Ok v =>
           d ← lift (as_obj v);
           match jget d "scenario" with
           | JStr key =>
               match dget (SCENARIOS (n_catalog n)) key with
               | Some entry =>
                   em ← emit_event (ae_world env) (ce_class entry) (scenario_payload (ae_draw env) key entry);
                   mret (json_response (JObj [("event", Event_to_dict (em_event em))]))
               | None => mret (http_error 400 "unknown scenario")
               end
           | JArr _ | JObj _ => raise (TypeError "unhashable type")
           | _ => mret (http_error 400 "unknown scenario")
           end
       end.

(** [/viz/simulation/control]: [start], [stop], [status]; anything else toggles. *)
Definition simulation_state (n : Node) : odict json := [("running", JBool (simulation_running n)); ("token", sm_token (n_simulation n))].
Definition simulation_answer (key : string) (done : bool) (n : Node) : Response :=
  json_response (JObj [("running", JBool (simulation_running n)); (key, JBool done); ("token", sm_token (n_simulation n))]).
Definition control_start (env : ApiEnv) (interval jitter : Q) (token : json) (propagate : bool) : NodeM Response :=
  '(started, _) ← start_simulation (ae_world env) interval jitter token propagate;
  n ← get_node; mret (simulation_answer "started" started n).
Definition control_stop (env : ApiEnv) (token : json) (propagate : bool) : NodeM Response :=
  '(stopped, _) ← stop_simulation (ae_world env) token propagate;
  n ← get_node; mret (simulation_answer "stopped" stopped n).
Definition handle_viz_simulation_control (env : ApiEnv) : Handler := λ rq,
  n ← get_node;
  if li_enabled (cfg_linux_ingest (n_config n)) then mret (http_error 403 "simulation disabled for linux ingest mode")
  else
    data ← request_json_or (JObj []) rq;
    d ← lift (as_obj data);
    let action := jget_or d "action" (JStr "toggle") in
    let token := jget d "token" in
    let propagate := py_bool (jget_or d "propagate" (JBool true)) in
    interval ← lift (py_float (jget_or d "interval" (JFloat (9 # 5))));
    jitter ← lift (py_float (jget_or d "jitter" (JFloat (3 # 5))));
    if decide (action = JStr "start") then control_start env interval jitter token propagate
    else if decide (action = JStr "stop") then control_stop env token propagate
    else if decide (action = JStr "status") then n ← get_node; mret (json_response (JObj (simulation_state n)))
    else
      n ← get_node;
      if simulation_running n then control_stop env token propagate else control_start env interval jitter token propagate.

Definition subscribe_visualizer (n : Node) : Node := set_n_subscribers (n_subscribers n ++ [[]]) n.
(** Opening the stream; the messages are read from the queue until the client
    goes away. *)
Definition handle_viz_stream : Handler := λ rq,
  modify subscribe_visualizer;; mret (mkResponse 200 JNull ": connected" None).

(** ** Routes *)
Definition ancestry_id (path : string) : option string :=
  match py_split "/" path with
  | [a; b; i; c] => if decide (a = "" ∧ b = "events" ∧ i ≠ "" ∧ c = "ancestry") then Some i else None
  | _ => None
  end.

Definition inter_node_routes (env : ApiEnv) : list (string * string * Handler) :=
  [("POST", "/event/batch", handle_event_batch env); ("POST", "/event/emit", handle_emit_local env);
   ("GET", "/dag/frontier", handle_frontier); ("GET", "/dag", handle_dag); ("GET", "/status", handle_status env);
   ("GET", "/metrics", handle_metrics env); ("GET", "/metrics/prometheus", handle_metrics_prometheus env);
   ("POST", "/checkpoint/propose", handle_checkpoint_propose env); ("GET", "/checkpoint/list", handle_checkpoint_list);
   ("GET", "/checkpoint/verify", handle_checkpoint_verify); ("POST", "/peers/approve", handle_peer_approve);
   ("POST", "/peers/reject", handle_peer_reject); ("GET", "/gossip/frontier", handle_gossip_frontier);
   ("POST", "/peers/register", handle_register_peer env); ("POST", "/peers/update", handle_update_peer env);
   ("POST", "/peers/remove", handle_remove_peer); ("GET", "/peers", handle_peers);
   ("POST", "/consensus/reconfigure", handle_reconfigure env); ("GET", "/consensus/digest", handle_consensus_digest env)].
Definition ui_routes (env : ApiEnv) : list (string * string * Handler) :=
  [("GET", "/metrics/history", handle_metrics_history); ("GET", "/auth/login", λ _, mret (html_page "LOGIN_HTML"));
   ("POST", "/auth/login", handle_login env); ("POST", "/auth/logout", handle_logout); ("GET", "/auth/me", handle_me env);
   ("GET", "/users", handle_users_list); ("POST", "/users/add", handle_users_add env);
   ("POST", "/users/remove", handle_users_remove); ("GET", "/notifier/status", handle_notifier_status env);
   ("GET", "/catalog", handle_catalog); ("POST", "/catalog/policy", handle_catalog_policy env);
   ("GET", "/viz", λ _, mret (html_page "VIZ_HTML")); ("GET", "/viz/graph", handle_viz_graph env);
   ("GET", "/viz/stream", handle_viz_stream); ("POST", "/viz/simulate", handle_viz_simulate env);
   ("POST", "/viz/simulation/control", handle_viz_simulation_control env); ("POST", "/viz/clear", handle_viz_clear env);
   ("GET", "/incidents", handle_incidents env); ("PUT", "/incidents", handle_incidents env)].
Definition routes (env : ApiEnv) (ui : bool) : list (string * string * Handler) :=
  inter_node_routes env ++ (if ui then ui_routes env else [("GET", "/viz", λ _, mret (html_page "HEADLESS_STUB_HTML"))]).

(** The router: a GET route also answers HEAD. *)
Definition route_method (m : string) : string := if decide (m = "HEAD") then "GET" else m.
Definition find_handler (env : ApiEnv) (ui : bool) (rq : Request) : Handler :=
  match ancestry_id (rq_path rq) with
  | Some i => if decide (route_method (rq_method rq) = "GET") then handle_event_ancestry i
              else λ _, mret (http_error 405 "Method Not Allowed")
  | None =>
      match List.find (λ r : string * string * Handler, bool_decide (r.1 = (route_method (rq_method rq), rq_path rq))) (routes env ui) with
      | Some r => r.2
      | None => if existsb (λ r : string * string * Handler, bool_decide (r.1.2 = rq_path rq)) (routes env ui)
                then λ _, mret (http_error 405 "Method Not Allowed") else λ _, mret (http_error 404 "Not Found")
      end
  end.

(** What an exception that nothing caught becomes.  [OUTSIDE_MODEL] is not a status
    the program answers with: it marks a request whose handling left the model. *)
Definition OUTSIDE_MODEL : Z := 999.
Definition uncaught (e : exn) : Response :=
  if leaves_model e then http_error OUTSIDE_MODEL "outside the model" else http_error 500 "Internal Server Error".

(** One request: the session middleware outermost, then the HMAC middleware, then
    the handler. *)
Definition handle_request (env : ApiEnv) (rq : Request) (n : Node) : Node * Response :=
  let handler := find_handler env (cfg_ui_enabled (n_config n)) rq in
  match session_auth (ae_now env) (hmac_auth (ae_now env) handler) rq n with
  | (n, Ok r) => (n, r)
  | (n, Err e) => (n, uncaught e)
  end.
End api.
