(* ===== verification/ApiFacts.v ===== *)
(** Theorems about Api.v: what the two authentication middlewares decide, the
    batch a node receives is the batch its peer sent, and the API as the other
    side of a frontier round. *)
From S2P Require Import Prelude Sha256 Json JsonParse VectorClock Models Consensus Storage StorageFacts StorageTypes Config Metrics Prioritization Gossip JsonText Checkpoint Auth Catalog Node NodeLogic NodeEvents NodeEventsFacts NodeSimulation NodeCheckpoints NodeSync NodeSyncFacts AgentRelay Notifier NodeLoops Prometheus Api.

(** ** Access policy

    What a request may do, from the number of users, the session its cookie names
    and the request alone. *)
Inductive Verdict := Allowed | Refused (r : Response).
Definition access_policy (users : nat) (session : option SessionRecord) (rq : Request) : Verdict :=
  if decide (rq_path rq ∈ AUTH_PUBLIC_PATHS) then Allowed
  else if Nat.eqb users 0 then Allowed
  else match session with
       | None =>
           Refused (if str_contains "text/html" (default "" (dget (rq_headers rq) "Accept")) && bool_decide (rq_method rq = "GET")
                    then http_error 302 "/auth/login" else http_error 401 "login required")
       | Some s =>
           if decide (ss_role s = ROLE_ADMIN) then Allowed
           else if decide (rq_method rq ∈ WRITE_METHODS) then Refused (http_error 403 "admin role required")
           else if decide (rq_method rq = "GET" ∧ viewer_may_read (rq_path rq) = false)
                then Refused (http_error 403 "not permitted for viewer role")
           else Allowed
       end.

(** The session of the cookie, and the store after looking it up. *)
Definition session_of (now : Q) (rq : Request) (n : Node) : SessionStore * option SessionRecord :=
  match dget (rq_cookies rq) SESSION_COOKIE_NAME with
  | None => (n_sessions n, None)
  | Some token => if decide (token = "") then (n_sessions n, None) else session_get token now (n_sessions n)
  end.
Definition drop_expired (now : Q) (rq : Request) (n : Node) : Node := set_n_sessions (session_of now rq n).1 n.

Definition run_handler (h : Handler) (rq : Request) (n : Node) : Node * Response :=
  match h rq n with (n, Ok r) => (n, r) | (n, Err e) => (n, uncaught e) end.

Lemma same_sessions n : set_n_sessions (n_sessions n) n = n.
Proof. by destruct n. Qed.
Lemma resolve_session_run now rq n : resolve_session now rq n = (drop_expired now rq n, Ok (session_of now rq n).2).
Proof.
  unfold resolve_session, drop_expired, session_of. destruct (dget _ _) as [token|]; cbn [fst snd]; [|by rewrite same_sessions].
  case_decide; cbn [fst snd]; [by rewrite same_sessions|]. by destruct (session_get _ _ _).
Qed.

Lemma live_session_kept now rq n r : (session_of now rq n).2 = Some r → drop_expired now rq n = n.
Proof.
  intros Hs. assert ((session_of now rq n).1 = n_sessions n) as He; [|unfold drop_expired; by rewrite He, same_sessions].
  revert Hs. unfold session_of. destruct (dget _ _) as [token|]; [|done]. case_decide; [done|].
  unfold session_get. destruct (dget _ token) as [rec|]; [|done]. by destruct (_ <?q _).
Qed.

Lemma role_decision role rq : rq_path rq ∉ AUTH_PUBLIC_PATHS →
  (if decide (role = ROLE_ADMIN) then Allowed
   else if decide (rq_method rq ∈ WRITE_METHODS) then Refused (http_error 403 "admin role required")
   else if decide (rq_method rq = "GET" ∧ viewer_may_read (rq_path rq) = false)
        then Refused (http_error 403 "not permitted for viewer role")
   else Allowed) = if role_allows role rq then Allowed else Refused (role_refusal rq).
Proof.
  intros Hp. unfold role_allows, role_refusal. destruct (decide (role = ROLE_ADMIN)) as [Hr|Hr]; [by rewrite bool_decide_true|].
  rewrite (bool_decide_false (role = ROLE_ADMIN)) by done. cbn [orb]. case_decide.
  - rewrite bool_decide_false; [done|]. intros He. apply Hp. rewrite He. apply (bool_decide_unpack _). vm_compute. exact I.
  - destruct (decide (rq_method rq = "GET")) as [Hg|Hg].
    + rewrite bool_decide_true by done. cbn [negb orb]. destruct (viewer_may_read _); case_decide; intuition congruence.
    + rewrite (bool_decide_false (rq_method rq = "GET")) by done. rewrite decide_False by tauto. done.
Qed.

(** The HMAC middleware lets through every request that reaches it. *)
Lemma hmac_auth_passes now h rq n : rq_path rq ∈ AUTH_PUBLIC_PATHS ∨ users_count (n_db n) = 0%nat ∨ (session_of now rq n).2 ≠ None →
  hmac_auth now h rq n = h rq n ∨ hmac_auth now h rq n = h rq (drop_expired now rq n).
Proof.
  intros Hcase. unfold hmac_auth. rewrite (bind_run _ _ n n n eq_refl). case_decide; [by left|].
  case_decide as Hp; [by left|]. right. rewrite (bind_run _ _ _ _ _ (resolve_session_run now rq n)).
  case_bool_decide as Hs; [done|]. destruct Hcase as [?|[Hu|?]]; [done| |by destruct Hs].
  destruct (session_of now rq n).2 as [s|] eqn:Hs2; [done|].
  rewrite (bind_run _ _ (drop_expired now rq n) _ _ eq_refl).
  change (users_count (n_db (drop_expired now rq n))) with (users_count (n_db n)). by rewrite Hu.
Qed.

Lemma handle_public `{FloatFormat} env rq n : rq_path rq ∈ AUTH_PUBLIC_PATHS →
  handle_request env rq n = run_handler (find_handler env (cfg_ui_enabled (n_config n)) rq) rq n.
Proof.
  intros Hp. unfold handle_request, run_handler, session_auth, hmac_auth. rewrite decide_True by done.
  rewrite (bind_run _ _ n n n eq_refl). by repeat case_decide.
Qed.
Lemma handle_open_read `{FloatFormat} env rq n : users_count (n_db n) = 0%nat → rq_method rq ∉ HMAC_PROTECTED_METHODS →
  handle_request env rq n = run_handler (find_handler env (cfg_ui_enabled (n_config n)) rq) rq n.
Proof.
  intros Hu Hm. destruct (decide (rq_path rq ∈ AUTH_PUBLIC_PATHS)) as [|Hp]; [by apply handle_public|].
  unfold handle_request, run_handler, session_auth. rewrite decide_False by done.
  rewrite (bind_run _ _ n n n eq_refl), Hu. cbn [Nat.eqb]. unfold hmac_auth.
  rewrite (bind_run _ _ n n n eq_refl), decide_True by by right. done.
Qed.

(** Without users everything reaches its handler; a request without cookies leaves the
    session store alone. *)
Lemma handle_open `{FloatFormat} env rq n : users_count (n_db n) = 0%nat → rq_cookies rq = [] →
  handle_request env rq n = run_handler (find_handler env (cfg_ui_enabled (n_config n)) rq) rq n.
Proof.
  intros Hu Hc. destruct (decide (rq_path rq ∈ AUTH_PUBLIC_PATHS)) as [|Hp]; [by apply handle_public|].
  unfold handle_request, run_handler, session_auth. rewrite decide_False by done. rewrite (bind_run _ _ n n n eq_refl), Hu. cbn [Nat.eqb].
  set (h := find_handler _ _ _).
  assert (drop_expired (ae_now env) rq n = n) as Hd by (unfold drop_expired, session_of; rewrite Hc; apply same_sessions).
  destruct (hmac_auth_passes (ae_now env) h rq n) as [-> | ->]; rewrite ?Hd; auto.
Qed.

Lemma handle_no_session `{FloatFormat} env rq n :
  users_count (n_db n) ≠ 0%nat → rq_path rq ∉ AUTH_PUBLIC_PATHS → (session_of (ae_now env) rq n).2 = None →
  rs_status (handle_request env rq n).2 ≠ 200.
Proof.
  intros Hu Hp Hs. unfold handle_request, session_auth. rewrite decide_False by done.
  rewrite (bind_run _ _ n n n eq_refl). destruct (Nat.eqb_spec (users_count (n_db n)) 0) as [|_]; [done|].
  rewrite (bind_run _ _ _ _ _ (resolve_session_run (ae_now env) rq n)), Hs. by destruct (_ && _).
Qed.

(** C5: the two middlewares together implement the access policy: a request is served
    by its handler exactly when its path is public, no user exists, or its session
    may do it (an administrator everything, a viewer the reading paths only); every
    other request is refused with the policy's answer and changes nothing.  The
    only effect of the check is that an expired session is forgotten.  The
    signature header is not consulted by the policy, and has no influence. *)
Theorem access_control `{FloatFormat} (env : ApiEnv) (rq : Request) (n : Node) :
  ∃ n0, (n0 = n ∨ n0 = drop_expired (ae_now env) rq n) ∧
    handle_request env rq n =
      match access_policy (users_count (n_db n)) (session_of (ae_now env) rq n).2 rq with
      | Allowed => run_handler (find_handler env (cfg_ui_enabled (n_config n)) rq) rq n0
      | Refused r => (n0, r)
      end.
Proof.
  unfold handle_request, run_handler. set (h := find_handler _ _ _). set (now := ae_now env).
  assert (∀ n1 m, m = h rq n1 ∨ m = h rq (drop_expired now rq n1) → ∃ n0, (n0 = n1 ∨ n0 = drop_expired now rq n1) ∧
    match m with (n, Ok r) => (n, r) | (n, Err e) => (n, uncaught e) end = run_handler h rq n0) as Hrun
    by (intros n1 m [-> | ->]; eauto).
  unfold session_auth, access_policy. case_decide as Hp; [by apply Hrun, hmac_auth_passes; left|].
  rewrite (bind_run _ _ n n n eq_refl). destruct (Nat.eqb_spec (users_count (n_db n)) 0) as [Hu|Hu].
  { by apply Hrun, hmac_auth_passes; right; left. }
  rewrite (bind_run _ _ _ _ _ (resolve_session_run now rq n)).
  destruct (session_of now rq n).2 as [s|] eqn:Hs.
  - rewrite role_decision by done. destruct (role_allows (ss_role s) rq); [|exists (drop_expired now rq n); split; [by right|done]].
    pose proof (live_session_kept now rq n s Hs) as Hn. rewrite Hn.
    destruct (hmac_auth_passes now h rq n) as [-> | ->]; [right; right; congruence|..];
      exists n; split; try (by left); rewrite ?Hn; done.
  - exists (drop_expired now rq n). split; [by right|]. by destruct (_ && _).
Qed.

(** ** A batch arrives as it was sent *)
Section delivery.
Context `{FloatFormat}.

(** The envelopes JSON carries unchanged: those the code builds, with floats whose
    rendering reads back. *)
Definition sendable (env : Envelope) : Prop := event_normal (env_event env) ∧ json_ok (Envelope_to_dict env).

Lemma json_ok_arr l : Forall json_ok l → json_ok (JArr l).
Proof. induction 1; simpl; [done|]. by split. Qed.

Lemma sendable_entries envs : Forall sendable envs →
  json_ok (JArr (batch_entry <$> envs)) ∧ mapR Envelope_from_dict (batch_entry <$> envs) = Ok envs.
Proof.
  intros Hs. split.
  - apply json_ok_arr, Forall_fmap. by apply (Forall_impl _ _ _ Hs); intros env [_ ?].
  - apply mapR_Ok. induction Hs as [|env envs [Hn _] _ IH]; constructor; [|done].
    change (batch_entry env) with (Envelope_to_dict env). by apply Envelope_wire_roundtrip.
Qed.

Lemma batch_body_parses key envs : Forall sendable envs →
  (batch_body key envs).1 ≠ [] ∧ json_loads (batch_body key envs).1 = Ok (JArr (batch_entry <$> envs)).
Proof.
  intros Hs. assert (json_loads (batch_body key envs).1 = Ok (JArr (batch_entry <$> envs))) as Hj.
  { assert ((batch_body key envs).1 = utf8_encode (json_dumps (JArr (batch_entry <$> envs)))) as ->.
    { unfold batch_body, signed_request_body. destruct key; [by case_decide|done]. }
    apply json_loads_dumps. by apply sendable_entries. }
  split; [|done]. intros Hb. rewrite Hb in Hj. discriminate Hj.
Qed.

Lemma find_event_batch env ui rq : rq_method rq = "POST" → rq_path rq = "/event/batch" → find_handler env ui rq = handle_event_batch env.
Proof. destruct rq as [m p hs cs q b]. simpl. intros -> ->. reflexivity. Qed.

(** C6: gossip arrives: the bytes a peer sends for a batch of envelopes, posted to
    [/event/batch] of a node, are decoded and stored whole, whatever the users, the
    keys and the configuration of the receiver are: afterwards its log holds exactly
    the events it had and the events sent, and what waited for gossip still does.
    The answer lists the new events; it is 500 only when the consensus is recomputed
    at once and cannot be (the stored events are on a cycle, or the stored member
    list cannot be read). *)
Theorem batch_delivered (env : ApiEnv) (rq : Request) (n : Node) (key : option string) (envs : list Envelope) :
  rq_method rq = "POST" → rq_path rq = "/event/batch" → rq_body rq = (batch_body key envs).1 →
  Forall sendable envs → events_typed (n_db n) →
  ∃ n' answer, handle_request env rq n = (n', answer) ∧ brings (env_id <$> envs) n n' ∧
    ((∃ ids, answer = json_response (JObj [("new", strs_json ids)])) ∨
     (rs_status answer = 500 ∧ (∃ e, consensus_stuck e n') ∧ ¬ debounced n)).
Proof.
  intros Hm Hp Hb Hs Ht. rewrite handle_public by (rewrite Hp; vm_compute; repeat constructor).
  unfold run_handler. rewrite (find_event_batch env _ rq Hm Hp). unfold handle_event_batch. rewrite Hb.
  destruct (batch_body_parses key envs Hs) as [Hne Hj]. destruct (sendable_entries envs Hs) as [_ Hdec].
  rewrite bool_decide_false by done. rewrite Hj.
  set (n1 := set_n_metrics (record_gossip_in_bytes (Z.of_nat (length (batch_body key envs).1)) (n_metrics n)) n).
  rewrite (bind_run (update_metrics _) _ n n1 tt eq_refl), (bind_run (lift (Ok _)) _ n1 n1 _ eq_refl).
  rewrite (bind_run _ _ n1 n1 envs) by (unfold lift; by rewrite Hdec).
  destruct (ingest_brings (ae_world env) envs n1 Ht) as (n' & r & Hr & Hbr & [[ids ->]|(e & -> & Hst & Hd)]).
  - rewrite (bind_run _ _ _ _ _ Hr). eexists n', _. split; [reflexivity|]. split; [done|]. left. by eexists.
  - unfold mbind, nodem_bind. rewrite Hr. eexists n', _. split; [reflexivity|]. split; [done|]. right.
    unfold uncaught. rewrite (stuck_in_model e n' Hst). split; [done|]. split; [by eexists|done].
Qed.
End delivery.

(** ** Anti-entropy over the API *)

Section api_net.
Context `{FloatFormat} (env : ApiEnv).

(** The body of a GET that a peer answered with 200. *)
Definition http_get (peer : Node) (path : string) (query : odict string) : option json :=
  let r := (handle_request env (mkRequest "GET" path [] [] query []) peer).2 in
  if decide (rs_status r = 200)
  then match json_loads (utf8_encode (json_dumps (rs_body r))) with Ok v => Some v | Err _ => None end
  else None.
(** The network of the peers that [peer_at] gives an address. *)
Definition api_net (peer_at : string → option Node) : SyncNet :=
  mkSyncNet (λ a, peer ← peer_at a; http_get peer "/gossip/frontier" [])
            (λ a i, peer ← peer_at a; http_get peer ("/events/" +:+ i +:+ "/ancestry") [("depth", "64")]).

Lemma ancestry_path i : path_segment i → ancestry_id ("/events/" +:+ i +:+ "/ancestry") = Some i.
Proof.
  intros [Hne Hs]. unfold ancestry_id.
  assert (py_split "/" ("/events/" +:+ i +:+ "/ancestry") = [""; "events"; i; "ancestry"]) as ->.
  { change ("/events/" +:+ i +:+ "/ancestry") with ("/events" +:+ String "/" (i +:+ String "/" "ancestry")).
    rewrite !py_split_app, Hs. reflexivity. }
  by rewrite decide_True.
Qed.

Lemma find_ancestry ui i hs cs q b : path_segment i →
  find_handler env ui (mkRequest "GET" ("/events/" +:+ i +:+ "/ancestry") hs cs q b) = handle_event_ancestry i.
Proof. intros Hi. unfold find_handler. cbn [rq_path rq_method]. by rewrite ancestry_path. Qed.

Lemma frontier_public hs cs q b : rq_path (mkRequest "GET" "/gossip/frontier" hs cs q b) ∈ AUTH_PUBLIC_PATHS.
Proof. by apply (bool_decide_unpack _). Qed.

Lemma ancestry_not_public i : "/events/" +:+ i +:+ "/ancestry" ∉ AUTH_PUBLIC_PATHS.
Proof. intros Hin. repeat (apply elem_of_cons in Hin as [Hin|Hin]; [discriminate Hin|]). by apply elem_of_nil in Hin. Qed.

Lemma frontier_keys db f : local_frontier db = Ok f → NoDup (dkeys f).
Proof.
  unfold local_frontier. intros Hf. apply result_bind_Ok in Hf as (events & _ & [= <-]).
  assert (∀ l (acc : odict (Q * string)), NoDup (dkeys acc) → NoDup (dkeys (foldl frontier_step acc l))) as Hd.
  { induction l as [|e l IH]; intros acc Hacc; [done|]. apply IH. unfold frontier_step. case_decide; [done|].
    destruct (dget acc _) as [[ts i]|]; [destruct (_ <?q _); [|done]|]; by apply NoDup_dset. }
  specialize (Hd events [] (NoDup_nil_2)). unfold dkeys in *. rewrite <- list_fmap_compose. exact Hd.
Qed.
Lemma frontier_json_ok db f : local_frontier db = Ok f →
  json_ok (JObj [("frontier", JObj ((λ p : string * string, (p.1, JStr p.2)) <$> f))]).
Proof.
  intros Hf%frontier_keys. cbn [json_ok foldr]. split; [apply NoDup_singleton|]. split; [|done]. cbn [snd json_ok]. split.
  - unfold dkeys in *. rewrite <- list_fmap_compose. exact Hf.
  - clear. induction f as [|p f IH]; [done|]. by split.
Qed.

(** What a peer without users answers is what [HonestPeer] asks for, when its log
    can be written as JSON. *)
Lemma open_peer_honest peer_at address peer :
  peer_at address = Some peer → users_count (n_db peer) = 0%nat →
  (∀ i e, get_envelope i (n_db peer) = Ok (Some e) → json_ok (Envelope_to_dict e)) →
  HonestPeer (api_net peer_at) address (n_db peer).
Proof.
  intros Ha Hu Hj. split.
  - intros f Hf. cbn [api_net sn_frontier]. rewrite Ha. cbn [mbind option_bind]. unfold http_get.
    rewrite handle_public by apply frontier_public. unfold run_handler.
    change (find_handler env _ _) with (handle_gossip_frontier). unfold handle_gossip_frontier.
    rewrite (bind_run _ _ peer peer peer eq_refl), (bind_run (lift _) _ peer peer f) by (unfold lift; by rewrite Hf).
    cbn [mret nodem_ret snd json_response rs_status rs_body]. rewrite decide_True by done.
    rewrite json_loads_dumps; [done|]. by apply (frontier_json_ok (n_db peer)).
  - intros i out Hi Hout. cbn [api_net sn_ancestry]. rewrite Ha. cbn [mbind option_bind]. unfold http_get.
    rewrite handle_open_read by (done || by apply (bool_decide_unpack _)). unfold run_handler.
    rewrite find_ancestry by done. unfold handle_event_ancestry. change (query_int _ "depth" 64) with 64.
    rewrite (bind_run _ _ peer peer peer eq_refl), (bind_run (lift _) _ peer peer out) by (unfold lift; by rewrite Hout).
    cbn [mret nodem_ret snd json_response rs_status rs_body]. rewrite decide_True by done.
    rewrite json_loads_dumps; [done|]. cbn [json_ok foldr snd]. split; [apply NoDup_singleton|]. split; [|done].
    destruct (ancestry_loop_sound _ _ _ _ _ Hout) as (_ & _ & Hs). apply json_ok_arr, Forall_fmap, Forall_forall.
    intros e He. by apply (Hj (env_id e)), Hs.
Qed.

(** *** A peer with users *)
Lemma closed_peer_silent peer_at address peer i :
  peer_at address = Some peer → users_count (n_db peer) ≠ 0%nat → sn_ancestry (api_net peer_at) address i = None.
Proof.
  intros Ha Hu. cbn [api_net sn_ancestry]. rewrite Ha. cbn [mbind option_bind]. unfold http_get.
  rewrite decide_False; [done|]. by apply handle_no_session; [|apply ancestry_not_public|].
Qed.

Lemma pull_missing_silent w net address missing pulled n :
  (∀ i, sn_ancestry net address i = None) → pull_missing w net address missing pulled n = (n, Ok pulled).
Proof.
  intros Hn. revert pulled. induction missing as [|i missing IH]; intros pulled; [done|]. cbn [pull_missing].
  rewrite Hn, (bind_run (lift (pull_ancestry None)) _ n n [] eq_refl). by rewrite bool_decide_true.
Qed.

Lemma missing_ids_absent db (f : odict string) ms :
  mapR (λ p : string * string, missing_id db p.2) f = Ok ms → ∀ i, i ∈ omap id ms → i ∉ event_ids db.
Proof.
  intros Hm i ([j|] & Hj & Hi)%list_elem_of_omap; [|done]. injection Hi as ->.
  destruct (mapR_elem _ _ _ _ Hm Hj) as ([c k] & _ & Hk). unfold missing_id in Hk. case_decide; [done|].
  apply result_bind_Ok in Hk as ([e|] & Hg & [= ->]). by apply get_event_None in Hg.
Qed.

(** C20: anti-entropy stops at a peer that has users: its ancestry route is not public
    and the request carries no session, so whatever its frontier tells, a round
    pulls nothing, the log stays as it is, and every missing event stays missing. *)
Theorem secured_peer_starves (w : World) (choose : list PeerInfo → PeerInfo) (peer_at : string → option Node)
    (n peer n' : Node) (report : SyncReport) :
  peer_at (pi_address (choose (node_list_peers n))) = Some peer → users_count (n_db peer) ≠ 0%nat →
  frontier_sync_once w choose (api_net peer_at) n = (n', Ok (Some report)) →
  sr_pulled report = 0%nat ∧ n_db n' = n_db n ∧ ∀ i, i ∈ sr_missing_ids report → i ∉ event_ids (n_db n').
Proof.
  intros Ha Hu. unfold frontier_sync_once. rewrite (bind_run _ _ n n n eq_refl). destruct (_ || _); [done|].
  destruct (sn_frontier _ _) as [payload|]; [|done]. intros Hr.
  apply bind_Ok in Hr as (? & d & [= <- _] & Hr). apply bind_Ok in Hr as (? & frontier & [= <- _] & Hr).
  apply bind_Ok in Hr as (? & theirs & [= <- _] & Hr). apply bind_Ok in Hr as (? & ours & [= <- _] & Hr).
  apply bind_Ok in Hr as (? & ms & [= <- Hm] & Hr).
  rewrite (bind_run _ _ _ _ _ (offers_run _ n)) in Hr.
  rewrite (bind_run _ _ _ _ _ (pull_missing_silent w _ _ _ 0 _ (λ i, closed_peer_silent peer_at _ peer i Ha Hu))) in Hr.
  injection Hr as <- <-. cbn [sr_pulled sr_missing_ids]. split; [done|].
  destruct (offers_fields (to_push ours theirs) n) as (Hdb & _). unfold add_pulls. cbn [set_n_counters n_db]. rewrite Hdb.
  split; [done|]. by apply (missing_ids_absent _ _ _ Hm).
Qed.
End api_net.

(** ** The theorems on a concrete node *)

(** [repr] of a whole number. *)
Definition decimal_format : FloatFormat := λ q, py_str_int (Qfloor q) +:+ ".0".

Definition sample_env : ApiEnv :=
  {| ae_world := sample_world; ae_scrypt := sample_scrypt; ae_salt := [1; 2; 3]; ae_token := "t";
     ae_fromisoformat := λ _, None; ae_status_of := λ _, None; ae_state := RUN;
     ae_linux_ingest := mkIngestStatus false "auth_log_file" None None None None None 0;
     ae_notifier := new_notifier (cfg_notifier sample_config); ae_collectors := []; ae_draw := mkDraw "" "" 0 |}.
Definition post (path : string) (cookies : odict string) (body : json) : Request :=
  mkRequest "POST" path [] cookies [] (utf8_encode (@json_dumps frac_format body)).

Lemma batch_delivered_witness :
  let key := Some "k" in
  let rq := mkRequest "POST" "/event/batch" [] [] [] (@batch_body decimal_format key [example_envelope]).1 in
  let n := plain_node in
  rq_body rq = (@batch_body decimal_format key [example_envelope]).1 ∧
  Forall (@sendable decimal_format) [example_envelope] ∧ events_typed (n_db n) ∧
  rs_status (@handle_request decimal_format sample_env rq n).2 = 200 ∧ ¬ debounced n ∧
  ∃ n' answer, @handle_request decimal_format sample_env rq n = (n', answer) ∧ brings (env_id <$> [example_envelope]) n n' ∧
    ((∃ ids, answer = json_response (JObj [("new", strs_json ids)])) ∨
     (rs_status answer = 500 ∧ (∃ e, @consensus_stuck decimal_format e n') ∧ ¬ debounced n)).
Proof.
  intros key rq n.
  assert (Forall (@sendable decimal_format) [example_envelope]) as Hs.
  { apply Forall_singleton. split; [apply (bool_decide_unpack _); vm_compute; exact I|].
    apply json_check_ok. vm_compute. reflexivity. }
  assert (events_typed (n_db n)) as Ht by (apply typed_check; vm_compute; reflexivity).
  split; [reflexivity|]. split; [exact Hs|]. split; [exact Ht|]. split; [vm_compute; reflexivity|].
  split; [intros [_ Hd]; vm_compute in Hd; discriminate Hd|].
  exact (@batch_delivered decimal_format sample_env rq n key [example_envelope] eq_refl eq_refl eq_refl Hs Ht).
Defined.

(** A node with an administrator. *)
Definition with_user (name : string) (n : Node) : Node :=
  (add_user sample_scrypt 1 [1; 2; 3] name "pw" "admin" n).1.
Definition secured_peer : Node := with_user "root" (set_n_db peer_log sample_node).

Lemma secured_peer_starves_witness :
  let choose := λ l : list PeerInfo, default (mkPeer "" "" None false false "" "" "" false "") (head l) in
  let peer_at := λ _ : string, Some secured_peer in
  let n := running_node in
  let r := @frontier_sync_once decimal_format sample_world choose (@api_net decimal_format sample_env peer_at) n in
  ∃ report, r = (r.1, Ok (Some report)) ∧ users_count (n_db secured_peer) ≠ 0%nat ∧
  sr_pulled report = 0%nat ∧ n_db r.1 = n_db n ∧ ∀ i, i ∈ sr_missing_ids report → i ∉ event_ids (n_db r.1).
Proof.
  intros choose peer_at n r.
  destruct (result_is_some r.2) as [report Hr2]; [vm_compute; reflexivity|].
  assert (r = (r.1, Ok (Some report))) as Hr by (apply run_ok; exact Hr2).
  assert (users_count (n_db secured_peer) ≠ 0%nat) as Hu by (vm_compute; discriminate).
  exists report. split; [exact Hr|]. split; [exact Hu|].
  exact (@secured_peer_starves decimal_format sample_env sample_world choose peer_at n secured_peer r.1 report eq_refl Hu Hr).
Defined.

(** *** Removing a user

    The session store keeps the name as it was typed at the login, the removal
    looks for the lower-case name. *)
Definition two_admins : Node := with_user "root" (with_user "alice" sample_node).
Definition login_request (name : string) : Request :=
  post "/auth/login" [] (JObj [("username", JStr name); ("password", JStr "pw")]).
Definition env_token (t : string) : ApiEnv :=
  let e := sample_env in
  mkApiEnv (ae_world e) (ae_scrypt e) (ae_salt e) t (ae_fromisoformat e) (ae_status_of e) (ae_state e) (ae_linux_ingest e)
    (ae_notifier e) (ae_collectors e) (ae_draw e).
(** [name] and root log in, root removes alice, and the first session is used
    once more: the statuses of the four answers. *)
Definition removal_run (name : string) : list Z :=
  let '(n1, r1) := @handle_request frac_format (env_token "t1") (login_request name) two_admins in
  let '(n2, r2) := @handle_request frac_format (env_token "t2") (login_request "root") n1 in
  let '(n3, r3) := @handle_request frac_format sample_env
    (post "/users/remove" [(SESSION_COOKIE_NAME, "t2")] (JObj [("username", JStr "alice")])) n2 in
  let '(n4, r4) := @handle_request frac_format sample_env (mkRequest "GET" "/users" [] [(SESSION_COOKIE_NAME, "t1")] [] []) n3 in
  rs_status <$> [r1; r2; r3; r4].

Example removal_revokes : removal_run "alice" = [200; 200; 200; 401].
Proof. vm_compute. reflexivity. Qed.
(** A session that was opened as "Alice" outlives the user. *)
Example removal_misses_other_case : removal_run "Alice" = [200; 200; 200; 200].
Proof. vm_compute. reflexivity. Qed.
