(* ===== verification/ClearFlood.v ===== *)
(** Clearing a network: [clear_events] of every node, the requests with which
    [_propagate_clear] passes a clear on, and the API that receives them. *)
From S2P Require Import Prelude Sha256 Json JsonParse VectorClock Models Consensus Storage StorageFacts StorageTypes Config Metrics Prioritization Gossip JsonText Checkpoint Auth Catalog Node NodeLogic NodeEvents NodeEventsFacts NodeSimulation NodeCheckpoints NodeSync NodeSyncFacts AgentRelay Notifier NodeLoops Prometheus Api ApiFacts.

(** ** The network

    The nodes by the address at which their peers reach them, and the requests
    that are under way. *)
Record Net := mkNet { nt_nodes : gmap string Node; nt_pool : list ClearRequest }.

Definition clear_http (r : ClearRequest) : Request := mkRequest "POST" "/viz/clear" (cr_headers r) [] [] (cr_body r).

Section flood.
Context `{FloatFormat}.

(** A node serves a request: its new state, and what it sends on when its handler
    was reached and did not fail. *)
Definition serve_clear (env : ApiEnv) (rq : Request) (n : Node) : Node * list ClearRequest :=
  let '(n', response) := handle_request env rq n in
  (n', if decide (rs_status response = 200)
       then match (viz_clear env rq n).2 with Ok (_, _, sent) => sent | Err _ => [] end else []).

(** One step: a request under way reaches its node, or is lost; in a network
    without loss only the requests to an address where no node is are lost. *)
Inductive flood_step (t0 : Q) (lossy : bool) : Net → Net → Prop :=
  | flood_deliver env nodes l1 r l2 n :
      nodes !! cr_address r = Some n → (t0 <= ae_now env)%Q → (ae_now env <= t0 + 300)%Q →
      flood_step t0 lossy (mkNet nodes (l1 ++ r :: l2))
        (mkNet (<[cr_address r := (serve_clear env (clear_http r) n).1]> nodes)
               (l1 ++ l2 ++ (serve_clear env (clear_http r) n).2))
  | flood_lose nodes l1 r l2 :
      lossy = true ∨ nodes !! cr_address r = None →
      flood_step t0 lossy (mkNet nodes (l1 ++ r :: l2)) (mkNet nodes (l1 ++ l2)).

(** ** What a clear leaves alone *)
Definition keeps_net (n n' : Node) : Prop :=
  n_config n' = n_config n ∧ n_peers n' = n_peers n ∧ n_clear_tokens n' = n_clear_tokens n ∧
  (n_gossip n' = None ↔ n_gossip n = None) ∧ db_users (n_db n') = db_users (n_db n).
#[local] Instance keeps_net_preorder : PreOrder keeps_net.
Proof. split; [intros n; unfold keeps_net; by split_and!|]. intros a b c (?&?&?&?&?) (?&?&?&?&?). split_and!; [congruence..| |congruence]. by etrans. Qed.

Definition keeps_anchors (n n' : Node) : Prop := keeps_net n n' ∧ n_anchors n' = n_anchors n.
#[local] Instance keeps_anchors_preorder : PreOrder keeps_anchors.
Proof. split; [intros n; by split|]. intros a b c [? ?] [? ?]. split; [by etrans|congruence]. Qed.
Lemma keeps_membership : framed keeps_anchors (λ n, let '(n, s) := active_consensus_membership n in (n, Ok s) : Node * result (odict json)).
Proof. intros n. unfold active_consensus_membership, save_snapshot. by destruct (cached_snapshot n). Qed.
Lemma keeps_recompute : framed keeps_anchors recompute_consensus.
Proof.
  unfold recompute_consensus. frame_step; [frame_step|]. frame_step; [frame_step|].
  case_bool_decide; [frame_step|]. frame_step; [apply keeps_membership|]. frame_step; [frame_step|].
  frame_step; [frame_step|]. destruct (toposort _) as [ids|[]]; try frame_step. by intros n.
Qed.
Lemma keeps_offer i n : keeps_net n (gossip_offer i n).
Proof. unfold gossip_offer. destruct (n_gossip n) eqn:E; [|done]. split_and!; [done..| |done]. by rewrite E. Qed.
Lemma store_users now env ts db : db_users (store_envelope now env ts db).1 = db_users db.
Proof.
  unfold store_envelope, merge_path_meta. destruct (find_event db _); [destruct ts|]; cbn [fst]; repeat case_match; done.
Qed.

(** ** A clear succeeds

    [clearable]: the listen address is a host and a port, and the members of the
    stored consensus snapshot can be read. *)
Definition clearable (w : World) (n : Node) : Prop :=
  is_ok (self_identity w n) = true ∧ is_ok (snapshot_members (active_consensus_membership n).2) = true.

(** What the membership is computed from. *)
Definition same_members (n n' : Node) : Prop :=
  n_config n' = n_config n ∧ n_membership n' = n_membership n ∧ db_membership (n_db n') = db_membership (n_db n) ∧
  db_peers (n_db n') = db_peers (n_db n).
Lemma membership_same n n' : same_members n n' → (active_consensus_membership n').2 = (active_consensus_membership n).2.
Proof.
  intros (Hc & Hm & Hd & Hp).
  assert (cached_snapshot n' = cached_snapshot n) as Hs.
  { unfold cached_snapshot, stored_snapshot, get_consensus_membership_snapshot. by rewrite Hm, Hd. }
  assert (list_peers (n_db n') = list_peers (n_db n)) as Hl by (unfold list_peers; by rewrite Hp).
  unfold active_consensus_membership. rewrite Hs. destruct (cached_snapshot n); [done|].
  unfold save_snapshot, membership_entries_from_registry, self_registry_address, current_role, node_id. cbn [snd].
  by rewrite Hl, Hc.
Qed.

(** A log of one event without parents is ordered, and recomputed. *)
Lemma recompute_single n i : event_ids (n_db n) = [i] → db_edges (n_db n) = [] → events_typed (n_db n) →
  is_ok (snapshot_members (active_consensus_membership n).2) = true →
  ∃ n', recompute_consensus n = (n', Ok tt).
Proof.
  intros Hi He Ht Hm. unfold recompute_consensus.
  destruct (is_ok_inv _ (typed_all_events _ Ht)) as [events Hev].
  rewrite (bind_run _ _ n n n eq_refl), (bind_run (lift _) _ n n events) by (unfold lift; by rewrite Hev).
  case_bool_decide; [by eexists|]. destruct (active_consensus_membership n) as [n1 snap] eqn:Ha. cbn [snd] in Hm.
  assert (n_db n1 = n_db n ∨ n_db n1 = save_consensus_membership_snapshot snap (n_db n)) as Hdb.
  { revert Ha. unfold active_consensus_membership, save_snapshot. destruct (cached_snapshot n); intros [= <- <-]; [by left|by right]. }
  rewrite (bind_run _ _ n n1 snap) by by rewrite Ha.
  destruct (is_ok_inv _ Hm) as [ms Hms]. rewrite (bind_run (lift _) _ n1 n1 ms) by (unfold lift; by rewrite Hms).
  rewrite (bind_run _ _ n1 n1 n1 eq_refl).
  assert (toposort (n_db n1) = Ok [i]) as ->; [|by eexists].
  unfold toposort, event_ids in *. assert (db_events (n_db n1) = db_events (n_db n) ∧ db_edges (n_db n1) = db_edges (n_db n)) as [-> ->]
    by (by destruct Hdb as [-> | ->]).
  rewrite Hi, He. cbn.
  rewrite (decide_True (P := 0 = 0)) by done. cbn. rewrite (decide_True (P := i = i)) by done. reflexivity.
Qed.

(** The genesis of an empty log. *)
Lemma bootstrap_empty w n : is_ok (self_identity w n) = true → db_events (n_db n) = [] → db_edges (n_db n) = [] →
  ∃ n' i, bootstrap_genesis w true n = (n', Ok tt) ∧ keeps_net n n' ∧ same_members n n' ∧
    event_ids (n_db n') = [i] ∧ n_anchors n' = [i] ∧ db_edges (n_db n') = [] ∧ events_typed (n_db n').
Proof.
  intros [identity Hid]%is_ok_inv He Hed. unfold bootstrap_genesis. rewrite (bind_run _ _ n n n eq_refl). cbn [negb andb].
  rewrite (bind_run (lift _) _ n n identity) by (unfold lift; by rewrite Hid). cbv zeta.
  destruct (deterministic_genesis_ts n) as [n1 ts] eqn:Hts. rewrite (bind_run _ _ n n1 ts) by by rewrite Hts.
  rewrite (bind_run _ _ n1 n1 n1 eq_refl).
  set (envelope := mkEnvelope _ _).
  assert (keeps_net n n1 ∧ same_members n n1 ∧ n_db n1 = n_db n) as (Hk & Hs & Hdb).
  { unfold deterministic_genesis_ts in Hts. by injection Hts as <- <-. }
  set (db := (store_envelope (w_now w) envelope (Some ts) (n_db n1)).1).
  assert (event_ids db = [env_id envelope] ∧ db_edges db = [] ∧ events_typed db ∧ db_membership db = db_membership (n_db n) ∧
    db_peers db = db_peers (n_db n)) as (Hi & Hed1 & Ht & Hm & Hp).
  { assert (find_event (n_db n) (ev_id (env_event envelope)) = None) as Hf by (unfold find_event; by rewrite He).
    split_and!; [| |apply (run_store_typed (OpStore (w_now w) envelope (Some ts))); rewrite Hdb; intros r; rewrite He; by intros ?%elem_of_nil|..];
      unfold db, event_ids, store_envelope, merge_path_meta; rewrite Hdb, Hf; cbn [fst set_graph db_events db_edges db_membership db_peers];
      [rewrite He; cbn -[row_id new_event_row]; by rewrite new_event_row_id|by rewrite Hed|done|done]. }
  assert (db_users db = db_users (n_db n)) as Hu by (unfold db; by rewrite store_users, Hdb).
  unfold update_db, modify. eexists _, (env_id envelope). split; [reflexivity|].
  destruct Hk as (K1 & K2 & K3 & K4 & K5), Hs as (S1 & S2 & S3 & S4).
  fold db. unfold gossip_offer, notify_viz, broadcast_viz. cbn [set_n_db n_gossip].
  destruct (n_gossip n1) eqn:Hg; (split; [split_and!; [done..| |exact Hu]|by split_and!]);
    rewrite <- K4; split; intros Hn; [discriminate Hn|discriminate Hn|reflexivity|exact Hg].
Qed.

(** Clearing: the log holds the node's new genesis alone, no incidents are left. *)
Definition cleared (n : Node) : Prop := (∃ i, event_ids (n_db n) = [i] ∧ n_anchors n = [i]) ∧ db_incidents (n_db n) = [].
Lemma clear_succeeds w n : clearable w n →
  ∃ n' reset, clear_events_local w n = (n', Ok reset) ∧ keeps_net n n' ∧ cleared n'.
Proof.
  intros [Hid Hm]. unfold clear_events_local.
  set (n1 := set_n_metrics (reset_metrics (n_metrics n)) (set_n_anchors [] (set_n_vclock ∅ (set_n_db (clear_events (n_db n)) n)))).
  set (n2 := notify_viz_reset (node_metrics_snapshot w n1) n1).
  destruct (bootstrap_empty w n2 Hid eq_refl eq_refl) as (n3 & i & Hb & Hk & Hs & Hi & Ha & He & Ht).
  destruct (recompute_single n3 i Hi He Ht) as [n4 Hr].
  { rewrite (membership_same n n3); [exact Hm|exact Hs]. }
  pose proof (quiet_recompute n3) as [Hq _]. pose proof (keeps_recompute n3) as [Hk4 Ha4]. rewrite Hr in Hq, Hk4, Ha4. cbn [fst] in *.
  eexists _, _. split.
  { do 4 (rewrite (bind_run _ _ _ _ tt eq_refl)). rewrite (bind_run get_node _ n1 n1 n1 eq_refl). cbv zeta.
    rewrite (bind_run _ _ n1 n2 tt eq_refl), (bind_run _ _ _ _ _ Hb), (bind_run _ _ _ _ _ Hr). reflexivity. }
  split; [|split; [exists i; split; [by rewrite <- Hi, <- Hq|by rewrite <- Ha]|done]].
  transitivity n2; [by split_and!|]. transitivity n3; [done|]. by transitivity n4.
Qed.

Lemma keeps_clear w : framed keeps_net (clear_events_local w).
Proof.
  assert (∀ f, (∀ n, keeps_net n (f n)) → framed keeps_net (modify f)) as Hmod by (intros f Hf n; apply Hf).
  assert (framed keeps_net (bootstrap_genesis w true)) as Hb.
  { unfold bootstrap_genesis. cbn [negb andb]. repeat first [frame_step | apply Hmod];
      first [ intros n; by split_and! | intros n; apply keeps_offer | intros n; split_and!; [done..|apply store_users]
            | intros n; unfold deterministic_genesis_ts; by split_and! ]. }
  assert (framed keeps_net recompute_consensus) as Hr by (apply (framed_weaken keeps_anchors); [by intros n n' []|apply keeps_recompute]).
  unfold clear_events_local. repeat first [ exact Hb | exact Hr | frame_step ]; apply Hmod; intros n; by split_and!.
Qed.

(** ** One clear request *)
Definition clear_payload (token : string) : json := JObj [("token", JStr token); ("propagate", JBool true)].
Definition clears (token : string) (r : ClearRequest) : Prop := cr_body r = utf8_encode (json_dumps (clear_payload token)).
(** The nodes that carry a clear out: no users, and the routes of the dashboard. *)
Definition is_open (n : Node) : Prop := users_count (n_db n) = 0%nat ∧ cfg_ui_enabled (n_config n) = true.

Lemma propagate_clears token n : Forall (clears token) (propagate_clear token n).
Proof.
  unfold propagate_clear. case_bool_decide; [done|]. apply Forall_fmap, Forall_true. intros p. unfold clears, compose, send_clear_request, signed_request_body.
  destruct (cfg_hmac_key _); [by case_decide|done].
Qed.
Lemma propagate_addresses token n : n_gossip n ≠ None → cr_address <$> propagate_clear token n = pi_address <$> node_list_peers n.
Proof.
  intros Hg. unfold propagate_clear. rewrite bool_decide_false by done. rewrite <- list_fmap_compose. apply list_fmap_ext.
  intros _ p _. unfold compose, send_clear_request. by destruct (signed_request_body _ _).
Qed.
Lemma propagate_length token n : (length (propagate_clear token n) ≤ length (n_peers n))%nat.
Proof.
  unfold propagate_clear. case_bool_decide; [simpl; lia|]. rewrite length_fmap. unfold node_list_peers, dvalues. by rewrite length_fmap.
Qed.

Lemma viz_clear_token token env r n : token ≠ "" → clears token r →
  viz_clear env (clear_http r) n = ('(metrics, sent) ← node_clear_events (ae_world env) token true; mret (metrics, token, sent)) n.
Proof.
  intros Ht Hr. unfold viz_clear, request_json_or, request_json, clear_http. cbn [rq_body]. rewrite Hr, json_loads_dumps.
  2: { cbn [json_ok clear_payload foldr snd]. split; [|by split_and!]. apply (bool_decide_unpack _). vm_compute. exact I. }
  rewrite (bind_run _ _ n n _ eq_refl), (bind_run _ _ n n _ eq_refl). cbv zeta.
  change (jget _ "token") with (JStr token). assert (py_bool (JStr token) = true) as -> by by apply bool_decide_true.
  rewrite (bind_run (lift _) _ n n token eq_refl). reflexivity.
Qed.
Lemma serve_closed env r n : ¬ is_open n → serve_clear env (clear_http r) n = (n, []).
Proof.
  intros Hc. unfold serve_clear, handle_request, session_auth. rewrite decide_False by (apply (bool_decide_unpack _); vm_compute; exact I).
  rewrite (bind_run _ _ n n n eq_refl). destruct (Nat.eqb_spec (users_count (n_db n)) 0) as [Hu|Hu].
  - assert (cfg_ui_enabled (n_config n) = false) as -> by (apply not_true_iff_false; intros He; by apply Hc).
    unfold hmac_auth. rewrite (bind_run _ _ n n n eq_refl). case_decide as Hk; [reflexivity|].
    rewrite decide_False by (apply (bool_decide_unpack _); vm_compute; exact I).
    rewrite (bind_run _ _ n n None eq_refl), (bool_decide_false (None ≠ None)) by tauto. rewrite (bind_run _ _ n n n eq_refl), Hu. reflexivity.
  - rewrite (bind_run _ _ n n None eq_refl). cbn [rq_method clear_http]. rewrite (bool_decide_false ("POST" = "GET")) by done.
    rewrite andb_false_r. reflexivity.
Qed.

Lemma serve_open token env r n : is_open n → token ≠ "" → clears token r →
  serve_clear env (clear_http r) n =
    match node_clear_events (ae_world env) token true n with (n', Ok (_, sent)) => (n', sent) | (n', Err _) => (n', []) end.
Proof.
  intros [Hu Hui] Ht Hr.
  assert (handle_request env (clear_http r) n = run_handler (handle_viz_clear env) (clear_http r) n) as Hh.
  { rewrite handle_open by done. by rewrite Hui. }
  unfold serve_clear. rewrite Hh. unfold run_handler, handle_viz_clear.
  pose proof (viz_clear_token token env r n Ht Hr) as Hv. unfold mbind, nodem_bind in Hv |- *.
  rewrite Hv. destruct (node_clear_events _ _ _ n) as [n' [[metrics sent]|e]]; [reflexivity|]. cbn. unfold uncaught. by destruct (leaves_model e).
Qed.

(** ** Tokens *)
Definition fresh_token (t0 : Q) (token : string) (n : Node) : Prop :=
  NoDup (dkeys (n_clear_tokens n)) ∧ (length (n_clear_tokens n) ≤ 128)%nat ∧ (∀ e, e ∈ n_clear_tokens n → (e.2 <= t0)%Q) ∧
  token ∉ dkeys (n_clear_tokens n).
Definition marked (t0 : Q) (token : string) (n : Node) : Prop :=
  NoDup (dkeys (n_clear_tokens n)) ∧ (length (n_clear_tokens n) ≤ 128)%nat ∧
  ∃ ts, (token, ts) ∈ n_clear_tokens n ∧ (t0 <= ts)%Q.

Lemma marked_key t0 token n : marked t0 token n → token ∈ dkeys (n_clear_tokens n).
Proof. intros (_ & _ & ts & Hts & _). by apply (list_elem_of_fmap_2 fst _ (token, ts)). Qed.

Lemma mark_marked t0 now token n : marked t0 token n → (now <= t0 + 300)%Q →
  ∃ tokens, mark_clear_token now token (n_clear_tokens n) = (tokens, false) ∧ marked t0 token (set_n_clear_tokens tokens n).
Proof.
  intros (Hd & Hl & ts & Hts & H0) Hnow. unfold mark_clear_token. set (live := foldl dpop _ _).
  assert (∀ e, e ∈ live ↔ e ∈ n_clear_tokens n ∧ (now - 300 <= e.2)%Q) as Hlive by (intros e; by apply expired_spec).
  assert (live `sublist_of` n_clear_tokens n) as Hsub by (unfold live; rewrite dpops_spec; apply sublist_filter).
  assert ((token, ts) ∈ live) as Hin by (apply Hlive; split; [done|cbn; lra]).
  rewrite decide_True by by apply (list_elem_of_fmap_2 fst _ (token, ts)).
  eexists. split; [reflexivity|]. split_and!.
  - eapply sublist_NoDup; [exact Hd|by apply fmap_sublist].
  - apply sublist_length in Hsub. cbn. lia.
  - exists ts. by split.
Qed.
Lemma mark_fresh t0 now token n : fresh_token t0 token n → (t0 <= now)%Q →
  ∃ tokens, mark_clear_token now token (n_clear_tokens n) = (tokens, true) ∧ marked t0 token (set_n_clear_tokens tokens n).
Proof.
  intros (Hd & Hl & Hle & Hn) Hnow.
  pose proof (clear_token_once now token (n_clear_tokens n) Hd Hl) as Hc.
  destruct (mark_clear_token now token (n_clear_tokens n)) as [tokens fresh].
  destruct Hc as (Hd' & Hl' & _ & Hf & Hin & _); [intros e He; specialize (Hle e He); lra|].
  destruct fresh.
  - exists tokens. split; [done|]. split_and!; [done..|]. exists now. split; [by apply Hin|done].
  - destruct Hn. destruct Hf as [Hf _]. destruct Hf as (ts & Hts & _); [done|]. by apply (list_elem_of_fmap_2 fst _ (token, ts)).
Qed.

(** ** One node in a flood *)

(** A node that passes a clear on: open, with a session, and [clearable]. *)
Definition relays (n : Node) : Prop := is_open n ∧ n_gossip n ≠ None ∧ ∀ w, clearable w n.
(** What happened to a node since the flood began: nothing, or it was open and
    took the token, and if nothing could fail it is cleared. *)
Definition after_flood (t0 : Q) (token : string) (n0 n : Node) : Prop :=
  n = n0 ∨ (is_open n0 ∧ marked t0 token n ∧ n_peers n = n_peers n0 ∧ is_open n ∧ (relays n0 → cleared n)).

Lemma fresh_not_marked t0 token n : fresh_token t0 token n → ¬ marked t0 token n.
Proof. by intros (_ & _ & _ & Hn) Hm%marked_key. Qed.

Lemma serve_fresh t0 token env r n :
  fresh_token t0 token n → is_open n → token ≠ "" → clears token r → (t0 <= ae_now env)%Q →
  ∃ n' sent, serve_clear env (clear_http r) n = (n', sent) ∧ marked t0 token n' ∧ after_flood t0 token n n' ∧
    (length sent ≤ length (n_peers n))%nat ∧ Forall (clears token) sent ∧
    (relays n → cr_address <$> sent = pi_address <$> node_list_peers n).
Proof.
  intros Hf Ho Ht Hr Hnow. rewrite (serve_open token) by done. unfold node_clear_events. rewrite decide_False by done.
  rewrite (bind_run _ _ n n n eq_refl).
  destruct (mark_fresh t0 (w_now (ae_world env)) token n Hf Hnow) as (tokens & -> & Hm). set (n1 := set_n_clear_tokens tokens n) in *.
  rewrite (bind_run (modify (set_n_clear_tokens tokens)) _ n n1 tt eq_refl).
  pose proof (keeps_clear (ae_world env) n1) as Hk.
  destruct (clear_events_local (ae_world env) n1) as [n' res] eqn:Hc. cbn [fst] in Hk.
  destruct Hk as (K1 & K2 & K3 & K4 & K5).
  assert (marked t0 token n') as Hm' by (unfold marked; by rewrite K3).
  assert (n_peers n' = n_peers n) as Hp by exact K2.
  assert (is_open n') as Ho' by (destruct Ho as [Hu Hui]; split; unfold users_count in *; rewrite ?K1, ?K5; done).
  assert (relays n → (∃ reset, res = Ok reset) ∧ cleared n') as Hclr.
  { intros (_ & _ & Hcl). destruct (Hcl (ae_world env)) as [Hc1 Hc2].
    rewrite <- (membership_same n n1) in Hc2 by by split_and!. destruct (clear_succeeds (ae_world env) n1 (conj Hc1 Hc2)) as (n2 & reset & Hr2 & _ & Hcd).
    rewrite Hc in Hr2. injection Hr2 as -> ->. split; [by eexists|done]. }
  assert (after_flood t0 token n n') as Ha by (right; split_and!; [done..|by intros [_ ?]%Hclr]).
  unfold mbind at 1, nodem_bind at 1. rewrite Hc. destruct res as [reset|e]; cbn [get_node mbind nodem_bind mret].
  - eexists _, _. split; [reflexivity|]. split_and!; [done..| |apply propagate_clears|].
    + rewrite <- Hp. apply propagate_length.
    + intros (_ & Hg & _). rewrite propagate_addresses; [|by intros Hn; apply K4 in Hn]. unfold node_list_peers. by rewrite Hp.
  - eexists _, _. split; [reflexivity|]. split_and!; [done..|simpl; lia|done|]. intros Hrel. by destruct (Hclr Hrel) as [[? [=]] _].
Qed.

Lemma serve_marked t0 token env r n0 n :
  fresh_token t0 token n0 → after_flood t0 token n0 n → marked t0 token n → token ≠ "" → clears token r → (ae_now env <= t0 + 300)%Q →
  ∃ n', serve_clear env (clear_http r) n = (n', []) ∧ after_flood t0 token n0 n' ∧ marked t0 token n'.
Proof.
  intros Hf Ha Hm Ht Hr Hnow. destruct Ha as [->|(Ho & _ & Hp & Ho' & Hc)]; [by destruct (fresh_not_marked t0 token n0)|].
  rewrite (serve_open token) by done. unfold node_clear_events. rewrite decide_False by done.
  rewrite (bind_run _ _ n n n eq_refl). destruct (mark_marked t0 (w_now (ae_world env)) token n Hm Hnow) as (tokens & -> & Hm').
  eexists. split; [reflexivity|]. split; [|exact Hm']. right. by split_and!.
Qed.

(** ** The network in a flood *)

(** The requests the open nodes that have not seen the token may still send. *)
#[local] Instance is_open_dec n : Decision (is_open n).
Proof. unfold is_open. apply _. Defined.
Definition clear_cost (token : string) (n : Node) : nat :=
  if decide (is_open n ∧ token ∉ dkeys (n_clear_tokens n)) then length (n_peers n) else 0%nat.
Definition flood_cost (token : string) (nodes : gmap string Node) : nat :=
  sum_list ((λ p : string * Node, clear_cost token p.2) <$> map_to_list nodes).

Lemma flood_cost_insert token nodes a n n' : nodes !! a = Some n →
  (flood_cost token (<[a := n']> nodes) + clear_cost token n = flood_cost token nodes + clear_cost token n')%nat.
Proof.
  intros Ha.
  assert (∀ m, flood_cost token (<[a := m]> nodes) = clear_cost token m + flood_cost token (delete a nodes))%nat as Hi.
  { intros m. unfold flood_cost. rewrite <- insert_delete_eq. rewrite map_to_list_insert by apply lookup_delete_eq. done. }
  rewrite <- (insert_id nodes a n Ha) at 2. rewrite !Hi. lia.
Qed.

(** What holds of the network since the flood began. *)
Record flood_inv (t0 : Q) (token : string) (nodes0 : gmap string Node) (net : Net) : Prop := {
  fi_pool : Forall (clears token) (nt_pool net);
  fi_dom : ∀ a, nt_nodes net !! a = None → nodes0 !! a = None;
  fi_nodes : ∀ a n, nt_nodes net !! a = Some n → ∃ n0, nodes0 !! a = Some n0 ∧ fresh_token t0 token n0 ∧ after_flood t0 token n0 n }.

Lemma flood_inv_start t0 token nodes0 pool0 : Forall (clears token) pool0 → (∀ a n, nodes0 !! a = Some n → fresh_token t0 token n) →
  flood_inv t0 token nodes0 (mkNet nodes0 pool0).
Proof. intros Hp Hf. split; [done|done|]. intros a n Ha. exists n. split_and!; [done|by eapply Hf|by left]. Qed.

(** A node that serves a request: a node that is open and fresh takes the token
    and may send to its peers, any other one sends nothing. *)
Lemma flood_serve t0 token nodes0 net env r n :
  flood_inv t0 token nodes0 net → token ≠ "" → r ∈ nt_pool net → nt_nodes net !! cr_address r = Some n →
  (t0 <= ae_now env)%Q → (ae_now env <= t0 + 300)%Q →
  ∃ n0 n' sent, nodes0 !! cr_address r = Some n0 ∧ serve_clear env (clear_http r) n = (n', sent) ∧ after_flood t0 token n0 n' ∧
    fresh_token t0 token n0 ∧ Forall (clears token) sent ∧ (length sent + clear_cost token n' ≤ clear_cost token n)%nat ∧
    (is_open n' → marked t0 token n') ∧
    (marked t0 token n ∨ (n = n0 ∧ (relays n0 → cr_address <$> sent = pi_address <$> node_list_peers n0)) ∨ ¬ is_open n').
Proof.
  intros [Hpool _ Hnodes] Ht Hr Hn H0 H1. destruct (Hnodes _ _ Hn) as (n0 & Hn0 & Hf & Ha).
  rewrite Forall_forall in Hpool. specialize (Hpool r Hr).
  destruct (decide (is_open n)) as [Ho|Ho].
  2: { exists n0, n, []. rewrite serve_closed by done. split_and!; [done..|simpl; lia|done|by right; right]. }
  assert (fresh_token t0 token n ∨ marked t0 token n) as [Hfn|Hm].
  { destruct Ha as [->|(_ & Hm & _)]; [by left|by right]. }
  - destruct Ha as [->|(_ & Hm & _)]; [|by destruct (fresh_not_marked t0 token n)].
    destruct (serve_fresh t0 token env r n0 Hf Ho Ht Hpool H0) as (n' & sent & Hs & Hm & Ha & Hl & Hc & Hrel).
    exists n0, n', sent. split_and!; [done..| |done|by right; left].
    unfold clear_cost. rewrite decide_False by (intros [_ Hk]; apply Hk; by eapply marked_key).
    rewrite decide_True by (split; [done|]; by destruct Hfn as (_ & _ & _ & ?)). lia.
  - destruct (serve_marked t0 token env r n0 n Hf Ha Hm Ht Hpool H1) as (n' & Hs & Ha' & Hm').
    exists n0, n', []. split_and!; [done..| |done|by left].
    unfold clear_cost at 1. rewrite decide_False by (intros [_ Hk]; apply Hk; by eapply marked_key). simpl. lia.
Qed.

Lemma flood_step_inv t0 lossy token nodes0 net net' : token ≠ "" → flood_inv t0 token nodes0 net → flood_step t0 lossy net net' →
  flood_inv t0 token nodes0 net' ∧
  (length (nt_pool net') + flood_cost token (nt_nodes net') < length (nt_pool net) + flood_cost token (nt_nodes net))%nat.
Proof.
  intros Ht Hinv Hstep. destruct Hstep as [env nodes l1 r l2 n Hn H0 H1|nodes l1 r l2 Hl].
  - destruct (flood_serve t0 token nodes0 _ env r n Hinv Ht) as (n0 & n' & sent & Hn0 & Hs & Ha & Hf & Hc & Hcost & _); [cbn; set_solver|done..|].
    rewrite Hs. cbn [fst snd nt_nodes nt_pool] in *. destruct Hinv as [Hpool Hdom Hnodes]. cbn [nt_nodes nt_pool] in *. split; [split; cbn [nt_nodes nt_pool]|].
    + rewrite !Forall_app, Forall_cons in *. tauto.
    + intros a [Ha0 _]%lookup_insert_None. by apply Hdom.
    + intros a m [[<- <-]|[_ Hm]]%lookup_insert_Some; [by exists n0|by apply Hnodes].
    + pose proof (flood_cost_insert token nodes _ n n' Hn). rewrite !length_app. cbn [length]. lia.
  - destruct Hinv as [Hpool Hdom Hnodes]. cbn [nt_nodes nt_pool] in *. split; [split; [|done..]|].
    + cbn. rewrite !Forall_app, Forall_cons in *. tauto.
    + cbn. rewrite !length_app. cbn [length]. lia.
Qed.

(** A node is [awaited] when a request for it is under way, or it has taken the
    token unless it is closed. *)
Definition awaited (t0 : Q) (token : string) (net : Net) (a : string) : Prop :=
  (∃ r, r ∈ nt_pool net ∧ cr_address r = a) ∨ (∀ n, nt_nodes net !! a = Some n → is_open n → marked t0 token n).
(** The peers of a node that passed the clear on are awaited. *)
Definition passed_on (t0 : Q) (token : string) (nodes0 : gmap string Node) (net : Net) : Prop :=
  ∀ a n0 n, nodes0 !! a = Some n0 → relays n0 → nt_nodes net !! a = Some n → marked t0 token n →
    ∀ y, y ∈ pi_address <$> node_list_peers n0 → awaited t0 token net y.

Lemma flood_step_reach t0 token nodes0 net net' : token ≠ "" → flood_inv t0 token nodes0 net → flood_step t0 false net net' →
  (∀ a, awaited t0 token net a → awaited t0 token net' a) ∧
  (passed_on t0 token nodes0 net → passed_on t0 token nodes0 net').
Proof.
  intros Ht Hinv Hstep. destruct Hstep as [env nodes l1 r l2 n Hn H0 H1|nodes l1 r l2 [|Hl]]; [|done|].
  - destruct (flood_serve t0 token nodes0 _ env r n Hinv Ht) as (n0 & n' & sent & Hn0 & Hs & Ha & _ & _ & _ & Hm & Hsent); [cbn; set_solver|done..|].
    rewrite Hs. cbn [fst snd nt_nodes nt_pool] in *.
    assert (∀ a, awaited t0 token (mkNet nodes (l1 ++ r :: l2)) a →
      awaited t0 token (mkNet (<[cr_address r:=n']> nodes) (l1 ++ l2 ++ sent)) a) as Haw.
    { intros a Haw. destruct (decide (a = cr_address r)) as [->|Hne].
      { right. cbn. intros m. by rewrite lookup_insert_eq; intros [= <-]. }
      destruct Haw as [(r' & Hr' & <-)|Hsv].
      - left. exists r'. split; [|done]. cbn in *. assert (r' ≠ r) by congruence. set_solver.
      - right. cbn. intros m. rewrite lookup_insert_ne by done. apply Hsv. }
    split; [exact Haw|]. intros Hp a m0 m Hm0 Hrel Hma Hmk y Hy. cbn [nt_nodes] in Hma.
    apply lookup_insert_Some in Hma as [[<- <-]|[_ Hma]]; [|by apply Haw, (Hp a m0 m)].
    assert (m0 = n0) as -> by congruence. destruct Hsent as [Hmn|[[-> Hadd]|Hno]].
    + by apply Haw, (Hp (cr_address r) n0 n).
    + left. specialize (Hadd Hrel). rewrite <- Hadd in Hy. apply list_elem_of_fmap in Hy as (r' & -> & Hr'). exists r'. cbn. set_solver.
    + destruct Hno. destruct Ha as [->|(_ & _ & _ & ? & _)]; [apply Hrel|done].
  - assert (∀ a, awaited t0 token (mkNet nodes (l1 ++ r :: l2)) a → awaited t0 token (mkNet nodes (l1 ++ l2)) a) as Haw.
    { intros a [(r' & Hr' & <-)|Hsv]; [|by right]. destruct (decide (cr_address r' = cr_address r)) as [->|Hne].
      - right. cbn. intros m. by rewrite Hl.
      - left. exists r'. cbn in *. assert (r' ≠ r) by congruence. set_solver. }
    split; [exact Haw|]. intros Hp a m0 m Hm0 Hrel Hma Hmk y Hy. by apply Haw, (Hp a m0 m).
Qed.

(** Who passes a clear on to whom. *)
Definition flood_edge (nodes0 : gmap string Node) (x y : string) : Prop :=
  ∃ n, nodes0 !! x = Some n ∧ relays n ∧ y ∈ pi_address <$> node_list_peers n.

Lemma flood_closure t0 token nodes0 net x y : flood_inv t0 token nodes0 net → passed_on t0 token nodes0 net → nt_pool net = [] →
  rtc (flood_edge nodes0) x y → awaited t0 token net x → awaited t0 token net y.
Proof.
  intros Hinv Hp He. induction 1 as [|x z y (n0 & Hn0 & Hrel & Hz) _ IH]; [done|]. intros [(r & Hr & _)|Hx]; [rewrite He in Hr; set_solver|].
  apply IH. destruct (nt_nodes net !! x) as [n|] eqn:Hn; [|apply (fi_dom _ _ _ _ Hinv) in Hn; congruence].
  apply (Hp x n0 n Hn0 Hrel Hn); [|done]. apply Hx; [done|].
  destruct (fi_nodes _ _ _ _ Hinv x n Hn) as (m0 & Hm0 & _ & Ha). assert (m0 = n0) as -> by congruence.
  destruct Ha as [->|(_ & _ & _ & ? & _)]; [apply Hrel|done].
Qed.

(** C28: a clear spreads through the network: when no request to a node is lost, and
    nothing is left under way, every node that the first request reaches along the
    peers of open nodes holds nothing but its own new genesis, and no incidents. *)
Theorem clear_reaches (t0 : Q) (token : string) (nodes0 : gmap string Node) (pool0 : list ClearRequest) (net : Net)
    (first : ClearRequest) (a : string) (n0 : Node) :
  token ≠ "" → (∀ b n, nodes0 !! b = Some n → fresh_token t0 token n) → Forall (clears token) pool0 → first ∈ pool0 →
  rtc (flood_step t0 false) (mkNet nodes0 pool0) net → nt_pool net = [] →
  rtc (flood_edge nodes0) (cr_address first) a → nodes0 !! a = Some n0 → relays n0 →
  ∃ n, nt_nodes net !! a = Some n ∧ cleared n.
Proof.
  intros Ht Hf Hc Hfirst Hrun He Hpath Ha0 Hrel.
  assert (flood_inv t0 token nodes0 net ∧ awaited t0 token net (cr_address first) ∧ passed_on t0 token nodes0 net) as (Hinv & Hw & Hp).
  { assert (flood_inv t0 token nodes0 (mkNet nodes0 pool0)) as Hs by by apply flood_inv_start.
    assert (awaited t0 token (mkNet nodes0 pool0) (cr_address first)) as Hw by (left; by exists first).
    assert (passed_on t0 token nodes0 (mkNet nodes0 pool0)) as Hp.
    { intros b m0 m Hm0 _ Hm Hmk. cbn in Hm. assert (m = m0) as -> by congruence. by destruct (fresh_not_marked t0 token m0 (Hf b m0 Hm0)). }
    clear Hc Hfirst. induction Hrun as [|x y z Hxy _ IH]; [done|].
    destruct (flood_step_reach _ _ _ _ _ Ht Hs Hxy) as [H1 H2]. destruct (flood_step_inv _ _ _ _ _ _ Ht Hs Hxy) as [H3 _]. auto. }
  apply (flood_closure _ _ _ _ _ _ Hinv Hp He Hpath) in Hw. destruct Hw as [(r & Hr & _)|Hw]; [rewrite He in Hr; set_solver|].
  destruct (nt_nodes net !! a) as [n|] eqn:Hn; [|apply (fi_dom _ _ _ _ Hinv) in Hn; congruence].
  exists n. split; [done|]. destruct (fi_nodes _ _ _ _ Hinv a n Hn) as (m0 & Hm0 & Hfr & Haf). assert (m0 = n0) as -> by congruence.
  destruct Haf as [->|(_ & _ & _ & _ & Hcl)]; [|by apply Hcl].
  destruct (fresh_not_marked t0 token n0 Hfr). apply Hw; [done|apply Hrel].
Qed.

(** C29: a clear dies out: whatever is lost and in whatever order requests arrive
    within the five minutes that tokens are kept, a network serves at most as many
    requests as were under way plus one per peer of each open node; and as long as a request is
    under way, the network can go on. *)
Theorem clear_dies_out (t0 : Q) (lossy : bool) (token : string) (nodes0 : gmap string Node) (pool0 : list ClearRequest) (net : Net)
    (env : ApiEnv) (k : nat) :
  token ≠ "" → (∀ b n, nodes0 !! b = Some n → fresh_token t0 token n) → Forall (clears token) pool0 →
  (t0 <= ae_now env <= t0 + 300)%Q →
  nsteps (flood_step t0 lossy) k (mkNet nodes0 pool0) net →
  (k + length (nt_pool net) ≤ length pool0 + flood_cost token nodes0)%nat ∧
  (nt_pool net = [] ∨ ∃ net', flood_step t0 lossy net net').
Proof.
  intros Ht Hf Hc [H0 H1] Hrun. split.
  - assert (flood_inv t0 token nodes0 (mkNet nodes0 pool0)) as Hs by by apply flood_inv_start.
    change (length pool0 + flood_cost token nodes0)%nat with
      (length (nt_pool (mkNet nodes0 pool0)) + flood_cost token (nt_nodes (mkNet nodes0 pool0)))%nat.
    clear Hc. induction Hrun as [|k x y z Hxy _ IH]; [lia|].
    destruct (flood_step_inv _ _ _ _ _ _ Ht Hs Hxy) as [Hy Hlt]. specialize (IH Hy). lia.
  - destruct net as [nodes [|r pool]]; [by left|right]. destruct (nodes !! cr_address r) as [n|] eqn:Hn.
    + eexists. by apply (flood_deliver t0 lossy env nodes [] r pool n).
    + eexists. apply (flood_lose t0 lossy nodes [] r pool). by right.
Qed.

(** Closed nodes take no part: a node with users, or without the routes of the
    dashboard, is exactly as it was after any clear has gone through the network,
    with its log and its incidents. *)
Theorem closed_node_keeps_log (t0 : Q) (lossy : bool) (net net' : Net) (a : string) (n : Node) :
  rtc (flood_step t0 lossy) net net' → nt_nodes net !! a = Some n → ¬ is_open n → nt_nodes net' !! a = Some n.
Proof.
  intros Hrun Ha Hc. induction Hrun as [|x y z Hxy _ IH]; [done|]. apply IH. clear IH.
  destruct Hxy as [env nodes l1 r l2 m Hm _ _|]; [|done]. cbn in *. destruct (decide (a = cr_address r)) as [->|Hne].
  - assert (m = n) as -> by congruence. rewrite (serve_closed env r n Hc). by rewrite lookup_insert_eq.
  - by rewrite lookup_insert_ne.
Qed.
End flood.

(** ** The theorems on a concrete network *)
Section schedule.
Context `{FloatFormat}.
(** Serving the requests first in, first out. *)
Definition serve_first (env : ApiEnv) (net : Net) : Net :=
  match nt_pool net with
  | [] => net
  | r :: pool =>
      match nt_nodes net !! cr_address r with
      | None => mkNet (nt_nodes net) pool
      | Some n => let '(n', sent) := serve_clear env (clear_http r) n in mkNet (<[cr_address r := n']> (nt_nodes net)) (pool ++ sent)
      end
  end.
Fixpoint serve_all (env : ApiEnv) (k : nat) (net : Net) : Net :=
  match k with O => net | S k => serve_all env k (serve_first env net) end.
Lemma serve_first_step t0 lossy env net : (t0 <= ae_now env <= t0 + 300)%Q → nt_pool net ≠ [] → flood_step t0 lossy net (serve_first env net).
Proof.
  intros [H0 H1] Hp. destruct net as [nodes [|r pool]]; [done|]. unfold serve_first. cbn [nt_pool nt_nodes].
  destruct (nodes !! cr_address r) as [n|] eqn:Hn.
  - pose proof (flood_deliver t0 lossy env nodes [] r pool n Hn H0 H1) as Hs. cbn [app] in Hs.
    destruct (serve_clear env (clear_http r) n) as [n' sent]. exact Hs.
  - apply (flood_lose t0 lossy nodes [] r pool). by right.
Qed.
Lemma serve_all_run t0 lossy env k net : (t0 <= ae_now env <= t0 + 300)%Q → rtc (flood_step t0 lossy) net (serve_all env k net).
Proof.
  intros Hnow. revert net. induction k as [|k IH]; intros net; [done|]. cbn [serve_all].
  etrans; [|apply IH]. destruct (nt_pool net) as [|r pool] eqn:He; [unfold serve_first; by rewrite He|].
  apply rtc_once, serve_first_step; [done|by rewrite He].
Qed.
End schedule.

(** Two nodes; the second one is a peer of both. *)
Definition flood_nodes : gmap string Node := <["10.0.0.1:9000" := busy_node]> (<["10.0.0.2:9000" := running_node]> ∅).
Definition flood_first : ClearRequest := @send_clear_request frac_format None "10.0.0.1:9000" (clear_payload "t").
Lemma no_tokens_fresh t0 token n : n_clear_tokens n = [] → fresh_token t0 token n.
Proof. unfold fresh_token. intros ->. split_and!; [apply NoDup_nil_2|simpl; lia|by intros e ?%elem_of_nil|apply not_elem_of_nil]. Qed.
Lemma flood_nodes_fresh a n : flood_nodes !! a = Some n → fresh_token 0 "t" n.
Proof.
  unfold flood_nodes. intros [[_ <-]|[_ [[_ <-]|[_ Hn]]%lookup_insert_Some]]%lookup_insert_Some; [| |by rewrite lookup_empty in Hn];
    apply no_tokens_fresh; vm_compute; reflexivity.
Defined.
Lemma flood_nodes_relay a n : flood_nodes !! a = Some n → @relays frac_format n.
Proof.
  unfold flood_nodes. intros [[_ <-]|[_ [[_ <-]|[_ Hn]]%lookup_insert_Some]]%lookup_insert_Some; [| |by rewrite lookup_empty in Hn];
    (split; [split; vm_compute; reflexivity|split; [vm_compute; discriminate|intros w; split; vm_compute; reflexivity]]).
Defined.

Lemma clear_reaches_witness :
  let net := @serve_all frac_format sample_env 3 (mkNet flood_nodes [flood_first]) in
  (∀ b n, flood_nodes !! b = Some n → fresh_token 0 "t" n) ∧ Forall (@clears frac_format "t") [flood_first] ∧
  rtc (@flood_step frac_format 0 false) (mkNet flood_nodes [flood_first]) net ∧ nt_pool net = [] ∧
  rtc (@flood_edge frac_format flood_nodes) (cr_address flood_first) "10.0.0.2:9000" ∧ @relays frac_format running_node ∧
  ∃ n, nt_nodes net !! "10.0.0.2:9000" = Some n ∧ cleared n.
Proof.
  intros net.
  assert (Forall (@clears frac_format "t") [flood_first]) as Hc by (repeat constructor).
  assert (rtc (@flood_step frac_format 0 false) (mkNet flood_nodes [flood_first]) net) as Hr.
  { apply serve_all_run. vm_compute. split; discriminate. }
  assert (nt_pool net = []) as He by (vm_compute; reflexivity).
  assert (flood_nodes !! "10.0.0.1:9000" = Some busy_node) as H1 by (vm_compute; reflexivity).
  assert (flood_nodes !! "10.0.0.2:9000" = Some running_node) as H2 by (vm_compute; reflexivity).
  assert (rtc (@flood_edge frac_format flood_nodes) (cr_address flood_first) "10.0.0.2:9000") as Hp.
  { apply rtc_once. exists busy_node. split; [exact H1|]. split; [by apply (flood_nodes_relay "10.0.0.1:9000")|].
    apply (bool_decide_unpack _). vm_compute. exact I. }
  assert (@relays frac_format running_node) as Hrel by by apply (flood_nodes_relay "10.0.0.2:9000").
  split; [exact flood_nodes_fresh|]. split; [exact Hc|]. split; [exact Hr|]. split; [exact He|]. split; [exact Hp|]. split; [exact Hrel|].
  exact (@clear_reaches frac_format 0 "t" flood_nodes [flood_first] net flood_first "10.0.0.2:9000" running_node
    ltac:(discriminate) flood_nodes_fresh Hc ltac:(left) Hr He Hp H2 Hrel).
Defined.

Lemma clear_dies_out_witness :
  let start := mkNet flood_nodes [flood_first] in
  let net := @serve_first frac_format sample_env start in
  (∀ b n, flood_nodes !! b = Some n → fresh_token 0 "t" n) ∧ Forall (@clears frac_format "t") [flood_first] ∧
  (0 <= ae_now sample_env <= 0 + 300)%Q ∧ nsteps (@flood_step frac_format 0 true) 1 start net ∧
  (1 + length (nt_pool net) ≤ length [flood_first] + flood_cost "t" flood_nodes)%nat ∧
  (nt_pool net = [] ∨ ∃ net', @flood_step frac_format 0 true net net').
Proof.
  intros start net.
  assert (Forall (@clears frac_format "t") [flood_first]) as Hc by (repeat constructor).
  assert (0 <= ae_now sample_env <= 0 + 300)%Q as Hn by (vm_compute; split; discriminate).
  assert (nsteps (@flood_step frac_format 0 true) 1 start net) as Hr by (apply nsteps_once, serve_first_step; [exact Hn|discriminate]).
  split; [exact flood_nodes_fresh|]. split; [exact Hc|]. split; [exact Hn|]. split; [exact Hr|].
  exact (@clear_dies_out frac_format 0 true "t" flood_nodes [flood_first] net sample_env 1 ltac:(discriminate) flood_nodes_fresh Hc Hn Hr).
Defined.

(** A network in which the second node has a user. *)
Lemma closed_node_keeps_log_witness :
  let net := mkNet (<["10.0.0.2:9000" := secured_peer]> flood_nodes) [flood_first] in
  let net' := @serve_all frac_format sample_env 2 net in
  rtc (@flood_step frac_format 0 false) net net' ∧ ¬ is_open secured_peer ∧ nt_pool net' = [] ∧
  nt_nodes net' !! "10.0.0.2:9000" = Some secured_peer.
Proof.
  intros net net'.
  assert (rtc (@flood_step frac_format 0 false) net net') as Hr by (apply serve_all_run; vm_compute; split; discriminate).
  assert (¬ is_open secured_peer) as Hc by (apply (bool_decide_unpack _); vm_compute; exact I).
  split; [exact Hr|]. split; [exact Hc|]. split; [vm_compute; reflexivity|].
  exact (@closed_node_keeps_log frac_format 0 false net net' "10.0.0.2:9000" secured_peer Hr ltac:(reflexivity) Hc).
Defined.
