(* ===== verification/EventStream.v ===== *)
(** [mdrj/api.py], [handle_viz_stream]: the body of the event stream, from the queue
    of a viewer to the text a browser reads, and back. *)
From S2P Require Import Prelude Sha256 Json VectorClock Models Consensus Storage Config Metrics Prioritization Gossip Checkpoint Auth Catalog Node NodeLogic NodeEvents NodeCheckpoints JsonText JsonParse Notifier Regex Archive ArchiveFacts AgentRelay NodeSimulation NodeSync NodeLoops Prometheus Api.

Section stream.
Context `{FloatFormat}.

(** ** Writing *)

(** [b": connected\n\n"], then one message after the other. *)
Definition stream_hello : string := ": connected" +:+ newline +:+ newline.
Definition stream_frame (payload : json) : string := "data: " +:+ raw_dumps payload +:+ newline +:+ newline.

(** One turn of the loop of viewer [i]: [queue.get()], or it waits. *)
Definition stream_next (i : nat) (n : Node) : Node * option string :=
  match n_subscribers n !! i with
  | Some (payload :: queue) => (set_n_subscribers (<[i := queue]> (n_subscribers n)) n, Some (stream_frame payload))
  | _ => (n, None)
  end.
(** [finally]: the queue is forgotten. *)
Definition unsubscribe_visualizer (i : nat) (n : Node) : Node := set_n_subscribers (delete i (n_subscribers n)) n.

(** ** Reading: the event stream format of a browser

    A line [data: x] adds to the message, an empty line ends it, a line that starts
    with a colon is a comment. *)
Definition line_data (l : string) : option string :=
  strip_prefix "data: " l.
Fixpoint sse_messages (data : option string) (lines : list string) : list string :=
  match lines with
  | [] => []
  | l :: rest =>
      if decide (l = "") then option_list data ++ sse_messages None rest
      else match line_data l with
           | Some d => sse_messages (Some (match data with Some d0 => d0 +:+ newline +:+ d | None => d end)) rest
           | None => sse_messages data rest
           end
  end.
Definition sse_parse (text : string) : option (list json) := mapM json_parse (sse_messages None (text_lines text)).

Lemma line_data_frame s : line_data ("data: " +:+ s) = Some s.
Proof. reflexivity. Qed.

Definition stream_lines (payloads : list json) : list string := ": connected" :: "" :: (payloads ≫= λ p, ["data: " +:+ raw_dumps p; ""]).
Lemma stream_text payloads : stream_hello +:+ foldr (λ p s, stream_frame p +:+ s) "" payloads = unlines (stream_lines payloads).
Proof.
  assert (foldr (λ p s, stream_frame p +:+ s) "" payloads = unlines (payloads ≫= λ p, ["data: " +:+ raw_dumps p; ""])) as ->.
  { induction payloads as [|p ps IH]; [done|]. cbn [foldr mbind list_bind app]. rewrite IH. unfold stream_frame. rewrite !str_app_assoc. reflexivity. }
  reflexivity.
Qed.

(** C34: the event stream carries what was broadcast: the text a viewer receives, read as a
    browser reads an event stream, is the list of the messages that were written. *)
Theorem stream_roundtrip (payloads : list json) :
  Forall (λ p, json_ok p ∧ line_json p = true) payloads →
  sse_parse (stream_hello +:+ foldr (λ p s, stream_frame p +:+ s) "" payloads) = Some payloads.
Proof.
  intros Hp. unfold sse_parse. rewrite stream_text, text_lines_unlines.
  - unfold stream_lines. change (sse_messages None (": connected" :: "" :: ?l)) with (sse_messages None l).
    induction Hp as [|p ps [Hok Hl] _ IH]; [done|]. cbn [mbind list_bind app].
    change (sse_messages None (_ :: "" :: ?l)) with (raw_dumps p :: sse_messages None l). cbn [mapM].
    assert (json_parse (raw_dumps p) = Some p) as -> by (unfold raw_dumps; apply parse_dump_with; [apply scan_string_raw|done]).
    cbn [mbind option_bind]. by rewrite IH.
  - unfold stream_lines. repeat constructor. induction Hp as [|p ps [Hok Hl] _ IH]; [done|]. constructor; [|by constructor].
    unfold one_line. rewrite all_chars_app. by apply raw_dumps_line in Hl.
Qed.

(** ** The queue of a viewer

    What can happen to viewer [i]: a message is broadcast, its stream writes the next
    one, anything else that leaves its queue alone.  A run collects what was
    broadcast since the viewer subscribed, what its stream wrote, and how many
    broadcasts found its queue full. *)
Record ViewerRun := mkViewer { vr_node : Node; vr_pushed : list json; vr_written : list json; vr_overruns : nat }.
Definition queue_full (i : nat) (n : Node) : bool :=
  match n_subscribers n !! i with Some queue => (VIZ_QUEUE_MAX <=? length queue)%nat | None => false end.
Inductive stream_step (i : nat) : ViewerRun → ViewerRun → Prop :=
  | st_broadcast p n pushed written late :
      stream_step i (mkViewer n pushed written late)
        (mkViewer (broadcast_viz p n) (pushed ++ [p]) written (if queue_full i n then S late else late))
  | st_next p q n n' pushed written late :
      n_subscribers n !! i = Some (p :: q) → stream_next i n = (n', Some (stream_frame p)) →
      stream_step i (mkViewer n pushed written late) (mkViewer n' pushed (written ++ [p]) late)
  | st_other n n' pushed written late :
      n_subscribers n' !! i = n_subscribers n !! i →
      stream_step i (mkViewer n pushed written late) (mkViewer n' pushed written late).

(** The queue holds the latest messages; with what was written, in order, it is the
    broadcasts but for one per overrun. *)
Definition viewer_inv (i : nat) (v : ViewerRun) : Prop :=
  ∃ queue, n_subscribers (vr_node v) !! i = Some queue ∧ (length queue ≤ VIZ_QUEUE_MAX)%nat ∧ queue `suffix_of` vr_pushed v ∧
    vr_written v ++ queue `sublist_of` vr_pushed v ∧
    length (vr_pushed v) = (length (vr_written v) + length queue + vr_overruns v)%nat.

Lemma suffix_drop1 {X} (q l : list X) : q `suffix_of` l → drop 1 q `suffix_of` l.
Proof. intros [k ->]. destruct q as [|x q]; [by exists k|]. exists (k ++ [x]). by rewrite <- app_assoc. Qed.
Lemma viewer_step i v v' : stream_step i v v' → viewer_inv i v → viewer_inv i v'.
Proof.
  intros Hs (queue & Hq & Hl & Hsuf & Hsub & Hlen).
  destruct Hs as [p n pushed written late|p q n n' pushed written late Hi Hn|n n' pushed written late Ho]; cbn [vr_node vr_pushed vr_written vr_overruns] in *.
  - exists (enqueue_viz p queue). unfold queue_full, broadcast_viz, viewer_inv. rewrite Hq.
    cbn [vr_node vr_pushed vr_written vr_overruns n_subscribers set_n_subscribers]. rewrite list_lookup_fmap, Hq.
    split; [done|]. unfold enqueue_viz. case_bool_decide as Hc.
    + destruct (Nat.leb_spec VIZ_QUEUE_MAX (length queue)); [lia|]. rewrite !length_app. cbn [length].
      split_and!; [lia|destruct Hsuf as [k ->]; exists k; by rewrite app_assoc| |lia].
      rewrite app_assoc. by apply sublist_app.
    + destruct (Nat.leb_spec VIZ_QUEUE_MAX (length queue)); [|lia]. rewrite !length_app, length_drop. cbn [length].
      unfold VIZ_QUEUE_MAX in *. split_and!; [lia| | |lia].
      * destruct (suffix_drop1 queue pushed Hsuf) as [k ->]. exists k. by rewrite app_assoc.
      * rewrite app_assoc. apply sublist_app; [|done]. etrans; [|exact Hsub]. apply sublist_app; [done|]. apply sublist_drop.
  - unfold stream_next in Hn. rewrite Hi in Hn, Hq. injection Hn as <-. injection Hq as <-. exists q. cbn [vr_node vr_pushed vr_written vr_overruns n_subscribers set_n_subscribers].
    rewrite list_lookup_insert_eq by (by apply lookup_lt_Some in Hi). split; [done|]. cbn [length] in Hl, Hlen. split; [lia|].
    split; [by apply (suffix_drop1 (p :: q))|]. rewrite <- app_assoc, length_app. cbn [length]. split; [done|lia].
  - exists queue. cbn [vr_node vr_pushed vr_written vr_overruns]. by rewrite Ho.
Qed.

Lemma sublist_full {X} (k l : list X) : k `sublist_of` l → (length l ≤ length k)%nat → k = l.
Proof. induction 1 as [|x k l _ IH|x k l Hs _]; cbn; [done|intros; f_equal; apply IH; lia|]. apply sublist_length in Hs. lia. Qed.

(** C33: the queue of a viewer is bounded and honest: from the moment it subscribed, a viewer
    never has more than 256 messages waiting; those waiting are the latest broadcasts
    without a gap; what its stream wrote and what waits are, in order, the broadcasts
    but for exactly one for each broadcast that found 256 messages waiting.  So a
    viewer that never has 256 messages waiting when one more is broadcast misses
    none, however long it watches. *)
Theorem viewer_queue_bounded (n n' : Node) (pushed written : list json) (overruns : nat) :
  let i := length (n_subscribers n) in
  rtc (stream_step i) (mkViewer (subscribe_visualizer n) [] [] 0) (mkViewer n' pushed written overruns) →
  ∃ queue, n_subscribers n' !! i = Some queue ∧ (length queue ≤ VIZ_QUEUE_MAX)%nat ∧ queue `suffix_of` pushed ∧
    written ++ queue `sublist_of` pushed ∧ length pushed = (length written + length queue + overruns)%nat ∧
    (overruns = 0%nat → written ++ queue = pushed).
Proof.
  intros i Hr. assert (viewer_inv i (mkViewer (subscribe_visualizer n) [] [] 0)) as Hs.
  { exists []. unfold subscribe_visualizer. cbn. rewrite list_lookup_middle by done. split_and!; [done|lia|done|done|done]. }
  assert (viewer_inv i (mkViewer n' pushed written overruns)) as (queue & H1 & H2 & H3 & H4 & H5).
  { revert Hs. generalize dependent (mkViewer n' pushed written overruns). intros v Hr Hs.
    induction Hr as [|x y z Hxy _ IH]; [done|]. by apply IH, (viewer_step i x). }
  cbn in *. exists queue. split_and!; [done..|]. intros ->. apply sublist_full; [done|]. rewrite length_app. lia.
Qed.
End stream.

(** ** The theorems on a concrete viewer *)
Lemma stream_roundtrip_witness :
  let payloads := [JObj [("type", JStr "reset")]; JObj [("type", JStr (String "010" "x")); ("n", JInt 3)]] in
  Forall (λ p, @json_ok frac_format p ∧ @line_json frac_format p = true) payloads ∧
  sse_parse (stream_hello +:+ foldr (λ p s, @stream_frame frac_format p +:+ s) "" payloads) = Some payloads.
Proof.
  intros payloads.
  assert (Forall (λ p, @json_ok frac_format p ∧ @line_json frac_format p = true) payloads) as Hp.
  { apply Forall_forall. intros p Hp. split; [apply json_check_ok|]; repeat (apply elem_of_cons in Hp as [->|Hp]; [vm_compute; reflexivity|]); by apply elem_of_nil in Hp. }
  split; [exact Hp|]. exact (@stream_roundtrip frac_format payloads Hp).
Defined.
Lemma viewer_queue_bounded_witness :
  let p := JObj [("type", JStr "reset")] in
  let n' := (@stream_next frac_format 0 (broadcast_viz p (broadcast_viz p (subscribe_visualizer sample_node)))).1 in
  let pushed := [p; p] in
  rtc (@stream_step frac_format 0) (mkViewer (subscribe_visualizer sample_node) [] [] 0) (mkViewer n' pushed [p] 0) ∧
  ∃ queue, n_subscribers n' !! 0%nat = Some queue ∧ (length queue ≤ VIZ_QUEUE_MAX)%nat ∧ queue `suffix_of` pushed ∧
    [p] ++ queue `sublist_of` pushed ∧ length pushed = (length [p] + length queue + 0)%nat ∧ (0%nat = 0%nat → [p] ++ queue = pushed).
Proof.
  intros p n' pushed.
  assert (rtc (@stream_step frac_format 0) (mkViewer (subscribe_visualizer sample_node) [] [] 0) (mkViewer n' pushed [p] 0)) as Hr.
  { eapply rtc_l; [apply st_broadcast|]. eapply rtc_l; [apply st_broadcast|]. apply rtc_once.
    apply (@st_next frac_format 0 p [p]); vm_compute; reflexivity. }
  split; [exact Hr|]. exact (@viewer_queue_bounded frac_format sample_node n' pushed [p] 0 Hr).
Defined.
