(* ===== verification/LoadGen.v ===== *)
(** [scripts/k3s/load_gen.py]: the load generator of the cluster demonstrations, and the
    node that serves its requests.  The draws of [random], the clock and what
    [urlopen] returns are inputs; a status of 400 or more is an exception there. *)
From S2P Require Import Prelude Sha256 Json JsonParse VectorClock Models Consensus Storage Config Metrics Prioritization Gossip JsonText Checkpoint Auth Catalog Node NodeLogic NodeEvents NodeEventsFacts NodeSimulation NodeCheckpoints NodeSync AgentRelay Notifier NodeLoops Prometheus Api ApiFacts.

Definition EVENT_KINDS : list (string * Q) :=
  [("admin_login_failure", 30 # 100); ("failed_login_burst", 5 # 100); ("critical_file_modified", 10 # 100);
   ("known_malicious_process", 5 # 100); ("privileged_process_started", 20 # 100); ("firewall_rule_changed", 5 # 100);
   ("admin_ssh_login_success", 10 # 100); ("heartbeat", 15 # 100)].

(** [r]: the draw of [random.random()]. *)
Fixpoint weighted_from (r acc : Q) (weighted : list (string * Q)) : option string :=
  match weighted with
  | [] => None
  | (value, weight) :: rest => if r <=?q acc + weight then Some value else weighted_from r (acc + weight) rest
  end.
Definition weighted_choice (r : Q) (weighted : list (string * Q)) : string :=
  match weighted_from r 0 weighted with Some v => v | None => default "" (fst <$> last weighted) end.

(** The integers and the time an event takes. *)
Record LoadDraw := mkLoadDraw { ld_kind : Q; ld_host : Z; ld_ip1 : Z; ld_ip2 : Z; ld_ip3 : Z; ld_user : Z; ld_ts : pyfloat }.

Section load.
Context `{FloatFormat}.

Definition load_kind (x : LoadDraw) : string := weighted_choice (ld_kind x) EVENT_KINDS.
Definition load_payload (x : LoadDraw) : odict json :=
  [("event_kind", JStr (load_kind x)); ("host_id", JStr ("host-" +:+ py_str_int (ld_host x)));
   ("source_ip", JStr ("10." +:+ py_str_int (ld_ip1 x) +:+ "." +:+ py_str_int (ld_ip2 x) +:+ "." +:+ py_str_int (ld_ip3 x)));
   ("principal", JStr ("user" +:+ py_str_int (ld_user x))); ("ts", JFloat (ld_ts x))].
Definition load_body (x : LoadDraw) : bytes :=
  utf8_encode (json_dumps (JObj [("event_kind", JStr (load_kind x)); ("payload", JObj (load_payload x))])).
Definition sign_body (key : string) (body : bytes) : string := hmac_sha256_hex (utf8_encode key) body.
Definition load_headers (hmac_key : option string) (body : bytes) : odict string :=
  [("Content-Type", "application/json")] ++
  match hmac_key with Some k => if decide (k = "") then [] else [("X-MDRJ-Sig", sign_body k body)] | None => [] end.
(** The request [emit_one] makes. *)
Definition load_request (hmac_key : option string) (x : LoadDraw) : Request :=
  mkRequest "POST" "/event/emit" (load_headers hmac_key (load_body x)) [] [] (load_body x).
(** What [emit_one] returns, from the status of the answer, [None] when there was
    none, and the time it took. *)
Definition emit_one (status : option Z) (latency : Q) : bool * Q * Z :=
  match status with
  | Some s => if s <? 400 then (true, latency, s) else (false, latency, -1)
  | None => (false, latency, -1)
  end.

(** ** The loop of [main]: rounds until the end, and what is counted *)
Record LoadStats := mkLoadStats { lg_total : Z; lg_ok : Z; lg_fail : Z; lg_sum_latency : Q; lg_status_counts : list (Z * Z) }.
Definition no_load : LoadStats := mkLoadStats 0 0 0 0 [].
Fixpoint bump_status (status : Z) (counts : list (Z * Z)) : list (Z * Z) :=
  match counts with
  | [] => [(status, 1)]
  | (s, c) :: rest => if s =? status then (s, c + 1) :: rest else (s, c) :: bump_status status rest
  end.
Definition load_round (answer : bool * Q * Z) (st : LoadStats) : LoadStats :=
  let '(success, latency, status) := answer in
  mkLoadStats (lg_total st + 1) (if success then lg_ok st + 1 else lg_ok st) (if success then lg_fail st else lg_fail st + 1)
    (lg_sum_latency st + latency) (bump_status status (lg_status_counts st)).
(** The clock at each [while] and the answer of the round; the list ends with an
    interrupt. *)
Fixpoint load_loop (end_at : Q) (rounds : list (Q * (bool * Q * Z))) (st : LoadStats) : LoadStats :=
  match rounds with
  | [] => st
  | (now, answer) :: rest => if now <?q end_at then load_loop end_at rest (load_round answer st) else st
  end.
(** [--pods]: the addresses that are not blank; [None]: the program ends with 2. *)
Definition load_pods (pods : string) : option (list string) :=
  match filter (λ p, p ≠ "") (py_strip <$> py_split "," pods) with [] => None | l => Some l end.

(** The counts add up. *)
Definition stats_ok (st : LoadStats) : Prop :=
  lg_ok st + lg_fail st = lg_total st ∧ foldr (λ p a, p.2 + a) 0 (lg_status_counts st) = lg_total st ∧ 0 <= lg_ok st ∧ 0 <= lg_fail st.
Lemma bump_sum s counts : foldr (λ p a, p.2 + a) 0 (bump_status s counts) = foldr (λ p a, p.2 + a) 0 counts + 1.
Proof. induction counts as [|[t c] counts IH]; cbn; [done|]. destruct (t =? s); cbn; lia. Qed.
Lemma load_loop_counts end_at rounds st : stats_ok st → stats_ok (load_loop end_at rounds st).
Proof.
  revert st. induction rounds as [|[now [[success latency] status]] rounds IH]; intros st Hst; cbn; [done|]. destruct (now <?q end_at); [|done].
  apply IH. destruct Hst as (H1 & H2 & H3 & H4). unfold stats_ok, load_round; cbn. rewrite bump_sum. destruct success; lia.
Qed.

(** ** The draw *)
Definition weight_sum (ws : list (string * Q)) : Q := foldr (λ p a, p.2 + a)%Q 0%Q ws.
Lemma weighted_from_spec r acc ws : (r <= acc + weight_sum ws)%Q → (acc < r)%Q ∨ (acc <= r)%Q → ws ≠ [] →
  ∃ pre v w post, ws = pre ++ (v, w) :: post ∧ weighted_from r acc ws = Some v ∧ (r <= acc + weight_sum pre + w)%Q ∧
    (pre = [] ∨ (acc + weight_sum pre < r)%Q).
Proof.
  revert acc. induction ws as [|[v w] ws IH]; intros acc Hr Ha Hne; [done|]. cbn [weighted_from weight_sum foldr snd] in *.
  destruct (r <=?q acc + w)%Q eqn:Hle.
  - apply Qle_bool_iff in Hle. exists [], v, w, ws. split_and!; [done|done|cbn; lra|by left].
  - assert (acc + w < r)%Q as Hlt. { apply Qnot_le_lt. intros Hn. apply Qle_bool_iff in Hn. congruence. }
    fold (weight_sum ws) in Hr. destruct ws as [|q ws]; [cbn in Hr; lra|].
    destruct (IH (acc + w)%Q ltac:(lra) ltac:(by left) ltac:(done)) as (pre & v' & w' & post & Heq & Hw & Hle' & Hpre).
    exists ((v, w) :: pre), v', w', post. rewrite Heq. split_and!; [done|by rewrite <- Heq|cbn [weight_sum foldr snd]; fold (weight_sum pre); lra|].
    right. cbn [weight_sum foldr snd]. fold (weight_sum pre). destruct Hpre as [->|?]; [cbn|]; lra.
Qed.
Lemma event_kinds_total : (weight_sum EVENT_KINDS == 1)%Q.
Proof. reflexivity. Qed.
Lemma event_kinds_known : forallb (λ p, is_known_event_kind p.1 (mkCatalog EVENT_CATALOG [])) EVENT_KINDS = true.
Proof. vm_compute. reflexivity. Qed.

Lemma load_kind_known x : (0 <= ld_kind x < 1)%Q → load_kind x ∈ EVENT_KINDS.*1.
Proof.
  intros [H0 H1]. destruct (weighted_from_spec (ld_kind x) 0 EVENT_KINDS) as (pre & v & w & post & Heq & Hw & _); [rewrite event_kinds_total; lra|by right|done|].
  unfold load_kind, weighted_choice. rewrite Hw, Heq, fmap_app. set_solver.
Qed.

(** The load generator and the API agree: on a node without users whose catalog has the
    generator's kinds, a generated request is never refused, signed or not; it is
    exactly the call of [emit_event] with the catalog's class of the drawn kind and
    the generated payload, and the answer is that event, or 500 when recording it
    raised. *)
Theorem load_served (env : ApiEnv) (hmac_key : option string) (x : LoadDraw) (n : Node) :
  users_count (n_db n) = 0%nat → (0 <= ld_kind x < 1)%Q → float_ok (ld_ts x) →
  (∀ kind, kind ∈ EVENT_KINDS.*1 → is_known_event_kind kind (n_catalog n) = true) →
  ∃ cls, event_class_for (load_kind x) (n_catalog n) = Ok cls ∧
    handle_request env (load_request hmac_key x) n =
      match emit_event (ae_world env) cls (load_payload x) n with
      | (n', Ok em) => (n', json_response (emission_json em))
      | (n', Err e) => (n', uncaught e)
      end.
Proof.
  intros Hu Hx Hts Hknown. pose proof (Hknown _ (load_kind_known x Hx)) as Hk.
  assert (∃ cls, event_class_for (load_kind x) (n_catalog n) = Ok cls) as [cls Hcls].
  { unfold event_class_for. unfold is_known_event_kind in Hk. apply bool_decide_eq_true in Hk.
    destruct (dget (cat_events (n_catalog n)) (load_kind x)) eqn:He; [by eexists|]. by apply dget_None in He. }
  exists cls. split; [exact Hcls|]. rewrite handle_open by done. unfold run_handler.
  assert (find_handler env (cfg_ui_enabled (n_config n)) (load_request hmac_key x) = handle_emit_local env) as -> by (by destruct (cfg_ui_enabled _)).
  unfold handle_emit_local, request_dict, request_json, load_request. cbn [rq_body]. unfold load_body.
  rewrite json_loads_dumps.
  2: { cbn [json_ok foldr snd load_payload]. split; [apply (bool_decide_unpack _); vm_compute; exact I|]. split_and!; try done.
       apply (bool_decide_unpack _); vm_compute; exact I. }
  assert (load_kind x ≠ "") as Hne.
  { intros He. pose proof (load_kind_known x Hx) as Hin. rewrite He in Hin. revert Hin. apply (bool_decide_unpack _). vm_compute. exact I. }
  rewrite (bind_run _ _ n n _ eq_refl), (bind_run _ _ n n (load_payload x) eq_refl). cbv zeta.
  assert (∀ v, py_or (JStr (load_kind x)) v = JStr (load_kind x)) as Hor.
  { intros v. unfold py_or. cbn [py_bool]. by rewrite bool_decide_true. }
  match goal with |- context [py_or ?a ?b] => assert (py_or a b = JStr (load_kind x)) as -> by apply Hor end. cbn [py_bool]. rewrite bool_decide_true by done. rewrite (bind_run get_node _ n n n eq_refl), Hk.
  rewrite (bind_run _ _ n n cls) by (unfold lift; by rewrite Hcls).
  change (dset (load_payload x) "event_kind" (JStr (load_kind x))) with (load_payload x).
  unfold mbind, nodem_bind. destruct (emit_event _ _ _ n) as [n' [em|e]]; reflexivity.
Qed.
End load.

(** ** The theorem on a concrete request *)
Definition sample_draw : LoadDraw := mkLoadDraw (1 # 2) 7 1 2 3 4 100.
Lemma load_served_witness :
  let n := sample_node in
  users_count (n_db n) = 0%nat ∧ (0 <= ld_kind sample_draw < 1)%Q ∧ @float_ok decimal_format (ld_ts sample_draw) ∧
  (∀ kind, kind ∈ EVENT_KINDS.*1 → is_known_event_kind kind (n_catalog n) = true) ∧
  ∃ cls, event_class_for (load_kind sample_draw) (n_catalog n) = Ok cls ∧
    @handle_request decimal_format sample_env (@load_request decimal_format (Some "k") sample_draw) n =
      match @emit_event decimal_format (ae_world sample_env) cls (load_payload sample_draw) n with
      | (n', Ok em) => (n', json_response (@emission_json em))
      | (n', Err e) => (n', uncaught e)
      end.
Proof.
  intros n.
  assert (users_count (n_db n) = 0%nat) as Hu by (vm_compute; reflexivity).
  assert (0 <= ld_kind sample_draw < 1)%Q as Hx by (vm_compute; split; [discriminate|reflexivity]).
  assert (@float_ok decimal_format (ld_ts sample_draw)) as Hts by (vm_compute; reflexivity).
  assert (∀ kind, kind ∈ EVENT_KINDS.*1 → is_known_event_kind kind (n_catalog n) = true) as Hk.
  { intros kind Hin. repeat (apply elem_of_cons in Hin as [->|Hin]; [vm_compute; reflexivity|]). by apply elem_of_nil in Hin. }
  split; [exact Hu|]. split; [exact Hx|]. split; [exact Hts|]. split; [exact Hk|].
  exact (@load_served decimal_format sample_env (Some "k") sample_draw n Hu Hx Hts Hk).
Defined.
