(* ===== verification/CheckpointQuorum.v ===== *)
(** Checkpoints over the API: the proposals of a quorum of members confirm a checkpoint
    at every member that has recorded its root, whatever else is proposed meanwhile; and
    what the same route lets anyone do. *)
From S2P Require Import Prelude Sha256 Json JsonParse VectorClock Models Consensus Storage StorageFacts StorageTypes Config Metrics Prioritization Gossip JsonText Checkpoint Auth Catalog Node NodeLogic NodeEvents NodeEventsFacts NodeSimulation NodeCheckpoints NodeEvidence NodeCheckpointsFacts NodeSync NodeSyncFacts AgentRelay Notifier Archive ArchiveFacts Api ApiFacts.

(** ** Hexadecimal signatures *)
Lemma hex_digit_ascii n : 0 <= n < 16 → (Ascii.N_of_ascii (hex_digit n) <? 128)%N = true.
Proof.
  intros Hn. assert (∀ k : nat, (k < 16)%nat → (Ascii.N_of_ascii (hex_digit (Z.of_nat k)) <? 128)%N = true) as Hall.
  { intros k Hk. do 16 (destruct k as [|k]; [reflexivity|]). lia. }
  rewrite <- (Z2Nat.id n) by lia. apply Hall. lia.
Qed.
Lemma hex_encode_ascii bs : Forall is_byte bs → is_ascii (hex_encode bs) = true.
Proof.
  unfold is_ascii, is_byte. induction 1 as [|b bs Hb _ IH]; [done|]. cbn [hex_encode String.list_ascii_of_string forallb].
  rewrite !hex_digit_ascii by (Z.to_euclidean_division_equations; lia). exact IH.
Qed.
Lemma sign_proposal_ascii `{FloatFormat} p key : is_ascii (sign_proposal p key) = true.
Proof. unfold sign_proposal, hmac_sha256_hex. apply hex_encode_ascii, hmac_sha256_range. Qed.
Lemma sign_proposal_verifies `{FloatFormat} p key : verify_proposal_signature p (sign_proposal p key) key = Ok true.
Proof. unfold verify_proposal_signature, compare_digest. rewrite !sign_proposal_ascii. cbn [andb]. by rewrite bool_decide_true. Qed.

(** ** Signers and quorum *)
Lemma quorum_mono (s1 s2 : odict string) members : dkeys s1 ⊆ dkeys s2 →
  is_quorum_reached s1 members = true → is_quorum_reached s2 members = true.
Proof.
  intros Hs. rewrite !quorum_spec. intros [HM Hq]. split; [done|]. etrans; [exact Hq|]. apply Nat.mul_le_mono_l, subseteq_size.
  intros x. rewrite !elem_of_filter. naive_solver.
Qed.

(** ** One node *)
Section node.
Context `{FloatFormat}.

(** The membership is fixed in the node's cache, with these ids. *)
Definition settled (members : list string) (n : Node) : Prop :=
  ∃ snapshot, n_membership n = Some snapshot ∧ snapshot ≠ [] ∧
    (items ← as_arr (jget_or snapshot "members" (JArr [])); mapR member_node_id items) = Ok (Some <$> members).
Lemma settled_ids members n : settled members n → membership_node_ids n = (n, Ok members).
Proof.
  intros (snapshot & Hn & Hne & Hm). destruct snapshot as [|p d]; [done|].
  assert (membership_m n = (n, Ok (p :: d))) as Hmm.
  { unfold membership_m, active_consensus_membership, cached_snapshot. rewrite Hn.
    f_equal. unfold set_n_membership. rewrite <- Hn. by destruct n. }
  unfold membership_node_ids. rewrite (bind_run _ _ _ _ _ Hmm).
  rewrite (bind_run _ _ n n (Some <$> members)) by (unfold lift; by rewrite Hm).
  unfold mret, nodem_ret. do 2 f_equal. clear. induction members as [|m ms IH]; [done|]. cbn. by rewrite IH.
Qed.

(** The checkpoint of round [z] has root [root], at least the signers [S], and is
    confirmed if they are a quorum. *)
Definition recorded (members : list string) (z : Z) (root : string) (signers : list string) (key : option string) (n : Node) : Prop :=
  settled members n ∧ cfg_hmac_key (n_config n) = key ∧
  ∃ c, get_checkpoint z (n_db n) = Some c ∧ cp_merkle_root c = root ∧ signers ⊆ dkeys (cp_signatures c) ∧
    (is_quorum_reached (cp_signatures c) members = true → is_confirmed c = true).

Lemma settled_same members n n' : n_membership n' = n_membership n → settled members n → settled members n'.
Proof. intros He (s & Hs & Hrest). exists s. split; [congruence|exact Hrest]. Qed.
Lemma recorded_same members z root S key n n' : n_membership n' = n_membership n → n_config n' = n_config n →
  db_checkpoints (n_db n') = db_checkpoints (n_db n) → recorded members z root S key n → recorded members z root S key n'.
Proof.
  intros Hm Hc Hd (Hs & Hk & c & Hg & Hrest). split; [by eapply settled_same|]. split; [congruence|].
  exists c. split; [|exact Hrest]. unfold get_checkpoint in *. by rewrite Hd.
Qed.

(** With a settled membership recording never raises. *)
Lemma add_signature_run now p existing members n : settled members n →
  ∃ n' row, add_signature now p existing n = (n', Ok row) ∧ n_membership n' = n_membership n ∧ n_config n' = n_config n.
Proof.
  intros Hs. unfold add_signature. cbv zeta. rewrite (bind_run _ _ n n members (settled_ids members n Hs)).
  eexists _, _. split; [reflexivity|]. by destruct (_ && _).
Qed.
Lemma record_keeps now p members z root S key n : recorded members z root S key n →
  ∃ n' row, record_proposal_signature now p n = (n', Ok row) ∧ recorded members z root S key n' ∧
    (pp_round_received p = z → pp_merkle_root p = root → recorded members z root (pp_proposer_node_id p :: S) key n').
Proof.
  intros Hrec. pose proof Hrec as (Hs & Hk & c & Hg & Hroot & Hsig & Hq). unfold record_proposal_signature.
  rewrite (bind_run _ _ n n n eq_refl). cbv zeta. set (existing := get_checkpoint (pp_round_received p) (n_db n)).
  assert ((∃ c', existing = Some c' ∧ cp_merkle_root c' ≠ pp_merkle_root p) ∨ ∀ c', existing = Some c' → cp_merkle_root c' = pp_merkle_root p)
    as [(c' & He & Hne)|Hag].
  { destruct existing as [c'|]; [|by right]. destruct (decide (cp_merkle_root c' = pp_merkle_root p)); [right; by intros ? [= <-]|left; by eexists]. }
  { rewrite He, decide_False by done. exists n, (Some c'). split; [done|]. split; [done|]. intros Hz Hr.
    unfold existing in He. rewrite Hz, Hg in He. injection He as <-. congruence. }
  destruct (add_signature_run now p existing members n Hs) as (n' & row & Hadd & Hm & Hc).
  exists n', row. split.
  { destruct existing as [c'|]; [|exact Hadd]. rewrite decide_True; [exact Hadd|by apply Hag]. }
  apply add_signature_spec in Hadd as (n1 & members' & r & Hids & _ & Hr & Hsr & Hother & _).
  rewrite (settled_ids members n Hs) in Hids. injection Hids as <- <-. destruct Hsr as [Hrr Hkeys _ Hsticky Hquo Hconf].
  assert (∀ T, (∀ c, get_checkpoint z (n_db n') = Some c → T ⊆ dkeys (cp_signatures c)) → recorded members z root T key n') as Hbuild.
  { intros T HT. split; [by eapply settled_same|]. split; [congruence|]. destruct (decide (pp_round_received p = z)) as [Hz|Hz].
    - exists r. rewrite <- Hz. split; [done|]. split; [|split; [by apply HT; rewrite <- Hz|done]].
      rewrite Hrr, <- Hroot. symmetry. apply Hag. unfold existing. by rewrite Hz.
    - exists c. rewrite (Hother z) by done. split; [done|]. split; [done|]. split; [apply HT; by rewrite (Hother z) by done|done]. }
  split.
  - apply Hbuild. intros c' Hc'. destruct (decide (pp_round_received p = z)) as [Hz|Hz].
    + rewrite <- Hz, Hr in Hc'. injection Hc' as <-. intros k Hk'. apply Hkeys. right. exists c. unfold existing. rewrite Hz. split; [done|by apply Hsig].
    + rewrite (Hother z) in Hc' by done. rewrite Hg in Hc'. by injection Hc' as <-.
  - intros Hz Hrt. apply Hbuild. intros c' Hc'. rewrite <- Hz, Hr in Hc'. injection Hc' as <-. intros k [->|Hk']%elem_of_cons; apply Hkeys; [by left|].
    right. exists c. unfold existing. rewrite Hz. split; [done|by apply Hsig].
Qed.

Lemma hash_run members n : settled members n → ∃ h, membership_snapshot_hash n = (n, Ok h).
Proof.
  intros (snapshot & Hm & Hne & _). destruct snapshot as [|p d]; [done|].
  assert (membership_m n = (n, Ok (p :: d))) as Hmm.
  { unfold membership_m, active_consensus_membership, cached_snapshot. rewrite Hm. f_equal. unfold set_n_membership. rewrite <- Hm. by destruct n. }
  unfold membership_snapshot_hash. eexists. by rewrite (bind_run _ _ _ _ _ Hmm).
Qed.

(** ** The route *)
Section route.
Context (members : list string) (z : Z) (root : string) (S : list string) (key : option string).
Definition keeps_record (n n' : Node) : Prop := recorded members z root S key n → recorded members z root S key n'.
#[local] Instance keeps_record_preorder : PreOrder keeps_record.
Proof. split; [by intros n Hn|]. intros a b c H1 H2 Ha. exact (H2 (H1 Ha)). Qed.

Lemma kept_record now p : framed keeps_record (record_proposal_signature now p).
Proof. intros n Hn. destruct (record_keeps now p members z root S key n Hn) as (n' & row & -> & Hr & _). exact Hr. Qed.
Lemma kept_hash : framed keeps_record membership_snapshot_hash.
Proof.
  intros n Hn. destruct (hash_run members n (proj1 Hn)) as [h Hh]. by rewrite Hh.
Qed.
Lemma kept_catch status m : framed keeps_record m → framed keeps_record (catch_http status m).
Proof. intros Hm n. specialize (Hm n). unfold catch_http. destruct (m n) as [n' [r|e]]; [exact Hm|]. by destruct (status e). Qed.
#[local] Hint Resolve kept_record kept_hash : core.
Ltac keep := repeat first [ solve [auto] | frame_step | apply kept_catch | progress cbv zeta | case_match ].
Lemma kept_propose now target : framed keeps_record (propose_local_checkpoint now target).
Proof. unfold propose_local_checkpoint. keep. Qed.
Lemma kept_ingest now d : framed keeps_record (ingest_checkpoint_proposal now d).
Proof. unfold ingest_checkpoint_proposal. keep. Qed.
#[local] Hint Resolve kept_propose kept_ingest : core.
Lemma kept_handler env rq : framed keeps_record (handle_checkpoint_propose env rq).
Proof. unfold handle_checkpoint_propose, request_json_or, bad_request_on_value_error. keep. Qed.
End route.

(** A request to the route, which is served whatever the users of the node are. *)
Definition proposes (rq : Request) : Prop := rq_method rq = "POST" ∧ rq_path rq = "/checkpoint/propose".
Lemma proposes_handled env rq n : proposes rq →
  handle_request env rq n = run_handler (handle_checkpoint_propose env) rq n.
Proof.
  intros [Hm Hp]. rewrite handle_public by (rewrite Hp; apply (bool_decide_unpack _); vm_compute; exact I).
  f_equal. destruct rq as [m p hs cs q b]. cbn in Hm, Hp. by subst.
Qed.
Lemma proposes_keeps env rq members z root S key n : proposes rq → recorded members z root S key n →
  recorded members z root S key (handle_request env rq n).1.
Proof.
  intros Hp Hr. rewrite proposes_handled by done. pose proof (kept_handler members z root S key env rq n Hr) as Hk. unfold run_handler.
  by destruct (handle_checkpoint_propose env rq n) as [n' [r|e]].
Qed.

(** A proposal signed with the key of the members. *)
Definition signed_with (key : option string) (p : CheckpointProposal) : Prop :=
  str_or_opt key "" = "" ∨ pp_signature p = sign_proposal p (str_or_opt key "").
Lemma proposal_dict_roundtrip p : json_loads (proposal_body p) = Ok (proposal_to_dict p) ∧
  match proposal_to_dict p with JObj d => proposal_from_dict d = Ok p ∧ "merkle_root" ∈ dkeys d | _ => False end.
Proof.
  split.
  - apply json_loads_dumps. apply json_check_ok. destruct p. reflexivity.
  - destruct p. split; [reflexivity|]. apply (bool_decide_unpack _). reflexivity.
Qed.
Lemma proposal_counts env rq p members z root S key n : proposes rq → rq_body rq = proposal_body p → signed_with key p →
  pp_round_received p = z → pp_merkle_root p = root → recorded members z root S key n →
  recorded members z root (pp_proposer_node_id p :: S) key (handle_request env rq n).1 ∧ rs_status (handle_request env rq n).2 = 200.
Proof.
  intros Hp Hb Hsig Hz Hroot Hr. rewrite proposes_handled by done. unfold run_handler, handle_checkpoint_propose.
  destruct (proposal_dict_roundtrip p) as [Hl Hd]. destruct (proposal_to_dict p) as [| | | | | |d] eqn:Hdict; try done. destruct Hd as [Hfrom Hin].
  assert (request_json_or (JObj []) rq n = (n, Ok (JObj d))) as Hreq.
  { unfold request_json_or, request_json. by rewrite Hb, Hl. }
  rewrite (bind_run _ _ _ _ _ Hreq), (bind_run _ _ n n d eq_refl), decide_True by done.
  destruct (record_keeps (ae_now env) p members z root S key n Hr) as (n' & row & Hrec & _ & Hadd).
  assert (ingest_checkpoint_proposal (ae_now env) d n = (n', Ok row)) as Hi.
  { unfold ingest_checkpoint_proposal. rewrite (bind_run _ _ n n p) by (unfold lift; by rewrite Hfrom).
    rewrite (bind_run _ _ n n n eq_refl). cbv zeta. destruct Hr as (_ & -> & _).
    destruct Hsig as [->|Hsig]; [by rewrite bool_decide_false by (intros Hn; by apply Hn)|].
    destruct (_ && _) eqn:E; [|exact Hrec]. rewrite Hsig. rewrite (bind_run _ _ n n true); [exact Hrec|].
    unfold lift. by rewrite sign_proposal_verifies. }
  unfold bad_request_on_value_error, catch_http. rewrite (bind_run _ _ _ _ _ Hi). cbn. split; [by apply Hadd|done].
Qed.

(** A node that proposes a new checkpoint has recorded it with its own signature. *)
Lemma propose_records now z n n' p members : settled members n → get_checkpoint z (n_db n) = None →
  propose_local_checkpoint now z n = (n', Ok p) →
  recorded members z (pp_merkle_root p) [node_id n] (cfg_hmac_key (n_config n)) n'.
Proof.
  intros Hs Hnone. unfold propose_local_checkpoint. destruct (z <? 0); [done|]. rewrite (bind_run _ _ n n n eq_refl).
  destruct (str_or_opt _ _) as [|c0 k0]; [done|]. intros (n0 & events & [= <- _] & Hp)%bind_Ok. case_bool_decide; [done|].
  destruct (hash_run members n Hs) as [h Hh]. rewrite (bind_run _ _ _ _ _ Hh) in Hp. cbv zeta in Hp.
  apply bind_Ok in Hp as (n2 & row & Hrec & [= <- <-]). unfold record_proposal_signature in Hrec. rewrite (bind_run _ _ n n n eq_refl) in Hrec.
  cbv zeta in Hrec. cbn [pp_round_received pp_merkle_root pp_proposer_node_id] in *. rewrite Hnone in Hrec.
  match type of Hrec with add_signature _ ?q _ _ = _ => destruct (add_signature_run now q None members n Hs) as (n3 & row3 & Ha & Hm & Hc) end. rewrite Hrec in Ha. injection Ha as <- <-.
  apply add_signature_spec in Hrec as (n1 & members' & r & Hids & _ & Hr & Hsr & _ & _).
  rewrite (settled_ids members n Hs) in Hids. injection Hids as <- <-. destruct Hsr as [Hrr Hkeys _ _ _ Hconf]. cbn [pp_merkle_root pp_proposer_node_id pp_round_received] in *.
  split; [by eapply settled_same|]. split; [congruence|]. exists r. split; [done|]. split; [done|]. split; [|done].
  intros k ->%list_elem_of_singleton. apply Hkeys. by left.
Qed.

(** Requests served one after the other, each with its inputs. *)
Definition serve (rqs : list (ApiEnv * Request)) (n : Node) : Node := foldl (λ n r, (handle_request r.1 r.2 n).1) n rqs.
Lemma serve_counts members z root key rqs : ∀ S n, Forall (λ r, proposes r.2) rqs → recorded members z root S key n →
  recorded members z root S key (serve rqs n) ∧
  ∀ env rq p, (env, rq) ∈ rqs → rq_body rq = proposal_body p → signed_with key p → pp_round_received p = z → pp_merkle_root p = root →
    recorded members z root (pp_proposer_node_id p :: S) key (serve rqs n).
Proof.
  induction rqs as [|[env0 rq0] rqs IH]; intros S n Hall Hr; [split; [exact Hr|intros ? ? ? Hin; by apply elem_of_nil in Hin]|].
  apply Forall_cons in Hall as [Hp Hall]. cbn [serve foldl fst snd]. fold (serve rqs (handle_request env0 rq0 n).1).
  pose proof (proposes_keeps env0 rq0 members z root S key n Hp Hr) as Hr1. split; [by apply IH|].
  intros env rq p [[= -> ->]|Hin]%elem_of_cons Hb Hs Hz Hroot.
  - apply IH; [done|]. by apply proposal_counts.
  - destruct (IH S _ Hall Hr1) as [_ Hadd]. by eapply Hadd.
Qed.

(** C38: checkpoints are confirmed: when a node with a fixed membership proposes a new
    checkpoint, and then, in any order and among any other requests to
    [/checkpoint/propose] (malformed, forged, for other rounds or roots), receives the
    signed proposals of the same root from members who form a quorum with it, its
    checkpoint of the round is confirmed with the root of its own events.  Nothing
    that arrives on the route can undo a signature or replace the root. *)
Theorem checkpoint_confirmed (now : Q) (z : Z) (members : list string) (n n1 : Node) (p : CheckpointProposal)
    (signers : list string) (rqs : list (ApiEnv * Request)) :
  settled members n → get_checkpoint z (n_db n) = None → propose_local_checkpoint now z n = (n1, Ok p) →
  Forall (λ r, proposes r.2) rqs →
  (∀ m, m ∈ signers → ∃ env rq q, (env, rq) ∈ rqs ∧ rq_body rq = proposal_body q ∧ signed_with (cfg_hmac_key (n_config n)) q ∧
     pp_round_received q = z ∧ pp_merkle_root q = pp_merkle_root p ∧ pp_proposer_node_id q = m) →
  is_quorum_reached ((λ m, (m, "")) <$> node_id n :: signers) members = true →
  ∃ c, get_checkpoint z (n_db (serve rqs n1)) = Some c ∧ cp_merkle_root c = pp_merkle_root p ∧ is_confirmed c = true ∧
    node_id n :: signers ⊆ dkeys (cp_signatures c).
Proof.
  intros Hs Hnone Hprop Hall Hsigned Hq.
  pose proof (propose_records now z n n1 p members Hs Hnone Hprop) as Hr.
  destruct (serve_counts members z _ _ rqs _ n1 Hall Hr) as [Hkeep Hadd].
  destruct Hkeep as (_ & _ & c & Hg & Hroot & Hown & Hconf). exists c. split; [done|]. split; [done|].
  assert (node_id n :: signers ⊆ dkeys (cp_signatures c)) as Hsub.
  { intros m [->|Hm]%elem_of_cons; [apply Hown; by left|]. destruct (Hsigned m Hm) as (env & rq & q & Hin & Hb & Hk & Hz & Hrt & <-).
    destruct (Hadd env rq q Hin Hb Hk Hz Hrt) as (_ & _ & c' & Hg' & _ & Hown' & _). rewrite Hg in Hg'. injection Hg' as <-.
    apply Hown'. by left. }
  split; [|exact Hsub]. apply Hconf. eapply quorum_mono; [|exact Hq].
  unfold dkeys at 1. rewrite <- list_fmap_compose, list_fmap_id. exact Hsub.
Qed.
End node.

(** ** Three members *)
#[local] Existing Instance decimal_format.
Definition three_members : list string := ["n1"; "n2"; "n3"].
Definition member_node : Node :=
  set_n_membership (Some (snapshot_to_dict (membership_snapshot 1
    [mkMember "n1" "10.0.0.1:9000" "node" true; mkMember "n2" "10.0.0.2:9000" "node" false; mkMember "n3" "10.0.0.3:9000" "node" false])))
    archive_start.
Definition propose_request (body : bytes) : ApiEnv * Request :=
  (sample_env, mkRequest "POST" "/checkpoint/propose" [("Content-Type", "application/json")] [] [] body).
(** What [n2], which stores the same events, sends for the root of [p]. *)
Definition seconded (p : CheckpointProposal) : CheckpointProposal :=
  mkProposal (pp_round_received p) (pp_merkle_root p) (pp_members_snapshot_hash p) "n2"
    (sign_proposal p (str_or_opt (cfg_hmac_key (n_config member_node)) "")).
(** What anyone can send: no signature, any root, any proposer. *)
Definition unsigned (root proposer : string) : CheckpointProposal := mkProposal 1 root "h" proposer "".
#[local] Opaque archive_start.
#[local] Abbreviation proposed := (propose_local_checkpoint 200 1 member_node).

Lemma checkpoint_confirmed_witness :
  ∃ p, let rqs := [propose_request [0]; propose_request (proposal_body (unsigned "00" "n3")); propose_request (proposal_body (seconded p))] in
  settled three_members member_node ∧ get_checkpoint 1 (n_db member_node) = None ∧ proposed = (proposed.1, Ok p) ∧
  is_quorum_reached ((λ m, (m, "")) <$> [node_id member_node; "n2"]) three_members = true ∧
  ∃ c, get_checkpoint 1 (n_db (serve rqs proposed.1)) = Some c ∧ cp_merkle_root c = pp_merkle_root p ∧ is_confirmed c = true ∧
    [node_id member_node; "n2"] ⊆ dkeys (cp_signatures c).
Proof.
  assert (settled three_members member_node) as Hs.
  { eexists. split; [reflexivity|]. split; [discriminate|]. vm_compute. reflexivity. }
  assert (get_checkpoint 1 (n_db member_node) = None) as Hn by (vm_compute; reflexivity).
  destruct (run_is_ok proposed) as [p Hp]; [vm_compute; reflexivity|]. exists p. intros rqs.
  assert (is_quorum_reached ((λ m, (m, "")) <$> [node_id member_node; "n2"]) three_members = true) as Hq by (vm_compute; reflexivity).
  assert (pp_round_received p = 1) as Hz.
  { assert ((pp_round_received <$> proposed.2) = Ok 1) as Hz by (vm_compute; reflexivity). rewrite Hp in Hz. by injection Hz. }
  split; [exact Hs|]. split; [exact Hn|]. split; [exact Hp|]. split; [exact Hq|].
  refine (checkpoint_confirmed 200 1 three_members member_node proposed.1 p ["n2"] rqs Hs Hn Hp _ _ Hq).
  - repeat constructor.
  - intros m ->%list_elem_of_singleton. exists sample_env, (propose_request (proposal_body (seconded p))).2, (seconded p).
    split; [right; right; left|]. split; [reflexivity|]. split; [by right|]. split; [exact Hz|]. split; reflexivity.
Defined.

(** *** What the route lets anyone do

    The node has users and an HMAC key.  Two requests without session, signature or
    key, in the names of two members, make it record and confirm a checkpoint with an
    arbitrary root.  Its own proposal for the round is then ignored, the next
    verification reports tampering with an untouched registry, and retention deletes
    the events up to the round. *)
Definition guarded_node : Node := with_user "root" member_node.
Definition forged_run : Node :=
  serve [propose_request (proposal_body (unsigned "00" "n1")); propose_request (proposal_body (unsigned "00" "n2"))] guarded_node.
Example forged_checkpoint :
  users_count (n_db guarded_node) = 1%nat ∧ hmac_key_of guarded_node ≠ "" ∧ db_events (n_db forged_run) = db_events (n_db guarded_node) ∧
  ((λ c, (cp_merkle_root c, is_confirmed c)) <$> get_checkpoint 1 (n_db forged_run)) = Some ("00", true) ∧
  (cp_merkle_root <$> get_checkpoint 1 (n_db (propose_local_checkpoint 200 1 forged_run).1)) = Some "00" ∧
  (vr_has_tamper_evidence <$> (verify_checkpoint 1 forged_run).2) = Ok true ∧
  length (db_events (n_db forged_run)) = 1%nat ∧ db_events (n_db (run_retention_once 1000 forged_run).1) = [].
Proof. vm_compute. repeat split; discriminate. Qed.
