(* ===== verification/NodeRuns.v ===== *)
(** A whole node: everything that can run on it, the HTTP requests it serves and
    the iterations of its background loops included, and what all of that may do
    to the registry. *)
From S2P Require Import Prelude Sha256 Json JsonParse VectorClock Models Consensus Storage StorageFacts StorageTypes Config Metrics Prioritization Gossip GossipLiveness JsonText Checkpoint Auth Catalog Node NodeLogic NodePeers NodeEvents NodeEventsFacts NodeSimulation NodeCheckpoints NodeEvidence NodeSync NodeSyncFacts AgentRelay Notifier NodeLoops Discovery Prometheus Api ApiFacts.

Create HintDb grows.
Section runs.
Context `{FloatFormat}.

(** ** Operations that let the log grow *)
Lemma grows_emit w cls payload : framed log_grows (emit_event w cls payload).
Proof. apply evolves_log, evolves_emit. Qed.
Lemma grows_ingest w envs : framed log_grows (ingest_envelopes w envs).
Proof. apply evolves_log, evolves_ingest. Qed.
Lemma grows_membership : framed log_grows membership_m.
Proof. apply evolves_log. unfold membership_m. apply evolves_membership. Qed.
Lemma grows_recompute : framed log_grows recompute_consensus.
Proof. apply evolves_log, evolves_recompute. Qed.
Lemma grows_offer i : framed log_grows (modify (gossip_offer i)).
Proof. apply evolves_log. intros n. apply evolves_offer. Qed.
Lemma grows_propose now target : framed log_grows (propose_local_checkpoint now target).
Proof. apply evolves_log, evolves_propose. Qed.
Lemma grows_ingest_proposal now payload : framed log_grows (ingest_checkpoint_proposal now payload).
Proof. apply evolves_log, evolves_ingest_proposal. Qed.
Lemma grows_verify r : framed log_grows (verify_checkpoint r).
Proof. apply evolves_log, evolves_verify. Qed.
Lemma grows_killed w : framed log_grows (maybe_emit_service_killed w).
Proof. apply evolves_log, evolves_killed. Qed.
Lemma grows_start w : framed log_grows (emit_service_start w).
Proof. apply evolves_log, evolves_start. Qed.
Lemma grows_stop w : framed log_grows (emit_service_stop w).
Proof. apply evolves_log, evolves_stop. Qed.
Lemma grows_anchor_ids : framed log_grows anchor_ids.
Proof. apply evolves_log, evolves_anchor_ids. Qed.
Lemma grows_register now a note source role i ap : framed log_grows (register_peer now a note source role i ap).
Proof. intros n. apply same_events_log, register_events. Qed.
Lemma grows_persist w env r b : framed log_grows (persist_envelope w env r b).
Proof. apply evolves_log, evolves_persist. Qed.
#[local] Hint Resolve grows_recompute grows_emit grows_ingest grows_membership grows_offer grows_propose grows_ingest_proposal grows_verify grows_killed
  grows_start grows_stop grows_anchor_ids grows_register grows_policy grows_reconfigure grows_persist : grows.

Ltac grow_step :=
  first [ solve [auto with grows] | frame_step | solve [intros ?; apply same_events_log; reflexivity] | progress cbv zeta | case_match ].
Ltac grow := repeat grow_step.

(** ** Anti-entropy, start and stop *)
Lemma grows_pull_missing w net address missing pulled : framed log_grows (pull_missing w net address missing pulled).
Proof. revert pulled. induction missing as [|i missing IH]; intros pulled; cbn [pull_missing]; [grow|]. grow; apply IH. Qed.
#[local] Hint Resolve grows_pull_missing : grows.
Lemma grows_frontier_sync w choose net : framed log_grows (frontier_sync_once w choose net).
Proof. unfold frontier_sync_once. grow. Qed.

Lemma grows_send w k a envs n : log_grows n (node_send w k a envs n).1.
Proof. apply (evolves_send w k a envs n). Qed.
Lemma grows_push_initial w : framed log_grows (push_initial_events w).
Proof.
  unfold push_initial_events. grow. apply framed_modify. intros n0. generalize (node_list_peers n0) as peers. intros peers. revert n0.
  induction peers as [|p peers IH]; intros m; [done|]. cbn [foldl]. etrans; [apply (grows_send w 0 (pi_address p))|apply IH].
Qed.
Lemma grows_prime : framed log_grows prime_gossip.
Proof. unfold prime_gossip. grow. Qed.
Lemma grows_update_peer a en note ls h role i ap : framed log_grows (update_db (λ db, (update_peer a en note ls h role i ap db).1)).
Proof. intros n. apply same_events_log, update_peer_events. Qed.
#[local] Hint Resolve grows_update_peer : grows.
Lemma grows_hydrate now status_of : framed log_grows (hydrate_peer_node_ids now status_of).
Proof.
  unfold hydrate_peer_node_ids. grow. unfold hydrate_one. grow.
Qed.
#[local] Hint Resolve grows_push_initial grows_prime grows_hydrate : grows.
Lemma grows_ensure_membership now status_of : framed log_grows (ensure_consensus_membership_snapshot now status_of).
Proof. unfold ensure_consensus_membership_snapshot. grow. Qed.
Lemma grows_store now env ts : framed log_grows (update_db (λ db, (store_envelope now env ts db).1)).
Proof. intros n. apply rtc_once. by apply rows_store. Qed.
#[local] Hint Resolve grows_store : grows.
Lemma grows_bootstrap w force : framed log_grows (bootstrap_genesis w force).
Proof. unfold bootstrap_genesis. grow. Qed.
#[local] Hint Resolve grows_ensure_membership grows_bootstrap : grows.
Lemma grows_node_start w status_of : framed log_grows (node_start w status_of).
Proof. unfold node_start. grow. Qed.
Lemma grows_node_stop w : framed log_grows (node_stop w).
Proof. unfold node_stop. grow. Qed.

(** Stopping a node also ends its demo generator. *)
Lemma node_stop_off w n : simulation_running (node_stop w n).1 = false.
Proof.
  unfold node_stop. unfold mbind at 1, nodem_bind at 1. unfold try_with.
  assert (∀ n1, simulation_running ((n ← get_node; (if simulation_running n then stop_simulation w JNull true;; mret tt else mret tt);;
    modify cancel_recompute;; modify (set_n_gossip None);; modify (set_n_loop false)) n1).1 = false) as Hoff.
  { intros n1. rewrite (bind_run _ _ n1 n1 n1 eq_refl). destruct (simulation_running n1) eqn:Hr; [|exact Hr].
    unfold stop_simulation. apply simulation_running_on in Hr. unfold sim_abs in Hr.
    unfold mbind, nodem_bind, get_node. cbv beta iota. destruct (sm_task (n_simulation n1)) as [[r|]|]; [done|reflexivity|done]. }
  destruct (emit_service_stop w n) as [n1 [x|e]]; apply Hoff.
Qed.

(** ** Digests and status *)
Lemma grows_snapshot now : framed log_grows (consensus_snapshot now).
Proof. unfold consensus_snapshot. grow. Qed.
#[local] Hint Resolve grows_snapshot : grows.
Lemma grows_monitor now digest_of : framed log_grows (monitor_round now digest_of).
Proof. unfold monitor_round, monitor_peer, fetch_peer_consensus. grow. Qed.
Lemma grows_status state ingest : framed log_grows (node_status state ingest).
Proof. unfold node_status. grow. Qed.
#[local] Hint Resolve grows_status : grows.

(** ** Requests *)
Lemma grows_resolve now rq : framed log_grows (resolve_session now rq).
Proof.
  unfold resolve_session. grow. intros m. destruct (session_get _ _ _). by apply same_events_log.
Qed.
#[local] Hint Resolve grows_resolve : grows.
(** The middlewares add to a handler nothing but the lookup of the session. *)
Lemma auth_framed (R : relation Node) `{!PreOrder R} env (h : Handler) rq :
  (∀ n n', log_grows n n' → R n n') → framed R (h rq) → framed R (session_auth (ae_now env) (hmac_auth (ae_now env) h) rq).
Proof.
  intros HR Hh.
  assert (framed R (resolve_session (ae_now env) rq)) as Hs by (apply (framed_weaken log_grows R); [exact HR|apply grows_resolve]).
  assert (framed R (hmac_auth (ae_now env) h rq)) as Hm.
  { unfold hmac_auth. frame_step; [frame_step|]. case_decide; [done|]. case_decide; [done|]. frame_step; [done|].
    case_bool_decide; [done|]. frame_step; [frame_step|]. destruct (Nat.eqb _ _); [done|]. cbv zeta. repeat case_decide; try frame_step. done. }
  unfold session_auth. case_decide; [done|]. frame_step; [frame_step|]. destruct (Nat.eqb _ _); [done|]. frame_step; [done|].
  case_match; [|destruct (_ && _); frame_step]. destruct (role_allows _ _); [done|frame_step].
Qed.
Lemma grows_catch f (m : NodeM Response) : framed log_grows m → framed log_grows (catch_http f m).
Proof.
  intros Hm n. unfold catch_http. specialize (Hm n). destruct (m n) as [n1 [x|e]]; [done|]. by destruct (f e).
Qed.
Lemma grows_call {X} (f : Node → Node * X) : (∀ n, db_events (n_db (f n).1) = db_events (n_db n)) → framed log_grows (call f).
Proof. intros Hf n. unfold call. apply same_events_log. specialize (Hf n). by destruct (f n). Qed.
#[local] Hint Resolve grows_catch : grows.

Lemma grows_add_user scrypt now salt username password role : framed log_grows (add_user scrypt now salt username password role).
Proof. unfold add_user. grow. Qed.
Lemma remove_user_events username n : db_events (n_db (remove_user username n).1) = db_events (n_db n).
Proof. unfold remove_user, delete_user. cbv zeta. by destruct (bool_decide _). Qed.
#[local] Hint Resolve grows_add_user : grows.

Lemma grows_event_batch env rq : framed log_grows (handle_event_batch env rq).
Proof. unfold handle_event_batch. grow. Qed.
Lemma grows_emit_local env rq : framed log_grows (handle_emit_local env rq).
Proof. unfold handle_emit_local, request_dict. grow. Qed.
Lemma framed_read {X} (R : relation Node) (m : NodeM X) : (∀ n, (m n).1 = n) → Reflexive R → framed R m.
Proof. intros Hm HR n. by rewrite Hm. Qed.

Lemma replace_incidents_events parse now items db db' : replace_incidents parse now items db = Ok db' → db_events db' = db_events db.
Proof. unfold replace_incidents. intros Hr. destruct (insert_incidents _ _ _ _ _); [|done]. by injection Hr as <-. Qed.
Lemma grows_incidents env rq : framed log_grows (handle_incidents env rq).
Proof.
  intros n. unfold handle_incidents. rewrite (bind_run _ _ n n n eq_refl). case_decide; [apply (framed_ret log_grows)|].
  assert ((request_json_or (JObj []) rq n).1 = n) as Hj.
  { unfold request_json_or. destruct (request_json rq); [|destruct (is_decode_error _)]; done. }
  destruct (request_json_or (JObj []) rq n) as [n1 [v|e]] eqn:Hr; simpl in Hj; subst n1; [|unfold mbind, nodem_bind; by rewrite Hr].
  rewrite (bind_run _ _ _ _ _ Hr). destruct (as_obj v) as [d|]; [|done]. rewrite (bind_run (lift (Ok d)) _ n n d eq_refl).
  destruct (jget d "items"); try apply (framed_ret log_grows).
  destruct (replace_incidents _ _ _ _) as [db|] eqn:Hdb; [|done].
  by apply same_events_log, (replace_incidents_events _ _ _ _ _ Hdb).
Qed.

Lemma grows_simple_reads :
  (∀ rq, framed log_grows (handle_gossip_frontier rq)) ∧ (∀ i rq, framed log_grows (handle_event_ancestry i rq)) ∧
  (∀ rq, framed log_grows (handle_frontier rq)) ∧ (∀ rq, framed log_grows (handle_dag rq)) ∧
  (∀ env rq, framed log_grows (handle_viz_graph env rq)) ∧ (∀ env rq, framed log_grows (handle_status env rq)) ∧
  (∀ env rq, framed log_grows (handle_metrics env rq)) ∧ (∀ rq, framed log_grows (handle_metrics_history rq)) ∧
  (∀ env rq, framed log_grows (handle_consensus_digest env rq)) ∧ (∀ env rq, framed log_grows (handle_notifier_status env rq)).
Proof.
  split_and!; intros; unfold handle_gossip_frontier, handle_event_ancestry, handle_frontier, handle_dag, handle_viz_graph, handle_status,
    handle_metrics, handle_metrics_history, handle_consensus_digest, handle_notifier_status; grow.
Qed.
Lemma grows_prometheus env rq : framed log_grows (handle_metrics_prometheus env rq).
Proof. unfold handle_metrics_prometheus, metrics_prometheus, build_extras. grow. Qed.
Lemma grows_checkpoint_propose env rq : framed log_grows (handle_checkpoint_propose env rq).
Proof. unfold handle_checkpoint_propose, request_json_or, bad_request_on_value_error. grow; apply grows_catch; grow. Qed.
Lemma grows_checkpoint_verify rq : framed log_grows (handle_checkpoint_verify rq).
Proof. unfold handle_checkpoint_verify. grow; apply grows_catch; grow. Qed.
Lemma grows_checkpoint_list rq : framed log_grows (handle_checkpoint_list rq).
Proof. unfold handle_checkpoint_list. grow. Qed.
Lemma grows_login env rq : framed log_grows (handle_login env rq).
Proof. unfold handle_login. grow. Qed.
Lemma grows_logout rq : framed log_grows (handle_logout rq).
Proof. unfold handle_logout. grow. Qed.
Lemma grows_me env rq : framed log_grows (handle_me env rq).
Proof. unfold handle_me. grow. Qed.
Lemma grows_users env rq : framed log_grows (handle_users_list rq) ∧ framed log_grows (handle_users_add env rq) ∧
  framed log_grows (handle_users_remove rq).
Proof.
  split_and!; unfold handle_users_list, handle_users_add, handle_users_remove, request_dict; grow.
  apply grows_call, remove_user_events.
Qed.
Lemma grows_decision d rq : (∀ a n, db_events (n_db (d a n).1) = db_events (n_db n)) → framed log_grows (handle_peer_decision d rq).
Proof. intros Hd. unfold handle_peer_decision, request_dict. grow. by apply grows_call. Qed.
Lemma grows_peer_decisions rq : framed log_grows (handle_peer_approve rq) ∧ framed log_grows (handle_peer_reject rq).
Proof. split; apply grows_decision; intros a n; [exact (run_op_events 0 (Approve a) n)|exact (run_op_events 0 (Reject a) n)]. Qed.
Lemma grows_register_peer env rq : framed log_grows (handle_register_peer env rq).
Proof. unfold handle_register_peer, request_dict. grow. Qed.
Lemma grows_update_peer_handler env rq : framed log_grows (handle_update_peer env rq).
Proof.
  unfold handle_update_peer, request_dict. grow; apply grows_call; intros n;
    match goal with |- context [node_update_peer ?now ?a ?e ?nt ?r ?i ?ap n] => exact (run_op_events now (Update a e nt r i ap) n) end.
Qed.
Lemma grows_remove_peer rq : framed log_grows (handle_remove_peer rq).
Proof.
  unfold handle_remove_peer, request_dict. grow. apply framed_modify. intros n. apply same_events_log.
  match goal with |- context [remove_peer ?a n] => exact (run_op_events 0 (Remove a) n) end.
Qed.
Lemma grows_peers rq : framed log_grows (handle_peers rq).
Proof. unfold handle_peers. grow. Qed.
Lemma grows_reconfigure_handler env rq : framed log_grows (handle_reconfigure env rq).
Proof. unfold handle_reconfigure. grow. Qed.
Lemma grows_catalog rq : framed log_grows (handle_catalog rq).
Proof. unfold handle_catalog. grow. Qed.
Lemma grows_catalog_policy env rq : framed log_grows (handle_catalog_policy env rq).
Proof. unfold handle_catalog_policy. grow; apply grows_catch; grow. Qed.
Lemma grows_simulate env rq : framed log_grows (handle_viz_simulate env rq).
Proof. unfold handle_viz_simulate. grow. Qed.
Lemma grows_stream rq : framed log_grows (handle_viz_stream rq).
Proof. unfold handle_viz_stream. grow. Qed.

Lemma grows_start_simulation w interval jitter token propagate : framed log_grows (start_simulation w interval jitter token propagate).
Proof. unfold start_simulation. grow. Qed.
Lemma grows_stop_simulation w token propagate : framed log_grows (stop_simulation w token propagate).
Proof. unfold stop_simulation. grow. Qed.
#[local] Hint Resolve grows_start_simulation grows_stop_simulation : grows.
Lemma grows_simulation_control env rq : framed log_grows (handle_viz_simulation_control env rq).
Proof. unfold handle_viz_simulation_control, control_start, control_stop, request_json_or. grow. Qed.

(** The route that removes events. *)
Definition removes_events (path : string) : Prop := path = "/viz/clear".
Definition route_grows (env : ApiEnv) (r : string * string * Handler) : Prop :=
  (r.1.2 = "/viz/clear" ∧ r.2 = handle_viz_clear env) ∨ ∀ rq, framed log_grows (r.2 rq).
Lemma grows_page name : framed log_grows (mret (html_page name) : NodeM Response).
Proof. apply framed_ret. apply _. Qed.

Lemma routes_grow env ui : Forall (route_grows env) (routes env ui).
Proof.
  destruct grows_simple_reads as (R1 & R2 & R3 & R4 & R5 & R6 & R7 & R8 & R9 & R10).
  unfold routes. apply Forall_app. split; [|destruct ui];
    repeat first [apply Forall_nil_2 | apply Forall_cons_2];
    first [ by left | right; intros rq; cbn [snd] ];
    first [ apply R1 | apply R3 | apply R4 | apply R5 | apply R6 | apply R7 | apply R8 | apply R9 | apply R10
          | apply grows_event_batch | apply grows_emit_local | apply grows_prometheus | apply grows_checkpoint_propose
          | apply grows_checkpoint_list | apply grows_checkpoint_verify | apply grows_peer_decisions | apply grows_register_peer
          | apply grows_update_peer_handler | apply grows_remove_peer | apply grows_peers | apply grows_reconfigure_handler
          | apply grows_login | apply grows_logout | apply grows_me | apply (grows_users env) | apply grows_catalog
          | apply grows_catalog_policy | apply grows_simulate | apply grows_simulation_control | apply grows_stream | apply grows_incidents | apply grows_page ].
Qed.

Lemma find_handler_cases env ui rq :
  (rq_path rq = "/viz/clear" ∧ find_handler env ui rq = handle_viz_clear env) ∨ framed log_grows (find_handler env ui rq rq).
Proof.
  destruct grows_simple_reads as (_ & R2 & _). unfold find_handler.
  destruct (ancestry_id _) as [i|]; [right; case_decide; [apply R2|apply framed_ret; apply _]|].
  destruct (List.find _ _) as [r|] eqn:Hf; [|right; destruct (existsb _ _); apply framed_ret; apply _].
  apply find_some in Hf as [Hin Heq%bool_decide_eq_true].
  pose proof (routes_grow env ui) as Hr. rewrite Forall_forall in Hr.
  apply list_elem_of_In, Hr in Hin as [Hx|Hx]; [|right; apply Hx].
  left. by rewrite Heq in Hx.
Qed.
Lemma find_handler_grows env ui rq : ¬ removes_events (rq_path rq) → framed log_grows (find_handler env ui rq rq).
Proof.
  intros Hp. by destruct (find_handler_cases env ui rq) as [[Hc _]|?].
Qed.

Lemma request_grows env rq n : ¬ removes_events (rq_path rq) → log_grows n (handle_request env rq n).1.
Proof.
  intros Hp. unfold handle_request. set (h := find_handler env _ rq).
  assert (framed log_grows (session_auth (ae_now env) (hmac_auth (ae_now env) h) rq)) as Hs
    by (apply (auth_framed log_grows); [done|by apply find_handler_grows]).
  specialize (Hs n). by destruct (session_auth _ _ _ n) as [n1 [x|e]].
Qed.

(** ** Background loops *)
Lemma send_all_events env selected envs s : db_events (send_all env selected envs s).1.1 = db_events s.1.
Proof. apply send_all_store. Qed.
Lemma tick_events env s : db_events (ts_db (tick env s).1) = db_events (ts_db s).
Proof.
  unfold tick. destruct (collect_pending _ _ _ _ _ _) as [g [envs|e]]; [|done]. unfold tick_send. cbn [ts_db ts_metrics].
  repeat (case_bool_decide; [done|]). destruct (select_peers env) as [selected|]; [|done].
  match goal with |- context [send_all env selected ?envs ?s] => pose proof (send_all_events env selected envs s) as Hs;
    by destruct (send_all env selected envs s) as [[db m] sent] end.
Qed.
Lemma grows_gossip w sample : framed log_grows (gossip_iteration w sample).
Proof.
  intros n. unfold gossip_iteration. destruct (n_gossip n) as [g|]; [|done].
  match goal with |- context [tick ?env ?s] => pose proof (tick_events env s) as Hs; destruct (tick env s) as [s' r] end.
  by apply same_events_log.
Qed.

Lemma collector_grows w answer events r s n : log_grows n (collector_pass w answer events r s n).1.1.
Proof.
  revert r s n. induction events as [|e events IH]; intros r s n; cbn [collector_pass]; [done|].
  destruct (negb _); [apply IH|]. destruct (negb _); [apply IH|]. destruct (event_class_for _ _); [|done].
  destruct (ar_enabled _); [apply IH|]. pose proof (grows_emit w a (to_payload e) n) as He.
  destruct (emit_event _ _ _ n) as [n1 [em|x]]; [|done]. etrans; [exact He|apply IH].
Qed.
Lemma ingest_payloads_grows w payloads s n : log_grows n (ingest_payloads w payloads s n).1.
Proof.
  revert s n. induction payloads as [|p payloads IH]; intros s n; cbn [ingest_payloads]; [done|].
  pose proof (grows_emit w A p n) as He. destruct (emit_event _ _ _ n) as [n1 [em|x]]; [|done]. etrans; [exact He|apply IH].
Qed.
Lemma linux_ingest_grows w poll s n : log_grows n (linux_ingest_pass w poll s n).1.
Proof. unfold linux_ingest_pass. cbv zeta. destruct poll; [apply ingest_payloads_grows|done]. Qed.
Lemma metrics_history_grows w n : log_grows n (metrics_history_pass w n).
Proof.
  apply same_events_log. unfold metrics_history_pass, prune_metrics_history. cbv zeta. by destruct (_ <=? 0).
Qed.
Lemma hourly_grows w hh collectors hw n : log_grows n (emit_hourly_status w hh collectors hw n).1.
Proof.
  unfold emit_hourly_status. cbv zeta. pose proof (grows_emit w B (hourly_payload (w_now w) hh collectors hw n) n) as He.
  by destruct (emit_event _ _ _ n) as [n1 [em|x]].
Qed.
Lemma discovery_grows now peers d n : log_grows n (discovery_pass now peers d n).2.
Proof.
  revert d n. induction peers as [|p peers IH]; intros d n; cbn [discovery_pass]; [done|]. destruct (is_new_peer d p); [|apply IH].
  etrans; [|apply IH]. apply same_events_log. exact (run_op_events now (Discover (dp_address p) (dp_node_id p) (discovery_kind (di_kind d))) n).
Qed.

Lemma simulation_grows w choice x n : log_grows n (simulation_step w choice x n).
Proof.
  unfold simulation_step. destruct (simulation_running n); [|done]. destruct (sm_stop _); [by apply same_events_log|].
  destruct (_ !! choice) as [[key entry]|]; [|by apply same_events_log].
  pose proof (grows_emit w (ce_class entry) (scenario_payload x key entry) n) as He.
  destruct (emit_event _ _ _ n) as [n1 [em|e]]; [done|]. etrans; [exact He|by apply same_events_log].
Qed.

(** ** The node at work

    Everything that runs on a node: the operations of [node_step], every request
    it serves, its start and stop, an iteration of each of its loops.  Retention
    and the route of [removes_events] are left out. *)
Inductive internal_step : Node → Node → Prop :=
  | run_node n n' : node_step n n' → internal_step n n'
  | run_start w status_of n : internal_step n (node_start w status_of n).1
  | run_stop w n : internal_step n (node_stop w n).1
  | run_gossip w sample n : internal_step n (gossip_iteration w sample n).1
  | run_monitor now digest_of n : internal_step n (monitor_round now digest_of n).1
  | run_collector w answer events r s n : internal_step n (collector_pass w answer events r s n).1.1
  | run_linux_ingest w poll s n : internal_step n (linux_ingest_pass w poll s n).1
  | run_metrics_history w n : internal_step n (metrics_history_pass w n)
  | run_hourly w hh collectors hw n : internal_step n (emit_hourly_status w hh collectors hw n).1
  | run_simulation w choice x n : internal_step n (simulation_step w choice x n)
  | run_discovery now peers d n : internal_step n (discovery_pass now peers d n).2.
(** With what takes in the data of others. *)
Inductive runtime_step : Node → Node → Prop :=
  | run_internal n n' : internal_step n n' → runtime_step n n'
  | run_request env rq n : ¬ removes_events (rq_path rq) → runtime_step n (handle_request env rq n).1
  | run_frontier w choose net n : runtime_step n (frontier_sync_once w choose net n).1.

Lemma runtime_step_grows n n' : runtime_step n n' → log_grows n n'.
Proof.
  intros [? ? Hs| |]; [destruct Hs|by apply request_grows|apply grows_frontier_sync]; first
    [ by apply node_step_grows | apply collector_grows | apply linux_ingest_grows
    | apply metrics_history_grows | apply hourly_grows | apply discovery_grows | apply simulation_grows | apply grows_node_start | apply grows_node_stop
    | apply grows_gossip | apply grows_monitor ].
Qed.

Lemma runtime_grows n n' : rtc runtime_step n n' → log_grows n n'.
Proof. intros Hr. induction Hr as [n|a b c Hab _ IH]; [done|]. etrans; [by apply runtime_step_grows|done]. Qed.

(** C1: the registry is append only: along every run of a node, whatever HTTP requests
    it serves, whatever its loops do and its peers answer, short of clearing and
    retention, and also when operations raise, no stored event is lost, reordered
    or changed in its evidence (id, class, source, time, clock, parents, payload,
    signature). *)
Theorem registry_append_only (n n' : Node) :
  rtc runtime_step n n' → evidence_log (n_db n) `prefix_of` evidence_log (n_db n').
Proof. intros Hr%runtime_grows. by apply log_grows_prefix. Qed.

(** ** Types survive everything *)
Definition keeps_typed (n n' : Node) : Prop := events_typed (n_db n) → events_typed (n_db n').
#[export] Instance keeps_typed_preorder : PreOrder keeps_typed.
Proof. split; [intros n Ht; exact Ht|]. intros a b c H1 H2 Ht. exact (H2 (H1 Ht)). Qed.
Lemma rows_step_typed rows rows' : rtc (rows_step anything) rows rows' →
  (∀ r, r ∈ rows → row_typed r = true) → ∀ r, r ∈ rows' → row_typed r = true.
Proof.
  induction 1 as [|a b c Hab _ IH]; [done|]. intros Ht. apply IH. destruct Hab as [now env ts db|states db].
  - exact (run_store_typed (OpStore now env ts) db Ht).
  - exact (run_store_typed (OpStates states) db Ht).
Qed.
Lemma grows_typed n n' : log_grows n n' → keeps_typed n n'.
Proof. intros Hg Ht. exact (rows_step_typed _ _ Hg Ht). Qed.
Lemma typed_weaken {X} (m : NodeM X) : framed log_grows m → framed keeps_typed m.
Proof. apply framed_weaken, grows_typed. Qed.

Lemma typed_clear env rq : framed keeps_typed (handle_viz_clear env rq).
Proof.
  assert (framed keeps_typed (clear_events_local (ae_world env))) as Hc.
  { unfold clear_events_local. frame_step; [intros n _ r Hr; by apply elem_of_nil in Hr|].
    apply typed_weaken. grow. }
  unfold handle_viz_clear, viz_clear, request_json_or, node_clear_events.
  repeat first [ exact Hc | frame_step | solve [apply typed_weaken; grow] | progress cbv zeta | case_match ].
Qed.
Lemma request_typed env rq n : keeps_typed n (handle_request env rq n).1.
Proof.
  unfold handle_request. set (h := find_handler env _ rq).
  assert (framed keeps_typed (h rq)) as Hh.
  { destruct (find_handler_cases env (cfg_ui_enabled (n_config n)) rq) as [[_ Hc]|Hc]; [|by apply typed_weaken].
    unfold h. rewrite Hc. apply typed_clear. }
  pose proof (auth_framed keeps_typed env h rq grows_typed Hh n) as Hs. by destruct (session_auth _ _ _ n) as [n1 [x|e]].
Qed.
Lemma retention_typed now n : keeps_typed n (run_retention_once now n).1.
Proof.
  intros Ht. unfold run_retention_once. destruct (negb _); [done|]. destruct (latest_confirmed_checkpoint _) as [c|]; [|done]. cbv zeta.
  match goal with |- context [prune_under_checkpoint ?r ?a ?k ?t ?db] => pose proof (run_store_typed (OpPrune r a k t) db Ht) as Hp;
    cbn [run_store] in Hp; by destruct (prune_under_checkpoint r a k t db) end.
Qed.

(** Everything, clearing and retention included, as long as the data that comes in
    has the declared types: a request whose body holds an event field, a token or an
    address of another type, and an answer of a peer that does, leave the model. *)
Inductive life_step : Node → Node → Prop :=
  | life_internal n n' : internal_step n n' → life_step n n'
  | life_request env rq n : rs_status (handle_request env rq n).2 ≠ OUTSIDE_MODEL → life_step n (handle_request env rq n).1
  | life_frontier w choose net n : in_model (frontier_sync_once w choose net n).2 = true →
      life_step n (frontier_sync_once w choose net n).1
  | life_retention now n : life_step n (run_retention_once now n).1.
Lemma life_typed n n' : rtc life_step n n' → keeps_typed n n'.
Proof.
  induction 1 as [|a b c Hab _ IH]; [done|]. etrans; [|exact IH]. destruct Hab as [a b Hab|env rq a _|w choose net a _|now a].
  - by apply grows_typed, runtime_step_grows, run_internal.
  - by apply request_typed.
  - apply grows_typed, grows_frontier_sync.
  - apply retention_typed.
Qed.

(** C3: the registry stays readable: however long a node runs, with clearing and
    retention, as long as the events it is sent have the field types the dataclass
    declares, every row of the events table keeps the column types of the schema, so
    no query on events raises, and the frontier, the ancestry of any event and the
    graph are always answered. *)
Theorem registry_always_readable (n n' : Node) :
  events_typed (n_db n) → rtc life_step n n' →
  let db := n_db n' in
  events_typed db ∧
  (∀ i, is_ok (get_event i db) = true ∧ is_ok (get_envelope i db) = true) ∧
  (∀ s, is_ok (latest_event_by_source s db) = true) ∧
  (∀ limit newer, is_ok (list_events limit newer db) = true) ∧ is_ok (all_events db) = true ∧
  (∀ rq, is_ok (handle_gossip_frontier rq n').2 = true) ∧
  (∀ i rq, is_ok (handle_event_ancestry i rq n').2 = true) ∧
  (∀ env rq, is_ok (handle_viz_graph env rq n').2 = true).
Proof.
  intros Ht Hr db. assert (events_typed db) as Hd by by apply (life_typed n n').
  destruct (is_ok_inv _ (typed_all_events db Hd)) as [events He].
  split_and!; [done| | | | | | |]; intros; try split;
    first [by apply typed_get_event | by apply typed_get_envelope | by apply typed_latest | by apply typed_list_events | by rewrite He | idtac].
  - unfold handle_gossip_frontier. rewrite (bind_run _ _ n' n' n' eq_refl). unfold lift, mbind, nodem_bind, local_frontier. fold db. by rewrite He.
  - destruct (is_ok_inv _ (ancestry_loop_total db (clamp_depth (query_int rq "depth" 64)) [i] ∅ Hd)) as [out Ho].
    change (ancestry (query_int rq "depth" 64) i (n_db n') = Ok out) in Ho.
    unfold handle_event_ancestry. rewrite (bind_run _ _ n' n' n' eq_refl). unfold lift, mbind, nodem_bind. by rewrite Ho.
  - unfold handle_viz_graph. rewrite (bind_run _ _ n' n' n' eq_refl). unfold lift, mbind, nodem_bind. fold db. by rewrite He.
Qed.
End runs.

(** A request and an emission. *)
Definition sample_request : Request :=
  post "/event/emit" [] (JObj [("event_kind", JStr "portscan"); ("payload", JObj [("port", JInt 22)])]).
Lemma registry_append_only_witness :
  let n1 := (@handle_request frac_format sample_env sample_request busy_node).1 in
  let n2 := (@node_stop frac_format sample_world n1).1 in
  rtc (@runtime_step frac_format) busy_node n2 ∧
  evidence_log (n_db busy_node) `prefix_of` evidence_log (n_db n2).
Proof.
  intros n1 n2.
  assert (rtc (@runtime_step frac_format) busy_node n2) as Hr.
  { refine (rtc_l _ busy_node n1 n2 (run_request sample_env sample_request busy_node _) _).
    - discriminate.
    - exact (rtc_l _ n1 n2 n2 (run_internal _ _ (run_stop sample_world n1)) (rtc_refl _ n2)). }
  split; [exact Hr|]. exact (@registry_append_only frac_format busy_node n2 Hr).
Defined.

Lemma registry_always_readable_witness :
  let n0 := @new_node frac_format 1 sample_config (mkCatalog EVENT_CATALOG []) empty_db in
  let n1 := (@handle_request frac_format sample_env sample_request n0).1 in
  let n2 := (@handle_request frac_format sample_env (post "/viz/clear" [] (JObj [])) n1).1 in
  events_typed (n_db n0) ∧ rtc (@life_step frac_format) n0 n2 ∧
  let db := n_db n2 in
  events_typed db ∧
  (∀ i, is_ok (get_event i db) = true ∧ is_ok (get_envelope i db) = true) ∧
  (∀ s, is_ok (latest_event_by_source s db) = true) ∧
  (∀ limit newer, is_ok (list_events limit newer db) = true) ∧ is_ok (all_events db) = true ∧
  (∀ rq, is_ok (@handle_gossip_frontier rq n2).2 = true) ∧
  (∀ i rq, is_ok (@handle_event_ancestry i rq n2).2 = true) ∧
  (∀ env rq, is_ok (@handle_viz_graph frac_format env rq n2).2 = true).
Proof.
  intros n0 n1 n2.
  assert (events_typed (n_db n0)) as Ht by (apply typed_check; vm_compute; reflexivity).
  assert (rs_status (@handle_request frac_format sample_env sample_request n0).2 ≠ OUTSIDE_MODEL) as H1 by (vm_compute; discriminate).
  assert (rs_status (@handle_request frac_format sample_env (post "/viz/clear" [] (JObj [])) n1).2 ≠ OUTSIDE_MODEL) as H2 by (vm_compute; discriminate).
  assert (rtc (@life_step frac_format) n0 n2) as Hr.
  { refine (rtc_l _ n0 n1 n2 (life_request sample_env sample_request n0 H1) _).
    refine (rtc_l _ n1 n2 n2 (life_request sample_env (post "/viz/clear" [] (JObj [])) n1 H2) (rtc_refl _ n2)). }
  split; [exact Ht|]. split; [exact Hr|]. exact (@registry_always_readable frac_format n0 n2 Ht Hr).
Defined.

(** An event whose [lamport_ts] is a string: the sources store it, the model stops. *)
Definition mistyped_batch : Request :=
  let event := match @Event_to_dict example_event with JObj d => JObj (dset d "lamport_ts" (JStr "x")) | v => v end in
  post "/event/batch" [] (JArr [JObj [("event", event); ("path_meta", JArr [])]]).
Example mistyped_leaves_model :
  rs_status (@handle_request frac_format sample_env mistyped_batch sample_node).2 = OUTSIDE_MODEL ∧
  event_ids (n_db (@handle_request frac_format sample_env mistyped_batch sample_node).1) = event_ids (n_db sample_node).
Proof. vm_compute. done. Qed.

(** After an exception has ended the demo generator, the command that stops it answers
    500. *)
Example failed_demo_stop :
  let n := set_n_simulation (mkSimulation (Some (Some (Err (KeyError "peer")))) true (JStr "t")) sample_node in
  let rq := post "/viz/simulation/control" [] (JObj [("action", JStr "stop")]) in
  let '(n', r) := @handle_request frac_format sample_env rq n in
  rs_status r = 500 ∧ simulation_running n = false ∧ sim_abs n' = Off.
Proof. vm_compute. done. Qed.
