(* ===== verification/HostEvidence.v ===== *)
(** The authentication log and the registry together: one iteration of the node's
    log loop, from the bytes of the log to the rows of the registry. *)
From S2P Require Import Prelude Sha256 Json VectorClock Models Consensus Storage StorageFacts StorageTypes Config Metrics Prioritization Gossip Checkpoint Auth Catalog Node NodeLogic NodeEvents NodeEventsFacts NodeCheckpoints NodeEvidence AgentRelay Notifier NodeLoops NodeSync Api NodeRuns Regex Collectors AuthLog AuthLogLines AuthLogFacts.

Section host.
Context `{FloatFormat} (cal : Calendar) (acc : Accounts) (tx : AuthTexts) (decode : bytes → string).

(** [Node._linux_ingest_loop]: the reader is polled, then its payloads are emitted. *)
Definition linux_ingest_iteration (w : World) (env : PollEnv) (g : Ingestor) (s : LinuxIngestStatus) (n : Node)
    : Ingestor * Node * LinuxIngestStatus :=
  let '(g, r) := poll (cfg_linux_ingest (n_config n)) (node_id n) cal acc tx decode env g in
  let '(n, s) := linux_ingest_pass w r s n in
  (g, n, s).

Lemma parse_lines_reports cfg nid now dt ls off raw R : (off, raw) ∈ ls →
  (∀ g, (parse_line cfg nid cal acc tx (decode raw) off now (dt off) g).2 = R) →
  ∀ g g' evs, parse_lines cfg nid cal acc tx decode now dt ls g = (g', Ok evs) → ∃ o, R = Ok o ∧ ∀ p, o = Some p → p ∈ evs.
Proof.
  intros Hin HR. induction ls as [|[off' raw'] ls IH]; [by inversion Hin|]. intros g g' evs. cbn [parse_lines].
  destruct (parse_line _ _ _ _ _ (decode raw') off' now (dt off') g) as [g1 [o|e]] eqn:Hl; [|done].
  destruct (parse_lines _ _ _ _ _ _ now dt ls g1) as [g2 [evs'|e]] eqn:Hr; [|done]. intros [= <- <-].
  apply elem_of_cons in Hin as [[= <- <-]|Hin].
  - specialize (HR g). rewrite Hl in HR. exists o. split; [done|]. intros p ->. left.
  - destruct (IH Hin g1 g2 evs' Hr) as (o' & -> & Hp). exists o'. split; [done|]. intros p Hs. apply elem_of_app. right. by apply Hp.
Qed.
Lemma ingest_payloads_emit w ps : ∀ s n, let '(n', s') := ingest_payloads w ps s n in
  ls_last_error s' = None → ∀ p, p ∈ ps → ∃ n1 n2 em, emit_event w A p n1 = (n2, Ok em) ∧ log_grows n2 n'.
Proof.
  induction ps as [|q ps IH]; intros s n; cbn [ingest_payloads]; [intros _ p Hp; by inversion Hp|].
  destruct (emit_event w A q n) as [n1 [em|e]] eqn:He; [|done].
  specialize (IH (if em_stored em then ingest_emitted (w_now w) s else s) n1).
  pose proof (ingest_payloads_grows w ps (if em_stored em then ingest_emitted (w_now w) s else s) n1) as Hg.
  destruct (ingest_payloads w ps _ n1) as [n' s']. intros Hs p [->|Hp]%elem_of_cons; [|by apply IH].
  exists n, n1, em. done.
Qed.

(** C24: When an iteration of the log loop ends without an error, every successful login
    of a privileged user among the lines it read is a class A event of the registry,
    with the user and the address that sshd wrote. *)
Theorem login_becomes_evidence w env g s n v next ls off raw st l port scope :
  let n' := (linux_ingest_iteration w env g s n).1.2 in
  let s' := (linux_ingest_iteration w env g s n).2 in
  pe_file env = Some v → lines_read v g = Ok (next, ls) → (off, raw) ∈ ls →
  decode raw = login_line st l → login_ok l → stamp_ok st → int_of_str (lg_port l) = Some port →
  privilege_scope (cfg_linux_ingest (n_config n)) acc (lg_user l) = Some scope →
  ls_last_error s' = None →
  ∃ e, ev_id e ∈ event_ids (n_db n') ∧ ev_cls e = A ∧
    jget (ev_payload e) "event_kind" = JStr "admin_ssh_login_success" ∧
    jget (ev_payload e) "principal" = JStr (lg_user l) ∧ jget (ev_payload e) "source_ip" = JStr (lg_ip l) ∧
    jget (ev_payload e) "raw_ref" = JStr (raw_ref (cfg_linux_ingest (n_config n)) off).
Proof.
  cbv zeta. unfold linux_ingest_iteration. set (cfg := cfg_linux_ingest (n_config n)).
  destruct (poll cfg (node_id n) cal acc tx decode env g) as [g' r] eqn:Hpoll.
  destruct (linux_ingest_pass w r s n) as [n' s'] eqn:Hpass. cbn [fst snd].
  intros Hfile Hread Hin Hdec Hl Hst Hport Hpriv Herr.
  unfold linux_ingest_pass in Hpass. destruct r as [evs|e]; [|injection Hpass as <- <-; done].
  unfold poll in Hpoll. rewrite Hfile, Hread in Hpoll.
  destruct (parse_lines _ _ _ _ _ _ (pe_now env) (pe_dt_now env) ls g) as [g1 [evs1|e]] eqn:Hparse; [|done].
  destruct (pe_save env) as [[]|e]; [|done]. cbn in Hpoll. injection Hpoll as _ ->.
  destruct (parse_lines_reports cfg (node_id n) (pe_now env) (pe_dt_now env) ls off raw
    (parse_accepted cfg (node_id n) cal acc tx (stamp_groups st ++ login_groups l) (stamp_is_iso st) (login_line st l) off (pe_now env)
       (pe_dt_now env off)) Hin) with (g := g) (g' := g1) (evs := evs) as (o & HR & Hp); [|done|].
  { intros g2. rewrite Hdec, login_line_parsed by done. done. }
  pose proof (parse_accepted_login cfg (node_id n) cal acc tx st l off (pe_now env) (pe_dt_now env off) port Hport) as Hres.
  unfold login_result in Hres. fold cfg in Hpriv. rewrite HR, Hpriv in Hres.
  destruct (stamp_time cal st (pe_dt_now env off)) as [t|e]; [|done].
  destruct Hres as (p & ctx & [= ->] & H1 & H2 & H3 & _ & _ & H4 & _).
  pose proof (ingest_payloads_emit w evs (ingest_error None (ingest_polled (w_now w) s)) n) as Hem. rewrite Hpass in Hem.
  destruct (Hem Herr p (Hp p eq_refl)) as (n1 & n2 & em & He & Hg).
  apply emit_event_run in He as (E1 & E2 & _ & _ & E5 & _). exists (em_event em). rewrite E2.
  split; [by eapply grows_ids|]. done.
Qed.
End host.

(** ** A login on a concrete host *)
Definition root_login : Login := mkLogin "srv1" "4242" "password" "root" "10.0.0.7" "52022" " ssh2".
Definition root_line : string := login_line (example_iso "05") root_login.
Definition fresh_ingest_status : LinuxIngestStatus := mkIngestStatus true "auth_log_file" (Some "/var/log/auth.log") None None None None 0.
Definition root_env : PollEnv := example_env (noise_line ++ log_line root_line) (Ok ()).
#[local] Abbreviation root_iteration :=
  (@linux_ingest_iteration frac_format example_calendar example_accounts example_texts ascii_decode sample_world root_env no_refusals
    fresh_ingest_status busy_node).
Lemma root_login_ok : login_ok root_login.
Proof. repeat split; discriminate. Qed.
Lemma login_becomes_evidence_witness :
  ls_last_error root_iteration.2 = None ∧
  ∃ e, ev_id e ∈ event_ids (n_db root_iteration.1.2) ∧ ev_cls e = A ∧
    jget (ev_payload e) "event_kind" = JStr "admin_ssh_login_success" ∧
    jget (ev_payload e) "principal" = JStr (lg_user root_login) ∧ jget (ev_payload e) "source_ip" = JStr (lg_ip root_login) ∧
    jget (ev_payload e) "raw_ref" = JStr (raw_ref (cfg_linux_ingest (n_config busy_node)) (Z.of_nat (length noise_line))).
Proof.
  assert (ls_last_error root_iteration.2 = None) as Herr by (vm_compute; reflexivity). split; [exact Herr|].
  apply (@login_becomes_evidence frac_format example_calendar example_accounts example_texts ascii_decode sample_world root_env no_refusals
    fresh_ingest_status busy_node (mkLogView 7 (Z.of_nat (length (noise_line ++ log_line root_line))) (Ok (noise_line ++ log_line root_line)))
    (Z.of_nat (length (noise_line ++ log_line root_line)))
    (read_lines 0 0 [] (noise_line ++ log_line root_line)) (Z.of_nat (length noise_line)) (ascii_encode root_line) (example_iso "05") root_login
    52022 "root").
  - reflexivity.
  - vm_compute. reflexivity.
  - apply (bool_decide_unpack _). vm_compute. exact I.
  - vm_compute. reflexivity.
  - apply root_login_ok.
  - apply example_stamps_ok.
  - reflexivity.
  - reflexivity.
  - exact Herr.
Defined.
