(* ===== verification/Cli.v ===== *)
(** [mdrj/cli.py]: the commands of the operator.

    A command is a computation on the state it works on (the server it talks to, or
    the database it opens) that prints and ends normally, by [typer.Exit] or by an
    exception.  The server is a parameter.  Options arrive parsed, the configuration
    file as its address. *)
From S2P Require Import Prelude Sha256 Json VectorClock Models Consensus Storage Config Metrics Prioritization Gossip Checkpoint Auth Catalog Node NodeEvents NodeCheckpoints NodeSync JsonText JsonParse AgentRelay Notifier.

(** ** Commands *)
Inductive Output := Text (s : string) | Json (v : json).
Inductive Ending := Exit (code : Z) | Raised (e : exn).
Definition Cli (S X : Type) : Type := S → S * (list Output * (X + Ending)).
#[export] Instance cli_ret {S} : MRet (Cli S) := λ X x s, (s, ([], inl x)).
#[export] Instance cli_bind {S} : MBind (Cli S) := λ X Y f m s,
  match m s with
  | (s, (out, inl x)) => let '(s, (out', r)) := f x s in (s, (out ++ out', r))
  | (s, (out, inr e)) => (s, (out, inr e))
  end.
Definition echo {S} (o : Output) : Cli S unit := λ s, (s, ([o], inl tt)).
Definition finish {S X} (e : Ending) : Cli S X := λ s, (s, ([], inr e)).
Definition cli_lift {S X} (r : result X) : Cli S X := λ s,
  (s, ([], match r with Ok x => inl x | Err e => inr (Raised e) end)).
(** What the shell sees: an exception that nothing caught ends the process with 1. *)
Definition exit_status {X} (r : X + Ending) : Z :=
  match r with inl _ => 0 | inr (Exit code) => code | inr (Raised _) => 1 end.

(** ** Calling a node *)
Fixpoint rstrip_slash (s : string) : string :=
  match s with
  | EmptyString => ""
  | String c s' => match rstrip_slash s' with
                   | EmptyString => if decide (c = "/"%char) then "" else String c ""
                   | t => String c t
                   end
  end.
Definition base_url (listen : string) (override : option string) : string :=
  let target := str_or_opt override listen in
  if String.prefix "http://" target || String.prefix "https://" target then rstrip_slash target
  else "http://" +:+ rstrip_slash target.

Inductive HttpCall := GetJson (url : string) | PostJson (url : string) (payload : json).
(** The answer to a call: its status, and its body when it is JSON; connecting may
    raise. *)
Definition Server (S : Type) : Type := HttpCall → S → S * result (Z * option json).

Section api_commands.
Context {S : Type} (server : Server S).

(** [resp.raise_for_status()], then [await resp.json()]. *)
Definition http_call (c : HttpCall) : Cli S json := λ s,
  let '(s, answer) := server c s in
  (s, ([], match answer with
           | Err e => inr (Raised e)
           | Ok (status, body) =>
               if 400 <=? status then inr (Raised (OtherError "ClientResponseError"))
               else match body with Some v => inl v | None => inr (Raised (OtherError "ContentTypeError")) end
           end)).
Definition post_json (url : string) (payload : json) : Cli S json := http_call (PostJson url payload).
Definition get_json (url : string) : Cli S json := http_call (GetJson url).

Context (listen : string).

(** [payload] is the text of the file. *)
Definition cli_emit (cls : EventClass) (payload : option string) (api : option string) : Cli S unit :=
  data ← match payload with
         | Some text => cli_lift (result_of_option (ValueError "JSONDecodeError") (json_parse text))
         | None => mret (M:=Cli S) (JObj [])
         end;
  let url := base_url listen api +:+ "/event/emit" in
  result ← post_json url (JObj [("cls", JStr (EventClass_value cls)); ("payload", data)]);
  echo (Json result).
Definition cli_add_peer (addr : string) (api : option string) : Cli S unit :=
  result ← post_json (base_url listen api +:+ "/peers/register") (JObj [("address", JStr addr)]); echo (Json result).
Definition get_and_print (path : string) (api : option string) : Cli S unit :=
  result ← get_json (base_url listen api +:+ path); echo (Json result).
Definition cli_list_peers : option string → Cli S unit := get_and_print "/peers".
Definition metrics_once : option string → Cli S unit := get_and_print "/metrics".
Definition cli_status : option string → Cli S unit := get_and_print "/status".
Definition cli_dag : option string → Cli S unit := get_and_print "/dag".

(** [samples] iterations of the loop. *)
Fixpoint watch_loop (url : string) (samples : nat) : Cli S unit :=
  match samples with
  | O => mret tt
  | Datatypes.S k => metrics ← get_json url; echo (Json metrics);; watch_loop url k
  end.
(** Without a count the loop runs until it is interrupted, after [interrupted] samples. *)
Definition metrics_watch (count : option Z) (interrupted : nat) (api : option string) : Cli S unit :=
  let url := base_url listen api +:+ "/metrics" in
  watch_loop url (match count with Some c => Z.to_nat c | None => interrupted end).

Definition checkpoint_propose (round_received : option Z) (api : option string) : Cli S unit :=
  let payload := match round_received with None => JObj [] | Some r => JObj [("round_received", JInt r)] end in
  result ← post_json (base_url listen api +:+ "/checkpoint/propose") payload; echo (Json result).
Definition checkpoint_list (status : option string) (limit : Z) (api : option string) : Cli S unit :=
  let qs := (match status with Some s => if decide (s = "") then [] else ["status=" +:+ s] | None => [] end)
            ++ ["limit=" +:+ py_str_int limit] in
  result ← get_json (base_url listen api +:+ "/checkpoint/list?" +:+ py_join "&" qs); echo (Json result).
Definition checkpoint_verify (round_received : Z) (api : option string) : Cli S unit :=
  result ← get_json (base_url listen api +:+ "/checkpoint/verify?round_received=" +:+ py_str_int round_received);
  echo (Json result);;
  match result with
  | JObj d => if py_bool (jget d "has_tamper_evidence") then finish (Exit 2) else mret tt
  | _ => finish (Raised (OtherError "object has no attribute 'get'"))
  end.

(** The commands that ask a node. *)
Inductive ApiCommand :=
  | CEmit (cls : EventClass) (payload : option string)
  | CPeersAdd (addr : string)
  | CPeersList
  | CMetrics
  | CStatus
  | CDag
  | CMetricsWatch (count : option Z) (interrupted : nat)
  | CCheckpointPropose (round_received : option Z)
  | CCheckpointList (status : option string) (limit : Z)
  | CCheckpointVerify (round_received : Z).
Definition run_command (c : ApiCommand) (api : option string) : Cli S unit :=
  match c with
  | CEmit cls payload => cli_emit cls payload api
  | CPeersAdd addr => cli_add_peer addr api
  | CPeersList => cli_list_peers api
  | CMetrics => metrics_once api
  | CStatus => cli_status api
  | CDag => cli_dag api
  | CMetricsWatch count interrupted => metrics_watch count interrupted api
  | CCheckpointPropose r => checkpoint_propose r api
  | CCheckpointList status limit => checkpoint_list status limit api
  | CCheckpointVerify r => checkpoint_verify r api
  end.
End api_commands.

Definition demo_partition {S} (groups : string) : Cli S unit :=
  echo (Text ("Partition simulation is cooperative. Use OS firewall (e.g., iptables) or container networks" +:+ newline +:+
              "Example: iptables -A OUTPUT -p tcp --dport <port-group> -j DROP"));;
  echo (Text ("Target partition groups: " +:+ groups)).
Definition demo_heal {S} : Cli S unit := echo (Text "Remove previously applied firewall rules to heal the cluster.").

(** ** Users, on the database of the node *)
Section users.
Context (scrypt : bytes → bytes → Z → Z → Z → Z → result bytes).

(** [prompt]: what is typed when the option is missing. *)
Definition users_add (now : Q) (salt : bytes) (prompt username role : string) (password : option string) : Cli DB unit :=
  let password := default prompt password in
  password_hash ← cli_lift (hash_password scrypt salt password);
  (λ db, (upsert_user now (py_lower (py_strip username)) password_hash (normalize_role role) db, ([], inl tt)));;
  echo (Text ("User " +:+ username +:+ " added/updated with role=" +:+ normalize_role role)).
Definition users_list : Cli DB unit := λ db,
  (db, ([Json (JArr ((λ u : string * UserRow, JObj [("username", JStr u.1); ("role", JStr (us_role u.2));
    ("created_at", JFloat (us_created_at u.2))]) <$> list_users db))], inl tt)).
Definition users_remove (username : string) : Cli DB unit := λ db,
  let '(db, removed) := delete_user (py_lower (py_strip username)) db in
  (db, ([Text (if (removed : bool) then "removed" else "not found")], inl tt)).
End users.

(** ** Running a node *)
Section running.
Context `{FloatFormat}.

(** [_run_node]: start, serve until a signal ([served] is what the node does until
    then), stop. *)
Definition run_node (w stop_w : World) (status_of : string → option json) (served : Node → Node) : Cli Node unit := λ n,
  match node_start w status_of n with
  | (n, Err e) => (n, ([], inr (Raised e)))
  | (n, Ok _) =>
      let started := Text ("Node " +:+ cfg_node_id (n_config n) +:+ " started on " +:+ cfg_listen (n_config n)) in
      match node_stop stop_w (served n) with
      | (n, Err e) => (n, ([started], inr (Raised e)))
      | (n, Ok _) => (n, ([started; Text "Node stopped"], inl tt))
      end
  end.
(** The command [node]: a new process on the node's database. *)
Definition cli_node (now : Q) (config : NodeConfig) (catalog : Catalog) (w stop_w : World) (status_of : string → option json)
    (served : Node → Node) (db : DB) : Node * (list Output * (unit + Ending)) :=
  run_node w stop_w status_of served (new_node now config catalog db).
End running.
