(* ===== verification/CliFacts.v ===== *)
(** Theorems about the commands: what [checkpoint verify] tells the shell, what [emit]
    records, which commands a node with users still answers, and users added on the
    database. *)
From S2P Require Import Prelude Sha256 Json VectorClock Models Consensus Storage StorageFacts Config Metrics Prioritization Gossip Checkpoint Auth Catalog Node NodeLogic NodeEvents NodeEventsFacts NodeCheckpoints NodeEvidence NodeCheckpointsFacts NodeSync NodeSyncFacts JsonText JsonParse AgentRelay Notifier Regex Archive ArchiveFacts Api ApiFacts Cli.

(** ** Texts *)
Lemma py_lstrip_visible c s : py_isspace c = false → py_lstrip (String c s) = String c s.
Proof. intros Hc. cbn [py_lstrip]. by rewrite Hc. Qed.
Lemma py_strip_visible s : all_chars (λ c, negb (py_isspace c)) s = true → py_strip s = s.
Proof.
  intros Hs. unfold py_strip.
  assert (∀ t, all_chars (λ c, negb (py_isspace c)) t = true → py_lstrip t = t) as Hl.
  { intros [|c t]; [done|]. unfold all_chars. cbn [String.list_ascii_of_string forallb]. intros [Hc%negb_true_iff _]%andb_true_iff. by apply py_lstrip_visible. }
  assert (all_chars (λ c, negb (py_isspace c)) (string_rev s) = true) as Hr.
  { unfold all_chars, string_rev in *. rewrite String.list_ascii_of_string_of_list_ascii. rewrite forallb_forall in *.
    intros c Hc. apply Hs. apply list_elem_of_In. apply list_elem_of_In in Hc. by apply elem_of_reverse. }
  by rewrite (Hl s Hs), (Hl _ Hr), string_rev_involutive.
Qed.

Definition digits (s : string) : bool := all_chars (λ c, bool_decide (is_Some (digit_of c))) s.
Lemma digits_visible s : digits s = true → all_chars (λ c, negb (py_isspace c)) s = true.
Proof.
  unfold digits, all_chars. rewrite !forallb_forall. intros H c Hc. specialize (H c Hc). revert H.
  destruct c as [[] [] [] [] [] [] [] []]; vm_compute; congruence.
Qed.
Lemma pretty_digits (x : N) s : digits s = true → digits (pretty_N_go x s) = true.
Proof.
  revert s. induction (N.lt_wf_0 x) as [x _ IH]; intros s Hs. destruct (decide (x = 0)%N) as [->|Hx]; [by rewrite pretty_N_go_0|].
  rewrite pretty_N_go_step by lia. apply IH; [apply N.div_lt; lia|]. unfold digits, all_chars in *. cbn. rewrite Hs, andb_true_r.
  rewrite digit_of_char by by apply N.mod_lt. by apply bool_decide_true.
Qed.
Lemma int_body_pretty (x : N) s :
  ∃ k, ((x ≠ 0)%N → k ≠ O) ∧ ∀ a b, int_body a b (pretty_N_go x s) = int_body (a * 10 ^ Z.of_nat k + Z.of_N x) (b || negb (Nat.eqb k 0)) s.
Proof.
  revert s. induction (N.lt_wf_0 x) as [x _ IH]; intros s. destruct (decide (x = 0)%N) as [->|Hx].
  { exists O. split; [done|]. intros a b. rewrite pretty_N_go_0, orb_false_r. f_equal. lia. }
  rewrite pretty_N_go_step by lia.
  destruct (IH (x `div` 10)%N ltac:(apply N.div_lt; lia) (String (pretty_N_char (x `mod` 10)) s)) as (k & _ & Hk).
  exists (S k). split; [done|]. intros a b. rewrite Hk. cbn [int_body]. rewrite digit_of_char by by apply N.mod_lt.
  cbn [Nat.eqb negb]. rewrite orb_true_r. f_equal. rewrite Nat2Z.inj_succ, Z.pow_succ_r by lia.
  pose proof (N.div_mod x 10 ltac:(done)). lia.
Qed.
Lemma int_of_str_N (p : positive) : int_body 0 false (pretty (Npos p)) = Some (Zpos p) ∧ digits (pretty (Npos p)) = true.
Proof.
  unfold pretty, pretty_N. rewrite decide_False by done. split; [|by apply pretty_digits].
  destruct (int_body_pretty (Npos p) "") as (k & Hk & Hb). rewrite Hb. destruct k as [|k]; [by destruct Hk|]. done.
Qed.
(** [int(str(z)) == z] *)
Lemma int_of_str_int z : int_of_str (py_str_int z) = Some z.
Proof.
  unfold int_of_str, py_str_int. destruct z as [|p|p]; [done|..]; destruct (int_of_str_N p) as [Hb Hd].
  - change (pretty (Z.pos p)) with (pretty (N.pos p)). rewrite py_strip_visible by by apply digits_visible.
    assert (split_sign (pretty (N.pos p)) = (1, pretty (N.pos p))) as ->; [|by rewrite Hb].
    revert Hd. unfold digits, all_chars. destruct (pretty (N.pos p)) as [|c t]; [done|]. cbn. intros [Hc%bool_decide_eq_true _]%andb_true_iff.
    destruct c as [[] [] [] [] [] [] [] []]; try done; exfalso; destruct Hc as [d Hc]; vm_compute in Hc; congruence.
  - change (pretty (Z.neg p)) with (String "-" (pretty (N.pos p))). rewrite py_strip_visible.
    { cbn [split_sign]. rewrite Hb. done. }
    unfold all_chars. cbn. by apply digits_visible.
Qed.

(** A base URL has a scheme and does not end with a slash. *)
Lemma rstrip_slash_idem s : rstrip_slash (rstrip_slash s) = rstrip_slash s.
Proof.
  induction s as [|c s IH]; [done|]. cbn [rstrip_slash]. destruct (rstrip_slash s) as [|d t] eqn:E.
  - case_decide as Hc; [done|]. cbn [rstrip_slash]. by rewrite decide_False.
  - cbn [rstrip_slash] in IH |- *. by rewrite IH.
Qed.

(** ** A command and the node it talks to *)
Section node_server.
Context `{FloatFormat} (env : ApiEnv).
(** The path and the query of a URL, as the HTTP client sends them. *)
Context (url_target : string → option (string * odict string)).

Definition request_of (c : HttpCall) (path : string) (query : odict string) : Request :=
  match c with
  | GetJson _ => mkRequest "GET" path [("Accept", "*/*")] [] query []
  | PostJson _ v => mkRequest "POST" path [("Accept", "*/*"); ("Content-Type", "application/json")] [] query (utf8_encode (json_dumps v))
  end.
Definition call_url (c : HttpCall) : string := match c with GetJson u => u | PostJson u _ => u end.
(** The API of a node as the server of the commands. *)
Definition api_server : Server Node := λ c n,
  match url_target (call_url c) with
  | None => (n, Err (OtherError "InvalidURL"))
  | Some (path, query) =>
      let '(n, r) := handle_request env (request_of c path query) n in
      (n, Ok (rs_status r, if decide (rs_text r = "")
                           then match json_loads (utf8_encode (json_dumps (rs_body r))) with Ok v => Some v | Err _ => None end
                           else None))
  end.

Definition command_paths : list string := ["/event/emit"; "/peers/register"; "/peers"; "/metrics"; "/status"; "/dag"; "/checkpoint/propose"].
(** The URLs of the commands below [base] lead to the node. *)
Record reaches (base : string) : Prop := {
  reaches_path path : path ∈ command_paths → url_target (base +:+ path) = Some (path, []);
  reaches_verify z : url_target (base +:+ "/checkpoint/verify?round_received=" +:+ py_str_int z) =
    Some ("/checkpoint/verify", [("round_received", py_str_int z)]);
  reaches_list qs : ∃ query, url_target (base +:+ "/checkpoint/list?" +:+ qs) = Some ("/checkpoint/list", query) }.

(** The requests of the commands carry no cookie. *)
Lemma request_session c path query n : session_of (ae_now env) (request_of c path query) n = (n_sessions n, None).
Proof. by destruct c. Qed.
Lemma no_session_run c path query n : resolve_session (ae_now env) (request_of c path query) n = (n, Ok None).
Proof. rewrite resolve_session_run. unfold drop_expired. rewrite request_session. cbn [fst snd]. by rewrite same_sessions. Qed.
Lemma handle_no_users c path query n : users_count (n_db n) = 0%nat →
  let rq := request_of c path query in
  handle_request env rq n = run_handler (find_handler env (cfg_ui_enabled (n_config n)) rq) rq n.
Proof.
  intros Hu rq. destruct (decide (rq_path rq ∈ AUTH_PUBLIC_PATHS)) as [|Hp]; [by apply handle_public|].
  unfold handle_request, run_handler, session_auth. rewrite decide_False by done.
  rewrite (bind_run _ _ n n n eq_refl), Hu. cbn [Nat.eqb]. unfold hmac_auth.
  rewrite (bind_run _ _ n n n eq_refl). case_decide; [done|]. rewrite decide_False by done.
  rewrite (bind_run _ _ _ _ _ (no_session_run c path query n)). rewrite bool_decide_false by (intros Hn; by apply Hn).
  rewrite (bind_run _ _ n n n eq_refl), Hu. done.
Qed.
Lemma handle_locked c path query n : users_count (n_db n) ≠ 0%nat → path ∉ AUTH_PUBLIC_PATHS →
  handle_request env (request_of c path query) n = (n, http_error 401 "login required").
Proof.
  intros Hu Hp. unfold handle_request, session_auth. rewrite decide_False by by destruct c.
  rewrite (bind_run _ _ n n n eq_refl). destruct (Nat.eqb_spec (users_count (n_db n)) 0) as [|_]; [done|].
  rewrite (bind_run _ _ _ _ _ (no_session_run c path query n)). by destruct c.
Qed.
Lemma http_call_locked c path query n : users_count (n_db n) ≠ 0%nat → path ∉ AUTH_PUBLIC_PATHS →
  url_target (call_url c) = Some (path, query) → http_call api_server c n = (n, ([], inr (Raised (OtherError "ClientResponseError")))).
Proof. intros Hu Hp Ht. unfold http_call, api_server. by rewrite Ht, handle_locked. Qed.

Lemma cli_bind_raised {S X Y} (m : Cli S X) (f : X → Cli S Y) s s' e :
  m s = (s', ([], inr e)) → (x ← m; f x) s = (s', ([], inr e)).
Proof. intros Hm. unfold mbind, cli_bind. by rewrite Hm. Qed.
Lemma cli_bind_run {S X Y} (m : Cli S X) (f : X → Cli S Y) s s' x :
  m s = (s', ([], inl x)) → (x ← m; f x) s = f x s'.
Proof. intros Hm. unfold mbind, cli_bind. rewrite Hm. by destruct (f x s') as [? [? ?]]. Qed.

(** The commands that work without a session once the node has users. *)
Definition answered (c : ApiCommand) : bool :=
  match c with
  | CStatus | CCheckpointPropose _ => true
  | CMetricsWatch count interrupted => Nat.eqb (match count with Some k => Z.to_nat k | None => interrupted end) 0
  | _ => false
  end.

Lemma locked_call base n : reaches base → users_count (n_db n) ≠ 0%nat →
  (∀ X path k (f : json → Cli Node X), bool_decide (path ∈ command_paths ∧ path ∉ AUTH_PUBLIC_PATHS) = true → call_url k = base +:+ path →
     ∃ e, (v ← http_call api_server k; f v) n = (n, ([], inr (Raised e)))) ∧
  (∀ X qs (f : json → Cli Node X), ∃ e, (v ← get_json api_server (base +:+ "/checkpoint/list?" +:+ qs); f v) n = (n, ([], inr (Raised e)))) ∧
  (∀ X z (f : json → Cli Node X), ∃ e, (v ← get_json api_server (base +:+ "/checkpoint/verify?round_received=" +:+ py_str_int z); f v) n =
     (n, ([], inr (Raised e)))).
Proof.
  intros Hr Hu. split; [|split].
  - intros X path k f [Hin Hp]%bool_decide_eq_true Hk. eexists. apply cli_bind_raised.
    apply (http_call_locked k path [] n Hu Hp). by rewrite Hk, (reaches_path _ Hr _ Hin).
  - intros X qs f. destruct (reaches_list _ Hr qs) as [query Hq]. eexists. apply cli_bind_raised.
    apply (http_call_locked (GetJson _) "/checkpoint/list" query n Hu); [by apply (bool_decide_unpack _)|done].
  - intros X z f. eexists. apply cli_bind_raised. eapply (http_call_locked (GetJson _) "/checkpoint/verify" _ n Hu);
      [by apply (bool_decide_unpack _)|apply (reaches_verify _ Hr)].
Qed.

(** C19: as soon as one user exists on the node, every command that asks it, other than
    [status] and [checkpoint propose], fails: it prints nothing, ends with an
    exception (exit status 1) and leaves the node as it was.  The commands have no way
    to log in. *)
Theorem commands_locked_out (listen : string) (api : option string) (c : ApiCommand) (n : Node) :
  reaches (base_url listen api) → users_count (n_db n) ≠ 0%nat → answered c = false →
  ∃ e, run_command api_server listen c api n = (n, ([], inr (Raised e))) ∧ exit_status (inr (Raised e) : unit + Ending) = 1.
Proof.
  intros Hr Hu Ha. enough (∃ e, run_command api_server listen c api n = (n, ([], inr (Raised e)))) as [e He] by by exists e.
  destruct (locked_call (base_url listen api) n Hr Hu) as (Hcall & Hlist & Hverify).
  destruct c as [cls [text|]|addr| | | | |count interrupted|r|status limit|r]; try done; cbn [run_command].
  - unfold cli_emit. destruct (json_parse text) as [v|].
    + rewrite (cli_bind_run _ _ n n v eq_refl). eapply Hcall; [|reflexivity]; reflexivity.
    + by eexists.
  - unfold cli_emit. rewrite (cli_bind_run _ _ n n (JObj []) eq_refl). eapply Hcall; [|reflexivity]; reflexivity.
  - eapply Hcall; [|reflexivity]; reflexivity.
  - eapply Hcall; [|reflexivity]; reflexivity.
  - eapply Hcall; [|reflexivity]; reflexivity.
  - eapply Hcall; [|reflexivity]; reflexivity.
  - unfold metrics_watch. cbn [answered] in Ha. destruct (match count with Some k => Z.to_nat k | None => interrupted end); [done|].
    cbn [watch_loop]. eapply Hcall; [|reflexivity]; reflexivity.
  - apply Hlist.
  - apply Hverify.
Qed.

(** ** A node without users *)

(** The client's side of a response. *)
Definition answer_of (r : Response) : json + Ending :=
  if 400 <=? rs_status r then inr (Raised (OtherError "ClientResponseError"))
  else if decide (rs_text r = "")
       then match json_loads (utf8_encode (json_dumps (rs_body r))) with Ok v => inl v | Err _ => inr (Raised (OtherError "ContentTypeError")) end
       else inr (Raised (OtherError "ContentTypeError")).
Lemma http_call_open c path query n : users_count (n_db n) = 0%nat → url_target (call_url c) = Some (path, query) →
  let rq := request_of c path query in
  let r := run_handler (find_handler env (cfg_ui_enabled (n_config n)) rq) rq n in
  http_call api_server c n = (r.1, ([], answer_of r.2)).
Proof.
  intros Hu Ht rq r. unfold http_call, api_server. rewrite Ht, (handle_no_users c path query n Hu). fold rq. fold r.
  destruct r as [n' r]. unfold answer_of. cbn [fst snd]. destruct (400 <=? rs_status r); [done|].
  case_decide; [|done]. by destruct (json_loads _).
Qed.
Lemma answer_json v : json_ok v → answer_of (json_response v) = inl v.
Proof. intros Hv. unfold answer_of, json_response. cbn [rs_status rs_text rs_body]. by rewrite decide_True, json_loads_dumps. Qed.

Lemma answer_uncaught e : answer_of (uncaught e) = inr (Raised (OtherError "ClientResponseError")).
Proof. unfold uncaught. by destruct (leaves_model e). Qed.

Lemma report_json_ok r : json_ok (report_to_dict r).
Proof.
  destruct r as [m l c z t notes]. apply json_check_ok. unfold report_to_dict. cbn [json_check foldr dkeys vr_notes].
  assert (foldr (λ x b, json_check x && b) true (JStr <$> notes) = true) as Hn by by induction notes.
  cbn [snd json_check]. rewrite Hn. apply andb_true_iff. split; [|done]. vm_compute. reflexivity.
Qed.

Definition verify_checkpoint_spec (z : Z) (n : Node) (r : Node * result CheckpointVerificationReport) : Prop :=
  match get_checkpoint z (n_db n) with
  | None => r = (n, Err (KeyError "no checkpoint"))
  | Some c =>
      match events_up_to_round_received z (n_db n) with
      | Err e => r = (n, Err e)
      | Ok events => ∃ report, r.2 = Ok report ∧ r.1 = set_n_tamper_evidence (vr_has_tamper_evidence report) n ∧
          vr_has_tamper_evidence report = is_confirmed c && bool_decide (events = [] ∨ compute_merkle_root events ≠ cp_merkle_root c)
      end
  end.
Lemma verify_outcome z n : verify_checkpoint_spec z n (verify_checkpoint z n).
Proof.
  unfold verify_checkpoint_spec, verify_checkpoint, get_node, lift, modify, mbind, nodem_bind.
  destruct (get_checkpoint z (n_db n)) as [c|]; [|done]. destruct (events_up_to_round_received z (n_db n)) as [events|e]; [|done].
  eexists. split; [reflexivity|]. split; [reflexivity|]. cbn [vr_has_tamper_evidence]. rewrite andb_comm. f_equal.
  destruct (decide (events = [])) as [->|He]; [reflexivity|]. rewrite (bool_decide_false (events = [])) by done.
  rewrite (bool_decide_true (_ ≠ "")) by apply root_nonempty. cbn [andb]. rewrite <- bool_decide_not. apply bool_decide_ext. tauto.
Qed.
(** The outcome of the verification, as the exit status. *)
Lemma checkpoint_verify_run listen api z n : reaches (base_url listen api) → users_count (n_db n) = 0%nat →
  let r := checkpoint_verify api_server listen z api n in
  let v := verify_checkpoint z n in
  r.1 = v.1 ∧ exit_status r.2.2 = match v.2 with Ok report => if vr_has_tamper_evidence report then 2 else 0 | Err _ => 1 end.
Proof.
  intros Hr Hu. cbv zeta. unfold checkpoint_verify, get_json.
  assert (http_call api_server (GetJson (base_url listen api +:+ "/checkpoint/verify?round_received=" +:+ py_str_int z)) n =
    ((verify_checkpoint z n).1, ([], match (verify_checkpoint z n).2 with
       | Ok report => inl (report_to_dict report) | Err _ => inr (Raised (OtherError "ClientResponseError")) end))) as Hcall.
  { rewrite (http_call_open (GetJson _) "/checkpoint/verify" _ n Hu (reaches_verify _ Hr z)).
    change (find_handler env _ _) with handle_checkpoint_verify. unfold run_handler, handle_checkpoint_verify.
    change (default "" (dget (rq_query _) "round_received")) with (py_str_int z). rewrite int_of_str_int.
    unfold catch_http, mbind, nodem_bind. destruct (verify_checkpoint z n) as [n' [report|e]]; cbn [fst snd].
    - by rewrite <- (answer_json (report_to_dict report) (report_json_ok report)).
    - by destruct e. }
  unfold mbind, cli_bind. rewrite Hcall. destruct (verify_checkpoint z n) as [n' [report|e]]; [|done].
  cbn [fst snd]. destruct report as [m l c z' t notes]. by destruct t.
Qed.

(** C16: on a node without users, [checkpoint verify] exits with 2 exactly when the node
    has a confirmed checkpoint of that round whose root is not the root of the events
    it stores up to the round; the alarm of the node is then set.  It exits with 0
    exactly when there is a checkpoint and the events can be read otherwise. *)
Theorem tampering_exit_status (listen : string) (api : option string) (z : Z) (n : Node) :
  reaches (base_url listen api) → users_count (n_db n) = 0%nat →
  let r := checkpoint_verify api_server listen z api n in
  let status := exit_status r.2.2 in
  (status = 2 ↔ ∃ c events, get_checkpoint z (n_db n) = Some c ∧ is_confirmed c = true ∧
     events_up_to_round_received z (n_db n) = Ok events ∧ (events = [] ∨ compute_merkle_root events ≠ cp_merkle_root c)) ∧
  (status = 2 → n_tamper_evidence r.1 = true) ∧ n_db r.1 = n_db n ∧
  (status = 1 ↔ get_checkpoint z (n_db n) = None ∨ ∃ e, events_up_to_round_received z (n_db n) = Err e) ∧
  (status = 0 ∨ status = 1 ∨ status = 2).
Proof.
  intros Hr Hu r status. destruct (checkpoint_verify_run listen api z n Hr Hu) as [Hn Hs]. fold r in Hn, Hs. fold status in Hs.
  clearbody status. clearbody r. clear Hr Hu. pose proof (verify_outcome z n) as Hv. unfold verify_checkpoint_spec in Hv.
  destruct (get_checkpoint z (n_db n)) as [c|].
  - destruct (events_up_to_round_received z (n_db n)) as [events|e].
    + destruct Hv as (rep & Hv2 & Hv1 & Ht). rewrite Hv2, Ht in Hs. rewrite Hv1, Ht in Hn. rewrite Hn, Hs.
      cbn [n_db set_n_tamper_evidence n_tamper_evidence].
      clear -c events. destruct (is_confirmed c) eqn:Hc; [case_bool_decide as Hd|]; cbn [andb]; [naive_solver..|].
      split; [split; [done|intros (? & ? & [= <-] & ? & _); congruence]|]. split; [done|]. split; [done|]. split; [naive_solver|by left].
    + rewrite Hv in Hn, Hs. cbn [fst snd] in Hn, Hs. rewrite Hn, Hs. clear. naive_solver.
  - rewrite Hv in Hn, Hs. cbn [fst snd] in Hn, Hs. rewrite Hn, Hs. clear. naive_solver.
Qed.

(** What the shell and the node see of an emission. *)
Definition emission_seen (v : Node * result EventEmission) (r : Node * (list Output * (unit + Ending))) : Prop :=
  r.1 = v.1 ∧
  match v.2 with
  | Ok em => json_ok (emission_json em) → r.2 = ([Json (emission_json em)], inl tt)
  | Err _ => r.2 = ([], inr (Raised (OtherError "ClientResponseError")))
  end.

Lemma cli_emit_call listen cls text api n d (m : NodeM EventEmission) : reaches (base_url listen api) → users_count (n_db n) = 0%nat →
  json_parse text = Some (JObj d) → json_ok (JObj d) →
  handle_emit_local env (request_of (PostJson "" (JObj [("cls", JStr (EventClass_value cls)); ("payload", JObj d)])) "/event/emit" []) n =
    (em ← m; mret (json_response (emission_json em))) n →
  emission_seen (m n) (cli_emit api_server listen cls (Some text) api n).
Proof.
  intros Hr Hu Hp Hok Hm. unfold cli_emit. rewrite Hp. rewrite (cli_bind_run _ _ n n (JObj d) eq_refl).
  set (body := JObj [("cls", _); ("payload", JObj d)]) in *. unfold post_json.
  pose proof (http_call_open (PostJson (base_url listen api +:+ "/event/emit") body) "/event/emit" [] n Hu) as Hcall.
  cbn [call_url] in Hcall. rewrite (reaches_path _ Hr "/event/emit") in Hcall by by left. specialize (Hcall eq_refl). cbv zeta in Hcall.
  change (find_handler env _ _) with (handle_emit_local env) in Hcall. unfold run_handler in Hcall.
  change (request_of (PostJson (base_url listen api +:+ "/event/emit") body) "/event/emit" []) with
    (request_of (PostJson "" body) "/event/emit" []) in Hcall. rewrite Hm in Hcall.
  unfold emission_seen, mbind, cli_bind. rewrite Hcall. unfold mbind, nodem_bind. destruct (m n) as [n' [em|e]]; cbn [fst snd]; [|by rewrite answer_uncaught].
  change ((mret (json_response (emission_json em)) : NodeM Response) n') with ((n', Ok (json_response (emission_json em))) : Node * result Response).
  cbv beta iota. cbn [fst snd].
  destruct (answer_of (json_response (emission_json em))) as [v|e] eqn:Ha; (split; [done|]); intros Hj; rewrite answer_json in Ha by done; [|done].
  by injection Ha as <-.
Qed.

(** On a node without users, [emit] is [Node.emit_event]: with the class of the
    option when the payload names no event kind, and with the class the catalog gives
    the kind, whatever the option says, when it names one the catalog knows.  The
    command prints the recorded event; when the node fails to record it, the command
    ends with an exception. *)
Theorem emit_command_emits (listen : string) (api : option string) (cls : EventClass) (text : string) (d : odict json) (n : Node) :
  reaches (base_url listen api) → users_count (n_db n) = 0%nat → json_parse text = Some (JObj d) → json_ok (JObj d) →
  let r := cli_emit api_server listen cls (Some text) api n in
  (py_bool (jget d "event_kind") = false → emission_seen (emit_event (ae_world env) cls d n) r) ∧
  (∀ kind event_cls, jget d "event_kind" = JStr kind → kind ≠ "" → is_known_event_kind kind (n_catalog n) = true →
     event_class_for kind (n_catalog n) = Ok event_cls →
     emission_seen (emit_event (ae_world env) event_cls (dset d "event_kind" (JStr kind)) n) r).
Proof.
  intros Hr Hu Hp Hok r.
  set (rq := request_of (PostJson "" (JObj [("cls", JStr (EventClass_value cls)); ("payload", JObj d)])) "/event/emit" []).
  assert (request_dict rq n = (n, Ok [("cls", JStr (EventClass_value cls)); ("payload", JObj d)])) as Hrd.
  { unfold request_dict, request_json. cbn [rq_body rq request_of]. rewrite json_loads_dumps; [done|].
    cbn [json_ok foldr snd]. split; [apply (bool_decide_unpack _); vm_compute; exact I|]. by split. }
  assert (py_or (JObj d) (JObj []) = JObj d) as Hor by (unfold py_or; by destruct d).
  split.
  - intros Hk. apply (cli_emit_call listen cls text api n d (emit_event (ae_world env) cls d)); [done..|]. fold rq.
    unfold handle_emit_local. rewrite (bind_run _ _ _ _ _ Hrd).
    change (jget _ "payload") with (JObj d). rewrite Hor. rewrite (bind_run _ _ n n d eq_refl). cbv zeta.
    change (py_or (jget _ "event_kind") (jget d "event_kind")) with (jget d "event_kind"). rewrite Hk.
    change (jget _ "cls") with (JStr (EventClass_value cls)).
    assert (py_bool (JStr (EventClass_value cls)) = true) as -> by by destruct cls.
    by rewrite (bind_run _ _ n n cls) by (unfold lift; by destruct cls).
  - intros kind event_cls Hk Hne Hknown Hcls.
    apply (cli_emit_call listen cls text api n d (emit_event (ae_world env) event_cls (dset d "event_kind" (JStr kind)))); [done..|]. fold rq.
    unfold handle_emit_local. rewrite (bind_run _ _ _ _ _ Hrd).
    change (jget _ "payload") with (JObj d). rewrite Hor. rewrite (bind_run _ _ n n d eq_refl). cbv zeta.
    change (py_or (jget _ "event_kind") (jget d "event_kind")) with (jget d "event_kind"). rewrite Hk.
    assert (py_bool (JStr kind) = true) as -> by by destruct kind.
    rewrite (bind_run _ _ n n n eq_refl), Hknown. by rewrite (bind_run _ _ n n event_cls) by (unfold lift; by rewrite Hcls).
Qed.
End node_server.

(** ** Users added on the database *)

(** What the shell sees of [users add]. *)
Definition user_added_text (username role : string) : string := "User " +:+ username +:+ " added/updated with role=" +:+ normalize_role role.

(** A user added by [users add] can log in to the node that opens the database: the
    name is found whatever its case and surrounding blanks, exactly the candidates with
    the derived key of the password are accepted, and the session has the normalised
    role, administrator only when asked for.  After [users remove] no candidate is
    accepted.  Other users keep their records. *)
Theorem offline_users (scrypt : bytes → bytes → Z → Z → Z → Z → result bytes) (now : Q) (salt derived : bytes)
    (prompt username role password : string) (db : DB) :
  password ≠ "" → Forall is_byte salt → Forall is_byte derived → length derived = 32%nat →
  scrypt (utf8_encode password) salt SCRYPT_N SCRYPT_R SCRYPT_P SCRYPT_KEYLEN = Ok derived →
  let r := users_add scrypt now salt prompt username role (Some password) db in
  let key s := py_lower (py_strip s) in
  r.2 = ([Text (user_added_text username role)], inl tt) ∧
  (∀ n name candidate actual, n_db n = r.1 → key name = key username →
     scrypt (utf8_encode candidate) salt SCRYPT_N SCRYPT_R SCRYPT_P SCRYPT_KEYLEN = Ok actual →
     ∃ record, us_role record = normalize_role role ∧
       authenticate scrypt name candidate n = Ok (if decide (actual = derived) then Some record else None)) ∧
  (∀ n name candidate, n_db n = (users_remove username r.1).1 → key name = key username →
     authenticate scrypt name candidate n = Ok None) ∧
  (∀ name, name ≠ key username → get_user name r.1 = get_user name db ∧
     get_user name (users_remove username r.1).1 = get_user name db).
Proof.
  intros Hp Hsalt Hder Hlen Hs r key.
  set (record := mkUser (stored_hash salt derived) (normalize_role role)
    match db_users db !! key username with Some u => us_created_at u | None => now end).
  assert (r = (set_users db (<[key username := record]> (db_users db)), ([Text (user_added_text username role)], inl tt))) as ->.
  { unfold r, users_add. cbn [default]. by rewrite (hash_password_stored _ _ _ derived). }
  cbn [fst snd]. split; [done|]. split; [|split].
  - intros n name candidate actual Hn Hk Ha. exists record. split; [done|]. unfold authenticate, get_user. fold (key name).
    rewrite Hn, Hk. cbn [db_users set_users]. rewrite lookup_insert_eq. cbn [us_password_hash record].
    rewrite (verify_stored _ _ _ actual) by done. cbn. by case_bool_decide; [rewrite decide_True|rewrite decide_False].
  - intros n name candidate Hn Hk. unfold authenticate, get_user. fold (key name). rewrite Hn, Hk.
    unfold users_remove, delete_user. cbn [fst db_users set_users]. by rewrite lookup_delete_eq.
  - intros name Hne. unfold users_remove, delete_user, get_user. cbn [fst db_users set_users].
    by rewrite lookup_delete_ne, lookup_insert_ne by done.
Qed.

(** ** The theorems on a concrete node *)

(** The split of a URL below the node's address. *)
Definition example_base : string := "http://10.0.0.1:9000".
Definition query_pair (kv : string) : option (string * string) :=
  match py_split "=" kv with [k; v] => Some (k, v) | _ => None end.
Definition example_target (u : string) : option (string * odict string) :=
  rest ← strip_prefix example_base u;
  match py_split "?" rest with
  | [path] => Some (path, [])
  | path :: query :: _ => Some (path, omap query_pair (py_split "&" query))
  | [] => None
  end.

Lemma py_split_none sep s : all_chars (λ c, negb (bool_decide (c = sep))) s = true → py_split sep s = [s].
Proof.
  induction s as [|c s IH]; [done|]. unfold all_chars. cbn [String.list_ascii_of_string forallb]. rewrite andb_true_iff, negb_true_iff.
  intros [Hc%bool_decide_eq_false Hs]. cbn [py_split]. by rewrite decide_False, (IH Hs).
Qed.
Lemma int_text_chars sep z : digit_of sep = None → sep ≠ "-"%char → all_chars (λ c, negb (bool_decide (c = sep))) (py_str_int z) = true.
Proof.
  intros Hs Hm.
  assert (∀ s, digits s = true → all_chars (λ c, negb (bool_decide (c = sep))) s = true) as Hd.
  { intros s. unfold digits, all_chars. rewrite !forallb_forall. intros Hf c Hc. apply negb_true_iff, bool_decide_eq_false. intros ->.
    apply Hf, bool_decide_eq_true in Hc. rewrite Hs in Hc. by destruct Hc. }
  unfold py_str_int. destruct z as [|p|p]; [by apply Hd| |]; destruct (int_of_str_N p) as [_ Hp]; [by apply Hd|].
  change (pretty (Z.neg p)) with (String "-" (pretty (N.pos p))). unfold all_chars. cbn. rewrite andb_true_iff. split; [|by apply Hd].
  apply negb_true_iff, bool_decide_eq_false. congruence.
Qed.
Lemma example_reaches : reaches example_target (base_url "10.0.0.1:9000" None).
Proof.
  constructor.
  - intros path Hin. unfold command_paths in Hin. repeat (apply elem_of_cons in Hin as [->|Hin]; [reflexivity|]). by apply elem_of_nil in Hin.
  - intros z. unfold example_target. change (strip_prefix example_base _) with (Some ("/checkpoint/verify" +:+ String "?" ("round_received" +:+ String "=" (py_str_int z)))).
    cbn [mbind option_bind]. rewrite py_split_app. change (py_split "?" "/checkpoint/verify") with ["/checkpoint/verify"].
    rewrite (py_split_none "?") by (rewrite all_chars_app; apply andb_true_iff; split; [reflexivity|exact (int_text_chars "?" z eq_refl ltac:(done))]).
    cbn [app]. rewrite (py_split_none "&") by (rewrite all_chars_app; apply andb_true_iff; split; [reflexivity|exact (int_text_chars "&" z eq_refl ltac:(done))]).
    unfold omap, list_omap, query_pair. rewrite py_split_app. change (py_split "=" "round_received") with ["round_received"].
    by rewrite (py_split_none "=") by (exact (int_text_chars "=" z eq_refl ltac:(done))).
  - intros qs. unfold example_target. change (strip_prefix example_base _) with (Some ("/checkpoint/list" +:+ String "?" qs)).
    cbn [mbind option_bind]. rewrite py_split_app. change (py_split "?" "/checkpoint/list") with ["/checkpoint/list"].
    destruct (py_split "?" qs) as [|q rest]; cbn [app]; by eexists.
Qed.

#[local] Existing Instance decimal_format.
#[local] Abbreviation node_at := (api_server sample_env example_target).

(** A node whose confirmed checkpoint covers a row that was then changed on disk. *)
Definition forge_payload (r : sqlrow) : sqlrow := dset r "payload" (SJson (JObj [("a", JStr "forged"); ("k", JInt 1)])).
Definition tampered_node : Node :=
  let n := archive_node in
  set_n_db (set_graph (n_db n) (forge_payload <$> db_events (n_db n)) (db_edges (n_db n)) (db_envelopes (n_db n))) n.
#[local] Opaque archive_node tampered_node.
#[local] Abbreviation address := "10.0.0.1:9000".

Lemma tampering_exit_status_witness :
  reaches example_target (base_url address None) ∧ users_count (n_db tampered_node) = 0%nat ∧
  let r := checkpoint_verify node_at address 1 None tampered_node in
  let status := exit_status r.2.2 in
  (status = 2 ↔ ∃ c events, get_checkpoint 1 (n_db tampered_node) = Some c ∧ is_confirmed c = true ∧
     events_up_to_round_received 1 (n_db tampered_node) = Ok events ∧ (events = [] ∨ compute_merkle_root events ≠ cp_merkle_root c)) ∧
  (status = 2 → n_tamper_evidence r.1 = true) ∧ n_db r.1 = n_db tampered_node ∧
  (status = 1 ↔ get_checkpoint 1 (n_db tampered_node) = None ∨ ∃ e, events_up_to_round_received 1 (n_db tampered_node) = Err e) ∧
  (status = 0 ∨ status = 1 ∨ status = 2).
Proof.
  split; [exact example_reaches|]. assert (users_count (n_db tampered_node) = 0%nat) as Hu by (vm_compute; reflexivity).
  split; [exact Hu|]. exact (tampering_exit_status sample_env example_target address None 1 tampered_node example_reaches Hu).
Defined.
(** The three exit statuses occur. *)
Example verify_statuses :
  exit_status (checkpoint_verify node_at address 1 None tampered_node).2.2 = 2 ∧
  exit_status (checkpoint_verify node_at address 1 None archive_node).2.2 = 0 ∧
  exit_status (checkpoint_verify node_at address 7 None archive_node).2.2 = 1.
Proof. vm_compute. done. Qed.

Lemma commands_locked_out_witness :
  reaches example_target (base_url address None) ∧ users_count (n_db secured_peer) ≠ 0%nat ∧
  answered (CCheckpointVerify 1) = false ∧
  ∃ e, run_command node_at address (CCheckpointVerify 1) None secured_peer = (secured_peer, ([], inr (Raised e))) ∧
    exit_status (inr (Raised e) : unit + Ending) = 1.
Proof.
  split; [exact example_reaches|]. assert (users_count (n_db secured_peer) ≠ 0%nat) as Hu by (vm_compute; discriminate).
  split; [exact Hu|]. split; [reflexivity|].
  exact (commands_locked_out sample_env example_target address None (CCheckpointVerify 1) secured_peer example_reaches Hu eq_refl).
Defined.

Definition alert_text : string :=
  json_dumps (JObj [("action", JStr "alert"); ("severity", JStr "high")]).
Lemma emit_command_emits_witness :
  let d := [("action", JStr "alert"); ("severity", JStr "high")] in
  let r := cli_emit node_at address B (Some alert_text) None running_node in
  reaches example_target (base_url address None) ∧ users_count (n_db running_node) = 0%nat ∧
  json_parse alert_text = Some (JObj d) ∧ json_ok (JObj d) ∧
  (py_bool (jget d "event_kind") = false → emission_seen (emit_event (ae_world sample_env) B d running_node) r) ∧
  (∀ kind event_cls, jget d "event_kind" = JStr kind → kind ≠ "" → is_known_event_kind kind (n_catalog running_node) = true →
     event_class_for kind (n_catalog running_node) = Ok event_cls →
     emission_seen (emit_event (ae_world sample_env) event_cls (dset d "event_kind" (JStr kind)) running_node) r).
Proof.
  intros d r. split; [exact example_reaches|].
  assert (users_count (n_db running_node) = 0%nat) as Hu by (vm_compute; reflexivity).
  assert (json_parse alert_text = Some (JObj d)) as Hp by (vm_compute; reflexivity).
  assert (json_ok (JObj d)) as Hok by (apply json_check_ok; vm_compute; reflexivity).
  split; [exact Hu|]. split; [exact Hp|]. split; [exact Hok|].
  exact (emit_command_emits sample_env example_target address None B alert_text d running_node example_reaches Hu Hp Hok).
Defined.

Lemma offline_users_witness :
  let salt := [1; 2; 3; 200] in let derived := sha256 (salt ++ utf8_encode "secret") in
  let r := users_add sample_scrypt 1 salt "" " Alice " "admin" (Some "secret") empty_db in
  let key s := py_lower (py_strip s) in
  r.2 = ([Text (user_added_text " Alice " "admin")], inl tt) ∧
  (∀ n name candidate actual, n_db n = r.1 → key name = key " Alice " →
     sample_scrypt (utf8_encode candidate) salt SCRYPT_N SCRYPT_R SCRYPT_P SCRYPT_KEYLEN = Ok actual →
     ∃ record, us_role record = normalize_role "admin" ∧
       authenticate sample_scrypt name candidate n = Ok (if decide (actual = derived) then Some record else None)) ∧
  (∀ n name candidate, n_db n = (users_remove " Alice " r.1).1 → key name = key " Alice " →
     authenticate sample_scrypt name candidate n = Ok None) ∧
  (∀ name, name ≠ key " Alice " → get_user name r.1 = get_user name empty_db ∧
     get_user name (users_remove " Alice " r.1).1 = get_user name empty_db).
Proof.
  intros salt derived. assert (Forall is_byte salt) as H1 by (apply is_bytes_spec; reflexivity).
  assert (Forall is_byte derived) as H2 by (apply is_bytes_spec; vm_compute; reflexivity).
  refine (offline_users sample_scrypt 1 salt derived "" " Alice " "admin" "secret" empty_db _ H1 H2 _ _); [discriminate|vm_compute; reflexivity..].
Defined.

(** [users remove] works on the database only: the sessions of a running node live on,
    so a removed administrator keeps the rights until the session expires. *)
Example removed_user_keeps_session :
  let n := with_user "second" secured_peer in
  let login := post "/auth/login" [] (JObj [("username", JStr "root"); ("password", JStr "pw")]) in
  let n := (handle_request sample_env login n).1 in
  let n := set_n_db (users_remove "root" (n_db n)).1 n in
  get_user "root" (n_db n) = None ∧
  rs_status (handle_request sample_env (mkRequest "GET" "/users" [] [(SESSION_COOKIE_NAME, "t")] [] []) n).2 = 200.
Proof. vm_compute. done. Qed.
